(* ===== verification/_CoqProject ===== *)
-Q . S2P
Prelude.v
GF256.v
GaussJordan.v
Cauchy.v
FecFrame.v
FecCodec.v
FecRecovery.v
FecInvariants.v
Cxx.v
DedupSet.v
ThreadSafeQueue.v
Utils.v
Packet.v
Logger.v
MeshRouter.v
RouterTable.v
RouterAdvert.v
RouterInvariants.v
RouterNames.v
RouterForward.v
RouterDedup.v
RouterNetwork.v
UdpTransport.v
Session.v
Stream.v
AsyncWriter.v
RequestTracker.v
Crypto.v
Identity.v
Graph.v
RpcConnection.v
RpcCalls.v
RpcManager.v
RpcRegistry.v
MeshNode.v
NodeCorrect.v
NodeLogic.v
NodeRecursion.v
NodeOutput.v
NodeRate.v
Link.v
Relay.v
Mesh.v
Flood.v
NodeRequest.v
NodeMesh.v
NodeRouter.v
NodeApi.v
NodeConnect.v
Main.v
