(* ===== verification/Prelude.v ===== *)
(** * MeshNetwork: a verification development

    ** The program

    MeshNetwork (src/) is a C++23 library for peer-to-peer mesh networks.  A
    [MeshNode] (src/src/mesh/node) sends and answers messages; it owns a
    [MeshRouter] (routing), a distance-vector router that runs on its own event
    queue; an [RpcManager] (rpc) that keeps one [RpcConnection] per neighbour,
    each over a [GenericSession] (net) on TCP or TLS, and a [UdpTransport]
    (net/udp) that protects datagrams with the erasure code [FecCodec]; an
    [IdentityManager] and a [PacketSecurity] (crypto) for end-to-end encryption
    over OpenSSL; and an [AsyncRequestTracker] (utils) for requests in flight.
    Data flows up from the manager to the router through the interface
    IMessageSink and down through ITransportLayer; the router hands packets for
    the node to the node's callback.

    ** How it is modelled

    Pure code is Gallina functions; an object is a Record of its members and an
    operation a function from the old object to the new one and to what it sends
    or calls; a lambda given to the I/O runtime is a function of its own, and a
    relation [step] interleaves such handlers where several threads or handlers
    share an object.  Exceptions and [std::expected] are values of [outcome] or
    [option].  Unsigned arithmetic wraps ([u8], [u16], [u32]).  What is not under
    src/ is a parameter: the protobuf runtime (class [Wire] with [WireLaws] in
    Packet.v), the order of iteration of [std::unordered_map] (class [IterOrder]
    with [IterOrderLaws] in Cxx.v), OpenSSL (class [OpenSSL] with [OpenSSLLaws] in
    Crypto.v), the sockets of boost::asio (class [Asio] with [AsioLaws] in
    Stream.v), the JSON library of the log (class [Json] with [JsonLaws] in
    Logger.v), the YAML library and the files of a Boost SSL context (classes
    [Yaml] and [TlsFiles] in Main.v), the contents of the files, the UDP ports that
    can be bound, the clock, the UUIDs and the random bytes (functions).  Each class a theorem uses has a concrete instance, used by the
    witnesses.  What the components promise each other is a class too: the nodes
    rely on [ReliableLinks] (Link.v), which the sessions and managers discharge;
    a session relies on [StreamLayer] and [StreamLaws] (Stream.v), which the TCP
    and the TLS stream discharge; the router relies on [CallbackSends]
    (RouterNames.v), which the node discharges.

    ** Files

    - Prelude.v: bytes, fixed-width integers, outcomes, tactics, list lemmas.
    - GF256.v: the field tables of FecCodec.cpp; [gf_mul] is polynomial
      multiplication modulo 0x11D, and the field laws hold.
    - GaussJordan.v, Cauchy.v: [gauss_decode] and the encoding matrix; every
      choice of k rows of the code is invertible.
    - FecFrame.v, FecCodec.v: frame headers, the encoder and the decoder.
    - FecRecovery.v: any k frames of a group give the payloads back; [encode] is
      total within the size limit; a whole group with m >= k is delivered twice.
    - FecInvariants.v: under arbitrary datagrams the decoder stays well-formed
      and holds at most 256 groups.
    - Cxx.v: durations and loops over unordered maps.
    - DedupSet.v: [TimedDedupSet] refines a map from values to times.
    - ThreadSafeQueue.v: the queue with its condition variable; FIFO for any
      interleaving, no lost wake-up.
    - Utils.v: [to_hex], the UUID bytes, the connect command.
    - Packet.v: the messages and their constructors (proto_types).
    - Logger.v: the log; a call throws exactly on a context that is not UTF-8.
    - MeshRouter.v: the router; RouterTable.v (the table is the cheapest routes),
      RouterAdvert.v (what is advertised, poison reverse), RouterInvariants.v
      (reachable states, expiry), RouterNames.v (names stay UTF-8, so that
      advertisements parse and the log of the table does not throw),
      RouterForward.v (forwarding of packets), RouterDedup.v (a copy is dropped for
      30 seconds, whatever happens in between),
      RouterNetwork.v (a network of routers converges to the hop distances).
    - UdpTransport.v: the transport; recovery end to end, robustness.
    - Session.v: framing and its round trip, the outbox.
    - Stream.v: the TCP and TLS streams below a session.
    - AsyncWriter.v: the write queue; order, and what a cancel does.
    - RequestTracker.v: every request is completed exactly once.
    - Crypto.v: [CryptoHelpers] and [CertHelpers] over OpenSSL.
    - Identity.v: [IdentityManager] (with read_file_to_string of utils) and
      [PacketSecurity]; encryption round trip, altered packets are refused, buffers hand out once.
    - Graph.v: the topology graph and the file it is saved to.
    - RpcConnection.v, RpcCalls.v: connections; no RPC hangs, the handshake
      agrees.
    - RpcManager.v, RpcRegistry.v: the manager; its maps, connection attempts,
      heartbeats.
    - MeshNode.v, NodeCorrect.v: the node, as a state monad that collects what it
      does; NodeLogic.v: a program logic for that monad (triples with a predicate
      on the actions); NodeRecursion.v: the recursion of its packet handler ends;
      NodeOutput.v: what a node emits is well-typed, and encrypted where it should;
      NodeRate.v: how many requests for an identity leave it.
    - Link.v: two managers joined by a stream of bytes; data arrives in order,
      complete and under the right name.  Relay.v: a packet crosses a path of
      routers.
    - Mesh.v: a network of routers with the messages under way, any of which may
      arrive next; over converged tables a packet is delivered exactly once.
      Flood.v: in such a network a broadcast reaches every node and ends.
    - NodeRequest.v: a request and its reply between two nodes over a path of
      routers, with and without encryption.  NodeMesh.v: a network of whole nodes,
      simulated by the routers of Mesh.v; over converged tables a request reaches
      the handler and its answer the callback, each exactly once.
      NodeRouter.v: the node's callback is what its router asks for, and the
      router's invariants hold in every state of the whole node.
    - NodeApi.v: the node together with its manager, and the calls that reach the
      manager; NodeConnect.v: from a finished handshake to a text on the wire.
    - Main.v: the configuration, the start and the commands of main.cpp; the
      checks of the configuration are exact.

    ** Bounds and fuel

    The loops of the source are folds over lists, except where noted.
    [RouterNetwork] runs rounds of exchange and shows that 14 are enough for
    routes below the infinity of 16.  The networks of Mesh.v, Flood.v and NodeMesh.v
    have no bound on their runs: that every run ends is part of the theorems.
    [Node.handle_incoming_packet] takes fuel for the recursion through packets that
    waited for a key, and NodeRecursion.v shows that two levels are always enough.
    [Utils.to_string] prints at most 20 digits, which holds every 64-bit integer.

    ** Not modelled

    The log calls inside the other components, and what follows if one throws
    (by Logger.v, only on a string that is not UTF-8); the text printed on the
    terminal; sockets, the acceptor and the resolver (their completions are
    steps; that a UDP datagram carries at most 65507 bytes, which the receive
    buffer of 65536 always holds, is not); TLS itself; YAML and the text Boost writes for a graph
    (parameters); code that no part of the program uses and that cannot run as it
    is written (the overload of MakeRoutingTableRoutedPacket with std::map, which
    keeps the address of a local variable; track_request and fail_request).
    Locks are taken as making their critical sections atomic.  Memory safety is
    modelled where a theorem speaks of it (out-of-bounds reads of a message id,
    [pop_front] on an empty deque). *)

From stdpp Require Export base tactics list gmap.
From stdpp Require Export strings.
From Stdlib Require Export ZArith Lia.
From Stdlib Require Import Strings.Byte.
From Stdlib Require Strings.String.
From Stdlib Require Export Init.Byte.

#[export] Set Default Goal Selector "!".

(** ** Bytes

    [std::string], [std::vector<char>] and [std::vector<uint8_t>] are all
    [list byte]; the closed type of 256 bytes needs no range side conditions. *)

Declare Scope mesh_scope.
Delimit Scope mesh_scope with mesh.

Abbreviation bytes := (list byte).

Definition b2z (b : byte) : Z := Z.of_N (Byte.to_N b).

(** [static_cast<uint8_t>]: keep the low eight bits. *)
Definition z2b (z : Z) : byte :=
  match Byte.of_N (Z.to_N (z mod 256)) with
  | Some b => b
  | None => x00
  end.

Definition b2n (b : byte) : nat := Z.to_nat (b2z b).
Definition n2b (n : nat) : byte := z2b (Z.of_nat n).

(** A C string literal as bytes. *)
Notation "'lit' s" := (String.list_byte_of_string s%string)
  (at level 10, s at level 0) : mesh_scope.

#[export] Instance byte_eq_decision : EqDecision byte.
Proof. intros a b. destruct (Byte.byte_eq_dec a b); [left|right]; done. Defined.

#[export] Instance byte_inhabited : Inhabited byte := populate x00.

Lemma byte_decode_encode (b : byte) : Byte.of_N (Byte.to_N b) = Some b.
Proof. apply Byte.of_to_N. Qed.

#[export] Instance byte_countable : Countable byte :=
  inj_countable Byte.to_N Byte.of_N byte_decode_encode.

Lemma b2z_range b : (0 <= b2z b < 256)%Z.
Proof. unfold b2z. pose proof (Byte.to_N_bounded b). lia. Qed.

Lemma b2n_range b : b2n b < 256.
Proof. unfold b2n. pose proof (b2z_range b). lia. Qed.

Lemma b2z_z2b z : b2z (z2b z) = (z mod 256)%Z.
Proof.
  unfold z2b, b2z. pose proof (Z.mod_pos_bound z 256 ltac:(lia)) as Hz.
  destruct (Byte.of_N _) as [b|] eqn:Hb.
  - apply Byte.to_of_N in Hb. rewrite Hb. lia.
  - apply Byte.of_N_None_iff in Hb. lia.
Qed.

Lemma b2z_inj a b : b2z a = b2z b -> a = b.
Proof.
  unfold b2z. intros H%N2Z.inj.
  pose proof (byte_decode_encode a) as Ha. rewrite H, byte_decode_encode in Ha. congruence.
Qed.

#[export] Instance b2z_Inj : Inj (=) (=) b2z.
Proof. exact b2z_inj. Qed.

Lemma z2b_b2z b : z2b (b2z b) = b.
Proof.
  apply b2z_inj. rewrite b2z_z2b. apply Z.mod_small, b2z_range.
Qed.

Lemma b2z_z2b_small z : (0 <= z < 256)%Z -> b2z (z2b z) = z.
Proof. intros. rewrite b2z_z2b. by apply Z.mod_small. Qed.

Lemma b2n_n2b n : n < 256 -> b2n (n2b n) = n.
Proof. intros. unfold b2n, n2b. rewrite b2z_z2b_small; lia. Qed.

Lemma n2b_b2n b : n2b (b2n b) = b.
Proof.
  unfold b2n, n2b. rewrite Z2Nat.id; [apply z2b_b2z|]. apply b2z_range.
Qed.

Lemma n2b_inj a b : a < 256 -> b < 256 -> n2b a = n2b b -> a = b.
Proof. intros Ha Hb H%(f_equal b2n). by rewrite !b2n_n2b in H by done. Qed.

Lemma z2b_mod z : z2b (z mod 256) = z2b z.
Proof. apply b2z_inj. rewrite !b2z_z2b. apply Z.mod_mod. lia. Qed.

(** ** Fixed-width unsigned integers *)

Definition u8 (z : Z) : Z := (z mod 2 ^ 8)%Z.
Definition u16 (z : Z) : Z := (z mod 2 ^ 16)%Z.
Definition u32 (z : Z) : Z := (z mod 2 ^ 32)%Z.

Lemma u16_small z : (0 <= z < 2 ^ 16)%Z -> u16 z = z.
Proof. apply Z.mod_small. Qed.

Lemma u32_small z : (0 <= z < 2 ^ 32)%Z -> u32 z = z.
Proof. apply Z.mod_small. Qed.

Lemma u32_range z : (0 <= u32 z < 2 ^ 32)%Z.
Proof. apply Z.mod_pos_bound. lia. Qed.

(** ** Big-endian fields *)

(** [static_cast<char>((z >> n) & 0xFF)] *)
Definition byte_at (z n : Z) : byte := z2b (Z.land (Z.shiftr z n) 255).

Definition be16 (b0 b1 : byte) : Z := Z.lor (Z.shiftl (b2z b0) 8) (b2z b1).

Definition be32 (b0 b1 b2 b3 : byte) : Z :=
  Z.lor (Z.lor (Z.lor (Z.shiftl (b2z b0) 24) (Z.shiftl (b2z b1) 16))
               (Z.shiftl (b2z b2) 8)) (b2z b3).

Lemma byte_at_testbit z n i :
  (0 <= n)%Z -> (0 <= i)%Z ->
  Z.testbit (b2z (byte_at z n)) i = (i <? 8)%Z && Z.testbit z (i + n).
Proof.
  intros Hn Hi. unfold byte_at. rewrite b2z_z2b.
  change 256%Z with (2 ^ 8)%Z. change 255%Z with (Z.ones 8).
  rewrite Z.land_ones, Z.mod_mod by lia.
  destruct (Z.ltb_spec i 8); simpl.
  - rewrite Z.mod_pow2_bits_low, Z.shiftr_spec by lia. done.
  - by rewrite Z.mod_pow2_bits_high by lia.
Qed.

Lemma testbit_shifted_byte z n i :
  (0 <= n)%Z -> (0 <= i)%Z ->
  Z.testbit (Z.shiftl (b2z (byte_at z n)) n) i =
  (n <=? i)%Z && (i <? n + 8)%Z && Z.testbit z i.
Proof.
  intros Hn Hi. rewrite Z.shiftl_spec by done. destruct (Z.leb_spec n i); simpl.
  - rewrite byte_at_testbit by lia. replace (i - n + n)%Z with i by lia.
    f_equal. apply eq_true_iff_eq. rewrite !Z.ltb_lt. lia.
  - by apply Z.testbit_neg_r; lia.
Qed.

Lemma testbit_high z n i : (0 <= z < 2 ^ n)%Z -> (n <= i)%Z -> Z.testbit z i = false.
Proof.
  intros Hz Hi. destruct (Z.lt_ge_cases n 0).
  - rewrite Z.pow_neg_r in Hz by lia. lia.
  - rewrite <-(Z.mod_small z (2 ^ n)) by lia. apply Z.mod_pow2_bits_high. lia.
Qed.

Lemma be16_byte_at z : (0 <= z < 2 ^ 16)%Z -> be16 (byte_at z 8) (byte_at z 0) = z.
Proof.
  intros Hz. apply Z.bits_inj'. intros i Hi. unfold be16.
  rewrite Z.lor_spec, testbit_shifted_byte, byte_at_testbit by lia. rewrite Z.add_0_r.
  destruct (Z.lt_ge_cases i 16); [|rewrite (testbit_high z 16 i) by lia; by rewrite !andb_false_r].
  destruct (Z.leb_spec 8 i), (Z.ltb_spec i (8 + 8)), (Z.ltb_spec i 8); try lia; simpl;
    by rewrite ?orb_false_r.
Qed.

Lemma be32_byte_at z :
  (0 <= z < 2 ^ 32)%Z ->
  be32 (byte_at z 24) (byte_at z 16) (byte_at z 8) (byte_at z 0) = z.
Proof.
  intros Hz. apply Z.bits_inj'. intros i Hi. unfold be32.
  rewrite !Z.lor_spec, !testbit_shifted_byte, byte_at_testbit by lia. rewrite Z.add_0_r.
  destruct (Z.lt_ge_cases i 32); [|rewrite (testbit_high z 32 i) by lia; by rewrite !andb_false_r].
  destruct (Z.leb_spec 24 i), (Z.leb_spec 16 i), (Z.leb_spec 8 i), (Z.ltb_spec i (24 + 8)),
    (Z.ltb_spec i (16 + 8)), (Z.ltb_spec i (8 + 8)), (Z.ltb_spec i 8); try lia; simpl;
    by rewrite ?orb_false_r.
Qed.

Lemma testbit_b2z_high b i : (8 <= i)%Z -> Z.testbit (b2z b) i = false.
Proof. intros. apply (testbit_high _ 8); [apply b2z_range|done]. Qed.

Lemma lor_range n a b :
  (0 <= n)%Z -> (0 <= a < 2 ^ n)%Z -> (0 <= b < 2 ^ n)%Z -> (0 <= Z.lor a b < 2 ^ n)%Z.
Proof.
  intros Hn Ha Hb. assert (0 <= Z.lor a b)%Z by (apply Z.lor_nonneg; lia).
  split; [done|]. rewrite <-(Z.mod_small a (2 ^ n)), <-(Z.mod_small b (2 ^ n)) by done.
  rewrite <-!Z.land_ones, <-Z.land_lor_distr_l, Z.land_ones by done.
  apply Z.mod_pos_bound. lia.
Qed.

Lemma shifted_byte_range b n w : (0 <= n)%Z -> (n + 8 <= w)%Z -> (0 <= Z.shiftl (b2z b) n < 2 ^ w)%Z.
Proof.
  intros Hn Hw. rewrite Z.shiftl_mul_pow2 by done. pose proof (b2z_range b).
  replace w with (w - n - 8 + 8 + n)%Z by lia. rewrite !Z.pow_add_r by lia.
  assert (0 < 2 ^ n)%Z by lia. assert (0 < 2 ^ (w - n - 8))%Z by lia.
  split; [nia|]. apply Z.mul_lt_mono_pos_r; [done|]. nia.
Qed.

Lemma be16_range b0 b1 : (0 <= be16 b0 b1 < 2 ^ 16)%Z.
Proof.
  apply lor_range; [lia|by apply shifted_byte_range|]. pose proof (b2z_range b1). lia.
Qed.

Lemma be32_range b0 b1 b2 b3 : (0 <= be32 b0 b1 b2 b3 < 2 ^ 32)%Z.
Proof.
  repeat apply lor_range; try lia; try (apply shifted_byte_range; lia).
  pose proof (b2z_range b3). lia.
Qed.

(** A byte is recovered from an integer that agrees with it on eight bits. *)
Lemma byte_at_eq z n b :
  (0 <= n)%Z -> (forall i, (0 <= i < 8)%Z -> Z.testbit z (i + n) = Z.testbit (b2z b) i) ->
  byte_at z n = b.
Proof.
  intros Hn H. apply b2z_inj, Z.bits_inj'. intros i Hi. rewrite byte_at_testbit by done.
  destruct (Z.ltb_spec i 8); simpl; [apply H; lia|].
  symmetry. by apply testbit_b2z_high.
Qed.

Ltac byte_bits_tac :=
  apply byte_at_eq; [lia|]; intros i Hi;
  rewrite !Z.lor_spec, ?Z.shiftl_spec by lia;
  repeat match goal with
  | |- context [Z.testbit (b2z ?b) ?j] =>
      first [ rewrite (testbit_b2z_high b j) by lia
            | rewrite (Z.testbit_neg_r (b2z b) j) by lia ]
  end; rewrite ?orb_false_r, ?orb_false_l; f_equal; lia.

Lemma byte_at_be16 b0 b1 :
  byte_at (be16 b0 b1) 8 = b0 /\ byte_at (be16 b0 b1) 0 = b1.
Proof. unfold be16. split; byte_bits_tac. Qed.

Lemma byte_at_be32 b0 b1 b2 b3 :
  byte_at (be32 b0 b1 b2 b3) 24 = b0 /\ byte_at (be32 b0 b1 b2 b3) 16 = b1 /\
  byte_at (be32 b0 b1 b2 b3) 8 = b2 /\ byte_at (be32 b0 b1 b2 b3) 0 = b3.
Proof. unfold be32. split_and!; byte_bits_tac. Qed.

(** ** Outcomes

    [std::expected<A,E>] and a call that may throw. *)

Inductive outcome (E A : Type) : Type :=
| Ok (a : A)
| Err (e : E).
Arguments Ok {E A} a.
Arguments Err {E A} e.

(** ** The shared hint databases and tactics *)

Create HintDb mesh.
#[export] Hint Resolve b2z_range b2n_range u32_range : mesh.

(** Case analysis on the first conditional or match of the goal. *)
Ltac case_goal :=
  match goal with
  | |- context [if decide ?P then _ else _] => destruct (decide P)
  | |- context [if ?b then _ else _] => destruct b eqn:?
  | |- context [match ?x with _ => _ end] => destruct x eqn:?
  end.

(** The same on a hypothesis. *)
Ltac case_in H :=
  match type of H with
  | context [if decide ?P then _ else _] => destruct (decide P)
  | context [if ?b then _ else _] => destruct b eqn:?
  | context [match ?x with _ => _ end] => destruct x eqn:?
  end.

(** Turn boolean comparisons of the code into propositions. *)
Ltac bool_to_prop :=
  repeat match goal with
  | H : (_ <? _)%nat = true |- _ => apply Nat.ltb_lt in H
  | H : (_ <? _)%nat = false |- _ => apply Nat.ltb_ge in H
  | H : (_ <=? _)%nat = true |- _ => apply Nat.leb_le in H
  | H : (_ <=? _)%nat = false |- _ => apply Nat.leb_gt in H
  | H : (_ =? _)%nat = true |- _ => apply Nat.eqb_eq in H
  | H : (_ =? _)%nat = false |- _ => apply Nat.eqb_neq in H
  | H : (_ <? _)%Z = true |- _ => apply Z.ltb_lt in H
  | H : (_ <? _)%Z = false |- _ => apply Z.ltb_ge in H
  | H : (_ <=? _)%Z = true |- _ => apply Z.leb_le in H
  | H : (_ <=? _)%Z = false |- _ => apply Z.leb_gt in H
  | H : (_ =? _)%Z = true |- _ => apply Z.eqb_eq in H
  | H : (_ =? _)%Z = false |- _ => apply Z.eqb_neq in H
  | H : bool_decide _ = true |- _ => apply bool_decide_eq_true in H
  | H : bool_decide _ = false |- _ => apply bool_decide_eq_false in H
  | H : _ && _ = true |- _ => apply andb_true_iff in H as [? ?]
  | H : _ || _ = false |- _ => apply orb_false_iff in H as [? ?]
  | H : negb _ = true |- _ => apply negb_true_iff in H
  | H : negb _ = false |- _ => apply negb_false_iff in H
  end.

(** ** Lists *)

Section lists.
Context {A : Type} `{!Inhabited A}.
Implicit Types (l : list A).

Lemma lookup_total_imap {B} `{!Inhabited B} (f : nat -> A -> B) l i :
  i < length l -> imap f l !!! i = f i (l !!! i).
Proof.
  intros Hi. apply list_lookup_total_correct. rewrite list_lookup_imap.
  by rewrite (list_lookup_lookup_total_lt l i Hi).
Qed.

Lemma lookup_total_map {B} `{!Inhabited B} (f : A -> B) l i :
  i < length l -> map f l !!! i = f (l !!! i).
Proof. apply list_lookup_total_fmap. Qed.

Lemma lookup_total_insert l i j x :
  i < length l -> <[i:=x]> l !!! j = if decide (j = i) then x else l !!! j.
Proof.
  intros Hi. case_decide; subst.
  - by apply list_lookup_total_insert_eq.
  - by apply list_lookup_total_insert_ne.
Qed.

Lemma list_eq_total l1 l2 :
  length l1 = length l2 ->
  (forall i, i < length l1 -> l1 !!! i = l2 !!! i) -> l1 = l2.
Proof.
  intros Hlen H. apply list_eq_same_length with (length l2); [done..|].
  intros i x y Hi Hx Hy. apply list_lookup_total_correct in Hx, Hy.
  rewrite <-Hx, <-Hy. apply H. lia.
Qed.
End lists.

Lemma length_filter_split {A} (P : A -> Prop) `{!forall x, Decision (P x)} (l : list A) :
  length (filter P l) + length (filter (fun x => ~ P x) l) = length l.
Proof.
  induction l as [|x l IH]; [done|]. rewrite !filter_cons.
  destruct (decide (P x)).
  - rewrite decide_False by tauto. simpl. lia.
  - rewrite decide_True by done. simpl. lia.
Qed.

Lemma filter_ext_elem {A} (P Q : A -> Prop) `{!forall x, Decision (P x)}
    `{!forall x, Decision (Q x)} (l : list A) :
  (forall x, x ∈ l -> P x <-> Q x) -> filter P l = filter Q l.
Proof.
  induction l as [|x l IH]; intros Hext; [done|]. rewrite !filter_cons.
  assert (P x <-> Q x) as Hx by (apply Hext; by left).
  assert (filter P l = filter Q l) as -> by (apply IH; intros; apply Hext; by right).
  repeat case_decide; tauto.
Qed.

(** A map whose keys occur in a list is no larger than the list. *)
Lemma size_map_le {K V} `{Countable K} (m : gmap K V) (l : list K) :
  (forall k v, m !! k = Some v -> k ∈ l) -> size m <= length l.
Proof.
  intros Hk. rewrite <-length_map_to_list, <-(length_map fst).
  apply submseteq_length, NoDup_submseteq; [apply NoDup_fst_map_to_list|].
  intros k ([k' v] & -> & Hv)%list_elem_of_fmap. apply elem_of_map_to_list in Hv.
  by eapply Hk.
Qed.

(** [for (i = 0; i < n; ++i)] accumulating into a state. *)
Definition for_loop {S} (n : nat) (body : nat -> S -> S) (s : S) : S :=
  foldl (fun s i => body i s) s (seq 0 n).

Lemma for_loop_S {S} n (body : nat -> S -> S) s :
  for_loop (Datatypes.S n) body s = body n (for_loop n body s).
Proof. unfold for_loop. by rewrite seq_S, foldl_app. Qed.

Lemma for_loop_invariant {S} (P : nat -> S -> Prop) n body s :
  P 0 s ->
  (forall i s, i < n -> P i s -> P (Datatypes.S i) (body i s)) ->
  P n (for_loop n body s).
Proof.
  intros H0 Hstep. induction n as [|n IH]; [done|].
  rewrite for_loop_S. apply Hstep; [lia|]. apply IH. intros. apply Hstep; [lia|done].
Qed.

(** ** Reachable states *)

(** What every step keeps holds in every reachable state. *)
Lemma rtc_keeps {A} (P : A -> Prop) (R : A -> A -> Prop) (x y : A) :
  (forall x y, P x -> R x y -> P y) -> P x -> rtc R x y -> P y.
Proof. intros Hstep Hx Hr. induction Hr as [|x y z Hxy _ IH]; [done|]. by apply IH, (Hstep x). Qed.
