(* ===== verification/GF256.v ===== *)
(** * GF(2^8) arithmetic of the FEC codec

    The exponent and logarithm tables [FecCodec::build_gf_tables] fills, the
    table-driven multiplication and inverse, and the proof that they make the
    256 bytes a field (src/src/mesh/net/udp/FecCodec.cpp). *)

From S2P Require Import Prelude.
From Stdlib Require Export Ring Field.

Module GF.

(** [operator^] on [uint8_t]. *)
Definition gf_add (a b : byte) : byte := z2b (Z.lxor (b2z a) (b2z b)).

(** ** Tables *)

Record tables := Tables {
  t_x : Z;             (* the loop variable [x] *)
  t_exp : list byte;   (* [gf_exp_], 512 entries *)
  t_log : list byte    (* [gf_log_], 256 entries *)
}.

(** [x <<= 1; if (x & 0x100) x ^= 0x11D;] *)
Definition gf_step (x : Z) : Z :=
  let x := Z.shiftl x 1 in
  if negb (Z.land x 256 =? 0)%Z then Z.lxor x 285 else x.

Definition fill_body (i : nat) (t : tables) : tables :=
  Tables (gf_step (t_x t))
         (<[i := z2b (t_x t)]> (t_exp t))
         (<[Z.to_nat (t_x t) := n2b i]> (t_log t)).

Definition double_body (i : nat) (e : list byte) : list byte :=
  <[255 + i := e !!! i]> e.

(** The arrays are not initialised by the constructor: their first contents
    are arguments. *)
Definition build_gf_tables (exp0 log0 : list byte) : tables :=
  let t := for_loop 255 fill_body (Tables 1 exp0 log0) in
  Tables (t_x t)
         (for_loop 257 double_body (t_exp t))
         (<[0 := x00]> (t_log t)).

Definition gf_exp_ : list byte :=
  Eval vm_compute in
    t_exp (build_gf_tables (replicate 512 x00) (replicate 256 x00)).

Definition gf_log_ : list byte :=
  Eval vm_compute in
    t_log (build_gf_tables (replicate 512 x00) (replicate 256 x00)).

(** ** Operations *)

Definition gf_mul (a b : byte) : byte :=
  if (b2n a =? 0) || (b2n b =? 0) then x00
  else gf_exp_ !!! (b2n (gf_log_ !!! b2n a) + b2n (gf_log_ !!! b2n b)).

Definition gf_inv (a : byte) : byte :=
  gf_exp_ !!! (255 - b2n (gf_log_ !!! b2n a)).

(** ** Multiplication by the generator *)

Definition mul2 (b : byte) : byte := z2b (gf_step (b2z b)).

Definition pw (n : nat) : byte := Nat.iter n mul2 x01.

Abbreviation glog a := (b2n (gf_log_ !!! b2n a)).

Lemma b2z_add a b : b2z (gf_add a b) = Z.lxor (b2z a) (b2z b).
Proof.
  unfold gf_add. apply b2z_z2b_small.
  pose proof (b2z_range a). pose proof (b2z_range b).
  split; [apply Z.lxor_nonneg; lia|].
  destruct (decide (Z.lxor (b2z a) (b2z b) = 0%Z)) as [->|]; [lia|].
  assert (0 <= Z.lxor (b2z a) (b2z b))%Z by (apply Z.lxor_nonneg; lia).
  apply Z.log2_lt_pow2 with (b := 8%Z); [lia|].
  eapply Z.le_lt_trans; [apply Z.log2_lxor; lia|].
  apply Z.max_lub_lt.
  - destruct (decide (b2z a = 0%Z)) as [->|]; [simpl; lia|].
    apply Z.log2_lt_pow2; lia.
  - destruct (decide (b2z b = 0%Z)) as [->|]; [simpl; lia|].
    apply Z.log2_lt_pow2; lia.
Qed.

(** The step is the linear map [x |-> 2x] reduced by the polynomial. *)
Lemma gf_step_eq x :
  (0 <= x)%Z ->
  gf_step x = Z.lxor (Z.shiftl x 1) (if Z.testbit x 7 then 285 else 0)%Z.
Proof.
  intros Hx. unfold gf_step. change 256%Z with (2 ^ 8)%Z.
  assert ((Z.land (Z.shiftl x 1) (2 ^ 8) =? 0)%Z = negb (Z.testbit x 7)) as ->.
  { apply eq_true_iff_eq. rewrite negb_true_iff, Z.eqb_eq. split.
    - intros H%(f_equal (fun z => Z.testbit z 8)).
      rewrite Z.land_spec, Z.shiftl_spec, Z.pow2_bits_true, Z.bits_0 in H by lia.
      by rewrite andb_true_r in H.
    - intros H. apply Z.bits_inj_0. intros n. rewrite Z.land_spec.
      destruct (decide (n = 8%Z)) as [->|].
      + rewrite Z.shiftl_spec by lia. change (8 - 1)%Z with 7%Z. by rewrite H.
      + rewrite Z.pow2_bits_false by lia. apply andb_false_r. }
  rewrite negb_involutive. destruct (Z.testbit x 7); [done|]. by rewrite Z.lxor_0_r.
Qed.

Lemma b2z_mul2 b : b2z (mul2 b) = gf_step (b2z b).
Proof. destruct b; reflexivity. Qed.

Lemma mul2_add a b : mul2 (gf_add a b) = gf_add (mul2 a) (mul2 b).
Proof.
  pose proof (b2z_range a). pose proof (b2z_range b).
  apply b2z_inj. rewrite b2z_mul2, !b2z_add, !b2z_mul2, !gf_step_eq
    by (try apply Z.lxor_nonneg; lia).
  rewrite Z.shiftl_lxor, Z.lxor_spec.
  rewrite !Z.lxor_assoc. f_equal.
  rewrite <-!Z.lxor_assoc. rewrite (Z.lxor_comm _ (Z.shiftl (b2z b) 1)).
  rewrite !Z.lxor_assoc. f_equal.
  destruct (Z.testbit (b2z a) 7), (Z.testbit (b2z b) 7); reflexivity.
Qed.

(** Every nonzero byte is a power of the generator, at its logarithm. *)
Lemma pw_log a : a <> x00 -> glog a < 255 /\ gf_exp_ !!! glog a = a.
Proof.
  intros Ha. destruct a; try done; (split; [vm_compute; lia|reflexivity]).
Qed.

Definition exp_step_ok (i : nat) : bool :=
  bool_decide (gf_exp_ !!! S i = mul2 (gf_exp_ !!! i)).

Lemma exp_steps : forallb exp_step_ok (seq 0 511) = true.
Proof. vm_compute. reflexivity. Qed.

Lemma exp_pw i : i < 512 -> gf_exp_ !!! i = pw i.
Proof.
  induction i as [|i IH]; intros Hi; [reflexivity|].
  pose proof exp_steps as H. rewrite forallb_forall in H.
  specialize (H i ltac:(apply in_seq; lia)). apply bool_decide_eq_true in H.
  rewrite H, IH by lia. reflexivity.
Qed.

Lemma mul2_0 : mul2 x00 = x00.
Proof. reflexivity. Qed.

Lemma pw_255 : pw 255 = x01.
Proof. rewrite <-exp_pw by lia. reflexivity. Qed.

Lemma pw_add i j : pw (i + j) = Nat.iter i mul2 (pw j).
Proof. apply Nat.iter_add. Qed.

Lemma iter_mul2_add n a b :
  Nat.iter n mul2 (gf_add a b) = gf_add (Nat.iter n mul2 a) (Nat.iter n mul2 b).
Proof. induction n as [|n IH]; simpl; [done|]. by rewrite IH, mul2_add. Qed.

Lemma iter_mul2_0 n : Nat.iter n mul2 x00 = x00.
Proof. induction n as [|n IH]; simpl; [done|]. by rewrite IH. Qed.

Lemma b2n_eqb_0 a : (b2n a =? 0) = bool_decide (a = x00).
Proof. destruct a; reflexivity. Qed.

(** The table product is iterated multiplication by the generator. *)
Lemma gf_mul_iter a b : a <> x00 -> gf_mul a b = Nat.iter (glog a) mul2 b.
Proof.
  intros Ha. unfold gf_mul. rewrite !b2n_eqb_0, bool_decide_false by done. simpl.
  case_bool_decide as Hb; subst; [by rewrite iter_mul2_0|].
  destruct (pw_log a Ha) as [Hla _]. destruct (pw_log b Hb) as [Hlb Heb].
  rewrite exp_pw by lia. rewrite pw_add. f_equal. rewrite <-exp_pw by lia. done.
Qed.

Lemma gf_mul_0_l a : gf_mul x00 a = x00.
Proof. reflexivity. Qed.

Lemma gf_mul_comm a b : gf_mul a b = gf_mul b a.
Proof. unfold gf_mul. rewrite orb_comm, Nat.add_comm. done. Qed.

Lemma gf_mul_0_r a : gf_mul a x00 = x00.
Proof. by rewrite gf_mul_comm. Qed.

Lemma gf_mul_1_l a : gf_mul x01 a = a.
Proof. rewrite gf_mul_iter by done. reflexivity. Qed.

Lemma gf_mul_add_r a b c : gf_mul a (gf_add b c) = gf_add (gf_mul a b) (gf_mul a c).
Proof.
  destruct (decide (a = x00)) as [->|Ha]; [reflexivity|].
  rewrite !gf_mul_iter by done. apply iter_mul2_add.
Qed.

Lemma gf_mul_add_l a b c : gf_mul (gf_add a b) c = gf_add (gf_mul a c) (gf_mul b c).
Proof. rewrite !(gf_mul_comm _ c). apply gf_mul_add_r. Qed.

Lemma gf_mul_swap a b c : gf_mul a (gf_mul b c) = gf_mul b (gf_mul a c).
Proof.
  destruct (decide (a = x00)) as [->|Ha]; [by rewrite !gf_mul_0_l, gf_mul_0_r|].
  destruct (decide (b = x00)) as [->|Hb]; [by rewrite !gf_mul_0_l, gf_mul_0_r|].
  rewrite (gf_mul_iter a (gf_mul b c)), (gf_mul_iter b c), (gf_mul_iter b (gf_mul a c)),
    (gf_mul_iter a c) by done.
  rewrite <-!Nat.iter_add. f_equal. lia.
Qed.

Lemma gf_mul_assoc a b c : gf_mul a (gf_mul b c) = gf_mul (gf_mul a b) c.
Proof. by rewrite (gf_mul_comm (gf_mul a b) c), (gf_mul_swap c a b), (gf_mul_comm c b). Qed.

Lemma gf_add_comm a b : gf_add a b = gf_add b a.
Proof. unfold gf_add. by rewrite Z.lxor_comm. Qed.

Lemma gf_add_assoc a b c : gf_add a (gf_add b c) = gf_add (gf_add a b) c.
Proof. apply b2z_inj. by rewrite !b2z_add, Z.lxor_assoc. Qed.

Lemma gf_add_0_l a : gf_add x00 a = a.
Proof. apply b2z_inj. by rewrite b2z_add. Qed.

Lemma gf_add_nilp a : gf_add a a = x00.
Proof. apply b2z_inj. by rewrite b2z_add, Z.lxor_nilpotent. Qed.

Lemma gf_inv_l a : a <> x00 -> gf_mul (gf_inv a) a = x01.
Proof.
  intros Ha. destruct (pw_log a Ha) as [Hl _]. rewrite gf_mul_comm, gf_mul_iter by done.
  unfold gf_inv. rewrite exp_pw, <-pw_add by lia.
  replace (glog a + (255 - glog a)) with 255 by lia. apply pw_255.
Qed.

Lemma gf_add_eq_0 a b : gf_add a b = x00 -> a = b.
Proof.
  intros H%(f_equal (gf_add a)). rewrite gf_add_assoc, gf_add_nilp, gf_add_0_l in H.
  by rewrite H, gf_add_comm, gf_add_0_l.
Qed.

Lemma gf_mul_eq_0 a b : gf_mul a b = x00 -> a = x00 \/ b = x00.
Proof.
  intros H. destruct (decide (a = x00)) as [|Ha]; [by left|right].
  apply (f_equal (gf_mul (gf_inv a))) in H.
  by rewrite gf_mul_assoc, gf_inv_l, gf_mul_1_l, gf_mul_0_r in H.
Qed.

Lemma gf_inv_neq_0 a : a <> x00 -> gf_inv a <> x00.
Proof. intros Ha H. pose proof (gf_inv_l a Ha) as Hi. by rewrite H in Hi. Qed.

(** The field of the code, in the form the [ring] and [field] tactics use;
    characteristic two: subtraction is addition and negation the identity. *)
Lemma gf_ring_theory : ring_theory x00 x01 gf_add gf_mul gf_add id (=).
Proof.
  split.
  - apply gf_add_0_l.
  - apply gf_add_comm.
  - apply gf_add_assoc.
  - apply gf_mul_1_l.
  - apply gf_mul_comm.
  - apply gf_mul_assoc.
  - apply gf_mul_add_l.
  - done.
  - apply gf_add_nilp.
Qed.

Lemma gf_field_theory :
  field_theory x00 x01 gf_add gf_mul gf_add id (fun a b => gf_mul a (gf_inv b)) gf_inv (=).
Proof. split; [apply gf_ring_theory|done|done|apply gf_inv_l]. Qed.

(** ** What the filling loops establish *)

Lemma pw_period i : pw (255 + i) = pw i.
Proof. rewrite Nat.add_comm, pw_add, pw_255. done. Qed.

Lemma pw_nonzero i : pw i <> x00.
Proof.
  induction i as [|i IH]; [done|]. change (pw (S i)) with (mul2 (pw i)).
  destruct (pw i); done.
Qed.

Lemma log_exp_table :
  forallb (fun i => glog (gf_exp_ !!! i) =? i) (seq 0 255) = true.
Proof. vm_compute. reflexivity. Qed.

Lemma log_pw i : i < 255 -> glog (pw i) = i.
Proof.
  intros Hi. pose proof log_exp_table as H. rewrite forallb_forall in H.
  specialize (H i ltac:(apply in_seq; lia)). apply Nat.eqb_eq in H.
  by rewrite <-exp_pw by lia.
Qed.

Definition fill_inv (i : nat) (t : tables) : Prop :=
  t_x t = b2z (pw i) /\ length (t_exp t) = 512 /\ length (t_log t) = 256 /\
  (forall j, j < i -> t_exp t !!! j = pw j) /\
  (forall j, j < i -> t_log t !!! b2n (pw j) = n2b j).

Lemma fill_body_inv i t : i < 255 -> fill_inv i t -> fill_inv (S i) (fill_body i t).
Proof.
  intros Hi (Hx & He & Hl & Hexp & Hlog). pose proof (b2n_range (pw i)).
  assert (Z.to_nat (t_x t) = b2n (pw i)) as Hidx by (rewrite Hx; done).
  unfold fill_body. rewrite Hidx. split_and!; simpl.
  - rewrite Hx. change (pw (S i)) with (mul2 (pw i)). by rewrite b2z_mul2.
  - by rewrite length_insert.
  - by rewrite length_insert.
  - intros j Hj. rewrite lookup_total_insert by lia. case_decide; subst.
    + by rewrite Hx, z2b_b2z.
    + apply Hexp. lia.
  - intros j Hj. rewrite lookup_total_insert by lia. case_decide as Hji.
    + assert (pw j = pw i) as Hpw by (rewrite <-(n2b_b2n (pw j)), Hji; apply n2b_b2n).
      f_equal. rewrite <-(log_pw i), <-(log_pw j) by lia. by rewrite Hpw.
    + apply Hlog. destruct (decide (j = i)); subst; [done|lia].
Qed.

Lemma double_inv e n :
  n <= 257 -> length e = 512 -> (forall j, j < 255 -> e !!! j = pw j) ->
  length (for_loop n double_body e) = 512 /\
  (forall j, j < 255 + n -> for_loop n double_body e !!! j = pw j).
Proof.
  intros Hn He Hpw.
  apply (for_loop_invariant (fun i e => length e = 512 /\
            forall j, j < 255 + i -> e !!! j = pw j)).
  - split; [done|]. intros j Hj. apply Hpw. lia.
  - intros i e' Hi [He' Hpw']. unfold double_body. split; [by rewrite length_insert|].
    intros j Hj. rewrite lookup_total_insert by lia. case_decide; subst.
    + rewrite Hpw', pw_period by lia. done.
    + apply Hpw'. lia.
Qed.

(** ** Reference: shift-and-add multiplication of polynomials modulo 0x11D *)

Definition xtime (x : Z) : Z :=
  if (x <? 128)%Z then (2 * x)%Z else Z.lxor (2 * x) 285.

Definition poly_mul (a b : Z) : Z :=
  foldr (fun i acc => if Z.testbit a (Z.of_nat i)
                      then Z.lxor (Nat.iter i xtime b) acc else acc)
        0%Z (seq 0 8).

Lemma b2z_iter_mul2 n b : b2z (Nat.iter n mul2 b) = Nat.iter n xtime (b2z b).
Proof.
  induction n as [|n IH]; simpl; [done|]. rewrite <-IH. generalize (Nat.iter n mul2 b).
  intros c. destruct c; reflexivity.
Qed.

(** The terms of the binary expansion of a byte. *)
Definition bit_term (a : byte) (i : nat) : byte :=
  if Z.testbit (b2z a) (Z.of_nat i) then pw i else x00.

Lemma byte_bits a : a = foldr (fun i acc => gf_add (bit_term a i) acc) x00 (seq 0 8).
Proof. destruct a; reflexivity. Qed.

Lemma gf_mul_bits a b (l : list nat) :
  (forall i, i ∈ l -> i < 8) ->
  gf_mul (foldr (fun i acc => gf_add (bit_term a i) acc) x00 l) b =
  foldr (fun i acc => if Z.testbit (b2z a) (Z.of_nat i)
                      then gf_add (Nat.iter i mul2 b) acc else acc) x00 l.
Proof.
  induction l as [|i l IH]; intros Hl; simpl; [reflexivity|].
  rewrite gf_mul_add_l, IH by (intros; apply Hl; by right).
  assert (i < 8) by (apply Hl; by left).
  unfold bit_term. case_match; [|by rewrite gf_mul_0_l, gf_add_0_l].
  f_equal. rewrite gf_mul_iter by apply pw_nonzero. by rewrite log_pw by lia.
Qed.

(** (C36) The table-driven product of [FecCodec::gf_mul] is multiplication of
    polynomials over GF(2) modulo x^8+x^4+x^3+x^2+1 (0x11D), for all bytes. *)
Theorem gf_mul_is_polynomial_mul (a b : byte) :
  b2z (gf_mul a b) = poly_mul (b2z a) (b2z b).
Proof.
  rewrite (byte_bits a) at 1. rewrite gf_mul_bits by (intros i Hi%elem_of_seq; lia).
  unfold poly_mul. induction (seq 0 8) as [|i l IH]; [reflexivity|].
  simpl. case_match; [|done]. by rewrite b2z_add, b2z_iter_mul2, IH.
Qed.

(** The 256 bytes with the codec's XOR, [gf_mul] and [gf_inv] satisfy all
    field laws: both operations are associative and commutative, [gf_mul]
    distributes over XOR, and [gf_inv a] inverts every [a <> 0]. *)
Theorem gf_ops_form_a_field (a b c : byte) :
  gf_add a (gf_add b c) = gf_add (gf_add a b) c /\
  gf_add a b = gf_add b a /\
  gf_add x00 a = a /\ gf_add a a = x00 /\
  gf_mul a (gf_mul b c) = gf_mul (gf_mul a b) c /\
  gf_mul a b = gf_mul b a /\
  gf_mul x01 a = a /\
  gf_mul a (gf_add b c) = gf_add (gf_mul a b) (gf_mul a c) /\
  (a = x00 \/ gf_mul a (gf_inv a) = x01).
Proof.
  split_and!; auto using gf_add_assoc, gf_add_comm, gf_add_0_l, gf_add_nilp,
    gf_mul_assoc, gf_mul_comm, gf_mul_1_l, gf_mul_add_r.
  destruct (decide (a = x00)) as [|Ha]; [by left|right].
  rewrite gf_mul_comm. by apply gf_inv_l.
Qed.

(** [build_gf_tables] overwrites every entry of both tables: whatever the
    uninitialised arrays held, it leaves the same 512-entry exponent and
    256-entry logarithm table. *)
Theorem build_gf_tables_any_memory (exp0 log0 : list byte)
    (Hexp : length exp0 = 512) (Hlog : length log0 = 256) :
  t_exp (build_gf_tables exp0 log0) = gf_exp_ /\
  t_log (build_gf_tables exp0 log0) = gf_log_.
Proof.
  assert (fill_inv 255 (for_loop 255 fill_body (Tables 1 exp0 log0)))
    as Hinv.
  { apply for_loop_invariant; [|intros; by apply fill_body_inv].
    split_and!; simpl; try done; intros; lia. }
  unfold build_gf_tables. revert Hinv. generalize (for_loop 255 fill_body (Tables 1 exp0 log0)).
  intros t (_ & He & Hl & Hpw & Hlg). cbn [t_exp t_log]. split.
  - destruct (double_inv (t_exp t) 257) as [Hlen H]; [lia|done|done|].
    apply list_eq_total; [by rewrite Hlen|]. rewrite Hlen. intros i Hi.
    by rewrite H, exp_pw by lia.
  - apply list_eq_total; [by rewrite length_insert, Hl|]. rewrite length_insert, Hl.
    intros i Hi. rewrite lookup_total_insert by lia. case_decide as H0; [by subst|].
    assert (n2b i <> x00) as Hnz
      by (intros Hz%(f_equal b2n); by rewrite b2n_n2b in Hz by lia).
    destruct (pw_log _ Hnz) as [Hlt Hpwi]. rewrite exp_pw in Hpwi by lia.
    specialize (Hlg _ Hlt). rewrite Hpwi, b2n_n2b in Hlg by lia.
    by rewrite Hlg, n2b_b2n.
Qed.

Lemma build_gf_tables_any_memory_witness :
  t_exp (build_gf_tables (replicate 512 xaa) (replicate 256 xbb)) = gf_exp_ /\
  t_log (build_gf_tables (replicate 512 xaa) (replicate 256 xbb)) = gf_log_.
Proof. apply build_gf_tables_any_memory; reflexivity. Defined.

End GF.

(** [ring] and [field] on bytes, with coefficients in GF(2): they know that
    [a + a = 0]. *)
Definition gf_phi (b : bool) : byte := if b then x01 else x00.

Lemma gf_morph :
  ring_morph x00 x01 GF.gf_add GF.gf_mul GF.gf_add id (=)
             false true xorb andb xorb id Bool.eqb gf_phi.
Proof.
  split; try reflexivity; try (intros [] []; reflexivity).
  intros [] [] H; done.
Qed.

Ltac gf_cst t :=
  match t with
  | x00 => constr:(false)
  | x01 => constr:(true)
  | _ => constr:(InitialRing.NotConstant)
  end.

Add Field gf_field : GF.gf_field_theory (morphism gf_morph, constants [gf_cst]).
