(* ===== verification/GaussJordan.v ===== *)
(** * The Gauss-Jordan decoder of the FEC codec

    [FecCodec::gauss_decode] loop by loop on lists of byte rows, and the proof
    that on a system with a trivial kernel it returns the unique solution
    (src/src/mesh/net/udp/FecCodec.cpp). *)

From S2P Require Import Prelude GF256.

Module Gauss.
Import GF.

Abbreviation row := (list byte).
Abbreviation matrix := (list (list byte)).

(** ** The code *)

(** The first row at or below [col] with a nonzero entry in [col]. *)
Definition find_pivot (k col : nat) (M : matrix) : option nat :=
  List.find (fun r => negb (bool_decide ((M !!! r) !!! col = x00))) (seq col (k - col)).

(** [std::swap(M[i], M[j])] *)
Definition swap_rows (i j : nat) (M : matrix) : matrix :=
  <[i := M !!! j]> (<[j := M !!! i]> M).

(** [for (c = lo; c < hi; ++c) row[c] = gf_mul(row[c], scale);] *)
Definition scale_row (lo hi : nat) (scale : byte) (l : row) : row :=
  imap (fun c x => if (lo <=? c) && (c <? hi) then gf_mul x scale else x) l.

(** [for (c = lo; c < hi; ++c) row[c] ^= gf_mul(factor, prow[c]);] *)
Definition xor_row (lo hi : nat) (factor : byte) (prow l : row) : row :=
  imap (fun c x => if (lo <=? c) && (c <? hi)
                   then gf_add x (gf_mul factor (prow !!! c)) else x) l.

(** One iteration of the elimination loop over the rows. *)
Definition eliminate_row (k symbol_len col r : nat) (s : matrix * matrix) : matrix * matrix :=
  let '(M, B) := s in
  if (r =? col) || bool_decide ((M !!! r) !!! col = x00) then (M, B)
  else
    let factor := (M !!! r) !!! col in
    (<[r := xor_row col k factor (M !!! col) (M !!! r)]> M,
     <[r := xor_row 0 symbol_len factor (B !!! col) (B !!! r)]> B).

(** One iteration of the loop over the columns; [None] is [return {}]. *)
Definition gauss_col (k symbol_len col : nat) (s : matrix * matrix) : option (matrix * matrix) :=
  let '(M, B) := s in
  match find_pivot k col M with
  | None => None
  | Some pivot =>
      let M := if pivot =? col then M else swap_rows col pivot M in
      let B := if pivot =? col then B else swap_rows col pivot B in
      let scale := gf_inv ((M !!! col) !!! col) in
      let M := <[col := scale_row col k scale (M !!! col)]> M in
      let B := <[col := scale_row 0 symbol_len scale (B !!! col)]> B in
      Some (for_loop k (eliminate_row k symbol_len col) (M, B))
  end.

Fixpoint gauss_cols (k symbol_len : nat) (cols : list nat) (s : matrix * matrix)
    : option (matrix * matrix) :=
  match cols with
  | [] => Some s
  | col :: cols =>
      match gauss_col k symbol_len col s with
      | None => None
      | Some s => gauss_cols k symbol_len cols s
      end
  end.

(** The k x k matrix of the received rows of the full encoding matrix. *)
Definition decode_row (k : nat) (enc : matrix) (idx : nat) : row :=
  if idx <? k then <[idx := x01]> (replicate k x00) else enc !!! (idx - k).

Definition decode_matrix (k : nat) (enc : matrix) (received_indices : list nat) : matrix :=
  map (fun r => decode_row k enc (received_indices !!! r)) (seq 0 k).

(** The empty vector is the code's failure value. *)
Definition gauss_decode (k : nat) (enc : matrix) (received_indices : list nat)
    (received_data : matrix) (symbol_len : nat) : matrix :=
  match gauss_cols k symbol_len (seq 0 k)
          (decode_matrix k enc received_indices, received_data) with
  | Some (_, B) => B
  | None => []
  end.

(** ** Sums over an index range *)

Fixpoint gsum (n : nat) (f : nat -> byte) : byte :=
  match n with
  | 0 => x00
  | S n => gf_add (gsum n f) (f n)
  end.

(** The value of a row of the system at a vector of unknowns. *)
Definition dot (k : nat) (l : row) (v : nat -> byte) : byte :=
  gsum k (fun c => gf_mul (l !!! c) (v c)).

Lemma gsum_ext n f g : (forall i, i < n -> f i = g i) -> gsum n f = gsum n g.
Proof.
  induction n as [|n IH]; intros H; simpl; [done|].
  rewrite IH, H by (intros; try apply H; lia). done.
Qed.

Lemma gsum_add n f g : gsum n (fun i => gf_add (f i) (g i)) = gf_add (gsum n f) (gsum n g).
Proof. induction n as [|n IH]; simpl; [reflexivity|]. rewrite IH. ring. Qed.

Lemma gsum_scale n a f : gsum n (fun i => gf_mul a (f i)) = gf_mul a (gsum n f).
Proof. induction n as [|n IH]; simpl; [by rewrite gf_mul_0_r|]. rewrite IH. ring. Qed.

Lemma gsum_zero n f : (forall i, i < n -> f i = x00) -> gsum n f = x00.
Proof.
  intros H. rewrite (gsum_ext n f (fun _ => gf_mul x00 x00)) by (intros; by rewrite H).
  rewrite gsum_scale. apply gf_mul_0_l.
Qed.

Lemma gsum_single n j f :
  j < n -> (forall i, i < n -> i <> j -> f i = x00) -> gsum n f = f j.
Proof.
  induction n as [|n IH]; intros Hj H; [lia|]. simpl.
  destruct (decide (j = n)) as [->|].
  - rewrite gsum_zero by (intros; apply H; lia). apply gf_add_0_l.
  - rewrite IH, (H n) by (try (intros; apply H); lia). ring.
Qed.

Lemma dot_xor k f p l v :
  length l = k ->
  dot k (imap (fun c x => gf_add x (gf_mul f (p !!! c))) l) v =
  gf_add (dot k l v) (gf_mul f (dot k p v)).
Proof.
  intros Hl. unfold dot. rewrite <-gsum_scale, <-gsum_add. apply gsum_ext.
  intros c Hc. rewrite lookup_total_imap by lia. ring.
Qed.

Lemma dot_scale k s l v :
  length l = k ->
  dot k (imap (fun _ x => gf_mul x s) l) v = gf_mul s (dot k l v).
Proof.
  intros Hl. unfold dot. rewrite <-gsum_scale. apply gsum_ext.
  intros c Hc. rewrite lookup_total_imap by lia. ring.
Qed.

(** ** Well-formed systems *)

Definition shape (rows cols : nat) (M : matrix) : Prop :=
  length M = rows /\ forall r, r < rows -> length (M !!! r) = cols.

Definition sys_wf (k symbol_len : nat) (s : matrix * matrix) : Prop :=
  shape k k s.1 /\ shape k symbol_len s.2.

(** The columns below [col] are those of the identity. *)
Definition unit_cols (k col : nat) (M : matrix) : Prop :=
  forall r c, r < k -> c < col -> (M !!! r) !!! c = if decide (r = c) then x01 else x00.

(** [v] solves column [b] of the system. *)
Definition solves (k : nat) (s : matrix * matrix) (v : nat -> byte) (b : nat) : Prop :=
  forall r, r < k -> dot k (s.1 !!! r) v = (s.2 !!! r) !!! b.

Definition in_kernel (k : nat) (M : matrix) (v : nat -> byte) : Prop :=
  forall r, r < k -> dot k (M !!! r) v = x00.

Definition trivial_kernel (k : nat) (M : matrix) : Prop :=
  forall v, in_kernel k M v -> forall c, c < k -> v c = x00.

Lemma shape_insert rows cols M i l :
  shape rows cols M -> length l = cols -> shape rows cols (<[i := l]> M).
Proof.
  intros [HM HMr] Hl. split; [by rewrite length_insert|]. intros r Hr.
  destruct (decide (i < length M)).
  - rewrite lookup_total_insert by done. case_decide; [done|]. by apply HMr.
  - rewrite list_insert_ge by lia. by apply HMr.
Qed.

Lemma shape_swap rows cols M i j :
  i < rows -> j < rows -> shape rows cols M -> shape rows cols (swap_rows i j M).
Proof. intros Hi Hj HM. repeat apply shape_insert; try done; by apply HM. Qed.

Lemma swap_lookup (M : matrix) i j r :
  i < length M -> j < length M ->
  swap_rows i j M !!! r =
    if decide (r = i) then M !!! j else if decide (r = j) then M !!! i else M !!! r.
Proof.
  intros Hi Hj. unfold swap_rows.
  rewrite lookup_total_insert by (by rewrite length_insert).
  case_decide; [done|]. by rewrite lookup_total_insert.
Qed.

Lemma swap_same (M : matrix) i : i < length M -> swap_rows i i M = M.
Proof.
  intros Hi. unfold swap_rows.
  assert (M !! i = Some (M !!! i)) as Hl by (by apply list_lookup_lookup_total_lt).
  by rewrite !(list_insert_id M i (M !!! i) Hl).
Qed.

(** The permutation of the rows a swap performs. *)
Definition swap_index (i j r : nat) : nat :=
  if decide (r = i) then j else if decide (r = j) then i else r.

Lemma swap_lookup_index (M : matrix) i j r :
  i < length M -> j < length M -> swap_rows i j M !!! r = M !!! swap_index i j r.
Proof. intros Hi Hj. rewrite swap_lookup by done. unfold swap_index. by repeat case_decide. Qed.

Lemma swap_index_lt i j r k : i < k -> j < k -> r < k -> swap_index i j r < k.
Proof. intros. unfold swap_index. repeat case_decide; lia. Qed.

Lemma swap_index_invol i j r : swap_index i j (swap_index i j r) = r.
Proof. unfold swap_index. repeat case_decide; lia. Qed.

(** ** Row operations on whole rows *)

Definition scale_all (s : byte) (l : row) : row := imap (fun _ x => gf_mul x s) l.

Definition xor_all (f : byte) (p l : row) : row :=
  imap (fun c x => gf_add x (gf_mul f (p !!! c))) l.

Lemma scale_row_all lo hi s l :
  hi = length l -> (forall c, c < lo -> l !!! c = x00) -> scale_row lo hi s l = scale_all s l.
Proof.
  intros -> Hz. unfold scale_row, scale_all. apply imap_ext. intros c x Hc.
  assert (c < length l) by (by eapply lookup_lt_Some).
  apply list_lookup_total_correct in Hc.
  destruct (Nat.leb_spec lo c), (Nat.ltb_spec c (length l)); simpl; try done; try lia.
  rewrite <-Hc, Hz by done. by rewrite gf_mul_0_l.
Qed.

Lemma xor_row_all lo hi f p l :
  hi = length l -> (forall c, c < lo -> p !!! c = x00) -> xor_row lo hi f p l = xor_all f p l.
Proof.
  intros -> Hz. unfold xor_row, xor_all. apply imap_ext. intros c x Hc.
  assert (c < length l) by (by eapply lookup_lt_Some).
  destruct (Nat.leb_spec lo c), (Nat.ltb_spec c (length l)); simpl; try done; try lia.
  rewrite Hz by done. ring.
Qed.

Lemma xor_all_0 p l : xor_all x00 p l = l.
Proof.
  apply list_eq_total; [by apply length_imap|]. unfold xor_all. rewrite length_imap.
  intros i Hi. rewrite lookup_total_imap by done. ring.
Qed.

Lemma length_xor_row lo hi f p l : length (xor_row lo hi f p l) = length l.
Proof. apply length_imap. Qed.

Lemma length_scale_row lo hi f l : length (scale_row lo hi f l) = length l.
Proof. apply length_imap. Qed.

Lemma xor_all_lookup f p l c :
  c < length l -> xor_all f p l !!! c = gf_add (l !!! c) (gf_mul f (p !!! c)).
Proof. intros. unfold xor_all. by rewrite lookup_total_imap. Qed.

Lemma scale_all_lookup s l c :
  c < length l -> scale_all s l !!! c = gf_mul (l !!! c) s.
Proof. intros. unfold scale_all. by rewrite lookup_total_imap. Qed.

(** ** The elimination loop *)

Section eliminate.
Context (k L col : nat) (M B : matrix).
Context (Hcol : col < k) (HM : shape k k M) (HB : shape k L B).
Context (Hlow : forall c, c < col -> (M !!! col) !!! c = x00).

Definition elim_target (X : matrix) (r : nat) : row :=
  xor_all ((M !!! r) !!! col) (X !!! col) (X !!! r).

Definition elim_spec (n : nat) (X Y : matrix) : Prop :=
  length Y = k /\
  forall r, Y !!! r = if decide (r < n /\ r <> col /\ r < k) then elim_target X r else X !!! r.

Lemma elim_spec_step n (X Y : matrix) w :
  n < k -> n <> col -> w = elim_target X n ->
  elim_spec n X Y -> elim_spec (S n) X (<[n := w]> Y).
Proof.
  intros Hn Hc -> [HY H]. split; [by rewrite length_insert|]. intros r.
  rewrite lookup_total_insert by lia. case_decide; subst.
  - rewrite decide_True by lia. done.
  - rewrite H. repeat case_decide; try done; lia.
Qed.

Lemma elim_spec_skip n X Y :
  (n = col \/ elim_target X n = X !!! n) -> elim_spec n X Y -> elim_spec (S n) X Y.
Proof.
  intros Hs [HY H]. split; [done|]. intros r. rewrite H.
  repeat case_decide; try done; try lia.
  assert (r = n) as -> by lia. destruct Hs as [->|]; [lia|done].
Qed.

Lemma eliminate_loop :
  let s := for_loop k (eliminate_row k L col) (M, B) in
  elim_spec k M s.1 /\ elim_spec k B s.2.
Proof.
  apply (for_loop_invariant (fun n s => elim_spec n M s.1 /\ elim_spec n B s.2)).
  { simpl. split; (split; [apply HM || apply HB|]); intros r; by rewrite decide_False by lia. }
  intros n [M' B'] Hn [HM' HB']. simpl in HM', HB'. unfold eliminate_row.
  assert (M' !!! col = M !!! col) as Epiv.
  { destruct HM' as [_ ->]. rewrite decide_False by lia. done. }
  assert (B' !!! col = B !!! col) as EpivB.
  { destruct HB' as [_ ->]. rewrite decide_False by lia. done. }
  assert (M' !!! n = M !!! n) as En.
  { destruct HM' as [_ ->]. rewrite decide_False by lia. done. }
  assert (B' !!! n = B !!! n) as EnB.
  { destruct HB' as [_ ->]. rewrite decide_False by lia. done. }
  rewrite En, Epiv, EpivB, EnB.
  destruct (Nat.eqb_spec n col); simpl; [split; by (apply elim_spec_skip; [by left|])|].
  case_bool_decide as Hz; simpl.
  - split; (apply elim_spec_skip; [right|done]); unfold elim_target; rewrite Hz; apply xor_all_0.
  - split; (apply elim_spec_step; [done|done| |done]); unfold elim_target.
    + apply xor_row_all; [|done]. by rewrite (proj2 HM).
    + apply xor_row_all; [|intros; lia]. by rewrite (proj2 HB).
Qed.
End eliminate.

(** ** What each row operation preserves

    A step keeps every solution, and its kernel is contained in the old one. *)

Definition step_ok (k L : nat) (s s' : matrix * matrix) : Prop :=
  sys_wf k L s' /\
  (forall v b, b < L -> solves k s v b -> solves k s' v b) /\
  (forall v, in_kernel k s'.1 v -> in_kernel k s.1 v).

Lemma step_ok_trans k L s1 s2 s3 :
  step_ok k L s1 s2 -> step_ok k L s2 s3 -> step_ok k L s1 s3.
Proof. intros (?&?&?) (?&?&?). split_and!; auto. Qed.

Lemma swap_step k L col p M B :
  col < k -> p < k -> sys_wf k L (M, B) ->
  step_ok k L (M, B) (swap_rows col p M, swap_rows col p B).
Proof.
  intros Hc Hp [HM HB]. simpl in HM, HB. destruct HM as [HMl HMr], HB as [HBl HBr].
  split_and!.
  - split; by apply shape_swap.
  - intros v b Hb Hs r Hr. simpl. rewrite !swap_lookup_index by lia.
    apply (Hs (swap_index col p r)). by apply swap_index_lt.
  - intros v Hv r Hr. simpl in *. rewrite <-(swap_index_invol col p r).
    rewrite <-swap_lookup_index by lia. apply Hv. by apply swap_index_lt.
Qed.

Lemma swap_unit_cols k col p M :
  col <= p -> p < k -> length M = k -> unit_cols k col M -> unit_cols k col (swap_rows col p M).
Proof.
  intros Hc Hp HM Hu r c Hr Hcc. rewrite swap_lookup_index by lia.
  rewrite Hu by (done || by (apply swap_index_lt; lia)).
  unfold swap_index. repeat case_decide; try done; lia.
Qed.

Section scale.
Context (k L col : nat) (M B : matrix) (s : byte).
Context (Hcol : col < k) (Hwf : sys_wf k L (M, B)) (Hs : s <> x00).
Context (Hlow : forall c, c < col -> (M !!! col) !!! c = x00).

Definition scaled : matrix * matrix :=
  (<[col := scale_row col k s (M !!! col)]> M, <[col := scale_row 0 L s (B !!! col)]> B).

Lemma scaled_lookup r :
  scaled.1 !!! r = (if decide (r = col) then scale_all s (M !!! col) else M !!! r) /\
  scaled.2 !!! r = (if decide (r = col) then scale_all s (B !!! col) else B !!! r).
Proof.
  destruct Hwf as [[HM HMr] [HB HBr]]. simpl in *.
  rewrite !lookup_total_insert by lia.
  rewrite !scale_row_all by (try done; try lia; by rewrite ?HMr, ?HBr). done.
Qed.

Lemma scale_step : step_ok k L (M, B) scaled.
Proof.
  destruct Hwf as [HM HB]. simpl in HM, HB. split_and!.
  - split; apply shape_insert; try done; rewrite length_scale_row;
      [by apply HM|by apply HB].
  - intros v b Hb Hv r Hr. destruct (scaled_lookup r) as [-> ->].
    case_decide; [|by apply Hv]. subst r. rewrite scale_all_lookup by (by rewrite (proj2 HB)).
    unfold scale_all. rewrite dot_scale by (by apply HM).
    specialize (Hv col Hcol). simpl in Hv. rewrite Hv. ring.
  - intros v Hv r Hr. pose proof (Hv r Hr) as H. simpl.
    destruct (scaled_lookup r) as [E _]. rewrite E in H. clear E.
    case_decide; [|done]. subst r. unfold scale_all in H.
    rewrite dot_scale in H by (by apply HM). by destruct (gf_mul_eq_0 _ _ H).
Qed.
End scale.

Section eliminated.
Context (k L col : nat) (M B : matrix).
Context (Hcol : col < k) (Hwf : sys_wf k L (M, B)).
Context (Hu : unit_cols k col M) (Hpiv : (M !!! col) !!! col = x01).

Definition eliminated : matrix * matrix := for_loop k (eliminate_row k L col) (M, B).

Lemma eliminated_lookup r :
  r < k ->
  eliminated.1 !!! r = (if decide (r = col) then M !!! r else elim_target col M M r) /\
  eliminated.2 !!! r = (if decide (r = col) then B !!! r else elim_target col M B r).
Proof.
  intros Hr. destruct Hwf as [HM HB]. unfold eliminated.
  destruct (eliminate_loop k L col M B) as [[_ HM'] [_ HB']]; try done.
  { intros c Hc. rewrite Hu by lia. by rewrite decide_False by lia. }
  rewrite HM', HB'. split; repeat case_decide; try done; lia.
Qed.

Lemma eliminated_shape : sys_wf k L eliminated.
Proof.
  destruct Hwf as [HM HB]. destruct (eliminate_loop k L col M B) as [[HM' _] [HB' _]]; try done.
  { intros c Hc. rewrite Hu by lia. by rewrite decide_False by lia. }
  split; (split; [done|]); intros r Hr; destruct (eliminated_lookup r Hr) as [E1 E2];
    [rewrite E1|rewrite E2]; case_decide; unfold elim_target, xor_all;
    rewrite ?length_imap; by (apply HM || apply HB).
Qed.

Lemma eliminate_step : step_ok k L (M, B) eliminated.
Proof.
  destruct Hwf as [HM HB]. simpl in HM, HB. split; [apply eliminated_shape|]. split.
  - intros v b Hb Hv r Hr. destruct (eliminated_lookup r Hr) as [-> ->].
    case_decide; [by apply Hv|]. unfold elim_target.
    rewrite xor_all_lookup by (by rewrite (proj2 HB)).
    unfold xor_all. rewrite dot_xor by (by apply HM).
    pose proof (Hv r Hr) as Hvr. specialize (Hv col Hcol). simpl in Hv, Hvr.
    by rewrite Hvr, Hv.
  - intros v Hv.
    assert (dot k (M !!! col) v = x00) as Hc0.
    { pose proof (Hv col Hcol) as H. destruct (eliminated_lookup col Hcol) as [E _].
      rewrite E in H. by rewrite decide_True in H. }
    intros r Hr. pose proof (Hv r Hr) as H. destruct (eliminated_lookup r Hr) as [E _].
    rewrite E in H. case_decide; [done|]. unfold elim_target, xor_all in H.
    rewrite dot_xor in H by (by apply HM). simpl. rewrite Hc0 in H. rewrite <-H. ring.
Qed.

Lemma eliminate_unit_cols : unit_cols k (S col) eliminated.1.
Proof.
  destruct Hwf as [HM HB]. simpl in HM, HB. intros r c Hr Hc.
  destruct (eliminated_lookup r Hr) as [-> _].
  assert (forall c, c <= col -> (M !!! col) !!! c = if decide (col = c) then x01 else x00) as Hcrow.
  { intros c' Hc'. destruct (decide (c' = col)) as [->|].
    - by rewrite decide_True.
    - rewrite Hu by lia. done. }
  case_decide; [subst; apply Hcrow; lia|]. unfold elim_target.
  rewrite xor_all_lookup by (rewrite (proj2 HM r Hr); lia). rewrite Hcrow by lia.
  destruct (decide (col = c)) as [<-|].
  - rewrite decide_False by done. rewrite gf_mul_comm, gf_mul_1_l. apply gf_add_nilp.
  - rewrite Hu by lia. case_decide; ring.
Qed.
End eliminated.

(** ** One column, then all columns *)

Lemma find_pivot_Some k col M p :
  find_pivot k col M = Some p ->
  col <= p < k /\ (M !!! p) !!! col <> x00.
Proof.
  unfold find_pivot. intros H. apply List.find_some in H as [Hin Hnz].
  apply in_seq in Hin. apply negb_true_iff in Hnz. bool_to_prop. split; [lia|done].
Qed.

(** No pivot means that the columns before [col] express column [col]. *)
Lemma find_pivot_None k col M :
  col < k -> unit_cols k col M -> find_pivot k col M = None -> ~ trivial_kernel k M.
Proof.
  intros Hcol Hu H Htriv.
  assert (forall r, col <= r < k -> (M !!! r) !!! col = x00) as Hz.
  { intros r Hr. unfold find_pivot in H.
    apply (List.find_none _ _ ) with (x := r) in H; [|apply in_seq; lia].
    simpl in H. apply negb_false_iff in H. by bool_to_prop. }
  set (v := fun c => if decide (c < col) then (M !!! c) !!! col
                     else if decide (c = col) then x01 else x00).
  assert (in_kernel k M v) as Hk.
  { intros r Hr. unfold dot. destruct (decide (r < col)).
    - rewrite (gsum_ext _ _ (fun c => gf_add (if decide (c = r) then (M !!! r) !!! col else x00)
                                             (if decide (c = col) then (M !!! r) !!! col else x00))).
      + rewrite gsum_add, (gsum_single _ r), (gsum_single _ col); [|lia| |lia|];
          try (intros; by rewrite decide_False).
        rewrite !decide_True by done. apply gf_add_nilp.
      + intros c Hc. unfold v. destruct (decide (c < col)).
        * rewrite Hu by lia. rewrite (decide_False (P := c = col)) by lia.
          repeat case_decide; subst; try done; ring.
        * rewrite (decide_False (P := c = r)) by lia. case_decide; subst; ring.
    - apply gsum_zero. intros c Hc. unfold v. destruct (decide (c < col)).
      + rewrite Hu by lia. rewrite decide_False by lia. ring.
      + case_decide; [subst; rewrite Hz by lia|]; ring. }
  specialize (Htriv v Hk col Hcol). unfold v in Htriv.
  rewrite decide_False, decide_True in Htriv by lia. done.
Qed.

Lemma gauss_col_ok k L col M B :
  col < k -> sys_wf k L (M, B) -> unit_cols k col M -> trivial_kernel k M ->
  exists s', gauss_col k L col (M, B) = Some s' /\
    step_ok k L (M, B) s' /\ unit_cols k (S col) s'.1.
Proof.
  intros Hcol Hwf Hu Htriv. unfold gauss_col.
  destruct (find_pivot k col M) as [p|] eqn:Hp;
    [|by apply find_pivot_None in Hp].
  apply find_pivot_Some in Hp as [Hp Hnz].
  pose proof Hwf as [[HM _] [HB _]]. simpl in HM, HB.
  assert ((if p =? col then M else swap_rows col p M) = swap_rows col p M) as ->.
  { destruct (Nat.eqb_spec p col); [subst; by rewrite swap_same by lia|done]. }
  assert ((if p =? col then B else swap_rows col p B) = swap_rows col p B) as ->.
  { destruct (Nat.eqb_spec p col); [subst; by rewrite swap_same by lia|done]. }
  pose proof (swap_step k L col p M B Hcol ltac:(lia) Hwf) as Hstep1.
  pose proof (swap_unit_cols k col p M ltac:(lia) ltac:(lia) HM Hu) as Hu1.
  assert ((swap_rows col p M !!! col) !!! col <> x00) as Hnz1.
  { rewrite swap_lookup by lia. by rewrite decide_True. }
  generalize dependent (swap_rows col p M). intros M1 Hstep1 Hu1 Hnz1.
  generalize dependent (swap_rows col p B). intros B1 Hstep1.
  pose proof (proj1 Hstep1) as Hwf1.
  assert (forall c, c < col -> (M1 !!! col) !!! c = x00) as Hlow.
  { intros c Hc. rewrite Hu1 by lia. by rewrite decide_False by lia. }
  pose proof (scale_step k L col M1 B1 _ Hcol Hwf1 (gf_inv_neq_0 _ Hnz1) Hlow) as Hstep2.
  pose proof (scaled_lookup k L col M1 B1 (gf_inv ((M1 !!! col) !!! col)) Hcol Hwf1 Hlow) as Hsc.
  change (<[col:=scale_row col k (gf_inv ((M1 !!! col) !!! col)) (M1 !!! col)]> M1,
          <[col:=scale_row 0 L (gf_inv ((M1 !!! col) !!! col)) (B1 !!! col)]> B1)
    with (scaled k L col M1 B1 (gf_inv ((M1 !!! col) !!! col))).
  destruct (scaled k L col M1 B1 (gf_inv ((M1 !!! col) !!! col))) as [M2 B2].
  simpl in Hsc. destruct Hwf1 as [[_ HM1r] _]. simpl in HM1r.
  assert ((M2 !!! col) !!! col = x01) as Hpiv.
  { destruct (Hsc col) as [-> _]. rewrite decide_True, scale_all_lookup by (rewrite ?HM1r; done).
    rewrite gf_mul_comm. by apply gf_inv_l. }
  assert (unit_cols k col M2) as Hu2.
  { intros r c Hr Hc. destruct (Hsc r) as [-> _]. case_decide; [|by apply Hu1]. subst r.
    rewrite scale_all_lookup by (rewrite HM1r; lia). rewrite Hlow by done.
    rewrite decide_False by lia. ring. }
  eexists. split; [done|]. pose proof (proj1 Hstep2) as Hwf2. split.
  - eapply step_ok_trans; [done|]. eapply step_ok_trans; [done|].
    by apply eliminate_step.
  - by apply eliminate_unit_cols.
Qed.

Lemma trivial_kernel_step k L s s' :
  step_ok k L s s' -> trivial_kernel k s.1 -> trivial_kernel k s'.1.
Proof. intros (_ & _ & Hk) Ht v Hv. apply Ht. by apply Hk. Qed.

Lemma gauss_cols_ok k L n col s :
  col + n = k -> sys_wf k L s -> unit_cols k col s.1 -> trivial_kernel k s.1 ->
  exists s', gauss_cols k L (seq col n) s = Some s' /\
    step_ok k L s s' /\ unit_cols k k s'.1.
Proof.
  revert col s. induction n as [|n IH]; intros col [M B] Hn Hwf Hu Ht; cbn [seq gauss_cols].
  - replace k with col by lia. replace col with k in Hu |- * by lia.
    eexists; split; [done|]. split; [|done]. by split_and!.
  - destruct (gauss_col_ok k L col M B) as (s' & -> & Hstep & Hu'); [lia|done..|].
    destruct (IH (S col) s') as (s'' & Hs'' & Hstep' & Hu''); [lia| |done| |].
    + apply Hstep.
    + by eapply trivial_kernel_step.
    + exists s''. split_and!; [done| |done]. by eapply step_ok_trans.
Qed.

(** On a system with a trivial kernel the decoder returns its solution: if the
    columns of [X] solve it, the result is [X]. *)
Lemma gauss_decode_solution k L enc idxs data (X : matrix) :
  shape k k (decode_matrix k enc idxs) -> shape k L data -> shape k L X ->
  trivial_kernel k (decode_matrix k enc idxs) ->
  (forall b, b < L ->
     solves k (decode_matrix k enc idxs, data) (fun i => (X !!! i) !!! b) b) ->
  gauss_decode k enc idxs data L = X.
Proof.
  intros HM HB HX Ht Hsol. unfold gauss_decode.
  destruct (gauss_cols_ok k L k 0 (decode_matrix k enc idxs, data))
    as ([M' B'] & -> & ([HM' HB'] & Hsol' & _) & Hu); [done|by split|by intros ?? ? ?; lia|done|].
  simpl in *. destruct HB' as [HB'l HB'r], HX as [HXl HXr].
  apply list_eq_total; [congruence|]. rewrite HB'l. intros r Hr.
  apply list_eq_total; [by rewrite HB'r, HXr|]. rewrite HB'r by done. intros b Hb.
  specialize (Hsol' _ b Hb (Hsol b Hb) r Hr). simpl in Hsol'. rewrite <-Hsol'.
  unfold dot. rewrite (gsum_single _ r); [|done|].
  - rewrite Hu by done. rewrite decide_True by done. apply gf_mul_1_l.
  - intros c Hc Hne. rewrite Hu by done. rewrite decide_False by done. apply gf_mul_0_l.
Qed.

End Gauss.
