(* ===== verification/Cauchy.v ===== *)
(** * The Cauchy encoding matrix of the FEC codec

    [FecCodec::build_enc_matrix] and [FecCodec::compute_parity], and the proof
    that any k distinct rows of the full encoding matrix (identity over Cauchy)
    are linearly independent (src/src/mesh/net/udp/FecCodec.cpp). *)

From S2P Require Import Prelude GF256 GaussJordan.

Module Cauchy.
Import GF Gauss.

(** ** The code *)

(** [enc_[j][i] = gf_inv(uint8_t(i) ^ uint8_t(k_ + j))] *)
Definition build_enc_matrix (k m : nat) : matrix :=
  map (fun j => map (fun i => gf_inv (gf_add (n2b i) (n2b (k + j)))) (seq 0 k)) (seq 0 m).

Definition max_len (data : list bytes) : nat :=
  foldl (fun acc d => Nat.max acc (length d)) 0 data.

(** [b < data[i].size() ? data[i][b] : 0] *)
Definition padded (d : bytes) (b : nat) : byte :=
  if b <? length d then d !!! b else x00.

(** One pass of the two inner loops: add data packet [i] to the parity row. *)
Definition parity_row (k : nat) (coeffs : row) (data : list bytes) (len : nat) : row :=
  for_loop k
    (fun i acc => imap (fun b x => gf_add x (gf_mul (coeffs !!! i) (padded (data !!! i) b))) acc)
    (replicate len x00).

Definition compute_parity (k m : nat) (enc : matrix) (data : list bytes) : matrix :=
  map (fun j => parity_row k (enc !!! j) data (max_len data)) (seq 0 m).

(** ** Sums over a list of field elements *)

Definition lsum (l : list byte) (f : byte -> byte) : byte :=
  foldr (fun x acc => gf_add (f x) acc) x00 l.

Lemma lsum_scale l a f : lsum l (fun x => gf_mul a (f x)) = gf_mul a (lsum l f).
Proof. induction l as [|x l IH]; simpl; [ring|]. rewrite IH. ring. Qed.

Lemma lsum_add l f g : lsum l (fun x => gf_add (f x) (g x)) = gf_add (lsum l f) (lsum l g).
Proof. induction l as [|x l IH]; simpl; [ring|]. rewrite IH. ring. Qed.

Lemma lsum_ext l f g : (forall x, x ∈ l -> f x = g x) -> lsum l f = lsum l g.
Proof.
  induction l as [|x l IH]; intros H; simpl; [done|].
  rewrite (H x) by (by left). f_equal. apply IH. intros; apply H; by right.
Qed.

Lemma lsum_zero l f : (forall x, x ∈ l -> f x = x00) -> lsum l f = x00.
Proof.
  intros H. rewrite (lsum_ext l f (fun _ => gf_mul x00 x00)) by (intros; by rewrite H).
  rewrite lsum_scale. ring.
Qed.

Lemma gf_add_neq_0 a b : a <> b -> gf_add a b <> x00.
Proof. intros H H0. by apply H, gf_add_eq_0. Qed.

(** The elimination identity of a Cauchy matrix. *)
Lemma cauchy_term x0 y0 x y w :
  x <> y -> x <> y0 ->
  gf_add (gf_mul (gf_add x0 y) (gf_mul w (gf_inv (gf_add x y))))
         (gf_mul (gf_add x0 y0) (gf_mul w (gf_inv (gf_add x y0)))) =
  gf_mul (gf_add y0 y)
    (gf_mul (gf_mul (gf_mul w (gf_add x0 x)) (gf_inv (gf_add x y0))) (gf_inv (gf_add x y))).
Proof. intros H1%gf_add_neq_0 H0%gf_add_neq_0. field. done. Qed.

(** Eliminating [x0] between the rows of [y0] and [y] leaves a Cauchy row in the
    remaining unknowns, scaled. *)
Lemma cauchy_reduce x0 y0 y xs (w : byte -> byte) :
  x0 <> y -> x0 <> y0 -> y0 <> y -> (forall x, x ∈ xs -> x <> y /\ x <> y0) ->
  lsum (x0 :: xs) (fun x => gf_mul (w x) (gf_inv (gf_add x y))) = x00 ->
  lsum (x0 :: xs) (fun x => gf_mul (w x) (gf_inv (gf_add x y0))) = x00 ->
  lsum xs (fun x => gf_mul (gf_mul (gf_mul (w x) (gf_add x0 x)) (gf_inv (gf_add x y0)))
                           (gf_inv (gf_add x y))) = x00.
Proof.
  intros N1%gf_add_neq_0 N2%gf_add_neq_0 N3%gf_add_neq_0 Hx E1 E2. simpl in E1, E2.
  apply gf_add_eq_0 in E1, E2.
  assert (gf_mul (gf_add y0 y) (lsum xs (fun x => gf_mul (gf_mul (gf_mul (w x)
    (gf_add x0 x)) (gf_inv (gf_add x y0))) (gf_inv (gf_add x y)))) = x00) as H.
  { rewrite <-lsum_scale.
    rewrite (lsum_ext _ _ (fun x =>
      gf_add (gf_mul (gf_add x0 y) (gf_mul (w x) (gf_inv (gf_add x y))))
             (gf_mul (gf_add x0 y0) (gf_mul (w x) (gf_inv (gf_add x y0)))))).
    - rewrite lsum_add, !lsum_scale, <-E1, <-E2. field. done.
    - intros x Hin. destruct (Hx x Hin). symmetry. by apply cauchy_term. }
  by destruct (gf_mul_eq_0 _ _ H).
Qed.

Lemma gf_inv_add_neq_0 a b : a <> b -> gf_inv (gf_add a b) <> x00.
Proof. intros. by apply gf_inv_neq_0, gf_add_neq_0. Qed.

(** A square Cauchy system has only the zero solution. *)
Lemma cauchy_kernel xs ys (w : byte -> byte) :
  length xs <= length ys -> NoDup xs -> NoDup ys ->
  (forall x y, x ∈ xs -> y ∈ ys -> x <> y) ->
  (forall y, y ∈ ys -> lsum xs (fun x => gf_mul (w x) (gf_inv (gf_add x y))) = x00) ->
  forall x, x ∈ xs -> w x = x00.
Proof.
  revert ys w. induction xs as [|x0 xs IH]; intros ys w Hlen Hxs Hys Hd Hs; [by intros x Hx%not_elem_of_nil|].
  destruct ys as [|y0 ys]; simpl in Hlen; [lia|].
  apply NoDup_cons in Hxs as [Hx0 Hxs]. apply NoDup_cons in Hys as [Hy0 Hys].
  assert (forall x, x ∈ xs -> w x = x00) as Htl.
  { intros x Hx.
    assert (gf_mul (gf_mul (w x) (gf_add x0 x)) (gf_inv (gf_add x y0)) = x00) as H.
    { apply (IH ys (fun x => gf_mul (gf_mul (w x) (gf_add x0 x)) (gf_inv (gf_add x y0))));
        [lia|done|done| | |done].
      - intros a b Ha Hb. apply Hd; by right.
      - intros y Hy. apply cauchy_reduce.
        + apply Hd; [by left|by right].
        + apply Hd; by left.
        + by intros ->.
        + intros x' Hx'. split; apply Hd; try (by left); by right.
        + apply Hs. by right.
        + apply Hs. by left. }
    destruct (gf_mul_eq_0 _ _ H) as [H'|H'].
    - destruct (gf_mul_eq_0 _ _ H') as [|E]; [done|]. apply gf_add_eq_0 in E. by subst.
    - exfalso. eapply gf_inv_add_neq_0; [|exact H']. apply Hd; [by right|by left]. }
  intros x [->|Hx]%elem_of_cons; [|by apply Htl].
  pose proof (Hs y0 ltac:(by left)) as E. simpl in E.
  rewrite lsum_zero in E by (intros; rewrite Htl by done; apply gf_mul_0_l).
  rewrite gf_add_comm, gf_add_0_l in E. destruct (gf_mul_eq_0 _ _ E) as [|H']; [done|].
  exfalso. eapply gf_inv_add_neq_0; [|exact H']. apply Hd; by left.
Qed.

(** ** The rows of the decoding matrix *)

Lemma length_build_enc_matrix k m : length (build_enc_matrix k m) = m.
Proof. unfold build_enc_matrix. by rewrite length_map, length_seq. Qed.

Lemma lookup_total_map_seq {B} `{!Inhabited B} (f : nat -> B) n i :
  i < n -> map f (seq 0 n) !!! i = f i.
Proof.
  intros Hi. apply list_lookup_total_correct. rewrite list_lookup_fmap.
  rewrite lookup_seq_lt by done. done.
Qed.

Lemma enc_lookup k m j i :
  j < m -> i < k ->
  (build_enc_matrix k m !!! j) !!! i = gf_inv (gf_add (n2b i) (n2b (k + j))).
Proof. intros Hj Hi. unfold build_enc_matrix. by rewrite !lookup_total_map_seq. Qed.

Lemma enc_row_length k m j : j < m -> length (build_enc_matrix k m !!! j) = k.
Proof.
  intros Hj. unfold build_enc_matrix. rewrite lookup_total_map_seq by done.
  by rewrite length_map, length_seq.
Qed.

Lemma decode_row_length k m idx :
  idx < k + m -> length (decode_row k (build_enc_matrix k m) idx) = k.
Proof.
  intros Hi. unfold decode_row. destruct (Nat.ltb_spec idx k).
  - by rewrite length_insert, length_replicate.
  - apply enc_row_length. lia.
Qed.

(** The coefficient of data packet [i] in transmitted packet [idx]. *)
Definition coeff (k idx i : nat) : byte :=
  if idx <? k then (if decide (i = idx) then x01 else x00)
  else gf_inv (gf_add (n2b i) (n2b idx)).

Lemma decode_row_lookup k m idx i :
  idx < k + m -> i < k ->
  decode_row k (build_enc_matrix k m) idx !!! i = coeff k idx i.
Proof.
  intros Hx Hi. unfold decode_row, coeff. destruct (Nat.ltb_spec idx k).
  - rewrite lookup_total_insert by (by rewrite length_replicate).
    case_decide; [done|]. by apply lookup_total_replicate_2.
  - rewrite enc_lookup by lia. repeat f_equal. lia.
Qed.

Lemma decode_matrix_lookup k enc idxs r :
  r < k -> decode_matrix k enc idxs !!! r = decode_row k enc (idxs !!! r).
Proof. intros. unfold decode_matrix. by rewrite lookup_total_map_seq. Qed.

Section kernel.
Context (k m : nat) (idxs : list nat).
Context (Hkm : k + m <= 254) (Hlen : length idxs = k) (Hnd : NoDup idxs).
Context (Hidx : forall i, i ∈ idxs -> i < k + m).

Lemma decode_matrix_shape : shape k k (decode_matrix k (build_enc_matrix k m) idxs).
Proof.
  split; [by unfold decode_matrix; rewrite length_map, length_seq|].
  intros r Hr. rewrite decode_matrix_lookup by done. apply decode_row_length, Hidx.
  apply list_elem_of_lookup_total_2. lia.
Qed.

(** The missing data packets are as many as the received parity packets. *)
Lemma missing_parity_count :
  length (filter (.∉ idxs) (seq 0 k)) = length (filter (fun i => ~ i < k) idxs).
Proof.
  pose proof (length_filter_split (.∈ idxs) (seq 0 k)) as H1.
  pose proof (length_filter_split (fun i => i < k) idxs) as H2.
  assert (filter (.∈ idxs) (seq 0 k) ≡ₚ filter (fun i => i < k) idxs) as H3%Permutation_length.
  { apply NoDup_Permutation.
    - apply NoDup_filter, NoDup_seq.
    - by apply NoDup_filter.
    - intros i. rewrite !list_elem_of_filter, elem_of_seq. split; intros [? ?]; split; try done; lia. }
  rewrite length_seq in H1. lia.
Qed.

Definition nsum (l : list nat) (f : nat -> byte) : byte :=
  foldr (fun i acc => gf_add (f i) acc) x00 l.

Lemma nsum_app l1 l2 f : nsum (l1 ++ l2) f = gf_add (nsum l1 f) (nsum l2 f).
Proof. induction l1 as [|i l IH]; simpl; [ring|]. rewrite IH. ring. Qed.

Lemma gsum_nsum n f : gsum n f = nsum (seq 0 n) f.
Proof.
  induction n as [|n IH]; [done|]. rewrite seq_S, nsum_app. simpl. rewrite IH. ring.
Qed.

Lemma nsum_filter l f :
  (forall i, i ∈ l -> i ∈ idxs -> f i = x00) -> nsum (filter (.∉ idxs) l) f = nsum l f.
Proof.
  induction l as [|i l IH]; intros H; [done|]. rewrite filter_cons. simpl.
  assert (nsum (filter (.∉ idxs) l) f = nsum l f) as IH'
    by (apply IH; intros; apply H; [by right|done]).
  case_decide; simpl; rewrite IH'; [done|]. rewrite (H i); [ring|by left|].
  destruct (decide (i ∈ idxs)); [done|]. by exfalso.
Qed.

Lemma nsum_lsum l g : nsum l (fun i => g (n2b i)) = lsum (n2b <$> l) g.
Proof. induction l as [|i l IH]; simpl; [done|]. by rewrite IH. Qed.

Lemma decode_matrix_kernel : trivial_kernel k (decode_matrix k (build_enc_matrix k m) idxs).
Proof.
  intros v Hv.
  assert (forall p, p ∈ idxs -> gsum k (fun i => gf_mul (coeff k p i) (v i)) = x00) as Hrow.
  { intros p Hp. apply list_elem_of_lookup_total_1 in Hp as (r & Hr & <-).
    rewrite Hlen in Hr. rewrite <-(Hv r Hr). apply gsum_ext. intros i Hi.
    rewrite decode_matrix_lookup, decode_row_lookup; [done| |done|done].
    apply Hidx, list_elem_of_lookup_total_2. lia. }
  assert (forall i, i ∈ idxs -> i < k -> v i = x00) as Hdata.
  { intros i Hi Hik. specialize (Hrow i Hi). unfold coeff in Hrow.
    apply Nat.ltb_lt in Hik as Hb. rewrite Hb in Hrow.
    rewrite (gsum_single _ i) in Hrow; [|done|].
    - rewrite decide_True in Hrow by done. by rewrite gf_mul_1_l in Hrow.
    - intros j Hj Hne. rewrite decide_False by done. apply gf_mul_0_l. }
  intros c Hc. destruct (decide (c ∈ idxs)) as [|Hmiss]; [by apply Hdata|].
  assert (b2n (n2b c) = c) as Hcb by (apply b2n_n2b; lia). rewrite <-Hcb.
  apply (cauchy_kernel (n2b <$> filter (.∉ idxs) (seq 0 k))
           (n2b <$> filter (fun i => ~ i < k) idxs) (fun x => v (b2n x))).
  - rewrite !length_fmap. rewrite missing_parity_count. done.
  - apply NoDup_fmap_2_strong; [|apply NoDup_filter, NoDup_seq].
    intros a b Ha%list_elem_of_filter Hb%list_elem_of_filter.
    rewrite elem_of_seq in Ha, Hb. apply n2b_inj; lia.
  - apply NoDup_fmap_2_strong; [|by apply NoDup_filter].
    intros a b [_ Ha%Hidx]%list_elem_of_filter [_ Hb%Hidx]%list_elem_of_filter.
    apply n2b_inj; lia.
  - intros x y (a & -> & Ha)%list_elem_of_fmap (b & -> & Hb)%list_elem_of_fmap Heq.
    apply list_elem_of_filter in Ha as [_ Ha%elem_of_seq], Hb as [Hb1 Hb2%Hidx].
    apply n2b_inj in Heq; lia.
  - intros y (p & -> & Hp)%list_elem_of_fmap.
    apply list_elem_of_filter in Hp as [Hp1 Hp2].
    rewrite <-nsum_lsum, nsum_filter.
    + rewrite <-gsum_nsum, <-(Hrow p Hp2). apply gsum_ext. intros i Hi. unfold coeff.
      rewrite (proj2 (Nat.ltb_ge p k)) by lia. rewrite b2n_n2b by lia. apply gf_mul_comm.
    + intros i Hi%elem_of_seq Hin. rewrite b2n_n2b, Hdata by (done || lia). apply gf_mul_0_l.
  - apply list_elem_of_fmap_2, list_elem_of_filter. rewrite elem_of_seq. split; [done|lia].
Qed.
End kernel.

End Cauchy.
