(* ===== verification/FecFrame.v ===== *)
(** * The wire header of FEC datagrams

    The 14-byte header: magic, version, group, sequence number, k, m and payload
    length, as [FecCodec::make_header], [is_fec_frame], [frame_config] and
    [parse_header] write and read it (src/src/mesh/net/udp/FecCodec.cpp). *)

From S2P Require Import Prelude.

Module Frame.

Definition kHeaderSize : nat := 14.

(** The out-parameters of [parse_header]. *)
Record header := Header {
  h_group_id : Z;     (* uint32_t *)
  h_seq : nat;        (* uint8_t *)
  h_num_data : nat;   (* uint8_t *)
  h_num_roots : nat;  (* uint8_t *)
  h_data_len : Z      (* uint16_t *)
}.

Definition make_header (group_id : Z) (seq num_data num_roots : nat) (data_len : Z) : bytes :=
  [x4d; x46; x45; x43; x01;
   byte_at group_id 24; byte_at group_id 16; byte_at group_id 8; byte_at group_id 0;
   n2b seq; n2b num_data; n2b num_roots;
   byte_at data_len 8; byte_at data_len 0].

Definition is_fec_frame (datagram : bytes) : bool :=
  (kHeaderSize <=? length datagram) &&
  bool_decide (datagram !!! 0 = x4d) &&
  bool_decide (datagram !!! 1 = x46) &&
  bool_decide (datagram !!! 2 = x45) &&
  bool_decide (datagram !!! 3 = x43) &&
  bool_decide (datagram !!! 4 = x01).

Definition frame_config (datagram : bytes) : option (nat * nat) :=
  if negb (is_fec_frame datagram) then None
  else Some (b2n (datagram !!! 10), b2n (datagram !!! 11)).

Definition parse_header (dg : bytes) : option header :=
  if length dg <? kHeaderSize then None
  else if negb (is_fec_frame dg) then None
  else Some {|
    h_group_id := be32 (dg !!! 5) (dg !!! 6) (dg !!! 7) (dg !!! 8);
    h_seq := b2n (dg !!! 9);
    h_num_data := b2n (dg !!! 10);
    h_num_roots := b2n (dg !!! 11);
    h_data_len := be16 (dg !!! 12) (dg !!! 13)
  |}.

(** The field widths of the C++ types. *)
Definition header_ok (h : header) : Prop :=
  (0 <= h_group_id h < 2 ^ 32)%Z /\ h_seq h < 256 /\ h_num_data h < 256 /\
  h_num_roots h < 256 /\ (0 <= h_data_len h < 2 ^ 16)%Z.

Definition write_header (h : header) : bytes :=
  make_header (h_group_id h) (h_seq h) (h_num_data h) (h_num_roots h) (h_data_len h).

Lemma length_make_header g s k m l : length (make_header g s k m l) = kHeaderSize.
Proof. done. Qed.

Lemma make_header_is_frame g s k m l payload :
  is_fec_frame (make_header g s k m l ++ payload) = true.
Proof.
  unfold is_fec_frame. rewrite length_app, length_make_header.
  rewrite (proj2 (Nat.leb_le _ _)) by lia. by rewrite !bool_decide_true.
Qed.

Lemma parse_make_header h payload :
  header_ok h -> parse_header (write_header h ++ payload) = Some h.
Proof.
  destruct h as [g s k m l]. intros (Hg & Hs & Hk & Hm & Hl). simpl in Hg, Hs, Hk, Hm, Hl.
  unfold parse_header, write_header. cbn [h_group_id h_seq h_num_data h_num_roots h_data_len].
  rewrite length_app, length_make_header, make_header_is_frame. simpl.
  rewrite be32_byte_at, be16_byte_at, !b2n_n2b by done. done.
Qed.

Lemma frame_config_make_header g s k m l payload :
  k < 256 -> m < 256 -> frame_config (make_header g s k m l ++ payload) = Some (k, m).
Proof.
  intros Hk Hm. unfold frame_config. rewrite make_header_is_frame. simpl. by rewrite !b2n_n2b.
Qed.

Lemma parse_header_length dg h : parse_header dg = Some h -> kHeaderSize <= length dg.
Proof. unfold parse_header. intros H. case_in H; [done|]. by bool_to_prop. Qed.

Lemma parse_header_write dg h :
  parse_header dg = Some h -> take kHeaderSize dg = write_header h.
Proof.
  intros H. pose proof (parse_header_length _ _ H) as Hlen. unfold parse_header in H.
  do 2 (case_in H; [done|]). simplify_eq. bool_to_prop.
  unfold is_fec_frame in *. bool_to_prop. unfold kHeaderSize in *.
  unfold write_header. cbn [h_group_id h_seq h_num_data h_num_roots h_data_len].
  do 14 (destruct dg as [|? dg]; [simpl in *; lia|]). simpl in *. subst.
  unfold make_header. rewrite !n2b_b2n.
  by destruct (byte_at_be32 b4 b5 b6 b7) as (-> & -> & -> & ->),
    (byte_at_be16 b11 b12) as (-> & ->).
Qed.

(** A header written by [make_header] is read back by [parse_header] field
    by field, whatever payload follows, for every value of the C++ field types. *)
Theorem header_roundtrip (h : header) (payload : bytes) (Hok : header_ok h) :
  parse_header (write_header h ++ payload) = Some h /\
  frame_config (write_header h ++ payload) = Some (h_num_data h, h_num_roots h).
Proof.
  split; [by apply parse_make_header|]. destruct Hok as (_ & _ & Hk & Hm & _).
  unfold write_header. by rewrite frame_config_make_header.
Qed.

Lemma header_roundtrip_witness :
  parse_header (write_header (Header 305419896 5 4 2 1000) ++ [x61; x62]) =
    Some (Header 305419896 5 4 2 1000) /\
  frame_config (write_header (Header 305419896 5 4 2 1000) ++ [x61; x62]) = Some (4, 2).
Proof.
  apply (header_roundtrip (Header 305419896 5 4 2 1000) [x61; x62]).
  unfold header_ok; simpl; lia.
Defined.

(** [parse_header] accepts exactly the datagrams that start with a header
    [make_header] can write, so the two are inverse: a parsed header rewrites
    to the first 14 bytes of the datagram. *)
Theorem parse_header_exact (dg : bytes) (h : header) (Hparse : parse_header dg = Some h) :
  dg = write_header h ++ drop kHeaderSize dg /\ header_ok h.
Proof.
  split.
  - rewrite <-(parse_header_write dg h) by done. by rewrite take_drop.
  - unfold parse_header in Hparse. do 2 (case_in Hparse; [done|]). simplify_eq.
    unfold header_ok; simpl. split_and!; try apply b2n_range; try apply be16_range;
      apply be32_range.
Qed.

Lemma parse_header_exact_witness :
  [x4d; x46; x45; x43; x01; x00; x00; x00; x07; x01; x04; x02; x00; x01; xff] =
    write_header (Header 7 1 4 2 1) ++ [xff] /\ header_ok (Header 7 1 4 2 1).
Proof.
  apply (parse_header_exact
    [x4d; x46; x45; x43; x01; x00; x00; x00; x07; x01; x04; x02; x00; x01; xff]
    (Header 7 1 4 2 1)).
  vm_compute. reflexivity.
Defined.

End Frame.
