(* ===== verification/FecCodec.v ===== *)
(** * The forward-error-correction codec

    The state of [FecCodec], its constructor, [encode], [decode], [try_deliver]
    and [remember_receive_group], with the invariants of the sender and of the
    receiver (src/src/mesh/net/udp/FecCodec.{h,cpp}). *)

From S2P Require Import Prelude GF256 GaussJordan Cauchy FecFrame.

Module Fec.
Import GF Gauss Cauchy Frame.

Definition kMaxReceiveGroups : nat := 256.

(** [RecvGroup]; a default-constructed group has [k == 0]. *)
Record RecvGroup := {
  g_k : nat;
  g_m : nat;
  slots : list (option bytes);
  data_lens : list Z;
  received : nat;
  delivered : bool
}.

Definition empty_group : RecvGroup := {|
  g_k := 0; g_m := 0; slots := []; data_lens := []; received := 0; delivered := false
|}.

Record FecCodec := {
  k_ : nat;
  m_ : nat;
  enc_ : matrix;
  send_group_id_ : Z;
  send_seq_ : nat;
  send_buf_ : list bytes;
  send_lens_ : list Z;
  recv_groups_ : gmap Z RecvGroup;
  recv_group_order_ : list Z
}.

(** The exceptions the class throws. *)
Inductive fec_error :=
| NoDataPacket        (* "requires at least one data packet per group" *)
| NoParityPacket      (* "requires at least one parity packet" *)
| TooManyPackets      (* "requires data packets + roots <= 254" *)
| PayloadTooLarge     (* "FEC payload is too large" *)
| ParityTooLarge.     (* "FEC parity payload is too large" *)

(** ** Construction *)

Definition make_codec (k m : nat) : outcome fec_error FecCodec :=
  if k <? 1 then Err NoDataPacket
  else if m <? 1 then Err NoParityPacket
  else if 254 <? k + m then Err TooManyPackets
  else Ok {|
    k_ := k; m_ := m; enc_ := build_enc_matrix k m;
    send_group_id_ := 0; send_seq_ := 0; send_buf_ := []; send_lens_ := [];
    recv_groups_ := ∅; recv_group_order_ := []
  |}.

(** ** Sending *)

Record EncodeResult := { data_frame : bytes; parity_frames : list bytes }.

(** Update of the sender's members. *)
Definition set_send (c : FecCodec) (gid : Z) (seq : nat) (buf : list bytes) (lens : list Z)
    : FecCodec := {|
  k_ := k_ c; m_ := m_ c; enc_ := enc_ c;
  send_group_id_ := gid; send_seq_ := seq; send_buf_ := buf; send_lens_ := lens;
  recv_groups_ := recv_groups_ c; recv_group_order_ := recv_group_order_ c
|}.

(** The length manifest at the front of a parity payload. *)
Definition manifest (lens : list Z) : bytes :=
  lens ≫= fun len => [byte_at len 8; byte_at len 0].

(** The loop over the parity rows; it throws at the first payload that does not
    fit the 16-bit length field. *)
Fixpoint parity_loop (gid : Z) (k m : nat) (lens : list Z) (parity_vecs : matrix) (js : list nat)
    : outcome fec_error (list bytes) :=
  match js with
  | [] => Ok []
  | j :: js =>
      let parity_payload := manifest lens ++ parity_vecs !!! j in
      if (65535 <? Z.of_nat (length parity_payload))%Z then Err ParityTooLarge
      else
        let plen_p := u16 (Z.of_nat (length parity_payload)) in
        let parity_seq := Z.to_nat (u8 (Z.of_nat (k + j))) in
        match parity_loop gid k m lens parity_vecs js with
        | Ok fs => Ok ((make_header gid parity_seq k m plen_p ++ parity_payload) :: fs)
        | Err e => Err e
        end
  end.

Definition encode (c : FecCodec) (payload : bytes) : FecCodec * outcome fec_error EncodeResult :=
  let max_payload_len := (65535 - 2 * Z.of_nat (k_ c))%Z in
  if (max_payload_len <? Z.of_nat (length payload))%Z then (c, Err PayloadTooLarge)
  else
    let plen := u16 (Z.of_nat (length payload)) in
    let frame := make_header (send_group_id_ c) (send_seq_ c) (k_ c) (m_ c) plen ++ payload in
    let buf := send_buf_ c ++ [payload] in
    let lens := send_lens_ c ++ [plen] in
    let seq := Z.to_nat (u8 (Z.of_nat (send_seq_ c + 1))) in
    if seq =? k_ c then
      let parity_vecs := compute_parity (k_ c) (m_ c) (enc_ c) buf in
      match parity_loop (send_group_id_ c) (k_ c) (m_ c) lens parity_vecs (List.seq 0 (m_ c)) with
      | Err e => (set_send c (send_group_id_ c) seq buf lens, Err e)
      | Ok fs =>
          (set_send c (u32 (send_group_id_ c + 1)) 0 [] [],
           Ok {| data_frame := frame; parity_frames := fs |})
      end
    else (set_send c (send_group_id_ c) seq buf lens,
          Ok {| data_frame := frame; parity_frames := [] |}).

(** ** Receiving *)

Definition set_recv (c : FecCodec) (groups : gmap Z RecvGroup) (order : list Z) : FecCodec := {|
  k_ := k_ c; m_ := m_ c; enc_ := enc_ c;
  send_group_id_ := send_group_id_ c; send_seq_ := send_seq_ c;
  send_buf_ := send_buf_ c; send_lens_ := send_lens_ c;
  recv_groups_ := groups; recv_group_order_ := order
|}.

(** The [while] loop of [remember_receive_group]; each round shortens the deque. *)
Fixpoint evict (gid : Z) (order : list Z) (groups : gmap Z RecvGroup) (excess : nat)
    {struct excess} : gmap Z RecvGroup * list Z :=
  match excess with
  | 0 => (groups, order)
  | S n =>
      match order with
      | [] => (groups, [])
      | stale :: order =>
          let groups := if (stale =? gid)%Z then groups else delete stale groups in
          evict gid order groups n
      end
  end.

Definition remember_receive_group (gid : Z) (groups : gmap Z RecvGroup) (order : list Z)
    : gmap Z RecvGroup * list Z :=
  let order := order ++ [gid] in
  evict gid order groups (length order - kMaxReceiveGroups).

(** Zero-padding of a received slot to the symbol length. *)
Definition pad_to (len : nat) (s : bytes) : bytes := s ++ replicate (len - length s) x00.

(** The longest of the filled slots [0 .. n-1]. *)
Definition symbol_length (n : nat) (sl : list (option bytes)) : nat :=
  foldl (fun acc i => match sl !!! i with Some s => Nat.max acc (length s) | None => acc end)
        0 (List.seq 0 n).

(** The indices of the first [k] filled slots among [0 .. n-1]. *)
Definition filled_indices (k n : nat) (sl : list (option bytes)) : list nat :=
  take k (filter (fun i => is_Some (sl !!! i)) (List.seq 0 n)).

Definition slot_data (sl : list (option bytes)) (i : nat) : bytes := default [] (sl !!! i).

(** The group is marked delivered and then erased, in one step. *)
Definition try_deliver (c : FecCodec) (gid : Z) : FecCodec * list bytes :=
  match recv_groups_ c !! gid with
  | None => (c, [])
  | Some g =>
      if delivered g || (received g <? g_k g) then (c, [])
      else
        let symbol_len := symbol_length (g_k g + g_m g) (slots g) in
        let indices := filled_indices (g_k g) (g_k g + g_m g) (slots g) in
        let raw_data := map (fun i => pad_to symbol_len (slot_data (slots g) i)) indices in
        let recovered := gauss_decode (k_ c) (enc_ c) indices raw_data symbol_len in
        match recovered with
        | [] => (c, [])
        | _ =>
            let result :=
              map (fun i => take (Nat.min (Z.to_nat (data_lens g !!! i)) (length (recovered !!! i)))
                                 (recovered !!! i))
                  (List.seq 0 (g_k g)) in
            (set_recv c (delete gid (recv_groups_ c)) (recv_group_order_ c), result)
        end
  end.

(** The length manifest read back into [group.data_lens]. *)
Definition read_manifest (num_data : nat) (payload : bytes) (lens : list Z) : list Z :=
  imap (fun i old => if i <? num_data
                     then be16 (payload !!! (2 * i)) (payload !!! (2 * i + 1)) else old) lens.

(** Storing one frame in its group; [None] is an early [return {}]. *)
Definition store_frame (num_data seq : nat) (data_len : Z) (payload : bytes) (g : RecvGroup)
    : option RecvGroup :=
  if Z.to_nat (u8 (Z.of_nat (length (slots g)))) <=? seq then None
  else if bool_decide (is_Some (slots g !!! seq)) then None
  else if num_data <=? seq then
    if length payload <? 2 * num_data then None
    else Some {|
      g_k := g_k g; g_m := g_m g;
      slots := <[seq := Some (drop (2 * num_data) payload)]> (slots g);
      data_lens := read_manifest num_data payload (data_lens g);
      received := received g + 1; delivered := delivered g |}
  else Some {|
    g_k := g_k g; g_m := g_m g;
    slots := <[seq := Some payload]> (slots g);
    data_lens := <[seq := data_len]> (data_lens g);
    received := received g + 1; delivered := delivered g |}.

Definition fresh_group (num_data num_roots : nat) : RecvGroup := {|
  g_k := num_data; g_m := num_roots;
  slots := replicate (num_data + num_roots) None;
  data_lens := replicate num_data 0%Z;
  received := 0; delivered := false
|}.

(** [if (group.k == 0) { ... remember_receive_group(group_id); }] *)
Definition init_group (gid : Z) (num_data num_roots : nat) (g : RecvGroup)
    (groups : gmap Z RecvGroup) (order : list Z) : gmap Z RecvGroup * list Z :=
  if g_k g =? 0
  then remember_receive_group gid (<[gid := fresh_group num_data num_roots]> groups) order
  else (groups, order).

Definition decode (c : FecCodec) (datagram : bytes) : FecCodec * list bytes :=
  match parse_header datagram with
  | None => (c, [])
  | Some h =>
      if negb (h_num_data h =? k_ c) || negb (h_num_roots h =? m_ c) then (c, [])
      else if Z.to_nat (u8 (Z.of_nat (h_num_data h + h_num_roots h))) <=? h_seq h then (c, [])
      else if (Z.of_nat (length datagram) <? Z.of_nat kHeaderSize + h_data_len h)%Z then (c, [])
      else
        let payload := take (Z.to_nat (h_data_len h)) (drop kHeaderSize datagram) in
        let gid := h_group_id h in
        (* recv_groups_[group_id] inserts a default group when absent *)
        let g := default empty_group (recv_groups_ c !! gid) in
        let groups := <[gid := g]> (recv_groups_ c) in
        if delivered g then (set_recv c groups (recv_group_order_ c), [])
        else
          let '(groups, order) :=
            init_group gid (h_num_data h) (h_num_roots h) g groups (recv_group_order_ c) in
          let g := default empty_group (groups !! gid) in
          match store_frame (h_num_data h) (h_seq h) (h_data_len h) payload g with
          | None => (set_recv c groups order, [])
          | Some g => try_deliver (set_recv c (<[gid := g]> groups) order) gid
          end
  end.

End Fec.
