(* ===== verification/FecRecovery.v ===== *)
(** * Recovery: any k of the k+m frames restore the group

    The frames an encoder emits for a group, the state a decoder reaches on any
    subset of them, and the theorem that k distinct frames in any order deliver
    the k payloads (src/src/mesh/net/udp/FecCodec.cpp). *)

From S2P Require Import Prelude GF256 GaussJordan Cauchy FecFrame FecCodec.

Module Recovery.
Import GF Gauss Cauchy Frame Fec.

(** ** What the theorems are about: runs of the codec *)

Fixpoint encode_all (c : FecCodec) (ps : list bytes) : FecCodec * list (outcome fec_error EncodeResult) :=
  match ps with
  | [] => (c, [])
  | p :: ps =>
      let '(c, r) := encode c p in
      let '(c, rs) := encode_all c ps in
      (c, r :: rs)
  end.

Fixpoint decode_all (c : FecCodec) (dgs : list bytes) : FecCodec * list (list bytes) :=
  match dgs with
  | [] => (c, [])
  | dg :: dgs =>
      let '(c, out) := decode c dg in
      let '(c, outs) := decode_all c dgs in
      (c, out :: outs)
  end.

Lemma decode_all_app c dgs1 dgs2 :
  decode_all c (dgs1 ++ dgs2) =
  (let '(c1, o1) := decode_all c dgs1 in
   let '(c2, o2) := decode_all c1 dgs2 in (c2, o1 ++ o2)).
Proof.
  revert c. induction dgs1 as [|dg dgs1 IH]; intros c; simpl.
  - by destruct (decode_all c dgs2).
  - destruct (decode c dg) as [c' o]. rewrite IH.
    destruct (decode_all c' dgs1) as [c1 o1]. by destruct (decode_all c1 dgs2).
Qed.

(** The datagrams a call of [encode] hands to the transport. *)
Definition emitted (r : outcome fec_error EncodeResult) : list bytes :=
  match r with
  | Ok r => data_frame r :: parity_frames r
  | Err _ => []
  end.

(** ** The codec's standing invariant *)

Definition codec_ok (c : FecCodec) : Prop :=
  1 <= k_ c /\ 1 <= m_ c /\ k_ c + m_ c <= 254 /\ enc_ c = build_enc_matrix (k_ c) (m_ c).

Definition max_payload (k : nat) : Z := (65535 - 2 * Z.of_nat k)%Z.

Definition len_of (p : bytes) : Z := Z.of_nat (length p).

Definition send_ok (c : FecCodec) : Prop :=
  codec_ok c /\ (0 <= send_group_id_ c < 2 ^ 32)%Z /\
  send_seq_ c = length (send_buf_ c) /\ send_seq_ c < k_ c /\
  send_lens_ c = map len_of (send_buf_ c) /\
  Forall (fun p => (len_of p <= max_payload (k_ c))%Z) (send_buf_ c).

Lemma make_codec_Ok k m c :
  make_codec k m = Ok c ->
  codec_ok c /\ send_ok c /\ k_ c = k /\ m_ c = m /\
  send_seq_ c = 0 /\ send_group_id_ c = 0%Z /\ recv_groups_ c = ∅ /\ recv_group_order_ c = [].
Proof.
  unfold make_codec. intros H. do 3 (case_in H; [done|]). bool_to_prop. simplify_eq.
  unfold send_ok, codec_ok; simpl. split_and!; done || lia || constructor.
Qed.

(** ** Parity rows *)

Lemma max_len_spec data :
  (forall d, d ∈ data -> length d <= max_len data) /\
  (max_len data = 0 \/ exists d, d ∈ data /\ length d = max_len data).
Proof.
  unfold max_len. induction data as [|d data IH] using rev_ind; simpl.
  { split; [by intros d ?%not_elem_of_nil|by left]. }
  rewrite foldl_app. simpl. destruct IH as [IH1 IH2]. split.
  - intros d' [Hd|Hd]%elem_of_app.
    + specialize (IH1 _ Hd). lia.
    + apply list_elem_of_singleton in Hd as ->. lia.
  - destruct (Nat.max_spec (foldl (fun acc d => Nat.max acc (length d)) 0 data) (length d))
      as [[_ ->]|[_ ->]].
    + right. exists d. split; [apply elem_of_app; right; by apply list_elem_of_singleton|done].
    + destruct IH2 as [->|(d' & Hd' & <-)]; [by left|].
      right. exists d'. split; [|done]. apply elem_of_app. by left.
Qed.

Lemma parity_row_spec k coeffs data len :
  length (parity_row k coeffs data len) = len /\
  forall b, b < len ->
    parity_row k coeffs data len !!! b =
    gsum k (fun i => gf_mul (coeffs !!! i) (padded (data !!! i) b)).
Proof.
  unfold parity_row.
  apply (for_loop_invariant (fun n acc => length acc = len /\
    forall b, b < len -> acc !!! b = gsum n (fun i => gf_mul (coeffs !!! i) (padded (data !!! i) b)))).
  - split; [apply length_replicate|]. intros b Hb. by apply lookup_total_replicate_2.
  - intros n acc _ [Hl H]. split; [by rewrite length_imap|]. intros b Hb.
    rewrite lookup_total_imap by lia. simpl. by rewrite H.
Qed.

(** Padding as the decoder and as the encoder do it agree. *)
Lemma pad_to_lookup len s b :
  b < len -> length s <= len -> pad_to len s !!! b = padded s b.
Proof.
  intros Hb Hs. unfold pad_to, padded. destruct (Nat.ltb_spec b (length s)).
  - by rewrite lookup_total_app_l.
  - rewrite lookup_total_app_r by done. apply lookup_total_replicate_2. lia.
Qed.

Lemma length_pad_to len s : length s <= len -> length (pad_to len s) = len.
Proof. intros. unfold pad_to. rewrite length_app, length_replicate. lia. Qed.

Lemma take_pad_to len s : length s <= len -> take (Nat.min (length s) len) (pad_to len s) = s.
Proof. intros. rewrite Nat.min_l by done. unfold pad_to. apply take_app_length. Qed.

(** ** The length manifest *)

Lemma length_manifest lens : length (manifest lens) = 2 * length lens.
Proof. induction lens as [|l lens IH]; [done|]. simpl. rewrite IH. lia. Qed.

Lemma manifest_lookup lens i l :
  lens !! i = Some l ->
  manifest lens !! (2 * i) = Some (byte_at l 8) /\
  manifest lens !! (2 * i + 1) = Some (byte_at l 0).
Proof.
  revert i. induction lens as [|l' lens IH]; intros i Hi; [done|].
  destruct i as [|i]; simpl in Hi.
  - simplify_eq. done.
  - replace (2 * S i) with (S (S (2 * i))) by lia.
    replace (S (S (2 * i)) + 1) with (S (S (2 * i + 1))) by lia. by apply IH.
Qed.

Lemma read_manifest_spec k lens old tail :
  length lens = k -> length old = k ->
  Forall (fun l => (0 <= l < 2 ^ 16)%Z) lens ->
  read_manifest k (manifest lens ++ tail) old = lens.
Proof.
  intros Hl Ho Hr. unfold read_manifest.
  apply list_eq_same_length with k; [done|by rewrite length_imap|].
  intros i x y Hi Hx Hy. rewrite list_lookup_imap in Hx.
  destruct (old !! i) as [o|] eqn:E; simpl in Hx; [|done].
  rewrite (proj2 (Nat.ltb_lt i k)) in Hx by lia. simplify_eq.
  destruct (manifest_lookup _ _ _ Hy) as [H1 H2].
  rewrite !lookup_total_app_l by (rewrite length_manifest; lia).
  rewrite (list_lookup_total_correct _ _ _ H1), (list_lookup_total_correct _ _ _ H2).
  apply be16_byte_at. by eapply Forall_lookup_1 in Hr.
Qed.

(** ** The frames of one group *)

(** What slot [i] of a group holds: a payload or a parity row. *)
Definition slot_value (k m : nat) (ps : list bytes) (i : nat) : bytes :=
  if i <? k then ps !!! i
  else parity_row k (build_enc_matrix k m !!! (i - k)) ps (max_len ps).

(** What the datagram of slot [i] carries after the header. *)
Definition frame_body (k m : nat) (ps : list bytes) (i : nat) : bytes :=
  if i <? k then slot_value k m ps i
  else manifest (map len_of ps) ++ slot_value k m ps i.

Definition group_frame (gid : Z) (k m : nat) (ps : list bytes) (i : nat) : bytes :=
  make_header gid i k m (len_of (frame_body k m ps i)) ++ frame_body k m ps i.

Definition group_ok (k m : nat) (ps : list bytes) : Prop :=
  1 <= k /\ 1 <= m /\ k + m <= 254 /\ length ps = k /\
  Forall (fun p => (len_of p <= max_payload k)%Z) ps.

Lemma max_len_le k ps :
  k <= 253 ->
  Forall (fun p => (len_of p <= max_payload k)%Z) ps ->
  (Z.of_nat (max_len ps) <= max_payload k)%Z.
Proof.
  intros Hk Hf. rewrite Forall_forall in Hf. unfold max_payload in *.
  destruct (max_len_spec ps) as [_ [->|(d & Hd & <-)]]; [lia|]. by apply Hf.
Qed.

Section group.
Context (gid : Z) (k m : nat) (ps : list bytes).
Context (Hgid : (0 <= gid < 2 ^ 32)%Z) (Hok : group_ok k m ps).

Lemma payload_elem i : i < k -> ps !!! i ∈ ps.
Proof. intros Hi. apply list_elem_of_lookup_total_2. by destruct Hok as (_ & _ & _ & -> & _). Qed.

Lemma slot_value_length i :
  length (slot_value k m ps i) <= max_len ps /\
  (k <= i -> length (slot_value k m ps i) = max_len ps).
Proof.
  unfold slot_value. destruct (Nat.ltb_spec i k).
  - split; [|lia]. by apply max_len_spec, payload_elem.
  - destruct (parity_row_spec k (build_enc_matrix k m !!! (i - k)) ps (max_len ps)) as [-> _].
    done.
Qed.

Lemma frame_body_length i : (0 <= len_of (frame_body k m ps i) < 2 ^ 16)%Z.
Proof.
  destruct Hok as (? & ? & ? & Hl & Hf).
  pose proof (max_len_le k ps ltac:(lia) Hf) as Hmax. unfold max_payload in Hmax.
  destruct (slot_value_length i) as [Hsv _]. unfold len_of, frame_body.
  destruct (i <? k); [lia|]. rewrite length_app, length_manifest, length_map. lia.
Qed.

Lemma group_frame_data i :
  i < k ->
  group_frame gid k m ps i =
  make_header gid i k m (Z.of_nat (length (ps !!! i))) ++ ps !!! i.
Proof.
  intros Hi. unfold group_frame, frame_body, slot_value.
  by rewrite (proj2 (Nat.ltb_lt i k)) by done.
Qed.

(** ** Sending a group *)

Lemma parity_loop_frames js :
  Forall (fun j => j < m) js ->
  parity_loop gid k m (map len_of ps) (compute_parity k m (build_enc_matrix k m) ps) js =
  Ok (map (fun j => group_frame gid k m ps (k + j)) js).
Proof.
  destruct Hok as (? & ? & ? & Hl & Hf).
  induction js as [|j js IH]; intros Hjs; simpl; [done|].
  apply Forall_cons in Hjs as [Hj Hjs].
  assert (manifest (map len_of ps) ++
          compute_parity k m (build_enc_matrix k m) ps !!! j = frame_body k m ps (k + j)) as ->.
  { unfold frame_body, slot_value, compute_parity. rewrite (proj2 (Nat.ltb_ge (k + j) k)) by lia.
    f_equal. rewrite lookup_total_map_seq by done. by replace (k + j - k) with j by lia. }
  pose proof (frame_body_length (k + j)) as Hb. unfold len_of in Hb.
  rewrite (proj2 (Z.ltb_ge _ _)) by lia. rewrite IH by done.
  rewrite u16_small by lia. unfold u8.
  rewrite Z.mod_small, Nat2Z.id by lia. done.
Qed.

(** The sender's state after [i] packets of the group. *)
Definition sending (c : FecCodec) (i : nat) : FecCodec :=
  set_send c gid i (take i ps) (map len_of (take i ps)).

Section sender.
Context (c : FecCodec).
Context (Hc : codec_ok c) (Hk : k_ c = k) (Hm : m_ c = m).

Lemma encode_data i :
  i + 1 < k ->
  encode (sending c i) (ps !!! i) =
  (sending c (i + 1), Ok {| data_frame := group_frame gid k m ps i; parity_frames := [] |}).
Proof.
  intros Hi. destruct Hok as (? & ? & ? & Hl & Hf).
  assert (len_of (ps !!! i) <= max_payload k)%Z as Hp.
  { rewrite Forall_forall in Hf. apply Hf, payload_elem. lia. }
  unfold max_payload, len_of in Hp. unfold encode, sending. simpl.
  rewrite Hk, Hm. rewrite (proj2 (Z.ltb_ge _ _)) by lia.
  unfold u8. rewrite Z.mod_small, Nat2Z.id by lia.
  rewrite (proj2 (Nat.eqb_neq (i + 1) k)) by lia.
  rewrite u16_small by lia.
  assert (take (i + 1) ps = take i ps ++ [ps !!! i]) as Htake.
  { rewrite Nat.add_1_r. apply take_S_r. apply list_lookup_lookup_total_lt. lia. }
  unfold sending, set_send. simpl. rewrite Htake, map_app. simpl.
  by rewrite group_frame_data by lia.
Qed.

Lemma encode_last :
  encode (sending c (k - 1)) (ps !!! (k - 1)) =
  (set_send c (u32 (gid + 1)) 0 [] [],
   Ok {| data_frame := group_frame gid k m ps (k - 1);
         parity_frames := map (fun j => group_frame gid k m ps (k + j)) (seq 0 m) |}).
Proof.
  destruct Hok as (? & ? & ? & Hl & Hf).
  assert (len_of (ps !!! (k - 1)%nat) <= max_payload k)%Z as Hp.
  { rewrite Forall_forall in Hf. apply Hf, payload_elem. lia. }
  unfold max_payload, len_of in Hp. unfold encode, sending. simpl.
  rewrite Hk, Hm. rewrite (proj2 (Z.ltb_ge _ _)) by lia.
  unfold u8. rewrite Z.mod_small, Nat2Z.id by lia.
  rewrite (proj2 (Nat.eqb_eq (k - 1 + 1) k)) by lia.
  rewrite u16_small by lia.
  assert (take (k - 1) ps ++ [ps !!! (k - 1)] = ps) as Htake.
  { rewrite <-take_S_r by (apply list_lookup_lookup_total_lt; lia).
    replace (S (k - 1)) with (length ps) by lia. apply firstn_all. }
  change [Z.of_nat (length (ps !!! (k - 1)))] with (map len_of [ps !!! (k - 1)]).
  rewrite <-map_app, Htake.
  destruct Hc as (_ & _ & _ & ->). rewrite Hk, Hm.
  rewrite parity_loop_frames by (apply Forall_seq; lia).
  by rewrite group_frame_data by lia.
Qed.

(** Encoding the rest of the group from packet [i] on. *)
Lemma encode_all_from n i :
  i + n = k -> 1 <= n ->
  encode_all (sending c i) (drop i ps) =
  (set_send c (u32 (gid + 1)) 0 [] [],
   map (fun j => Ok {| data_frame := group_frame gid k m ps j;
                       parity_frames := if j =? k - 1
                                        then map (fun j => group_frame gid k m ps (k + j)) (seq 0 m)
                                        else [] |}) (seq i n)).
Proof.
  assert (length ps = k) as Hl by apply Hok.
  revert i. induction n as [|n IH]; intros i Hi Hn; [lia|].
  assert (drop i ps = ps !!! i :: drop (S i) ps) as ->.
  { apply drop_S. apply list_lookup_lookup_total_lt. lia. }
  cbn [encode_all seq map]. destruct (decide (n = 0)) as [->|].
  - assert (i = k - 1) as -> by lia. rewrite encode_last.
    rewrite drop_ge by lia. simpl. by rewrite Nat.eqb_refl.
  - rewrite encode_data by lia. rewrite Nat.add_1_r.
    rewrite IH by lia. by rewrite (proj2 (Nat.eqb_neq i (k - 1))) by lia.
Qed.

Lemma emitted_concat n i :
  i + n = k -> 1 <= n ->
  concat (map emitted (map (fun j => Ok {| data_frame := group_frame gid k m ps j;
                       parity_frames := if j =? k - 1
                                        then map (fun j => group_frame gid k m ps (k + j)) (seq 0 m)
                                        else [] |}) (seq i n)))
  = map (group_frame gid k m ps) (seq i (n + m)).
Proof.
  revert i. induction n as [|n IH]; intros i Hi Hn; [lia|].
  cbn [map seq concat emitted Nat.add data_frame parity_frames].
  destruct (decide (n = 0)) as [->|].
  - assert (i = k - 1) as -> by lia. rewrite Nat.eqb_refl. simpl. rewrite app_nil_r. f_equal.
    replace (S (k - 1)) with (k + 0) by lia. rewrite <-!fmap_add_seq.
    rewrite <-list_fmap_compose. apply list_fmap_ext. intros ? j _. done.
  - rewrite (proj2 (Nat.eqb_neq i (k - 1))) by lia. simpl. f_equal. apply IH; lia.
Qed.

End sender.

(** ** Receiving frames of the group *)

(** The group after the frames of the indices in [got]. *)
Definition group_inv (got : list nat) (g : RecvGroup) : Prop :=
  g_k g = k /\ g_m g = m /\ delivered g = false /\ received g = length got /\
  length (slots g) = k + m /\ length (data_lens g) = k /\
  (forall i, i < k + m ->
     slots g !!! i = if decide (i ∈ got) then Some (slot_value k m ps i) else None) /\
  (forall i, i < k -> i ∈ got \/ (exists p, p ∈ got /\ k <= p) ->
     data_lens g !!! i = len_of (ps !!! i)).

Lemma fresh_group_inv : group_inv [] (fresh_group k m).
Proof.
  split_and!; simpl; rewrite ?length_replicate; try done.
  - intros i Hi. by apply lookup_total_replicate_2.
  - intros i Hi [H%not_elem_of_nil|(p & H%not_elem_of_nil & _)]; done.
Qed.

Lemma lens_range : Forall (fun l => (0 <= l < 2 ^ 16)%Z) (map len_of ps).
Proof.
  destruct Hok as (_ & _ & _ & _ & Hf). apply Forall_fmap. eapply Forall_impl; [done|].
  intros p Hp. simpl. unfold max_payload, len_of in *. lia.
Qed.

(** Filling slot [i]. *)
Lemma slots_insert got (sl : list (option bytes)) i j :
  length sl = k + m -> i < k + m ->
  sl !!! j = (if decide (j ∈ got) then Some (slot_value k m ps j) else None) ->
  <[i := Some (slot_value k m ps i)]> sl !!! j =
  (if decide (j ∈ i :: got) then Some (slot_value k m ps j) else None).
Proof.
  intros Hl Hi Hj. rewrite lookup_total_insert by lia. destruct (decide (j = i)) as [->|Hne].
  - by rewrite decide_True by (by left).
  - rewrite Hj. apply decide_ext. rewrite elem_of_cons. tauto.
Qed.

Lemma store_frame_inv got g i :
  group_inv got g -> i < k + m -> i ∉ got ->
  exists g', store_frame k i (len_of (frame_body k m ps i)) (frame_body k m ps i) g = Some g' /\
             group_inv (i :: got) g'.
Proof.
  intros (Hgk & Hgm & Hd & Hr & Hs & Hdl & Hslot & Hlen) Hi Hnew.
  destruct Hok as (? & ? & ? & Hl & Hf). unfold store_frame.
  rewrite Hs. unfold u8. rewrite Z.mod_small, Nat2Z.id by lia.
  rewrite (proj2 (Nat.leb_gt _ _)) by done.
  rewrite bool_decide_false by (rewrite Hslot, decide_False by done; by intros []).
  unfold frame_body. destruct (Nat.ltb_spec i k).
  - rewrite (proj2 (Nat.leb_gt _ _)) by done. eexists. split; [done|].
    split_and!; simpl; rewrite ?length_insert; try done; try lia.
    + intros j Hj. apply slots_insert; [done|done|by apply Hslot].
    + intros j Hj Hor. rewrite lookup_total_insert by lia. case_decide as Hji.
      * subst. unfold slot_value. by rewrite (proj2 (Nat.ltb_lt _ _)) by done.
      * apply Hlen; [done|]. destruct Hor as [[->|?]%elem_of_cons|(p & [->|?]%elem_of_cons & ?)];
          try done; [by left|lia|right; by exists p].
  - rewrite (proj2 (Nat.leb_le _ _)) by done.
    assert (length (manifest (map len_of ps)) = 2 * k) as Hman
      by (by rewrite length_manifest, length_map, Hl).
    rewrite (proj2 (Nat.ltb_ge _ _)) by (rewrite length_app; lia).
    rewrite read_manifest_spec by (try rewrite length_map; try apply lens_range; done).
    rewrite <-Hman, drop_app_length. eexists. split; [done|].
    split_and!; simpl; rewrite ?length_insert, ?length_map; try done; try lia.
    + intros j Hj. apply slots_insert; [done|done|by apply Hslot].
    + intros j Hj _. apply list_lookup_total_correct. rewrite list_lookup_fmap.
      by rewrite list_lookup_lookup_total_lt by lia.
Qed.

(** *** Delivery *)

(** A symbol of a slot as a linear combination of the symbols of the payloads. *)
Lemma encoded_symbol idx b :
  b < max_len ps -> idx < k + m ->
  gsum k (fun i => gf_mul (coeff k idx i) (padded (ps !!! i) b)) =
  padded (slot_value k m ps idx) b.
Proof.
  intros Hb Hidx. unfold coeff, slot_value. destruct (Nat.ltb_spec idx k).
  - rewrite (gsum_single _ idx); [|done|].
    + rewrite decide_True by done. apply gf_mul_1_l.
    + intros i Hi Hne. rewrite decide_False by done. apply gf_mul_0_l.
  - destruct (parity_row_spec k (build_enc_matrix k m !!! (idx - k)) ps (max_len ps)) as [Hl Hp].
    unfold padded at 2. rewrite Hl, (proj2 (Nat.ltb_lt _ _)) by done. rewrite Hp by done.
    apply gsum_ext. intros i Hi. rewrite enc_lookup by lia.
    by replace (k + (idx - k)) with idx by lia.
Qed.

Lemma symbol_length_spec n (sl : list (option bytes)) L :
  (forall i s, i < n -> sl !!! i = Some s -> length s <= L) ->
  (L = 0 \/ exists i s, i < n /\ sl !!! i = Some s /\ length s = L) ->
  symbol_length n sl = L.
Proof.
  intros Hle Hex.
  assert (symbol_length n sl <= L /\
          forall i s, i < n -> sl !!! i = Some s -> length s <= symbol_length n sl) as [H1 H2].
  { clear Hex. unfold symbol_length. induction n as [|n IH]; [split; [simpl; lia|intros; lia]|].
    rewrite seq_S, foldl_app. simpl. destruct IH as [IH1 IH2]; [intros i s Hi Hs; apply (Hle i s); [lia|done]|].
    destruct (sl !!! n) as [s|] eqn:En.
    - split; [specialize (Hle n s ltac:(lia) En); lia|]. intros i s' Hi Hs'.
      destruct (decide (i = n)) as [->|]; [simplify_eq; lia|].
      specialize (IH2 i s' ltac:(lia) Hs'). lia.
    - split; [done|]. intros i s' Hi Hs'. destruct (decide (i = n)) as [->|]; [congruence|].
      apply (IH2 i s'); [lia|done]. }
  destruct Hex as [->|(i & s & Hi & Hs & <-)]; [lia|]. specialize (H2 i s Hi Hs). lia.
Qed.

Section deliver.
Context (got : list nat) (g : RecvGroup).
Context (Hinv : group_inv got g) (Hnd : NoDup got) (Hfull : length got = k).
Context (Hgot : forall i, i ∈ got -> i < k + m).

Definition got_sorted : list nat := filter (.∈ got) (seq 0 (k + m)).

Lemma elem_of_got_sorted i : i ∈ got_sorted <-> i ∈ got.
Proof.
  unfold got_sorted. rewrite list_elem_of_filter, elem_of_seq. split; [by intros []|].
  intros Hi. split; [done|]. specialize (Hgot i Hi). lia.
Qed.

Lemma got_sorted_NoDup : NoDup got_sorted.
Proof. apply NoDup_filter, NoDup_seq. Qed.

Lemma got_sorted_length : length got_sorted = k.
Proof.
  rewrite <-Hfull. apply Permutation_length, NoDup_Permutation;
    [apply got_sorted_NoDup|done|apply elem_of_got_sorted].
Qed.

Lemma filled_indices_got : filled_indices k (k + m) (slots g) = got_sorted.
Proof.
  unfold filled_indices. destruct Hinv as (_ & _ & _ & _ & _ & _ & Hslot & _).
  rewrite (filter_ext_elem _ (.∈ got)).
  - apply take_ge. change (length got_sorted <= k). by rewrite got_sorted_length.
  - intros i Hi%elem_of_seq. rewrite Hslot by lia. case_decide; split; try done; by intros [].
Qed.

(** Either every data packet or some parity packet arrived. *)
Lemma got_data_or_parity : (forall i, i < k -> i ∈ got) \/ (exists p, p ∈ got /\ k <= p).
Proof.
  destruct (decide (Exists (fun p => k <= p) got)) as [(p & ? & ?)%Exists_exists|Hno];
    [right; by exists p|left].
  intros i Hi. apply not_Exists_Forall in Hno; [|apply _]. rewrite Forall_forall in Hno.
  assert (got ≡ₚ seq 0 k) as ->; [|apply elem_of_seq; lia].
  apply submseteq_length_Permutation; [|by rewrite length_seq, Hfull].
  apply NoDup_submseteq; [done|]. intros j Hj. apply elem_of_seq. specialize (Hno j Hj). simpl in Hno. lia.
Qed.

Lemma symbol_length_got : symbol_length (k + m) (slots g) = max_len ps.
Proof.
  destruct Hinv as (_ & _ & _ & _ & _ & _ & Hslot & _). apply symbol_length_spec.
  - intros i s Hi Hs. rewrite Hslot in Hs by done. case_decide; simplify_eq.
    apply slot_value_length.
  - destruct got_data_or_parity as [Hall|(p & Hp & Hkp)].
    + destruct (max_len_spec ps) as [_ [H0|(d & Hd & Hlen)]]; [by left|right].
      apply list_elem_of_lookup_total_1 in Hd as (i & Hi & <-).
      assert (length ps = k) as Hl by apply Hok. exists i, (ps !!! i).
      split_and!; [lia| |done]. rewrite Hslot, decide_True by (lia || (apply Hall; lia)).
      unfold slot_value. by rewrite (proj2 (Nat.ltb_lt i k)) by lia.
    + right. specialize (Hgot p Hp). exists p, (slot_value k m ps p).
      split_and!; [done| |by apply slot_value_length].
      by rewrite Hslot, decide_True.
Qed.

Lemma data_lens_got i : i < k -> data_lens g !!! i = len_of (ps !!! i).
Proof.
  intros Hi. destruct Hinv as (_ & _ & _ & _ & _ & _ & _ & Hlen). apply Hlen; [done|].
  destruct got_data_or_parity as [Hall|Hp]; [left; by apply Hall|by right].
Qed.

(** The received rows are the encoding of the zero-padded payloads. *)
Lemma gauss_decode_got :
  gauss_decode k (build_enc_matrix k m) got_sorted
    (map (fun i => pad_to (max_len ps) (slot_data (slots g) i)) got_sorted) (max_len ps) =
  map (pad_to (max_len ps)) ps.
Proof.
  destruct Hok as (? & ? & ? & Hl & Hf).
  destruct Hinv as (_ & _ & _ & _ & _ & _ & Hslot & _).
  assert (forall i, i ∈ got_sorted -> i < k + m) as Hb
    by (intros i Hi%elem_of_got_sorted; by apply Hgot).
  assert (forall i, i ∈ got_sorted -> slot_data (slots g) i = slot_value k m ps i) as Hsd.
  { intros i Hi. unfold slot_data. rewrite Hslot by (by apply Hb).
    rewrite decide_True; [done|]. by apply elem_of_got_sorted. }
  assert (forall r, r < k -> got_sorted !!! r ∈ got_sorted) as Hrow
    by (intros; apply list_elem_of_lookup_total_2; by rewrite got_sorted_length).
  assert (forall r, r < k ->
    map (fun i => pad_to (max_len ps) (slot_data (slots g) i)) got_sorted !!! r =
    pad_to (max_len ps) (slot_value k m ps (got_sorted !!! r))) as Hraw.
  { intros r Hr. rewrite lookup_total_map by (by rewrite got_sorted_length).
    by rewrite Hsd by (by apply Hrow). }
  assert (forall i, i < k -> map (pad_to (max_len ps)) ps !!! i = pad_to (max_len ps) (ps !!! i)) as HX
    by (intros; by rewrite lookup_total_map by lia).
  apply gauss_decode_solution.
  - apply decode_matrix_shape; [done|apply got_sorted_length|done].
  - split; [by rewrite length_map, got_sorted_length|]. intros r Hr. rewrite Hraw by done.
    apply length_pad_to, slot_value_length.
  - split; [by rewrite length_map|]. intros r Hr. rewrite HX by done.
    apply length_pad_to, max_len_spec. by apply payload_elem.
  - apply decode_matrix_kernel; [done|apply got_sorted_length|apply got_sorted_NoDup|done].
  - intros b Hbl r Hr. simpl. rewrite Hraw, decode_matrix_lookup by done.
    rewrite pad_to_lookup by (try apply slot_value_length; done).
    unfold dot. rewrite (gsum_ext _ _ (fun i => gf_mul (coeff k (got_sorted !!! r) i) (padded (ps !!! i) b))).
    + by apply encoded_symbol, Hb, Hrow.
    + intros i Hi. rewrite HX, decode_row_lookup by (try apply Hb, Hrow; done).
      rewrite pad_to_lookup; [done|done|]. by apply max_len_spec, payload_elem.
Qed.

Lemma try_deliver_full c' :
  k_ c' = k -> enc_ c' = build_enc_matrix k m -> recv_groups_ c' !! gid = Some g ->
  try_deliver c' gid =
  (set_recv c' (delete gid (recv_groups_ c')) (recv_group_order_ c'), ps).
Proof.
  intros Hk' He' Hg. destruct Hok as (? & ? & ? & Hl & Hf).
  unfold try_deliver. rewrite Hg, Hk', He'.
  destruct Hinv as (Hgk & Hgm & Hd & Hr & _). rewrite Hgk, Hgm, Hd, Hr, Hfull.
  rewrite Nat.ltb_irrefl. simpl.
  rewrite symbol_length_got, filled_indices_got, gauss_decode_got.
  destruct (map (pad_to (max_len ps)) ps) as [|v vs] eqn:E.
  { apply (f_equal length) in E. rewrite length_map in E. simpl in E. lia. }
  rewrite <-E. f_equal. apply list_eq_total; [by rewrite length_map, length_seq|].
  rewrite length_map, length_seq. intros i Hi. rewrite lookup_total_map_seq by done.
  rewrite data_lens_got by done. rewrite lookup_total_map by lia.
  unfold len_of. rewrite Nat2Z.id.
  assert (length (ps !!! i) <= max_len ps) by (by apply max_len_spec, payload_elem).
  rewrite length_pad_to by done. by apply take_pad_to.
Qed.

End deliver.

(** *** One received frame *)

Lemma evict_lookup_self order groups n :
  (evict gid order groups n).1 !! gid = groups !! gid.
Proof.
  revert order groups. induction n as [|n IH]; intros order groups; simpl; [done|].
  destruct order as [|stale order]; [done|]. rewrite IH.
  destruct (Z.eqb_spec stale gid); [done|]. by rewrite lookup_delete_ne.
Qed.

(** The decoder after the frames in [got], in whatever state for other groups. *)
Definition dec_state (got : list nat) (d : FecCodec) : Prop :=
  k_ d = k /\ m_ d = m /\ enc_ d = build_enc_matrix k m /\
  match got with
  | [] => recv_groups_ d !! gid = None
  | _ => exists g, recv_groups_ d !! gid = Some g /\ group_inv got g
  end.

Lemma parse_group_frame i :
  i < k + m ->
  parse_header (group_frame gid k m ps i) =
    Some (Header gid i k m (len_of (frame_body k m ps i))).
Proof.
  intros Hi. destruct Hok as (? & ? & ? & Hl & Hf).
  apply (parse_make_header (Header gid i k m (len_of (frame_body k m ps i)))).
  pose proof (frame_body_length i). unfold header_ok; simpl. lia.
Qed.

(** Decoding a frame of the group, up to the lookup of the group. *)
Lemma decode_group_frame d i :
  k_ d = k -> m_ d = m -> i < k + m ->
  decode d (group_frame gid k m ps i) =
  (let g := default empty_group (recv_groups_ d !! gid) in
   let groups := <[gid := g]> (recv_groups_ d) in
   if delivered g then (set_recv d groups (recv_group_order_ d), [])
   else
     let '(groups, order) := init_group gid k m g groups (recv_group_order_ d) in
     match store_frame k i (len_of (frame_body k m ps i)) (frame_body k m ps i)
             (default empty_group (groups !! gid)) with
     | None => (set_recv d groups order, [])
     | Some g => try_deliver (set_recv d (<[gid := g]> groups) order) gid
     end).
Proof.
  intros Hkd Hmd Hi. destruct Hok as (? & ? & ? & Hl & Hf).
  unfold decode. rewrite parse_group_frame by done.
  cbn [h_num_data h_num_roots h_seq h_data_len h_group_id].
  rewrite Hkd, Hmd, !Nat.eqb_refl. simpl negb. cbn [orb].
  unfold u8. rewrite Z.mod_small, Nat2Z.id by lia. rewrite (proj2 (Nat.leb_gt _ _)) by done.
  unfold group_frame. rewrite length_app, length_make_header.
  rewrite (proj2 (Z.ltb_ge _ _)) by (unfold len_of; lia).
  rewrite (drop_app_length' (make_header _ _ _ _ _)) by done.
  assert (take (Z.to_nat (len_of (frame_body k m ps i))) (frame_body k m ps i) =
          frame_body k m ps i) as -> by (unfold len_of; rewrite Nat2Z.id; apply firstn_all).
  done.
Qed.

(** The group as [decode] finds or creates it. *)
Lemma dec_state_open got d :
  dec_state got d ->
  exists g groups order, group_inv got g /\ groups !! gid = Some g /\
    (let g := default empty_group (recv_groups_ d !! gid) in
     delivered g = false /\
     init_group gid k m g (<[gid := g]> (recv_groups_ d)) (recv_group_order_ d) = (groups, order)).
Proof.
  intros (Hkd & Hmd & Hed & Hgrp). pose proof Hok as (Hk1 & _). unfold init_group.
  destruct got as [|j got].
  - rewrite Hgrp. simpl.
    destruct (remember_receive_group gid _ (recv_group_order_ d)) as [groups order] eqn:E.
    exists (fresh_group k m), groups, order. split; [apply fresh_group_inv|].
    split; [|done]. apply (f_equal fst) in E. simpl in E. rewrite <-E.
    unfold remember_receive_group. rewrite evict_lookup_self. apply lookup_insert_eq.
  - destruct Hgrp as (g & Hg & Hinv). rewrite Hg. simpl.
    pose proof Hinv as (Hgk & _ & Hd & _). rewrite Hgk, Hd.
    rewrite (proj2 (Nat.eqb_neq k 0)) by lia. eexists g, _, _.
    split; [done|]. split; [|done]. apply lookup_insert_eq.
Qed.

Lemma decode_frame_step got d i :
  dec_state got d -> NoDup got -> (forall j, j ∈ got -> j < k + m) ->
  length got < k -> i < k + m -> i ∉ got ->
  let '(d', out) := decode d (group_frame gid k m ps i) in
  if length got + 1 =? k then out = ps /\ dec_state [] d'
  else out = [] /\ dec_state (i :: got) d'.
Proof.
  intros Hst Hnd Hb Hlen Hi Hnew. pose proof Hst as (Hkd & Hmd & Hed & _).
  destruct Hok as (? & ? & ? & Hl & Hf).
  rewrite decode_group_frame by done.
  destruct (dec_state_open got d) as (g & groups & order & Hinv & Hg & Hd & Heq); [done|].
  cbv zeta in Heq |- *. rewrite Hd, Heq. clear Heq Hd. rewrite Hg. simpl.
  destruct (store_frame_inv got g i Hinv Hi Hnew) as (g' & -> & Hinv').
  destruct (Nat.eqb_spec (length got + 1) k) as [Hfull|Hpart].
  - rewrite (try_deliver_full (i :: got) g'); simpl; try done; try lia.
    + split; [done|]. split_and!; try done. apply lookup_delete_eq.
    + by constructor.
    + intros j [->|Hj]%elem_of_cons; [done|]. by apply Hb.
    + apply lookup_insert_eq.
  - unfold try_deliver. simpl. rewrite lookup_insert_eq.
    pose proof Hinv' as (Hgk & _ & Hd & Hr & _). rewrite Hgk, Hd, Hr.
    rewrite (proj2 (Nat.ltb_lt _ _)) by (simpl; lia). simpl. split; [done|].
    split_and!; try done. exists g'. split; [apply lookup_insert_eq|done].
Qed.

Lemma decode_all_frames sel got d :
  dec_state got d -> NoDup (sel ++ got) -> (forall j, j ∈ sel ++ got -> j < k + m) ->
  length sel + length got = k -> 1 <= length sel ->
  exists d', decode_all d (map (group_frame gid k m ps) sel) =
               (d', replicate (length sel - 1) [] ++ [ps]) /\ dec_state [] d'.
Proof.
  revert got d. induction sel as [|i sel IH]; intros got d Hst Hnd Hb Hlen Hne; simpl in *; [lia|].
  apply NoDup_cons in Hnd as [Hi Hnd].
  pose proof (decode_frame_step got d i Hst) as Hstep.
  destruct (decode d (group_frame gid k m ps i)) as [d' out].
  assert (NoDup got) by (by apply NoDup_app in Hnd as (_ & _ & ?)).
  apply not_elem_of_app in Hi as [Hi1 Hi2].
  assert (forall j, j ∈ got -> j < k + m) as Hbg
    by (intros; apply Hb; right; apply elem_of_app; by right).
  specialize (Hstep ltac:(done) Hbg ltac:(lia) ltac:(apply Hb; by left) Hi2).
  destruct (Nat.eqb_spec (length got + 1) k).
  - destruct Hstep as [-> Hst']. destruct sel; simpl in *; [|lia]. by exists d'.
  - destruct Hstep as [-> Hst']. destruct (IH (i :: got) d' Hst') as (d'' & -> & Hst'').
    + rewrite <-Permutation_middle. constructor; [|done]. by apply not_elem_of_app.
    + intros j Hj. apply Hb. by rewrite Permutation_middle.
    + simpl. lia.
    + lia.
    + exists d''. split; [|done]. by replace (length sel - 0) with (S (length sel - 1)) by lia.
Qed.

End group.

(** ** The theorems *)

Lemma sending_0 (c : FecCodec) ps :
  send_ok c -> send_seq_ c = 0 -> sending (send_group_id_ c) ps c 0 = c.
Proof.
  intros (_ & _ & Hs & _ & Hl & _) H0. rewrite H0 in Hs. symmetry in Hs.
  apply nil_length_inv in Hs. rewrite Hs in Hl. destruct c; simpl in *. by subst.
Qed.

(** The frames a sender at a group boundary emits for [k] payloads. *)
Lemma encode_group_frames c ps :
  send_ok c -> send_seq_ c = 0 -> group_ok (k_ c) (m_ c) ps ->
  encode_all c ps =
    (set_send c (u32 (send_group_id_ c + 1)) 0 [] [], (encode_all c ps).2) /\
  concat (map emitted (encode_all c ps).2) =
    map (group_frame (send_group_id_ c) (k_ c) (m_ c) ps) (seq 0 (k_ c + m_ c)).
Proof.
  intros Hs H0 Hok. pose proof Hs as (Hc & Hgid & _).
  pose proof (encode_all_from (send_group_id_ c) (k_ c) (m_ c) ps Hok c Hc eq_refl eq_refl
                (k_ c) 0 eq_refl (proj1 Hok)) as E.
  rewrite sending_0 in E by done. rewrite drop_0 in E. rewrite E. split; [done|].
  apply (emitted_concat _ _ _ _ c eq_refl eq_refl (k_ c) 0 eq_refl). apply Hok.
Qed.

(** Selecting frames of the group by index. *)
Lemma select_frames gid k m ps sel :
  Forall (fun i => i < k + m) sel ->
  map (fun i => map (group_frame gid k m ps) (seq 0 (k + m)) !!! i) sel =
  map (group_frame gid k m ps) sel.
Proof.
  intros H. apply list_fmap_ext. intros ? i Hi.
  rewrite Forall_forall in H. apply lookup_total_map_seq, H.
  by eapply list_elem_of_lookup_2.
Qed.

(** (C1) Any [k] distinct frames of the [k + m] a sender emits for a group, in any
    order, make a receiver that holds nothing of the group deliver exactly the
    [k] original payloads in order, at the k-th frame and not before; the other
    groups the receiver is collecting are arbitrary. *)
Theorem any_k_frames_recover (enc dec : FecCodec) (ps : list bytes) (sel : list nat)
    (Henc : send_ok enc) (Hseq : send_seq_ enc = 0)
    (Hps : length ps = k_ enc)
    (Hsize : Forall (fun p => (len_of p <= max_payload (k_ enc))%Z) ps)
    (Hdec : codec_ok dec) (Hk : k_ dec = k_ enc) (Hm : m_ dec = m_ enc)
    (Hfresh : recv_groups_ dec !! send_group_id_ enc = None)
    (Hsel : NoDup sel) (Hlen : length sel = k_ enc)
    (Hrange : Forall (fun i => i < k_ enc + m_ enc) sel) :
  let frames := concat (map emitted (encode_all enc ps).2) in
  length frames = k_ enc + m_ enc /\
  (decode_all dec (map (fun i => frames !!! i) sel)).2 = replicate (k_ enc - 1) [] ++ [ps].
Proof.
  pose proof Henc as ((Hk1 & Hm1 & Hkm & _) & Hgid & _).
  assert (group_ok (k_ enc) (m_ enc) ps) as Hok by done.
  destruct (encode_group_frames enc ps Henc Hseq Hok) as [_ ->]. simpl.
  split; [by rewrite length_map, length_seq|]. rewrite select_frames by done.
  destruct (decode_all_frames (send_group_id_ enc) (k_ enc) (m_ enc) ps Hgid Hok sel [] dec)
    as (d' & -> & _).
  - destruct Hdec as (_ & _ & _ & He). split_and!; try done. by rewrite He, Hk, Hm.
  - by rewrite app_nil_r.
  - rewrite app_nil_r. by rewrite Forall_forall in Hrange.
  - simpl. lia.
  - lia.
  - by rewrite Hlen.
Qed.

(** A freshly constructed codec. *)
Definition initial_codec (k m : nat) : FecCodec := {|
  k_ := k; m_ := m; enc_ := build_enc_matrix k m;
  send_group_id_ := 0; send_seq_ := 0; send_buf_ := []; send_lens_ := [];
  recv_groups_ := ∅; recv_group_order_ := []
|}.

Lemma initial_codec_ok k m :
  make_codec k m = Ok (initial_codec k m) -> codec_ok (initial_codec k m) /\ send_ok (initial_codec k m).
Proof. intros H%make_codec_Ok. tauto. Qed.

Lemma any_k_frames_recover_witness :
  let ps := [[x73; x72; x65]; []; [x64; x00; x61; x6e; x21]] in
  let frames := concat (map emitted (encode_all (initial_codec 3 2) ps).2) in
  length frames = 5 /\
  (decode_all (initial_codec 3 2) (map (fun i => frames !!! i) [4; 1; 3])).2 = [[]; []; ps].
Proof.
  apply (any_k_frames_recover (initial_codec 3 2) (initial_codec 3 2)
           [[x73; x72; x65]; []; [x64; x00; x61; x6e; x21]] [4; 1; 3]).
  - by apply initial_codec_ok.
  - reflexivity.
  - reflexivity.
  - repeat constructor; vm_compute; discriminate.
  - by apply initial_codec_ok.
  - reflexivity.
  - reflexivity.
  - reflexivity.
  - apply (bool_decide_unpack _). vm_compute. exact I.
  - reflexivity.
  - apply (bool_decide_unpack _). vm_compute. exact I.
Defined.

(** When a group has at least as many parity as data packets, a receiver that
    gets every frame delivers the group twice: [try_deliver] erases the group
    it has just marked delivered, so frames [k .. 2k-1] rebuild it. *)
Theorem all_frames_redeliver (enc dec : FecCodec) (ps : list bytes)
    (Henc : send_ok enc) (Hseq : send_seq_ enc = 0)
    (Hps : length ps = k_ enc)
    (Hsize : Forall (fun p => (len_of p <= max_payload (k_ enc))%Z) ps)
    (Hkm : k_ enc <= m_ enc)
    (Hdec : codec_ok dec) (Hk : k_ dec = k_ enc) (Hm : m_ dec = m_ enc)
    (Hfresh : recv_groups_ dec !! send_group_id_ enc = None) :
  let frames := concat (map emitted (encode_all enc ps).2) in
  (decode_all dec (take (2 * k_ enc) frames)).2 =
    (replicate (k_ enc - 1) [] ++ [ps]) ++ (replicate (k_ enc - 1) [] ++ [ps]).
Proof.
  pose proof Henc as ((Hk1 & Hm1 & Hlim & _) & Hgid & _).
  assert (group_ok (k_ enc) (m_ enc) ps) as Hok by done.
  destruct (encode_group_frames enc ps Henc Hseq Hok) as [_ ->]. simpl.
  rewrite <-fmap_take, take_seq, Nat.min_l by lia.
  replace (k_ enc + (k_ enc + 0)) with (k_ enc + k_ enc) by lia.
  rewrite seq_app, map_app, decode_all_app. simpl.
  destruct (decode_all_frames (send_group_id_ enc) (k_ enc) (m_ enc) ps Hgid Hok
    (seq 0 (k_ enc)) [] dec) as (d1 & -> & Hst); rewrite ?app_nil_r, ?length_seq; simpl; try lia.
  { destruct Hdec as (_ & _ & _ & He). split_and!; try done. by rewrite He, Hk, Hm. }
  { apply NoDup_seq. }
  { intros j Hj%elem_of_seq. lia. }
  destruct (decode_all_frames (send_group_id_ enc) (k_ enc) (m_ enc) ps Hgid Hok
    (seq (k_ enc) (k_ enc)) [] d1) as (d2 & -> & _); rewrite ?app_nil_r, ?length_seq; simpl; try lia.
  { done. }
  { apply NoDup_seq. }
  { intros j Hj%elem_of_seq. lia. }
  done.
Qed.

Lemma all_frames_redeliver_witness :
  let frames := concat (map emitted (encode_all (initial_codec 1 1) [[x68; x69]]).2) in
  (decode_all (initial_codec 1 1) (take 2 frames)).2 = [[[x68; x69]]; [[x68; x69]]].
Proof.
  apply (all_frames_redeliver (initial_codec 1 1) (initial_codec 1 1) [[x68; x69]]).
  - by apply initial_codec_ok.
  - reflexivity.
  - reflexivity.
  - repeat constructor; vm_compute; discriminate.
  - vm_compute. lia.
  - by apply initial_codec_ok.
  - reflexivity.
  - reflexivity.
  - reflexivity.
Defined.

(** (C37) [encode] never fails on a payload within the limit of [65535 - 2k]
    bytes: it frames the payload, emits [m] parity frames exactly at the k-th
    packet, and keeps the sender's invariant; the second [throw] is unreachable.
    A larger payload is refused with the sender unchanged. *)
Theorem encode_total (c : FecCodec) (p : bytes) (Hc : send_ok c) :
  if (max_payload (k_ c) <? len_of p)%Z
  then encode c p = (c, Err PayloadTooLarge)
  else exists c' r, encode c p = (c', Ok r) /\ send_ok c' /\
         length (parity_frames r) = if send_seq_ c + 1 =? k_ c then m_ c else 0.
Proof.
  destruct (Z.ltb_spec (max_payload (k_ c)) (len_of p)) as [Hbig|Hfit].
  { unfold encode. unfold max_payload, len_of in Hbig. by rewrite (proj2 (Z.ltb_lt _ _)). }
  pose proof Hc as (Hcok & Hgid & Hs & Hlt & Hl & Hf).
  pose proof Hcok as (Hk1 & Hm1 & Hkm & Henc).
  (* complete the buffered packets to a full group *)
  set (ps := (send_buf_ c ++ [p]) ++ replicate (k_ c - (send_seq_ c + 1)) []).
  assert (length ps = k_ c) as Hps
    by (unfold ps; rewrite !length_app, length_replicate, <-Hs; simpl; lia).
  assert (take (send_seq_ c) ps = send_buf_ c) as Htake
    by (unfold ps; rewrite <-app_assoc, Hs; apply take_app_length).
  assert (ps !!! send_seq_ c = p) as Hpc.
  { unfold ps. rewrite <-app_assoc, Hs, lookup_total_app_r by done. by rewrite Nat.sub_diag. }
  assert (group_ok (k_ c) (m_ c) ps) as Hok.
  { split_and!; try done. unfold ps. rewrite !Forall_app. split_and!; [done|by repeat constructor|].
    apply Forall_replicate. unfold len_of, max_payload. simpl. lia. }
  assert (sending (send_group_id_ c) ps c (send_seq_ c) = c) as Hsend.
  { unfold sending. rewrite Htake, <-Hl. by destruct c. }
  destruct (Nat.eqb_spec (send_seq_ c + 1) (k_ c)) as [Hlast|Hmid].
  - pose proof (encode_last (send_group_id_ c) _ _ ps Hok c Hcok eq_refl eq_refl) as E.
    replace (k_ c - 1) with (send_seq_ c) in E by lia. rewrite Hsend, Hpc in E.
    eexists _, _. split; [exact E|]. split; [|simpl; by rewrite length_map, length_seq].
    split_and!; simpl; try done; try lia; try apply u32_range.
  - pose proof (encode_data (send_group_id_ c) _ _ ps Hok c eq_refl eq_refl (send_seq_ c) ltac:(lia)) as E.
    rewrite Hsend, Hpc in E. eexists _, _. split; [exact E|]. split; [|done].
    split_and!; simpl; try done; try lia.
    + rewrite length_take. lia.
    + apply Forall_take. apply Hok.
Qed.

Lemma encode_total_witness :
  if (max_payload 3 <? len_of [x61])%Z
  then encode (initial_codec 3 2) [x61] = (initial_codec 3 2, Err PayloadTooLarge)
  else exists c' r, encode (initial_codec 3 2) [x61] = (c', Ok r) /\ send_ok c' /\
         length (parity_frames r) = if 0 + 1 =? 3 then 2 else 0.
Proof. apply (encode_total (initial_codec 3 2) [x61]). by apply initial_codec_ok. Defined.

End Recovery.
