(* ===== verification/FecInvariants.v ===== *)
(** * Receiver invariants of the FEC codec under arbitrary input

    What holds of a decoder whatever datagrams arrive: the bound on the memory
    it keeps, the shape of its groups (every index [decode] and [try_deliver]
    use is in range) and the all-or-nothing delivery
    (src/src/mesh/net/udp/FecCodec.cpp). *)

From S2P Require Import Prelude GF256 GaussJordan Cauchy FecFrame FecCodec FecRecovery.

Module FecInv.
Import GF Gauss Cauchy Frame Fec Recovery.

(** The filled slots among [0 .. n-1]. *)
Definition filled (n : nat) (sl : list (option bytes)) : list nat :=
  filter (fun i => is_Some (sl !!! i)) (seq 0 n).

(** A group in the table: vectors of the right size, and still incomplete. *)
Definition group_wf (k m : nat) (g : RecvGroup) : Prop :=
  g_k g = k /\ g_m g = m /\ delivered g = false /\
  length (slots g) = k + m /\ length (data_lens g) = k /\
  received g = length (filled (k + m) (slots g)).

Definition recv_ok (c : FecCodec) : Prop :=
  codec_ok c /\ length (recv_group_order_ c) <= kMaxReceiveGroups /\
  forall gid g, recv_groups_ c !! gid = Some g ->
    gid ∈ recv_group_order_ c /\ group_wf (k_ c) (m_ c) g /\ received g < k_ c.

(** ** Eviction *)

Lemma evict_spec gid order groups n :
  n <= length order -> gid ∈ drop n order ->
  (forall x g, groups !! x = Some g -> x ∈ order) ->
  let '(groups', order') := evict gid order groups n in
  order' = drop n order /\
  (forall x g, groups' !! x = Some g -> groups !! x = Some g /\ x ∈ order').
Proof.
  revert order groups. induction n as [|n IH]; intros order groups Hn Hgid Hdom; simpl.
  - rewrite drop_0. split; [done|]. intros x g Hx. split; [done|by eapply Hdom].
  - destruct order as [|stale order]; simpl in *; [lia|].
    set (groups1 := if (stale =? gid)%Z then groups else delete stale groups).
    assert (forall x g, groups1 !! x = Some g -> groups !! x = Some g /\ x ∈ order) as H1.
    { intros x g Hx. unfold groups1 in Hx. destruct (Z.eqb_spec stale gid) as [->|].
      - split; [done|]. specialize (Hdom x g Hx). apply elem_of_cons in Hdom as [->|]; [|done].
        eapply subseteq_drop, Hgid.
      - apply lookup_delete_Some in Hx as [Hne Hx]. split; [done|].
        specialize (Hdom x g Hx). by apply elem_of_cons in Hdom as [->|]. }
    specialize (IH order groups1 ltac:(lia) Hgid (fun x g H => proj2 (H1 x g H))).
    destruct (evict gid order groups1 n) as [groups' order']. destruct IH as [-> IH].
    split; [done|]. intros x g Hx. destruct (IH x g Hx) as [Hx' ?].
    split; [|done]. by apply H1.
Qed.

Lemma remember_spec gid order groups g0 :
  length order <= kMaxReceiveGroups ->
  (forall x g, groups !! x = Some g -> x ∈ order) ->
  let '(groups', order') := remember_receive_group gid (<[gid := g0]> groups) order in
  length order' <= kMaxReceiveGroups /\ groups' !! gid = Some g0 /\ gid ∈ order' /\
  (forall x g, x <> gid -> groups' !! x = Some g -> groups !! x = Some g /\ x ∈ order').
Proof.
  intros Hlen Hdom. unfold remember_receive_group.
  set (n := length (order ++ [gid]) - kMaxReceiveGroups).
  assert (n <= length order) as Hn by (unfold n, kMaxReceiveGroups in *; rewrite length_app; simpl; lia).
  assert (gid ∈ drop n (order ++ [gid])) as Hgid.
  { rewrite drop_app_le by done. apply elem_of_app. right. by apply list_elem_of_singleton. }
  pose proof (evict_spec gid (order ++ [gid]) (<[gid := g0]> groups) n) as H.
  pose proof (evict_lookup_self gid (order ++ [gid]) (<[gid := g0]> groups) n) as Hself.
  destruct (evict gid (order ++ [gid]) (<[gid:=g0]> groups) n) as [groups' order'].
  simpl in Hself. rewrite lookup_insert_eq in Hself.
  destruct H as [-> H]; [rewrite length_app; simpl; lia|done| |].
  { intros x g Hx. apply elem_of_app. apply lookup_insert_Some in Hx as [[<- _]|[_ Hx]].
    - right. by apply list_elem_of_singleton.
    - left. by eapply Hdom. }
  split_and!; [|done|done|].
  - rewrite length_drop. unfold n. lia.
  - intros x g Hne Hx. destruct (H x g Hx) as [Hx' Hin]. split; [|done].
    by rewrite lookup_insert_ne in Hx'.
Qed.

(** ** Storing a frame *)

Lemma filled_insert n (sl : list (option bytes)) i s :
  length sl = n -> i < n -> ~ is_Some (sl !!! i) ->
  length (filled n (<[i := Some s]> sl)) = length (filled n sl) + 1.
Proof.
  intros Hl Hi Hno. unfold filled.
  assert (filter (fun j => is_Some (<[i := Some s]> sl !!! j)) (seq 0 n) ≡ₚ
          i :: filter (fun j => is_Some (sl !!! j)) (seq 0 n)) as ->%Permutation_length;
    [|simpl; lia].
  apply NoDup_Permutation.
  - apply NoDup_filter, NoDup_seq.
  - constructor; [|apply NoDup_filter, NoDup_seq]. by intros [? _]%list_elem_of_filter.
  - intros j. rewrite elem_of_cons, !list_elem_of_filter, elem_of_seq.
    rewrite lookup_total_insert by lia. destruct (decide (j = i)) as [->|Hne].
    + split; [by left|]. intros _. split; [by eexists|lia].
    + split; [by right|by intros [|]].
Qed.

Lemma store_frame_wf k m seq dl payload g g' :
  k + m <= 254 -> group_wf k m g -> store_frame k seq dl payload g = Some g' ->
  group_wf k m g' /\ received g' = received g + 1.
Proof.
  intros Hkm (Hgk & Hgm & Hd & Hs & Hdl & Hr) H. unfold store_frame in H.
  case_in H; [done|]. case_in H; [done|]. bool_to_prop.
  rewrite Hs in *. unfold u8 in *. rewrite Z.mod_small, Nat2Z.id in * by lia.
  case_in H; [case_in H; [done|]|]; simplify_eq;
    (split; [|done]); split_and!; simpl; rewrite ?length_insert; try done;
    try (unfold read_manifest; by rewrite length_imap);
    rewrite filled_insert by done; lia.
Qed.

(** ** Delivery cannot fail *)

Lemma filled_bound n sl i : i ∈ filled n sl -> i < n.
Proof. intros [_ ?%elem_of_seq]%list_elem_of_filter. lia. Qed.

(** With at least [k] distinct slots filled, elimination always succeeds,
    whatever the received bytes are. *)
Lemma gauss_decode_nonempty k m idxs data L :
  1 <= k -> k + m <= 254 -> length idxs = k -> NoDup idxs ->
  (forall i, i ∈ idxs -> i < k + m) -> shape k L data ->
  length (gauss_decode k (build_enc_matrix k m) idxs data L) = k.
Proof.
  intros Hk Hkm Hlen Hnd Hb Hdata. unfold gauss_decode.
  destruct (gauss_cols_ok k L k 0 (decode_matrix k (build_enc_matrix k m) idxs, data))
    as ([M B] & -> & ([_ [HB _]] & _) & _).
  - done.
  - split; [by apply decode_matrix_shape|done].
  - intros r c Hr Hc. lia.
  - by apply decode_matrix_kernel.
  - done.
Qed.

Lemma symbol_length_ub n sl i s :
  i < n -> sl !!! i = Some s -> length s <= symbol_length n sl.
Proof.
  unfold symbol_length. induction n as [|n IH]; intros Hi Hs; [lia|].
  rewrite seq_S, foldl_app. simpl. destruct (decide (i = n)) as [->|].
  - rewrite Hs. lia.
  - specialize (IH ltac:(lia) Hs). destruct (sl !!! n); lia.
Qed.

Lemma try_deliver_complete c gid g :
  codec_ok c -> recv_groups_ c !! gid = Some g -> group_wf (k_ c) (m_ c) g ->
  k_ c <= received g ->
  exists out, try_deliver c gid =
    (set_recv c (delete gid (recv_groups_ c)) (recv_group_order_ c), out) /\ length out = k_ c.
Proof.
  intros (Hk & Hm & Hkm & Henc) Hg (Hgk & Hgm & Hd & Hs & Hdl & Hr) Hfull.
  unfold try_deliver. rewrite Hg, Hgk, Hgm, Hd, Henc.
  rewrite (proj2 (Nat.ltb_ge _ _)) by lia. simpl.
  set (n := k_ c + m_ c). set (L := symbol_length n (slots g)).
  set (idxs := filled_indices (k_ c) n (slots g)).
  assert (length idxs = k_ c) as Hlen.
  { unfold idxs, filled_indices. rewrite length_take. fold (filled n (slots g)). unfold n. lia. }
  assert (forall i, i ∈ idxs -> i ∈ filled n (slots g)) as Hin.
  { intros i Hi. by eapply subseteq_take. }
  assert (NoDup idxs) as Hnd
    by (eapply sublist_NoDup; [|apply sublist_take]; apply NoDup_filter, NoDup_seq).
  pose proof (gauss_decode_nonempty (k_ c) (m_ c) idxs
    (map (fun i => pad_to L (slot_data (slots g) i)) idxs) L) as Hgd.
  destruct (gauss_decode _ _ _ _ _) as [|v vs] eqn:E.
  - exfalso. simpl in Hgd. rewrite <-Hgd in Hk; [lia|lia|done|done|done| |].
    + intros i Hi. by eapply filled_bound, Hin.
    + split; [by rewrite length_map|]. intros r Hr'.
      rewrite lookup_total_map by lia. apply length_pad_to. unfold slot_data.
      assert (idxs !!! r ∈ idxs) as Hri by (apply list_elem_of_lookup_total_2; lia).
      apply Hin in Hri. pose proof (filled_bound _ _ _ Hri) as Hb.
      apply list_elem_of_filter in Hri as [[s Hsome] _]. rewrite Hsome. simpl.
      by eapply symbol_length_ub.
  - eexists. split; [done|]. by rewrite length_map, length_seq.
Qed.

(** ** One datagram *)

(** Replacing one group of the table keeps the invariant. *)
Lemma recv_ok_update c groups order gid g :
  codec_ok c -> length order <= kMaxReceiveGroups -> gid ∈ order ->
  group_wf (k_ c) (m_ c) g -> received g < k_ c ->
  (forall x g', x <> gid -> groups !! x = Some g' ->
     x ∈ order /\ group_wf (k_ c) (m_ c) g' /\ received g' < k_ c) ->
  recv_ok (set_recv c (<[gid := g]> groups) order).
Proof.
  intros Hc Hl Hin Hwf Hr Hoth. split_and!; [done|done|]. intros x g' Hx. simpl in *.
  apply lookup_insert_Some in Hx as [[<- <-]|[Hne Hx]]; [done|]. by apply Hoth.
Qed.

Lemma recv_ok_delete c groups order gid :
  codec_ok c -> length order <= kMaxReceiveGroups ->
  (forall x g', x <> gid -> groups !! x = Some g' ->
     x ∈ order /\ group_wf (k_ c) (m_ c) g' /\ received g' < k_ c) ->
  recv_ok (set_recv c (delete gid groups) order).
Proof.
  intros Hc Hl Hoth. split_and!; [done|done|]. intros x g' Hx. simpl in *.
  apply lookup_delete_Some in Hx as [Hne Hx]. by apply Hoth.
Qed.

Lemma fresh_group_wf k m : group_wf k m (fresh_group k m).
Proof.
  split_and!; simpl; rewrite ?length_replicate; try done.
  destruct (filled _ _) as [|i l] eqn:E; [done|]. exfalso.
  assert (i ∈ filled (k + m) (replicate (k + m) None)) as Hi by (rewrite E; by left).
  pose proof (filled_bound _ _ _ Hi). apply list_elem_of_filter in Hi as [Hi _].
  rewrite lookup_total_replicate_2 in Hi by done. by destruct Hi.
Qed.

(** The group as [decode] finds or creates it, and what eviction leaves. *)
Lemma open_group_ok c gid :
  recv_ok c ->
  exists g groups order, groups !! gid = Some g /\ group_wf (k_ c) (m_ c) g /\
    received g < k_ c /\ gid ∈ order /\ length order <= kMaxReceiveGroups /\
    (forall x g', x <> gid -> groups !! x = Some g' ->
       x ∈ order /\ group_wf (k_ c) (m_ c) g' /\ received g' < k_ c) /\
    (let g := default empty_group (recv_groups_ c !! gid) in
     delivered g = false /\
     init_group gid (k_ c) (m_ c) g (<[gid := g]> (recv_groups_ c)) (recv_group_order_ c) =
       (groups, order)).
Proof.
  intros ((Hk & _) & Hlen & Hgrp). unfold init_group.
  destruct (recv_groups_ c !! gid) as [g|] eqn:Eg; simpl.
  - destruct (Hgrp gid g Eg) as (Hin & Hwf & Hr). pose proof Hwf as (Hgk & _ & Hd & _).
    rewrite Hgk, (proj2 (Nat.eqb_neq _ _)) by lia.
    exists g, (<[gid := g]> (recv_groups_ c)), (recv_group_order_ c).
    split_and!; try done; [apply lookup_insert_eq|].
    intros x g' Hne Hx. rewrite lookup_insert_ne in Hx by done. by apply Hgrp.
  - rewrite insert_insert_eq.
    pose proof (remember_spec gid (recv_group_order_ c) (recv_groups_ c)
                  (fresh_group (k_ c) (m_ c)) Hlen) as Hrem.
    destruct (remember_receive_group _ _ _) as [groups order].
    destruct Hrem as (Hlo & Hself & Hin & Hoth); [intros x g Hx; by apply Hgrp in Hx as [? _]|].
    exists (fresh_group (k_ c) (m_ c)), groups, order.
    split_and!; try done; try apply fresh_group_wf; simpl; try lia.
    intros x g' Hne Hx. destruct (Hoth x g' Hne Hx) as [Hx' Hin'].
    split; [done|]. by apply Hgrp in Hx' as [_ ?].
Qed.

Lemma decode_recv_ok c dg :
  recv_ok c ->
  let '(c', out) := decode c dg in
  recv_ok c' /\ k_ c' = k_ c /\ m_ c' = m_ c /\ (out = [] \/ length out = k_ c).
Proof.
  intros Hc. pose proof Hc as (Hcod & Hlen & Hgrp).
  pose proof Hcod as (Hk & Hm & Hkm & Henc). unfold decode.
  destruct (parse_header dg) as [h|]; [|by split_and!; [| | |left]].
  destruct (negb _ || negb _) eqn:Hcfg; [by split_and!; [| | |left]|].
  bool_to_prop. assert (h_num_data h = k_ c) as Hnd by congruence.
  assert (h_num_roots h = m_ c) as Hnr by congruence. rewrite Hnd, Hnr.
  case_goal; [by split_and!; [| | |left]|].
  case_goal; [by split_and!; [| | |left]|].
  set (payload := take _ _). set (gid := h_group_id h).
  destruct (open_group_ok c gid Hc)
    as (g & groups & order & Hg & Hwf & Hr & Hin & Hlo & Hoth & Hd & Heq).
  cbv zeta in Heq |- *. rewrite Hd, Heq, Hg. simpl.
  destruct (store_frame _ _ _ _ _) as [g'|] eqn:Es.
  - destruct (store_frame_wf _ (m_ c) _ _ _ _ _ ltac:(done) Hwf Es) as [Hwf' Hr'].
    destruct (decide (received g' < k_ c)) as [Hlt|Hge].
    + unfold try_deliver. simpl. rewrite lookup_insert_eq.
      pose proof Hwf' as (Hgk & _ & Hd' & _). rewrite Hgk, Hd'.
      rewrite (proj2 (Nat.ltb_lt _ _)) by done. simpl.
      split_and!; try done; [|by left]. by apply recv_ok_update.
    + destruct (try_deliver_complete (set_recv c (<[gid:=g']> groups) order) gid g')
        as (out & -> & Hout); simpl; try done; [apply lookup_insert_eq|lia|].
      rewrite delete_insert_eq.
      split_and!; try done; [|by right]. by apply recv_ok_delete.
  - split_and!; try done; [|by left]. rewrite <-(insert_id groups gid g) by done.
    by apply recv_ok_update.
Qed.

Lemma decode_all_recv_ok c dgs :
  recv_ok c ->
  let '(c', outs) := decode_all c dgs in
  recv_ok c' /\ k_ c' = k_ c /\ m_ c' = m_ c /\
  Forall (fun out => out = [] \/ length out = k_ c) outs.
Proof.
  revert c. induction dgs as [|dg dgs IH]; intros c Hc; simpl; [by split_and!|].
  pose proof (decode_recv_ok c dg Hc) as H. destruct (decode c dg) as [c1 out].
  destruct H as (Hc1 & Hk & Hm & Hout). specialize (IH c1 Hc1).
  destruct (decode_all c1 dgs) as [c2 outs]. destruct IH as (Hc2 & Hk2 & Hm2 & Houts).
  rewrite Hk in Houts. split_and!; try congruence. by constructor.
Qed.

(** (C34) Whatever datagrams arrive, in whatever order, a decoder built with valid
    parameters keeps at most 256 groups, each incomplete with vectors of exactly
    k+m slots and k lengths, and every call of [decode] delivers either nothing
    or exactly k payloads: elimination never meets a singular matrix. *)
Theorem decoder_bounded (k m : nat) (c : FecCodec) (dgs : list bytes)
    (Hmake : make_codec k m = Ok c) :
  let '(c', outs) := decode_all c dgs in
  size (recv_groups_ c') <= kMaxReceiveGroups /\
  (forall gid g, recv_groups_ c' !! gid = Some g -> group_wf k m g /\ received g < k) /\
  Forall (fun out => out = [] \/ length out = k) outs.
Proof.
  apply make_codec_Ok in Hmake as (Hc & _ & Hk & Hm & _ & _ & Hg & Ho).
  pose proof (decode_all_recv_ok c dgs) as H. destruct (decode_all c dgs) as [c' outs].
  rewrite Hk, Hm in H. destruct H as ((Hc' & Hlen & Hgrp) & Hk' & Hm' & Houts).
  { split_and!; [done|by rewrite Ho; simpl; lia|]. intros gid g. by rewrite Hg. }
  rewrite Hk', Hm' in *. split_and!; [|intros gid g Hx; by apply Hgrp in Hx as [_ ?]|done].
  etrans; [|exact Hlen]. apply size_map_le. intros gid g Hx. by apply Hgrp in Hx as [? _].
Qed.

Lemma decoder_bounded_witness :
  let '(c', outs) := decode_all (initial_codec 2 1) [[x00]; []] in
  size (recv_groups_ c') <= kMaxReceiveGroups /\
  (forall gid g, recv_groups_ c' !! gid = Some g -> group_wf 2 1 g /\ received g < 2) /\
  Forall (fun out => out = [] \/ length out = 2) outs.
Proof. apply (decoder_bounded 2 1 (initial_codec 2 1) [[x00]; []]). reflexivity. Defined.

End FecInv.
