(* ===== verification/Cxx.v ===== *)
(** * What the code uses of the C++ standard library

    Iteration over [std::unordered_map], [std::chrono] durations, and the
    generic facts on loops over a map that the components share. *)

From S2P Require Import Prelude.

(** ** std::chrono, at the nanosecond resolution of [steady_clock] *)

Definition milliseconds (n : Z) : Z := (n * 1000000)%Z.
Definition seconds (n : Z) : Z := (n * 1000000000)%Z.

(** [std::chrono::duration_cast<std::chrono::seconds>(d).count()] *)
Definition count_seconds (d : Z) : Z := Z.quot d 1000000000.

(** ** std::unordered_map

    The order of iteration is unspecified: it is an interface of which only
    the law of the standard is known, that every element is visited once. *)
Class IterOrder : Type :=
  iter : forall {V : Type}, gmap bytes V -> list (bytes * V).

Class IterOrderLaws (o : IterOrder) : Prop :=
  iter_perm : forall (V : Type) (m : gmap bytes V), iter m ≡ₚ map_to_list m.

(** The order of the underlying map, a concrete implementation. *)
Definition map_order : IterOrder := fun V m => map_to_list m.

Lemma map_order_laws : IterOrderLaws map_order.
Proof. intros V m. reflexivity. Qed.

(** [for (auto &[key, value] : m)] accumulating into a state. *)
Definition for_each {o : IterOrder} {V St : Type} (m : gmap bytes V)
    (body : bytes -> V -> St -> St) (s : St) : St :=
  foldl (fun s kv => body kv.1 kv.2 s) s (iter m).

Section iteration.
Context {o : IterOrder} {laws : IterOrderLaws o}.
Context {V : Type}.
Implicit Types (m : gmap bytes V).

Lemma elem_of_iter m k v : (k, v) ∈ iter m <-> m !! k = Some v.
Proof. rewrite (iter_perm V m). apply elem_of_map_to_list. Qed.

Lemma NoDup_iter_keys m : NoDup (iter m).*1.
Proof. rewrite (iter_perm V m). apply NoDup_fst_map_to_list. Qed.

Lemma iter_keys m k : k ∈ (iter m).*1 <-> is_Some (m !! k).
Proof.
  rewrite list_elem_of_fmap. split.
  - intros ([k' v] & -> & H%elem_of_iter). by eexists.
  - intros [v H%elem_of_iter]. by exists (k, v).
Qed.

(** A loop whose body for key [k] only touches entry [k] of the accumulated map
    updates every entry independently of the order. *)
Lemma for_each_local {W} (f : bytes -> V -> option W -> option W)
    (body : bytes -> V -> gmap bytes W -> gmap bytes W) m (t : gmap bytes W) d :
  (forall k v t d, body k v t !! d = if decide (d = k) then f k v (t !! k) else t !! d) ->
  for_each m body t !! d =
    match m !! d with Some v => f d v (t !! d) | None => t !! d end.
Proof.
  intros Hbody. unfold for_each.
  assert (forall l (t : gmap bytes W), NoDup l.*1 ->
    foldl (fun s kv => body kv.1 kv.2 s) t l !! d =
      match list_find (fun kv => kv.1 = d) l with
      | Some (_, (_, v)) => f d v (t !! d) | None => t !! d end) as Hl.
  { intros l. induction l as [|[k v] l IH]; intros t' Hnd; [done|]. simpl.
    apply NoDup_cons in Hnd as [Hk Hnd]. rewrite IH, Hbody by done. simpl.
    destruct (decide (k = d)) as [->|Hne].
    - rewrite decide_True by done.
      assert (list_find (fun kv : bytes * V => kv.1 = d) l = None) as ->; [|done].
      apply list_find_None, Forall_forall. intros [k' v'] Hin Heq. simpl in Heq. subst.
      apply Hk, list_elem_of_fmap. by exists (d, v').
    - rewrite decide_False by done.
      destruct (list_find _ l) as [[? [? ?]]|]; done. }
  rewrite Hl by apply NoDup_iter_keys.
  destruct (list_find _ (iter m)) as [[i [k v]]|] eqn:E.
  - apply list_find_Some in E as (Hi & Hk & _). simpl in Hk. subst.
    apply list_elem_of_lookup_2, elem_of_iter in Hi. by rewrite Hi.
  - apply list_find_None in E. rewrite Forall_forall in E.
    destruct (m !! d) as [v|] eqn:Em; [|done]. apply elem_of_iter in Em.
    by destruct (E _ Em).
Qed.

(** The same for a loop that also raises a flag. *)
Lemma for_each_flagged {W} (f : bytes -> V -> option W -> option W * bool)
    (body : bytes -> V -> gmap bytes W * bool -> gmap bytes W * bool) m (t : gmap bytes W) b :
  (forall k v t b d, (body k v (t, b)).1 !! d = if decide (d = k) then (f k v (t !! k)).1 else t !! d) ->
  (forall k v t b, (body k v (t, b)).2 = b || (f k v (t !! k)).2) ->
  (forall d, (for_each m body (t, b)).1 !! d =
     match m !! d with Some v => (f d v (t !! d)).1 | None => t !! d end) /\
  ((for_each m body (t, b)).2 = true <->
     b = true \/ exists k v, m !! k = Some v /\ (f k v (t !! k)).2 = true).
Proof.
  intros H1 H2.
  assert (forall k v s, body k v s = ((body k v (s.1, false)).1, s.2 || (f k v (s.1 !! k)).2)) as Hs.
  { intros k v [t' b']. simpl. rewrite <-H2 with (b := b'). rewrite (surjective_pairing (body k v (t', b'))).
    simpl. f_equal. apply map_eq. intros d. by rewrite !H1. }
  split.
  - intros d. pose proof (for_each_local (fun k v o => (f k v o).1) (fun k v t => (body k v (t, false)).1)
      m t d) as Hl. rewrite <-Hl by (intros; apply H1). f_equal.
    unfold for_each. generalize (iter m) as l. clear -Hs. intros l. revert t b.
    induction l as [|[k v] l IH]; intros t b; [done|]. simpl. rewrite Hs. apply IH.
  - unfold for_each. pose proof (NoDup_iter_keys m) as Hnd. setoid_rewrite <-elem_of_iter.
    revert Hnd t b. generalize (iter m) as l. clear -H1 Hs. intros l.
    induction l as [|[k v] l IH]; intros Hnd t b; simpl.
    + split; [by left|]. intros [|(k & v & ?%not_elem_of_nil & _)]; done.
    + apply NoDup_cons in Hnd as [Hk Hnd]. rewrite Hs, IH by done. simpl. rewrite orb_true_iff. split.
      * intros [[|]|(k' & v' & Hin & Hf)]; [by left|right; exists k, v; split; [by left|done]|].
        right. exists k', v'. split; [by right|]. rewrite H1, decide_False in Hf; [done|].
        intros ->. apply Hk, list_elem_of_fmap. by exists (k, v').
      * intros [|(k' & v' & [[= -> ->]|Hin]%elem_of_cons & Hf)]; [by left; left|by left; right|].
        right. exists k', v'. split; [done|]. rewrite H1, decide_False; [done|].
        intros ->. apply Hk, list_elem_of_fmap. by exists (k, v').
Qed.

(** Two accumulators that do not read each other. *)
Lemma for_each_prod {A B} m (f : bytes -> V -> A -> A) (g : bytes -> V -> B -> B)
    (body : bytes -> V -> A * B -> A * B) a b :
  (forall k v a b, body k v (a, b) = (f k v a, g k v b)) ->
  for_each m body (a, b) = (for_each m f a, for_each m g b).
Proof.
  intros Hb. unfold for_each. generalize (iter m) as l. intros l. revert a b.
  induction l as [|[k v] l IH]; intros a b; [done|]. simpl. by rewrite Hb.
Qed.

End iteration.
