(* ===== verification/DedupSet.v ===== *)
(** * The timed deduplication set

    [TimedDedupSet] of src/src/mesh/utils/DedeupSet.h: a hash set and a queue of
    insertion times, and its refinement of an abstract map from values to the
    time they were first seen.  The clock is an argument of every operation that
    reads it. *)

From S2P Require Import Prelude.
From Stdlib Require Export Sorting.Sorted.

Module Dedup.

Record TimedDedupSet (T : Type) `{Countable T} := DedupSet {
  max_age_ : Z;                    (* nanoseconds *)
  set_ : gset T;
  time_queue_ : list (Z * T)
}.
Arguments DedupSet {T _ _} _ _ _.
Arguments max_age_ {T _ _} _.
Arguments set_ {T _ _} _.
Arguments time_queue_ {T _ _} _.

Section dedup.
Context {T : Type} `{Countable T}.
Implicit Types (s : TimedDedupSet T) (v : T) (q : list (Z * T)) (m : gmap T Z).

(** ** The code *)

Definition new_dedup (max_age : Z) : TimedDedupSet T := DedupSet max_age ∅ [].

Definition insert (now : Z) v s : bool * TimedDedupSet T :=
  if bool_decide (v ∈ set_ s) then (false, s)
  else (true, DedupSet (max_age_ s) ({[v]} ∪ set_ s) (time_queue_ s ++ [(now, v)])).

Definition contains v s : bool := bool_decide (v ∈ set_ s).

(** The [while] loop of [cleanup]; it stops at the first entry young enough. *)
Fixpoint cleanup_loop (now max_age : Z) q (xs : gset T) : gset T * list (Z * T) :=
  match q with
  | [] => (xs, [])
  | (timestamp, value) :: q' =>
      if (max_age <? now - timestamp)%Z
      then cleanup_loop now max_age q' (xs ∖ {[value]})
      else (xs, q)
  end.

Definition cleanup (now : Z) s : TimedDedupSet T :=
  match time_queue_ s with
  | [] => s
  | q => let '(xs, q') := cleanup_loop now (max_age_ s) q (set_ s) in DedupSet (max_age_ s) xs q'
  end.

Definition dedup_size s : nat := size (set_ s).

Definition clear s : TimedDedupSet T := DedupSet (max_age_ s) ∅ [].

(** ** Well-formedness: the set and the queue hold the same values, once each,
    and the queue is in order of time. *)

Definition in_order q : Prop := Sorted Z.le q.*1.

Definition dedup_wf (now : Z) s : Prop :=
  set_ s = list_to_set (time_queue_ s).*2 /\ NoDup (time_queue_ s).*2 /\
  in_order (time_queue_ s) /\ Forall (fun e => e.1 <= now)%Z (time_queue_ s).

(** ** The abstract set: a map from a value to the time it was first seen *)

Definition seen_at s : gmap T Z := list_to_map (prod_swap <$> time_queue_ s).

Definition spec_insert (now : Z) v m : bool * gmap T Z :=
  match m !! v with Some _ => (false, m) | None => (true, <[v := now]> m) end.

Definition spec_expire (now max_age : Z) m : gmap T Z :=
  filter (fun '(_, t) => (now - t <= max_age)%Z) m.

Lemma swap_keys q : (prod_swap <$> q).*1 = q.*2.
Proof. rewrite <-list_fmap_compose. by apply list_fmap_ext; intros ? []. Qed.

Lemma seen_at_lookup s v t :
  NoDup (time_queue_ s).*2 -> seen_at s !! v = Some t <-> (t, v) ∈ time_queue_ s.
Proof.
  intros Hnd. unfold seen_at. rewrite <-elem_of_list_to_map by by rewrite swap_keys.
  rewrite list_elem_of_fmap. split.
  - intros ([? ?] & [= <- <-] & ?). done.
  - intros ?. by exists (t, v).
Qed.

Lemma seen_at_set now s v : dedup_wf now s -> is_Some (seen_at s !! v) <-> v ∈ set_ s.
Proof.
  intros (Hset & Hnd & _). rewrite Hset, elem_of_list_to_set, list_elem_of_fmap. split.
  - intros [t Ht]. apply seen_at_lookup in Ht; [|done]. by exists (t, v).
  - intros ([t v'] & -> & Hin). exists t. by apply seen_at_lookup.
Qed.

Lemma dedup_wf_later now now' s : (now <= now')%Z -> dedup_wf now s -> dedup_wf now' s.
Proof.
  intros Hle (? & ? & ? & Hf). split_and!; try done.
  eapply Forall_impl; [exact Hf|]. simpl. lia.
Qed.

Lemma new_dedup_wf now age : dedup_wf now (new_dedup age).
Proof. split_and!; simpl; try done; constructor. Qed.

Lemma in_order_snoc now v q :
  in_order q -> Forall (fun e => e.1 <= now)%Z q -> in_order (q ++ [(now, v)]).
Proof.
  unfold in_order. induction q as [|[t w] q IH]; intros Hs Hf; simpl.
  - repeat constructor.
  - apply Sorted_inv in Hs as [Hs Hhd]. apply Forall_cons in Hf as [Ht Hf].
    constructor; [by apply IH|]. destruct q as [|[t' w'] q]; simpl in *; [by constructor|].
    inversion Hhd; by constructor.
Qed.

(** [insert] implements the abstract insertion. *)
Lemma insert_refines now v s :
  dedup_wf now s ->
  let '(fresh, s') := insert now v s in
  dedup_wf now s' /\ max_age_ s' = max_age_ s /\
  (fresh, seen_at s') = spec_insert now v (seen_at s).
Proof.
  intros Hwf. pose proof (seen_at_set now s v Hwf) as Hin. unfold insert, spec_insert.
  destruct Hwf as (Hset & Hnd & Hord & Hf). case_bool_decide as Hv.
  - split_and!; try done. apply Hin in Hv as [t ->]. done.
  - assert (v ∉ (time_queue_ s).*2) as Hq 
      by (by rewrite Hset, not_elem_of_list_to_set in Hv).
    split_and!; simpl.
    + unfold dedup_wf; simpl. split_and!.
      * rewrite Hset, fmap_app, list_to_set_app_L. clear. set_solver.
      * rewrite fmap_app. apply NoDup_app. split_and!; [done| |apply NoDup_singleton].
        intros x Hx ->%list_elem_of_singleton. done.
      * by apply in_order_snoc.
      * apply Forall_app. split; [done|]. repeat constructor; simpl; lia.
    + done.
    + destruct (seen_at s !! v) as [t|] eqn:E; [by destruct Hv; apply Hin|]. f_equal.
      unfold seen_at. simpl. rewrite fmap_app, list_to_map_app. simpl.
      rewrite insert_empty, insert_union_singleton_l, map_union_comm; [done|].
      apply map_disjoint_singleton_r. exact E.
Qed.

(** The loop drops the longest prefix of expired entries. *)
Lemma cleanup_loop_drop now age q S :
  NoDup q.*2 -> S = list_to_set q.*2 ->
  exists n, cleanup_loop now age q S = (list_to_set (drop n q).*2, drop n q) /\
    Forall (fun e => age < now - e.1)%Z (take n q) /\
    match drop n q with [] => True | e :: _ => (now - e.1 <= age)%Z end.
Proof.
  revert S. induction q as [|[t v] q IH]; intros S Hnd ->; simpl.
  - by exists 0.
  - apply NoDup_cons in Hnd as [Hv Hnd]. destruct (Z.ltb_spec age (now - t)).
    + destruct (IH (list_to_set q.*2)) as (n & E & ? & ?); try done.
      exists (Datatypes.S n). simpl. split_and!; [|by constructor|done].
      rewrite <-E. f_equal. clear -Hv. set_solver.
    + exists 0. simpl. split_and!; [done|constructor|lia].
Qed.

Lemma in_order_head t v q : in_order ((t, v) :: q) -> Forall (fun e => t <= e.1)%Z q.
Proof.
  intros Hs. apply (Sorted_StronglySorted Z.le_trans) in Hs.
  apply StronglySorted_inv in Hs as [_ Hs]. apply (proj1 (Forall_fmap _ _ _)) in Hs. exact Hs.
Qed.

Lemma in_order_drop n q : in_order q -> in_order (drop n q).
Proof.
  unfold in_order. revert n. induction q as [|e q IH]; intros [|n] Hs; simpl; try done.
  apply IH. by apply Sorted_inv in Hs as [].
Qed.

(** [cleanup] implements expiry: on a queue in order of time the entries that
    remain are exactly the young ones. *)
Lemma cleanup_refines now s :
  dedup_wf now s ->
  dedup_wf now (cleanup now s) /\ max_age_ (cleanup now s) = max_age_ s /\
  seen_at (cleanup now s) = spec_expire now (max_age_ s) (seen_at s).
Proof.
  intros (Hset & Hnd & Hord & Hf).
  destruct (cleanup_loop_drop now (max_age_ s) (time_queue_ s) (set_ s) Hnd Hset)
    as (n & E & Hold & Hyoung).
  assert (cleanup now s = DedupSet (max_age_ s) (list_to_set (drop n (time_queue_ s)).*2)
            (drop n (time_queue_ s))) as ->.
  { unfold cleanup. destruct (time_queue_ s) eqn:Eq; [|by rewrite E].
    rewrite drop_nil. destruct s as [a xs q]. simpl in *. by subst. }
  assert (NoDup (drop n (time_queue_ s)).*2) as Hnd'.
  { rewrite fmap_drop. eapply sublist_NoDup; [exact Hnd|apply sublist_drop]. }
  split_and!; [split_and!; simpl; try done| done |].
  { by apply in_order_drop. } { by apply Forall_drop. }
  apply map_eq. intros v. apply option_eq. intros t. unfold spec_expire.
  rewrite map_lookup_filter_Some, !seen_at_lookup by done. simpl. split.
  - intros Hin. split; [rewrite <-(take_drop n (time_queue_ s)); apply elem_of_app; by right|].
    apply in_order_drop with (n := n) in Hord.
    destruct (drop n (time_queue_ s)) as [|[t0 v0] q]; [by apply not_elem_of_nil in Hin|].
    apply elem_of_cons in Hin as [[= -> ->]|Hin]; [done|].
    apply in_order_head in Hord. rewrite Forall_forall in Hord. apply Hord in Hin. simpl in *. lia.
  - intros [Hin Hage]. rewrite <-(take_drop n (time_queue_ s)) in Hin.
    apply elem_of_app in Hin as [Hin|]; [|done].
    rewrite Forall_forall in Hold. apply Hold in Hin. simpl in Hin. lia.
Qed.

(** ** What is remembered, whatever the order of the times *)

Definition consistent s : Prop := set_ s = list_to_set (time_queue_ s).*2 /\ NoDup (time_queue_ s).*2.

(** The value was inserted at time [t] and has not been forgotten. *)
Definition remembers (t : Z) v s : Prop := consistent s /\ (t, v) ∈ time_queue_ s.

(** Values are added at most. *)
Definition grows s s' : Prop :=
  max_age_ s' = max_age_ s /\ (consistent s -> consistent s') /\
  forall e, e ∈ time_queue_ s -> e ∈ time_queue_ s'.

#[global] Instance grows_preorder : PreOrder grows.
Proof.
  split; [by intros s|]. intros s1 s2 s3 (E1 & C1 & Q1) (E2 & C2 & Q2).
  split_and!; [congruence|auto|]. intros e He. by apply Q2, Q1.
Qed.

Lemma grows_remembers t v s s' : grows s s' -> remembers t v s -> remembers t v s'.
Proof. intros (_ & C & Q) [? ?]. split; [by apply C|by apply Q]. Qed.

Lemma insert_grows now v s : grows s (insert now v s).2.
Proof.
  unfold insert. case_bool_decide as Hv; [done|]. split_and!; simpl; [done| |by intros; apply elem_of_app; left].
  intros [Hset Hnd]. split; simpl.
  - rewrite Hset, fmap_app, list_to_set_app_L. clear. set_solver.
  - rewrite fmap_app. apply NoDup_app. split_and!; [done| |apply NoDup_singleton].
    intros x Hx ->%list_elem_of_singleton. by rewrite Hset, not_elem_of_list_to_set in Hv.
Qed.

Lemma insert_remembers now v s : consistent s -> contains v s = false -> remembers now v (insert now v s).2.
Proof.
  intros Hc Hn. split; [by apply (insert_grows now v s)|]. unfold insert. apply bool_decide_eq_false in Hn.
  rewrite bool_decide_false by done. simpl. apply elem_of_app. right. by left.
Qed.

Lemma remembers_contains t v s : remembers t v s -> contains v s = true.
Proof.
  intros [[Hset _] Hin]. apply bool_decide_true. rewrite Hset, elem_of_list_to_set, list_elem_of_fmap. by exists (t, v).
Qed.

Lemma cleanup_drop now s :
  consistent s -> exists n, Forall (fun e => max_age_ s < now - e.1)%Z (take n (time_queue_ s)) /\
    time_queue_ (cleanup now s) = drop n (time_queue_ s) /\ consistent (cleanup now s) /\
    max_age_ (cleanup now s) = max_age_ s.
Proof.
  intros [Hset Hnd]. destruct (cleanup_loop_drop now (max_age_ s) (time_queue_ s) (set_ s) Hnd Hset) as (n & E & Hold & _).
  exists n. split; [done|]. unfold cleanup. destruct (time_queue_ s) as [|e q] eqn:Eq.
  - by rewrite drop_nil, Eq; unfold consistent; rewrite Hset, Eq.
  - rewrite E. split; [done|]. split; [|done]. split; simpl; [done|].
    rewrite fmap_drop. eapply sublist_NoDup; [exact Hnd|apply sublist_drop].
Qed.

(** A value is kept for at least the maximal age. *)
Lemma cleanup_remembers now t v s :
  remembers t v s -> (now - t <= max_age_ s)%Z -> remembers t v (cleanup now s).
Proof.
  intros [Hc Hin] Hage. destruct (cleanup_drop now s Hc) as (n & Hold & Hq & Hc' & _). split; [done|].
  rewrite Hq. rewrite <-(take_drop n (time_queue_ s)) in Hin. apply elem_of_app in Hin as [Hin|]; [|done].
  rewrite Forall_forall in Hold. apply Hold in Hin. simpl in Hin. lia.
Qed.

(** ** Histories *)

Inductive op := OpInsert (now : Z) v | OpCleanup (now : Z) | OpContains (now : Z) v | OpClear (now : Z).

Definition op_time (o : op) : Z :=
  match o with OpInsert t _ | OpCleanup t | OpContains t _ | OpClear t => t end.

(** The state after one call and the value it returns, if it returns one. *)
Definition do_op (o : op) s : option bool * TimedDedupSet T :=
  match o with
  | OpInsert t v => let '(b, s') := insert t v s in (Some b, s')
  | OpCleanup t => (None, cleanup t s)
  | OpContains _ v => (Some (contains v s), s)
  | OpClear _ => (None, clear s)
  end.

Definition spec_op (age : Z) (o : op) m : option bool * gmap T Z :=
  match o with
  | OpInsert t v => let '(b, m') := spec_insert t v m in (Some b, m')
  | OpCleanup t => (None, spec_expire t age m)
  | OpContains _ v => (Some (bool_decide (is_Some (m !! v))), m)
  | OpClear _ => (None, ∅)
  end.

Fixpoint run {St} (step : op -> St -> option bool * St) (ops : list op) (s : St)
    : list (option bool) * St :=
  match ops with
  | [] => ([], s)
  | o :: ops => let '(b, s') := step o s in
                let '(bs, s'') := run step ops s' in (b :: bs, s'')
  end.

Lemma do_op_refines age o s now :
  (now <= op_time o)%Z -> dedup_wf now s -> max_age_ s = age ->
  let '(b, s') := do_op o s in
  dedup_wf (op_time o) s' /\ max_age_ s' = age /\ (b, seen_at s') = spec_op age o (seen_at s).
Proof.
  intros Hle Hwf <-. apply dedup_wf_later with (now' := op_time o) in Hwf; [|done].
  destruct o as [t v|t|t v|t]; simpl in *.
  - pose proof (insert_refines t v s Hwf) as Hr. destruct (insert t v s) as [b s'].
    destruct Hr as (? & ? & Hr). rewrite <-Hr. done.
  - destruct (cleanup_refines t s Hwf) as (? & ? & ->). done.
  - split_and!; try done. unfold contains. f_equal. f_equal. apply bool_decide_ext.
    symmetry. by eapply seen_at_set.
  - split_and!; try done. split_and!; simpl; try done; constructor.
Qed.

Lemma run_refines age ops s now :
  StronglySorted Z.le (now :: map op_time ops) -> dedup_wf now s -> max_age_ s = age ->
  let '(bs, s') := run do_op ops s in
  (bs, seen_at s') = run (spec_op age) ops (seen_at s).
Proof.
  revert s now. induction ops as [|o ops IH]; intros s now Hs Hwf Hage; simpl; [done|].
  apply StronglySorted_inv in Hs as [Hs Hle]. simpl in Hle. apply Forall_cons in Hle as [Hle _].
  pose proof (do_op_refines age o s now Hle Hwf Hage) as Ho.
  destruct (do_op o s) as [b s']. destruct Ho as (Hwf' & Hage' & Ho). rewrite <-Ho.
  specialize (IH s' (op_time o) Hs Hwf' Hage'). destruct (run do_op ops s') as [bs s''].
  by rewrite <-IH.
Qed.
End dedup.

Arguments op : clear implicits.

(** (C23) Under a clock that never goes back, every history of calls of
    [insert], [cleanup], [contains] and [clear] on a fresh [TimedDedupSet]
    returns what the abstract map of first-seen times returns: the two
    structures, the hash set and the queue, never disagree, and [cleanup] forgets
    exactly the values first seen more than [max_age] ago. *)
Theorem dedup_set_refines_map {T} `{Countable T} (age start : Z) (ops : list (op T))
    (Hclock : StronglySorted Z.le (start :: map op_time ops)) :
  let '(bs, s) := run do_op ops (new_dedup age) in
  (bs, seen_at s) = run (spec_op age) ops ∅ /\
  set_ s = dom (seen_at s) /\ dedup_size s = length (time_queue_ s).
Proof.
  pose proof (run_refines age ops (new_dedup age) start Hclock (new_dedup_wf _ _) eq_refl) as Hr.
  assert (exists now, dedup_wf now (run do_op ops (new_dedup age)).2) as (now & Hwf).
  { clear Hr. assert (dedup_wf start (new_dedup (T:=T) age)) as Hwf by apply new_dedup_wf.
    revert Hwf Hclock. generalize (new_dedup (T:=T) age) as s. revert start.
    induction ops as [|o ops IH]; intros now s Hwf Hs; simpl; [by exists now|].
    apply StronglySorted_inv in Hs as [Hs Hle]. simpl in Hle. apply Forall_cons in Hle as [Hle _].
    pose proof (do_op_refines _ o s now Hle Hwf eq_refl) as Ho.
    destruct (do_op o s) as [b s']. destruct Ho as (Hwf' & _ & _).
    specialize (IH (op_time o) s' Hwf' Hs). by destruct (run do_op ops s'). }
  destruct (run do_op ops (new_dedup age)) as [bs s]. simpl in *. split_and!.
  - rewrite Hr. done.
  - apply set_eq. intros v. rewrite elem_of_dom. symmetry. by eapply seen_at_set.
  - destruct Hwf as (Hset & Hnd & _). unfold dedup_size.
    rewrite Hset, size_list_to_set, length_fmap by done. done.
Qed.

Lemma dedup_set_refines_map_witness :
  run do_op [OpInsert 0 7%Z; OpInsert 10 7%Z; OpCleanup 40; OpContains 40 7%Z; OpInsert 41 7%Z]
    (new_dedup 30) =
  ([Some true; Some false; None; Some false; Some true], DedupSet 30 {[7%Z]} [(41%Z, 7%Z)]) /\
  run (spec_op 30) [OpInsert 0 7%Z; OpInsert 10 7%Z; OpCleanup 40; OpContains 40 7%Z; OpInsert 41 7%Z] ∅
    = ([Some true; Some false; None; Some false; Some true], {[7%Z := 41%Z]}).
Proof.
  pose proof (dedup_set_refines_map 30 0
    [OpInsert 0 7%Z; OpInsert 10 7%Z; OpCleanup 40; OpContains 40 7%Z; OpInsert 41 7%Z]) as W.
  split; [reflexivity|].
  destruct W as [W _]; [repeat constructor; simpl; lia|]. rewrite <-W. reflexivity.
Defined.

End Dedup.
