(* ===== verification/ThreadSafeQueue.v ===== *)
(** * The thread-safe queue

    [ThreadSafeQueue] of src/src/mesh/utils/ThreadSafeQueue.h: its critical
    sections as functions on the guarded state, and the interleavings of any
    number of producers and consumers as a step relation in which the condition
    variable's sleepers, the notified threads and the notifications that a
    producer has still to send are explicit. *)

From S2P Require Import Prelude.

Module Queue.

Section queue.
Context {T : Type}.

(** ** The code *)

Record ThreadSafeQueue := TSQueue { queue_ : list T; stop_requested_ : bool }.

Implicit Types (q : ThreadSafeQueue).

Definition new_queue : ThreadSafeQueue := TSQueue [] false.

(** The critical section of [push]; the notification follows it. *)
Definition push (value : T) q : ThreadSafeQueue := TSQueue (queue_ q ++ [value]) (stop_requested_ q).

(** The predicate both waits pass to the condition variable. *)
Definition ready q : bool := negb (bool_decide (queue_ q = [])) || stop_requested_ q.

(** What a pop does once its wait has returned [success]; [None] is [nullopt].
    The wait returns [true] only when [ready] holds, so [front()] is never called
    on an empty queue. *)
Definition take_front (success : bool) q : option T * ThreadSafeQueue :=
  if stop_requested_ q && bool_decide (queue_ q = []) then (None, q)
  else if negb success then (None, q)
  else match queue_ q with
       | [] => (None, q)
       | v :: rest => (Some v, TSQueue rest (stop_requested_ q))
       end.

(** One evaluation of [pop] with the lock held: [None] goes back to sleep. *)
Definition pop q : option (option T * ThreadSafeQueue) :=
  if ready q then Some (take_front true q) else None.

(** The same for [pop_for], told whether its time is over. *)
Definition pop_for (expired : bool) q : option (option T * ThreadSafeQueue) :=
  if ready q then Some (take_front true q)
  else if expired then Some (take_front false q) else None.

Definition empty q : bool := bool_decide (queue_ q = []).
Definition queue_size q : nat := length (queue_ q).

Definition stop q : ThreadSafeQueue := TSQueue (queue_ q) true.

(** ** Interleavings *)

(** [pushed] and [popped] record the values in the order their critical
    sections ran; [notify_one] and [notify_all] count the notifications whose
    critical section is over and which are still to be sent. *)
Record sys := Sys {
  shared : ThreadSafeQueue;
  sleeping : list nat;      (* threads blocked on the condition variable *)
  woken : list nat;         (* threads notified that do not hold the lock yet *)
  notify_one : nat;
  notify_all : nat;
  pushed : list T;
  popped : list T
}.

Implicit Types (s : sys).

Definition initial : sys := Sys new_queue [] [] 0 0 [] [].

(** A thread evaluates a pop with the lock held: it returns or sleeps. *)
Definition attempt (t : nat) (r : option (option T * ThreadSafeQueue)) s : sys :=
  match r with
  | None => Sys (shared s) (t :: sleeping s) (woken s) (notify_one s) (notify_all s)
                (pushed s) (popped s)
  | Some (res, q) => Sys q (sleeping s) (woken s) (notify_one s) (notify_all s)
                         (pushed s) (popped s ++ option_list res)
  end.

Definition set_threads (sl wk : list nat) s : sys :=
  Sys (shared s) sl wk (notify_one s) (notify_all s) (pushed s) (popped s).

Definition set_pending (one all : nat) s : sys :=
  Sys (shared s) (sleeping s) (woken s) one all (pushed s) (popped s).

(** A notified thread evaluates its predicate again, its time over or not; a
    sleeper may also wake without a notification, spuriously or by time-out. *)
Inductive step s : sys -> Prop :=
| step_push v :
    step s (Sys (push v (shared s)) (sleeping s) (woken s) (S (notify_one s)) (notify_all s)
              (pushed s ++ [v]) (popped s))
| step_notify_one n t sl1 sl2 :
    notify_one s = S n -> sleeping s = sl1 ++ t :: sl2 ->
    step s (set_pending n (notify_all s) (set_threads (sl1 ++ sl2) (t :: woken s) s))
| step_notify_nobody n :
    notify_one s = S n -> sleeping s = [] -> step s (set_pending n (notify_all s) s)
| step_stop :
    step s (Sys (stop (shared s)) (sleeping s) (woken s) (notify_one s) (S (notify_all s))
              (pushed s) (popped s))
| step_notify_all n :
    notify_all s = S n ->
    step s (set_pending (notify_one s) n (set_threads [] (sleeping s ++ woken s) s))
| step_call t expired :
    step s (attempt t (pop_for expired (shared s)) s)
| step_call_pop t :
    step s (attempt t (pop (shared s)) s)
| step_resume t wk1 wk2 expired :
    woken s = wk1 ++ t :: wk2 ->
    step s (attempt t (pop_for expired (shared s)) (set_threads (sleeping s) (wk1 ++ wk2) s))
| step_spurious t sl1 sl2 :
    sleeping s = sl1 ++ t :: sl2 ->
    step s (set_threads (sl1 ++ sl2) (t :: woken s) s).

Definition steps : sys -> sys -> Prop := rtc step.

(** ** Invariants *)

(** While somebody sleeps, every queued value has a wake-up on its way, and a
    stop request has its broadcast on its way. *)
Definition queue_inv s : Prop :=
  pushed s = popped s ++ queue_ (shared s) /\
  (sleeping s <> [] -> length (queue_ (shared s)) <= length (woken s) + notify_one s) /\
  (sleeping s <> [] -> stop_requested_ (shared s) = true -> 0 < notify_all s).

Lemma pop_is_pop_for q : pop q = pop_for false q.
Proof. done. Qed.

(** The outcomes of an evaluation of [pop_for]. *)
Lemma pop_for_cases expired q :
  match pop_for expired q with
  | None => queue_ q = [] /\ stop_requested_ q = false
  | Some (Some v, q') => queue_ q = v :: queue_ q' /\ stop_requested_ q' = stop_requested_ q
  | Some (None, q') => q' = q /\ queue_ q = []
  end.
Proof.
  unfold pop_for, take_front, ready. destruct q as [[|v vs] [|]]; simpl; try done.
  by destruct expired.
Qed.

Lemma attempt_inv t expired s :
  pushed s = popped s ++ queue_ (shared s) ->
  (sleeping s <> [] -> length (queue_ (shared s)) <= S (length (woken s)) + notify_one s) ->
  (length (queue_ (shared s)) <= length (woken s) + notify_one s \/
   sleeping s = [] \/ exists v vs, queue_ (shared s) = v :: vs) ->
  (sleeping s <> [] -> stop_requested_ (shared s) = true -> 0 < notify_all s) ->
  queue_inv (attempt t (pop_for expired (shared s)) s).
Proof.
  intros Hp Hl Hc Hs. pose proof (pop_for_cases expired (shared s)) as H.
  destruct (pop_for expired (shared s)) as [[[v|] q']|]; simpl in *.
  - destruct H as [Hq Hst]. rewrite Hq in *. simpl in *. split_and!; simpl.
    + by rewrite <-app_assoc.
    + intros. specialize (Hl ltac:(done)). lia.
    + by rewrite Hst.
  - destruct H as [-> Hq]. rewrite Hq in *. split_and!; simpl; rewrite ?Hq; simpl; try done.
    + by rewrite Hp, !app_nil_r.
    + lia.
  - destruct H as [Hq Hst]. split_and!; simpl; [done|rewrite Hq; simpl; lia|congruence].
Qed.

Lemma queue_step_inv s s' : queue_inv s -> step s s' -> queue_inv s'.
Proof.
  intros (Hp & Hl & Hs) Hstep.
  destruct Hstep as [v|n t sl1 sl2 Hn Hsl|n Hn Hsl| |n Hn|t e|t|t wk1 wk2 e Hw|t sl1 sl2 Hsl].
  - split_and!; simpl; [by rewrite Hp, app_assoc| |done].
    intros ?. rewrite length_app. simpl. specialize (Hl ltac:(done)). lia.
  - assert (sleeping s <> []) as Hne by (rewrite Hsl; by destruct sl1).
    specialize (Hl Hne). split_and!; simpl; [done|lia|auto].
  - split_and!; simpl; [done|by rewrite Hsl|by rewrite Hsl].
  - split_and!; simpl; [done|done|lia].
  - split_and!; simpl; done.
  - apply attempt_inv; try done; [intros Hne; specialize (Hl Hne); lia|].
    destruct (decide (sleeping s = [])); [by right; left|]. left. auto.
  - rewrite pop_is_pop_for. apply attempt_inv; try done; [intros Hne; specialize (Hl Hne); lia|].
    destruct (decide (sleeping s = [])); [by right; left|]. left. auto.
  - change (shared s) with (shared (set_threads (sleeping s) (wk1 ++ wk2) s)) at 1.
    rewrite Hw, length_app in Hl. simpl in Hl. apply attempt_inv; simpl; try done.
    + intros Hne. specialize (Hl Hne). rewrite length_app. lia.
    + destruct (queue_ (shared s)) as [|v vs]; [left; simpl; lia|right; right; by eexists _, _].
  - assert (sleeping s <> []) as Hne by (rewrite Hsl; by destruct sl1).
    specialize (Hl Hne). split_and!; simpl; [done|lia|auto].
Qed.

Lemma steps_inv s s' : queue_inv s -> steps s s' -> queue_inv s'.
Proof. intros Hi Hs. induction Hs as [|? ? ? Hst _ IH]; [done|]. apply IH. by eapply queue_step_inv. Qed.

Lemma initial_inv : queue_inv initial.
Proof. by split_and!. Qed.

(** (C24) For any number of producers and consumers in any interleaving, with
    spurious wake-ups and time-outs: the values returned by [pop] and [pop_for],
    in order, followed by the values still queued, are the values pushed, in
    order. *)
Theorem queue_is_fifo s (Hreach : steps initial s) :
  pushed s = popped s ++ queue_ (shared s).
Proof. by destruct (steps_inv _ _ initial_inv Hreach) as [? _]. Qed.

(** (C25) No wake-up is lost: when every notification has been sent and every
    notified thread has run, a consumer that still sleeps faces an empty queue
    that nobody has stopped. *)
Theorem no_lost_wakeup s (Hreach : steps initial s)
    (Hquiet : woken s = [] /\ notify_one s = 0 /\ notify_all s = 0) (Hsleep : sleeping s <> []) :
  queue_ (shared s) = [] /\ stop_requested_ (shared s) = false.
Proof.
  destruct (steps_inv _ _ initial_inv Hreach) as (_ & Hl & Hs).
  destruct Hquiet as (Hw & H1 & Ha). specialize (Hl Hsleep). specialize (Hs Hsleep).
  rewrite Hw, H1 in Hl. rewrite Ha in Hs. split.
  - by apply nil_length_inv; simpl in *; lia.
  - destruct (stop_requested_ (shared s)); [|done]. specialize (Hs eq_refl). lia.
Qed.
End queue.

Arguments sys : clear implicits.
Arguments ThreadSafeQueue : clear implicits.

(** Two consumers sleep, a producer pushes and notifies, one of them takes the
    value. *)
Lemma demo_reach :
  steps (T:=nat) initial (Sys (TSQueue [] false) [2] [] 0 0 [5] [5]).
Proof.
  eapply rtc_l; [apply (step_call initial 1 false)|].
  eapply rtc_l; [apply (step_call_pop _ 2)|].
  eapply rtc_l; [apply (step_push _ 5)|].
  eapply rtc_l; [apply (step_notify_one _ 0 1 [2] []); reflexivity|].
  eapply rtc_l; [apply (step_resume _ 1 [] [] false); reflexivity|].
  apply rtc_refl.
Qed.

Lemma queue_is_fifo_witness :
  let s := Sys (TSQueue [] false) [2] [] 0 0 [5] [5] in
  steps (T:=nat) initial s /\ pushed s = popped s ++ queue_ (shared s).
Proof. split; [exact demo_reach|]. apply queue_is_fifo, demo_reach. Defined.

Lemma no_lost_wakeup_witness :
  let s := Sys (TSQueue [] false) [2] [] 0 0 [5] [5] in
  steps (T:=nat) initial s /\ queue_ (shared s) = [] /\ stop_requested_ (shared s) = false.
Proof. split; [exact demo_reach|]. by apply no_lost_wakeup; [exact demo_reach|..]. Defined.

End Queue.
