(* ===== verification/Utils.v ===== *)
(** * Small utilities

    [to_hex] (src/src/mesh/utils/StringUtils.cpp), the UUID helpers
    (MessageUtils.cpp) and [parse_connect_args] (CommandUtils.cpp) with what it
    uses of [std::from_chars]. *)

From S2P Require Import Prelude.

Module Utils.

(** ** StringUtils.cpp *)

(** The digit [std::hex] prints for a number below 16. *)
Definition hex_digit (n : nat) : byte := n2b (if n <? 10 then 48 + n else 87 + n).

(** [std::setw(2)] with fill ['0'] around one [unsigned char]. *)
Definition hex_byte (c : byte) : bytes := [hex_digit (b2n c / 16); hex_digit (b2n c mod 16)].

Definition to_hex (input : bytes) : bytes := input ≫= hex_byte.

(** The inverse reading, used to state what [to_hex] preserves. *)
Definition digit_value (c : byte) : option nat :=
  let n := b2n c in
  if (48 <=? n) && (n <=? 57) then Some (n - 48)
  else if (97 <=? n) && (n <=? 102) then Some (n - 87) else None.

Fixpoint of_hex (s : bytes) : option bytes :=
  match s with
  | [] => Some []
  | h :: l :: s =>
      hi ← digit_value h; lo ← digit_value l; rest ← of_hex s;
      Some (n2b (hi * 16 + lo) :: rest)
  | _ => None
  end.

Lemma digit_value_hex n : n < 16 -> digit_value (hex_digit n) = Some n.
Proof. intros. do 16 (destruct n; [reflexivity|]). lia. Qed.

Lemma to_hex_cons c s :
  to_hex (c :: s) = hex_digit (b2n c / 16) :: hex_digit (b2n c mod 16) :: to_hex s.
Proof. done. Qed.

(** ** MessageUtils.cpp

    The random generator is not part of the sources: the UUID it draws is an
    argument.  The comparison converts [size] to [size_t]. *)

Definition DEFAULT_UUID_SIZE : Z := 16.

Definition generate_uuid_bytes (u : bytes) (size : Z) : bytes :=
  let size := if (Z.of_nat (length u) <? size mod 2 ^ 64)%Z then Z.of_nat (length u) else size in
  take (Z.to_nat size) u.

(** [out_buffer] is resized to the UUID whatever [size] says. *)
Definition write_uuid_bytes (u : bytes) (out_buffer : bytes) (size : Z) : bytes := u.

(** ** CommandUtils.cpp *)

Definition is_digit (c : byte) : bool := (48 <=? b2n c) && (b2n c <=? 57).

Fixpoint digit_prefix (s : bytes) : bytes * bytes :=
  match s with
  | c :: s' => if is_digit c then let '(ds, rest) := digit_prefix s' in (c :: ds, rest) else ([], s)
  | [] => ([], [])
  end.

Definition decimal (ds : bytes) : Z :=
  foldl (fun acc c => acc * 10 + (Z.of_nat (b2n c) - 48))%Z 0%Z ds.

(** [std::from_chars] for [int]: a minus sign and digits, no plus sign and no
    spaces; [None] is an error code, otherwise the value and the unread rest. *)
Definition from_chars (s : bytes) : option (Z * bytes) :=
  let '(neg, s') := match s with
                    | c :: s' => if bool_decide (c = x2d) then (true, s') else (false, s)
                    | [] => (false, s)
                    end in
  let '(ds, rest) := digit_prefix s' in
  match ds with
  | [] => None
  | _ => let v := if (neg : bool) then (- decimal ds)%Z else decimal ds in
         if ((v <? - 2 ^ 31) || (2 ^ 31 - 1 <? v))%Z then None else Some (v, rest)
  end.

Inductive connect_error := Usage | EmptyHost | PortNotANumber | PortOutOfRange.

Definition parse_connect_args (args : list bytes) : outcome connect_error (bytes * Z) :=
  match args with
  | [host; raw_port] =>
      if bool_decide (host = []) then Err EmptyHost
      else match from_chars raw_port with
           | Some (port, []) =>
               if ((port <? 1) || (65535 <? port))%Z then Err PortOutOfRange else Ok (host, port)
           | _ => Err PortNotANumber
           end
  | _ => Err Usage
  end.

(** ** std::to_string for unsigned numbers *)

Fixpoint dec_digits (fuel : nat) (n : Z) (acc : bytes) : bytes :=
  match fuel with
  | 0 => acc
  | S fuel =>
      let acc := n2b (48 + Z.to_nat (n mod 10)) :: acc in
      if (n <? 10)%Z then acc else dec_digits fuel (n / 10) acc
  end.

(** 20 digits are enough for 64 bits. *)
Definition to_string (n : Z) : bytes := dec_digits 20 n [].

(** ** Facts *)

Lemma digit_byte (n : Z) :
  (0 <= n < 10)%Z -> let c := n2b (48 + Z.to_nat n) in
  is_digit c = true /\ (Z.of_nat (b2n c) - 48 = n)%Z.
Proof.
  intros Hn. simpl. unfold is_digit. rewrite b2n_n2b by lia. split; [|lia].
  apply andb_true_iff. rewrite !Nat.leb_le. lia.
Qed.

Lemma dec_digits_value fuel n acc :
  (0 < fuel)%nat -> (0 <= n < 10 ^ Z.of_nat fuel)%Z ->
  foldl (fun acc c => acc * 10 + (Z.of_nat (b2n c) - 48))%Z 0%Z (dec_digits fuel n acc) =
  foldl (fun acc c => acc * 10 + (Z.of_nat (b2n c) - 48))%Z n acc.
Proof.
  revert n acc. induction fuel as [|fuel IH]; intros n acc Hf Hn; [lia|]. cbn [dec_digits].
  pose proof (Z.mod_pos_bound n 10 ltac:(lia)) as Hmod.
  destruct (digit_byte (n mod 10) Hmod) as [_ Hd]. destruct (Z.ltb_spec n 10).
  - cbn [foldl]. rewrite Hd, Z.mod_small by lia. f_equal.
  - assert (10 <= 10 ^ Z.of_nat fuel)%Z as Hp.
    { destruct fuel; [simpl in Hn; lia|]. rewrite Nat2Z.inj_succ, Z.pow_succ_r by lia.
      pose proof (Z.pow_pos_nonneg 10 (Z.of_nat fuel)). lia. }
    rewrite IH.
    + cbn [foldl]. rewrite Hd. f_equal. pose proof (Z.div_mod n 10). lia.
    + destruct fuel; [simpl in Hp; lia|lia].
    + rewrite Nat2Z.inj_succ, Z.pow_succ_r in Hn by lia. split; [apply Z.div_pos; lia|].
      apply Z.div_lt_upper_bound; lia.
Qed.

Lemma dec_digits_digits fuel n acc :
  (0 <= n)%Z -> Forall (fun c => is_digit c = true) acc ->
  Forall (fun c => is_digit c = true) (dec_digits fuel n acc).
Proof.
  revert n acc. induction fuel as [|fuel IH]; intros n acc Hn Hacc; cbn [dec_digits]; [done|].
  assert (Forall (fun c => is_digit c = true) (n2b (48 + Z.to_nat (n mod 10)) :: acc)).
  { constructor; [|done]. apply digit_byte, Z.mod_pos_bound. lia. }
  destruct (n <? 10)%Z; [done|]. apply IH; [apply Z.div_pos; lia|done].
Qed.

Lemma to_string_digits n : (0 <= n)%Z -> Forall (fun c => is_digit c = true) (to_string n).
Proof. intros. by apply dec_digits_digits. Qed.

Lemma to_string_inj a b :
  (0 <= a < 2 ^ 64)%Z -> (0 <= b < 2 ^ 64)%Z -> to_string a = to_string b -> a = b.
Proof.
  intros Ha Hb H.
  assert (2 ^ 64 <= 10 ^ Z.of_nat 20)%Z as Hle by (vm_compute; discriminate).
  pose proof (dec_digits_value 20 a [] ltac:(lia) ltac:(lia)) as Va.
  pose proof (dec_digits_value 20 b [] ltac:(lia) ltac:(lia)) as Vb.
  unfold to_string in H. rewrite H, Vb in Va. simpl in Va. done.
Qed.

(** A separator that does not occur in the last part splits a string uniquely. *)
Lemma split_last (c : byte) (s1 s2 t1 t2 : bytes) :
  c ∉ t1 -> c ∉ t2 -> s1 ++ c :: t1 = s2 ++ c :: t2 -> s1 = s2 /\ t1 = t2.
Proof.
  intros H1 H2 [(k & -> & Hk)|(k & -> & Hk)]%app_eq_inv.
  - destruct k as [|x k]; simpl in Hk; [injection Hk as ->; by rewrite app_nil_r|].
    injection Hk as -> ->. destruct H2. apply elem_of_app. right. by left.
  - destruct k as [|x k]; simpl in Hk; [injection Hk as ->; by rewrite app_nil_r|].
    injection Hk as -> ->. destruct H1. apply elem_of_app. right. by left.
Qed.

Lemma not_in_digits (c : byte) s : is_digit c = false -> Forall (fun c => is_digit c = true) s -> c ∉ s.
Proof. intros Hc Hs Hin. rewrite Forall_forall in Hs. apply Hs in Hin. congruence. Qed.

Lemma digit_prefix_app s ds rest :
  digit_prefix s = (ds, rest) -> s = ds ++ rest /\ Forall (fun c => is_digit c = true) ds.
Proof.
  revert ds rest. induction s as [|c s IH]; intros ds rest; simpl; [by intros [= <- <-]|].
  destruct (is_digit c) eqn:Hc; [|by intros [= <- <-]].
  destruct (digit_prefix s) as [ds' rest']. intros [= <- <-].
  destruct (IH _ _ eq_refl) as [-> ?]. split; [done|by constructor].
Qed.

Lemma digit_prefix_all s : Forall (fun c => is_digit c = true) s -> digit_prefix s = (s, []).
Proof. induction 1 as [|c s Hc _ IH]; [done|]. simpl. by rewrite Hc, IH. Qed.

Lemma decimal_nonneg_from ds acc :
  Forall (fun c => is_digit c = true) ds -> (0 <= acc)%Z ->
  (0 <= foldl (fun acc c => acc * 10 + (Z.of_nat (b2n c) - 48))%Z acc ds)%Z.
Proof.
  intros H. revert acc. induction H as [|c ds Hc _ IH]; intros acc Hacc; simpl; [done|].
  apply IH. unfold is_digit in Hc. bool_to_prop. lia.
Qed.

Lemma decimal_nonneg ds : Forall (fun c => is_digit c = true) ds -> (0 <= decimal ds)%Z.
Proof. intros. by apply decimal_nonneg_from. Qed.

Lemma minus_not_digit : is_digit x2d = false.
Proof. reflexivity. Qed.

(** [to_hex] loses nothing: reading the digits back in pairs gives the
    input, so distinct packet and request ids have distinct keys. *)
Theorem to_hex_roundtrip (s : bytes) :
  of_hex (to_hex s) = Some s /\ length (to_hex s) = 2 * length s.
Proof.
  induction s as [|c s [IH IHl]]; [done|]. rewrite to_hex_cons. split; [|simpl; lia].
  pose proof (b2n_range c). cbn [of_hex].
  rewrite !digit_value_hex; [|apply Nat.Div0.div_lt_upper_bound; lia|by apply Nat.mod_upper_bound].
  cbn [mbind option_bind]. rewrite IH. cbn [mbind option_bind]. do 2 f_equal.
  rewrite Nat.mul_comm, <-Nat.div_mod_eq. apply n2b_b2n.
Qed.

(** [parse_connect_args] accepts exactly a non-empty host and a
    non-empty string of decimal digits whose value is a port, and returns both. *)
Theorem parse_connect_args_exact (args : list bytes) (host : bytes) (port : Z) :
  parse_connect_args args = Ok (host, port) <->
  exists raw, args = [host; raw] /\ host <> [] /\ raw <> [] /\
    Forall (fun c => is_digit c = true) raw /\ decimal raw = port /\ (1 <= port <= 65535)%Z.
Proof.
  split.
  - unfold parse_connect_args. destruct args as [|h [|raw [|]]]; try done.
    case_bool_decide as Hh; [done|]. destruct (from_chars raw) as [[v [|]]|] eqn:E; try done.
    destruct (_ || _) eqn:Hr; [done|]. intros [= <- <-]. exists raw. bool_to_prop.
    unfold from_chars in E. destruct raw as [|c raw]; [done|]. case_bool_decide as Hc.
    + destruct (digit_prefix raw) as [ds rest] eqn:Hd. destruct ds as [|d ds]; [done|].
      case_in E; [done|]. apply digit_prefix_app in Hd as [_ Hd]. apply decimal_nonneg in Hd.
      simplify_eq. lia.
    + destruct (digit_prefix (c :: raw)) as [ds rest] eqn:Hd. destruct ds as [|d ds]; [done|].
      case_in E; [done|]. apply digit_prefix_app in Hd as [Heq Hd]. simplify_eq.
      rewrite app_nil_r in Heq. rewrite Heq. split_and!; try done.
  - intros (raw & -> & Hh & Hraw & Hd & <- & Hp). unfold parse_connect_args.
    rewrite bool_decide_false by done.
    assert (from_chars raw = Some (decimal raw, [])) as ->.
    { unfold from_chars. destruct raw as [|c raw]; [done|].
      rewrite bool_decide_false; [|intros ->; apply Forall_cons in Hd as [Hd _];
        by rewrite minus_not_digit in Hd].
      rewrite digit_prefix_all by done.
      destruct (_ || _) eqn:E; [|done]. apply orb_true_iff in E as [E|E]; bool_to_prop; lia. }
    destruct (_ || _) eqn:E; [|done]. apply orb_true_iff in E as [E|E]; bool_to_prop; lia.
Qed.

End Utils.
