(* ===== verification/Packet.v ===== *)
(** * Messages

    The protobuf messages of proto/packet.proto and proto/envelope.proto as
    records, the constructors of src/src/mesh/proto_types/RoutedPacketUtils.cpp
    and EnvelopeUtils.cpp, and the interface the code uses of the protobuf
    runtime ([SerializeAsString], [ParseFromString]).  The random UUID each
    constructor draws is an argument. *)

From S2P Require Import Prelude Utils.

Module Packet.
Import Utils.

(** ** proto/packet.proto *)

(** Enumerations of proto3 are open: a value outside the list is kept. *)
Inductive TransportProtocol := TCP | UDP | Transport_other (n : Z).
Inductive PacketType := ROUTING_UPDATE | TEXT | BINARY | PacketType_other (n : Z).

(** [RouteTable.costs]: destination to cost in hops. *)
Abbreviation RouteTable := (gmap bytes Z).

Inductive payload_variant :=
| PAYLOAD_NOT_SET
| text (s : bytes)
| route_table (t : RouteTable)
| binary_data (s : bytes)
| encrypted_payload (s : bytes).

Record RoutedPacket := {
  id : bytes;
  from_peer_id : bytes;
  to_peer_id : bytes;                (* empty: broadcast *)
  ttl : Z;                           (* uint32 *)
  type : PacketType;
  transport : TransportProtocol;
  subtype : bytes;
  expect_response : bool;
  signature : bytes;
  encrypted_session_key : bytes;
  payload : payload_variant
}.

(** A message with every field at its default. *)
Definition empty_packet : RoutedPacket := {|
  id := []; from_peer_id := []; to_peer_id := []; ttl := 0; type := ROUTING_UPDATE;
  transport := TCP; subtype := []; expect_response := false; signature := [];
  encrypted_session_key := []; payload := PAYLOAD_NOT_SET
|}.

(** ** Accessors of the generated class the sources use *)

Definition set_id (x : bytes) (p : RoutedPacket) : RoutedPacket := {|
  id := x; from_peer_id := from_peer_id p; to_peer_id := to_peer_id p; ttl := ttl p;
  type := type p; transport := transport p; subtype := subtype p;
  expect_response := expect_response p; signature := signature p;
  encrypted_session_key := encrypted_session_key p; payload := payload p
|}.

Definition set_ttl (x : Z) (p : RoutedPacket) : RoutedPacket := {|
  id := id p; from_peer_id := from_peer_id p; to_peer_id := to_peer_id p; ttl := u32 x;
  type := type p; transport := transport p; subtype := subtype p;
  expect_response := expect_response p; signature := signature p;
  encrypted_session_key := encrypted_session_key p; payload := payload p
|}.

Definition set_security (sig key : bytes) (p : RoutedPacket) : RoutedPacket := {|
  id := id p; from_peer_id := from_peer_id p; to_peer_id := to_peer_id p; ttl := ttl p;
  type := type p; transport := transport p; subtype := subtype p;
  expect_response := expect_response p; signature := sig;
  encrypted_session_key := key; payload := payload p
|}.

(** Setting one member of the [oneof] replaces whichever was set. *)
Definition set_payload (x : payload_variant) (p : RoutedPacket) : RoutedPacket := {|
  id := id p; from_peer_id := from_peer_id p; to_peer_id := to_peer_id p; ttl := ttl p;
  type := type p; transport := transport p; subtype := subtype p;
  expect_response := expect_response p; signature := signature p;
  encrypted_session_key := encrypted_session_key p; payload := x
|}.

(** [clear_binary_data], [clear_encrypted_payload]: only the member that is set
    is cleared. *)
Definition clear_binary_data (p : RoutedPacket) : RoutedPacket :=
  match payload p with binary_data _ => set_payload PAYLOAD_NOT_SET p | _ => p end.

Definition clear_encrypted_payload (p : RoutedPacket) : RoutedPacket :=
  match payload p with encrypted_payload _ => set_payload PAYLOAD_NOT_SET p | _ => p end.

(** Reading a member that is not set gives its default. *)
Definition get_route_table (p : RoutedPacket) : RouteTable :=
  match payload p with route_table t => t | _ => ∅ end.

Definition get_binary_data (p : RoutedPacket) : bytes :=
  match payload p with binary_data s => s | _ => [] end.

Definition get_encrypted_payload (p : RoutedPacket) : bytes :=
  match payload p with encrypted_payload s => s | _ => [] end.

Definition get_text (p : RoutedPacket) : bytes :=
  match payload p with text s => s | _ => [] end.

Definition has_encrypted_payload (p : RoutedPacket) : bool :=
  match payload p with encrypted_payload _ => true | _ => false end.

(** ** proto/envelope.proto *)

Inductive EnvelopeType := HANDSHAKE | HEARTBEAT | DATA | EnvelopeType_other (n : Z).

Record PeerIP := { ip : bytes; tcp_port : Z; udp_port : Z }.

Record PeerRecord := { peer_id : bytes; peer_ip : option PeerIP }.

Record Handshake := { proto_version : bytes; peer_record : option PeerRecord }.

Record Envelope := {
  msg_id : bytes;
  env_from : option PeerIP;
  env_to : option PeerIP;
  env_type : EnvelopeType;
  env_payload : bytes;
  env_expect_response : bool
}.

Definition empty_envelope : Envelope := {|
  msg_id := []; env_from := None; env_to := None; env_type := HANDSHAKE;
  env_payload := []; env_expect_response := false
|}.

(** ** The protobuf runtime

    Serialisation is generated code: an interface, with its documented behaviour
    as laws.  The laws are classes of their own, so that only the theorems that
    need them depend on them. *)
Class Wire (A : Type) := {
  SerializeAsString : A -> bytes;
  ParseFromString : bytes -> option A
}.

(** Parsing gives back a serialised message that is [valid]. *)
Class WireLaws (A : Type) {w : Wire A} (valid : A -> Prop) : Prop :=
  parse_serialize : forall x, valid x -> ParseFromString (SerializeAsString x) = Some x.

(** Well-formed UTF-8, which proto3 demands of [string] fields. *)
Fixpoint utf8_valid (s : bytes) : bool :=
  let cont lo hi c := (lo <=? b2z c)%Z && (b2z c <=? hi)%Z in
  match s with
  | [] => true
  | b0 :: s1 =>
      let z := b2z b0 in
      if (z <? 128)%Z then utf8_valid s1
      else if (194 <=? z)%Z && (z <=? 223)%Z then
        match s1 with b1 :: s2 => cont 128 191 b1 && utf8_valid s2 | _ => false end
      else if (224 <=? z)%Z && (z <=? 239)%Z then
        match s1 with
        | b1 :: b2 :: s3 =>
            cont (if (z =? 224)%Z then 160 else 128)%Z (if (z =? 237)%Z then 159 else 191)%Z b1 &&
            cont 128 191 b2 && utf8_valid s3
        | _ => false
        end
      else if (240 <=? z)%Z && (z <=? 244)%Z then
        match s1 with
        | b1 :: b2 :: b3 :: s4 =>
            cont (if (z =? 240)%Z then 144 else 128)%Z (if (z =? 244)%Z then 143 else 191)%Z b1 &&
            cont 128 191 b2 && cont 128 191 b3 && utf8_valid s4
        | _ => false
        end
      else false
  end%Z.

Definition is_u32 (z : Z) : bool := (0 <=? z)%Z && (z <? 2 ^ 32)%Z.

(** The [uint32] fields of a packet are in range. *)
Definition packet_u32 (p : RoutedPacket) : bool :=
  is_u32 (ttl p) && bool_decide (map_Forall (fun _ c => is_u32 c = true) (get_route_table p)).

(** A packet the runtime transports unchanged; every packet it parses is one, as it
    refuses strings that are not UTF-8. *)
Definition packet_ok (p : RoutedPacket) : bool :=
  packet_u32 p && utf8_valid (from_peer_id p) && utf8_valid (to_peer_id p) &&
  utf8_valid (subtype p) && utf8_valid (get_text p) &&
  bool_decide (map_Forall (fun d _ => utf8_valid d = true) (get_route_table p)).

Class PacketWire {w : Wire RoutedPacket} : Prop := {
  packet_roundtrip :: WireLaws RoutedPacket (fun p => packet_ok p = true);
  packet_parsed : forall s p, ParseFromString s = Some p -> packet_ok p = true
}.

Lemma packet_ok_u32 (p : RoutedPacket) : packet_ok p = true -> packet_u32 p = true.
Proof. unfold packet_ok. by destruct (packet_u32 p). Qed.

(** ** RoutedPacketUtils.cpp *)

Definition decodeRoutedPacket {w : Wire RoutedPacket} (payload_bytes : bytes) : option RoutedPacket :=
  ParseFromString payload_bytes.

Definition MakeTextRoutedPacket (uuid from to : bytes) (ttl : Z) (s : bytes) (expect : bool)
    : RoutedPacket := {|
  id := generate_uuid_bytes uuid DEFAULT_UUID_SIZE;
  from_peer_id := from; to_peer_id := to; ttl := u32 ttl; type := TEXT; transport := TCP;
  subtype := []; expect_response := expect; signature := []; encrypted_session_key := [];
  payload := text s
|}.

Definition MakeBinaryRoutedPacket (uuid from to : bytes) (ttl : Z) (sub : bytes)
    (tr : TransportProtocol) (raw_data : bytes) (expect : bool) : RoutedPacket := {|
  id := generate_uuid_bytes uuid DEFAULT_UUID_SIZE;
  from_peer_id := from; to_peer_id := to; ttl := u32 ttl; type := BINARY; transport := tr;
  subtype := sub; expect_response := expect; signature := []; encrypted_session_key := [];
  payload := binary_data raw_data
|}.

(** The overload that takes a [RouteTable] and copies it. *)
Definition MakeRoutingTableRoutedPacket (uuid from to : bytes) (ttl : Z) (rt : RouteTable)
    : RoutedPacket := {|
  id := generate_uuid_bytes uuid DEFAULT_UUID_SIZE;
  from_peer_id := from; to_peer_id := to; ttl := u32 ttl; type := ROUTING_UPDATE; transport := TCP;
  subtype := []; expect_response := false; signature := []; encrypted_session_key := [];
  payload := route_table rt
|}.

(** ** EnvelopeUtils.cpp *)

Definition MeshVersion : bytes := (lit "1.0.0")%mesh.

Definition MakePeerIP (addr : bytes) (tcp udp : Z) : PeerIP := {|
  ip := addr; tcp_port := tcp; udp_port := udp
|}.

Definition MakeCustomText (uuid : bytes) (from to : PeerIP) (p : bytes) : Envelope := {|
  msg_id := generate_uuid_bytes uuid DEFAULT_UUID_SIZE; env_from := Some from; env_to := Some to;
  env_type := DATA; env_payload := p; env_expect_response := false
|}.

Definition handshake_of (from : PeerIP) (pid : bytes) : Handshake := {|
  proto_version := MeshVersion;
  peer_record := Some {| peer_id := pid; peer_ip := Some from |}
|}.

Definition MakeHandshakeRequest {w : Wire Handshake} (uuid : bytes) (from to : PeerIP) (pid : bytes)
    : Envelope := {|
  msg_id := generate_uuid_bytes uuid DEFAULT_UUID_SIZE; env_from := Some from; env_to := Some to;
  env_type := HANDSHAKE; env_payload := SerializeAsString (handshake_of from pid);
  env_expect_response := true
|}.

Definition MakeHandshakeResponse {w : Wire Handshake} (uuid : bytes) (from to : PeerIP) (pid : bytes)
    : Envelope := {|
  msg_id := generate_uuid_bytes uuid DEFAULT_UUID_SIZE; env_from := Some from; env_to := Some to;
  env_type := HANDSHAKE; env_payload := SerializeAsString (handshake_of from pid);
  env_expect_response := false
|}.

Definition MakeHeartbeatRequest (uuid : bytes) (from to : PeerIP) : Envelope := {|
  msg_id := generate_uuid_bytes uuid DEFAULT_UUID_SIZE; env_from := Some from; env_to := Some to;
  env_type := HEARTBEAT; env_payload := []; env_expect_response := true
|}.

Definition MakeHeartbeatResponse (uuid : bytes) (from to : PeerIP) : Envelope := {|
  msg_id := generate_uuid_bytes uuid DEFAULT_UUID_SIZE; env_from := Some from; env_to := Some to;
  env_type := HEARTBEAT; env_payload := []; env_expect_response := false
|}.

Definition MakeGenericData (uuid : bytes) (p : bytes) : Envelope := {|
  msg_id := generate_uuid_bytes uuid DEFAULT_UUID_SIZE; env_from := None; env_to := None;
  env_type := DATA; env_payload := p; env_expect_response := false
|}.

(** ** Decidable equality and countability *)

#[export] Instance TransportProtocol_eq_dec : EqDecision TransportProtocol.
Proof. solve_decision. Defined.
#[export] Instance PacketType_eq_dec : EqDecision PacketType.
Proof. solve_decision. Defined.
#[export] Instance payload_variant_eq_dec : EqDecision payload_variant.
Proof. solve_decision. Defined.
#[export] Instance RoutedPacket_eq_dec : EqDecision RoutedPacket.
Proof. solve_decision. Defined.
#[export] Instance EnvelopeType_eq_dec : EqDecision EnvelopeType.
Proof. solve_decision. Defined.
#[export] Instance PeerIP_eq_dec : EqDecision PeerIP.
Proof. solve_decision. Defined.
#[export] Instance PeerRecord_eq_dec : EqDecision PeerRecord.
Proof. solve_decision. Defined.
#[export] Instance Handshake_eq_dec : EqDecision Handshake.
Proof. solve_decision. Defined.
#[export] Instance Envelope_eq_dec : EqDecision Envelope.
Proof. solve_decision. Defined.

#[export] Instance TransportProtocol_countable : Countable TransportProtocol.
Proof.
  refine (inj_countable'
    (fun t => match t with TCP => inl (inl ()) | UDP => inl (inr ()) | Transport_other n => inr n end)
    (fun c => match c with inl (inl _) => TCP | inl (inr _) => UDP | inr n => Transport_other n end) _).
  by intros [].
Defined.

#[export] Instance PacketType_countable : Countable PacketType.
Proof.
  refine (inj_countable'
    (fun t => match t with ROUTING_UPDATE => inl (inl ()) | TEXT => inl (inr ())
                         | BINARY => inr (inl ()) | PacketType_other n => inr (inr n) end)
    (fun c => match c with inl (inl _) => ROUTING_UPDATE | inl (inr _) => TEXT
                         | inr (inl _) => BINARY | inr (inr n) => PacketType_other n end) _).
  by intros [].
Defined.

#[export] Instance EnvelopeType_countable : Countable EnvelopeType.
Proof.
  refine (inj_countable'
    (fun t => match t with HANDSHAKE => inl (inl ()) | HEARTBEAT => inl (inr ())
                         | DATA => inr (inl ()) | EnvelopeType_other n => inr (inr n) end)
    (fun c => match c with inl (inl _) => HANDSHAKE | inl (inr _) => HEARTBEAT
                         | inr (inl _) => DATA | inr (inr n) => EnvelopeType_other n end) _).
  by intros [].
Defined.

#[export] Instance payload_variant_countable : Countable payload_variant.
Proof.
  refine (inj_countable'
    (fun p => match p with PAYLOAD_NOT_SET => inl None | text s => inl (Some (inl s))
                         | route_table t => inl (Some (inr t)) | binary_data s => inr (inl s)
                         | encrypted_payload s => inr (inr s) end)
    (fun c => match c with inl None => PAYLOAD_NOT_SET | inl (Some (inl s)) => text s
                         | inl (Some (inr t)) => route_table t | inr (inl s) => binary_data s
                         | inr (inr s) => encrypted_payload s end) _).
  by intros [].
Defined.

#[export] Instance RoutedPacket_countable : Countable RoutedPacket.
Proof.
  refine (inj_countable'
    (fun p => (id p, from_peer_id p, to_peer_id p, ttl p, type p, transport p, subtype p,
               expect_response p, signature p, encrypted_session_key p, payload p))
    (fun '(a, b, c, d, e, f, g, h, i, j, k) => Build_RoutedPacket a b c d e f g h i j k) _).
  by intros [].
Defined.

#[export] Instance PeerIP_countable : Countable PeerIP.
Proof.
  refine (inj_countable' (fun p => (ip p, tcp_port p, udp_port p))
    (fun '(a, b, c) => Build_PeerIP a b c) _). by intros [].
Defined.

#[export] Instance PeerRecord_countable : Countable PeerRecord.
Proof.
  refine (inj_countable' (fun p => (peer_id p, peer_ip p)) (fun '(a, b) => Build_PeerRecord a b) _).
  by intros [].
Defined.

#[export] Instance Handshake_countable : Countable Handshake.
Proof.
  refine (inj_countable' (fun p => (proto_version p, peer_record p))
    (fun '(a, b) => Build_Handshake a b) _). by intros [].
Defined.

#[export] Instance Envelope_countable : Countable Envelope.
Proof.
  refine (inj_countable'
    (fun e => (msg_id e, env_from e, env_to e, env_type e, env_payload e, env_expect_response e))
    (fun '(a, b, c, d, e, f) => Build_Envelope a b c d e f) _). by intros [].
Defined.

(** ** A concrete wire format

    Every countable message type has one, the binary digits of its code: the
    laws of [Wire] can hold. *)

Fixpoint code_bits (p : positive) : bytes :=
  match p with xH => [] | xO p => x00 :: code_bits p | xI p => x01 :: code_bits p end.

Fixpoint bits_code (s : bytes) : positive :=
  match s with [] => xH | x00 :: s => xO (bits_code s) | _ :: s => xI (bits_code s) end.

Lemma bits_code_bits p : bits_code (code_bits p) = p.
Proof. induction p as [p IH|p IH|]; simpl; by rewrite ?IH. Qed.

Definition code_wire (A : Type) `{Countable A} : Wire A := {|
  SerializeAsString x := code_bits (encode x);
  ParseFromString s := decode (bits_code s)
|}.

Lemma code_wire_laws (A : Type) `{Countable A} (valid : A -> Prop) :
  @WireLaws A (code_wire A) valid.
Proof. intros x _. simpl. by rewrite bits_code_bits, decode_encode. Qed.

Definition packet_wire : Wire RoutedPacket := {|
  SerializeAsString p := code_bits (encode p);
  ParseFromString s := p ← decode (bits_code s); if packet_ok p then Some p else None
|}.

Lemma packet_wire_laws : @PacketWire packet_wire.
Proof.
  split.
  - intros p Hp. simpl. rewrite bits_code_bits, decode_encode. simpl. by rewrite Hp.
  - intros s p. simpl. intros (q & _ & Hq)%bind_Some. destruct (packet_ok q) eqn:E; congruence.
Qed.

End Packet.
