(* ===== verification/Logger.v ===== *)
(** * Logging

    [Log] of src/src/mesh/logging/Logger.{h,cpp}: the set-up of the default logger
    and the four calls that write a line, over spdlog and the JSON library.  A call
    formats its context before the level of the logger is looked at, and formatting
    fails on strings that are not UTF-8. *)

From S2P Require Import Prelude Utils Packet.

Module Logger.
Import Utils Packet.

(** ** The libraries *)

(** nlohmann::json, as far as contexts use it. *)
Inductive json :=
| JNull
| JInt (z : Z)
| JString (s : bytes)
| JArray (l : list json)
| JObject (l : list (bytes * json)).

(** Every string and every key is UTF-8. *)
Fixpoint strings_valid (j : json) : bool :=
  match j with
  | JNull | JInt _ => true
  | JString s => utf8_valid s
  | JArray l => forallb strings_valid l
  | JObject l => forallb (fun x => utf8_valid x.1 && strings_valid x.2) l
  end.

(** [dump()] throws on a string that is not UTF-8, and only then. *)
Class Json := dump : json -> option bytes.
Class JsonLaws (d : Json) : Prop := dump_valid : forall j, is_Some (dump j) <-> strings_valid j = true.

Inductive level := debug_level | info_level | warn_level | error_level.

Definition level_rank (l : level) : nat :=
  match l with debug_level => 0 | info_level => 1 | warn_level => 2 | error_level => 3 end.

(** ** The default logger *)

Definition DEFAULT_LOG_FILE_SIZE : Z := 1048576 * 5.
Definition DEFAULT_LOG_MAX_FILES : Z := 3.

Record logger := { log_file : bytes; max_size_ : Z; max_files_ : Z; pattern : bytes; level_ : level }.

(** [can_open]: whether spdlog can make a logger on the file; if it throws, the
    default logger stays as it was. *)
Definition init (can_open : bytes -> bool) (node_id filename : bytes) (debug_mode : bool) (max_size max_files : Z)
    (current : logger) : logger :=
  if can_open filename then
    {| log_file := filename; max_size_ := max_size; max_files_ := max_files;
       pattern := (lit "%Y-%m-%d %H:%M:%S [")%mesh ++ node_id ++ (lit "] [%l] %v")%mesh;
       level_ := if debug_mode then debug_level else info_level |}
  else current.

Section log.
Context {d : Json}.

(** A line of the log at level [l]: [None] if the call throws. *)
Definition write (l : level) (component : bytes) (context : json) (message : bytes) (lg : logger)
    : option (option bytes) :=
  text ← dump context;
  Some (if level_rank (level_ lg) <=? level_rank l
        then Some ((lit "[")%mesh ++ component ++ (lit "] ")%mesh ++ message ++ (lit " | ")%mesh ++ text)
        else None).

Definition info := write info_level.
Definition warn := write warn_level.
Definition error := write error_level.
Definition debug := write debug_level.

(** A call throws exactly when its context has a string that is not UTF-8,
    whatever its level and that of the logger. *)
Theorem write_throws {laws : JsonLaws d} l component context message lg :
  write l component context message lg = None <-> strings_valid context = false.
Proof.
  unfold write. pose proof (dump_valid context) as H. destruct (dump context) as [text|]; simpl.
  - split; [done|]. intros Hv. rewrite Hv in H. discriminate (proj1 H (mk_is_Some _ _ eq_refl)).
  - split; [|done]. intros _. destruct (strings_valid context); [|done].
    by destruct (proj2 H eq_refl).
Qed.

(** Debug lines appear only in debug mode; the others always do. *)
Theorem init_level can_open node_id filename debug_mode max_size max_files current l component context message :
  can_open filename = true -> is_Some (dump context) ->
  (exists line, write l component context message
     (init can_open node_id filename debug_mode max_size max_files current) = Some (Some line)) <->
  (debug_mode = true \/ l <> debug_level).
Proof.
  intros Ho [text Ht]. unfold write, init. rewrite Ho, Ht. simpl.
  destruct debug_mode, l; simpl; split; try (by left); try (by right); try (by eexists); try (by intros [? [=]]);
    by intros [|[]].
Qed.

(** The ids the router logs are hexadecimal, so they never throw. *)
Lemma hex_digit_ascii n : (b2z (hex_digit (n mod 16)) <? 128)%Z = true.
Proof.
  assert (n mod 16 < 16) as H by (apply Nat.mod_upper_bound; lia). revert H. generalize (n mod 16). intros k H.
  do 16 (destruct k as [|k]; [vm_compute; reflexivity|]). lia.
Qed.

Lemma utf8_ascii c s : (b2z c <? 128)%Z = true -> utf8_valid (c :: s) = utf8_valid s.
Proof. intros H. cbn [utf8_valid]. by rewrite H. Qed.

Lemma to_hex_utf8 s : utf8_valid (to_hex s) = true.
Proof.
  induction s as [|c s IH]; [done|]. rewrite to_hex_cons, !utf8_ascii; [done|apply hex_digit_ascii|].
  assert (b2n c / 16 = (b2n c / 16) mod 16) as ->; [|apply hex_digit_ascii].
  rewrite Nat.mod_small; [done|]. apply Nat.Div0.div_lt_upper_bound. pose proof (b2n_range c). lia.
Qed.

Theorem packet_id_logs {laws : JsonLaws d} l component message lg i :
  is_Some (write l component (JObject [((lit "packet_id")%mesh, JString (to_hex i))]) message lg).
Proof.
  destruct (write _ _ _ _ _) eqn:E; [by eexists|]. apply write_throws in E. simpl in E. by rewrite to_hex_utf8 in E.
Qed.
End log.

(** A concrete [dump] that writes nothing. *)
Definition toy_json : Json := fun j => if strings_valid j then Some [] else None.

Lemma toy_json_laws : JsonLaws toy_json.
Proof. intros j. unfold dump, toy_json. destruct (strings_valid j); [by split|]. by split; [intros []|]. Qed.

End Logger.
