(* ===== verification/MeshRouter.v ===== *)
(** * The mesh router

    The state and every operation of [MeshRouter]
    (src/src/mesh/routing/MeshRouter.{h,cpp}): the distance-vector table, the
    processing of routing updates, periodic maintenance, triggered and full
    advertisements with poison reverse, and the forwarding of data packets.
    Calls of the transport layer are the [action]s an operation emits, in
    order.  The clock readings of an operation are the values [clk 0], [clk 1],
    ... of its argument [clk], in the order the code takes them; UUIDs are drawn
    from the sequence [uuid]. *)

From S2P Require Import Prelude Cxx DedupSet ThreadSafeQueue Utils Packet.

Module Router.
Import Utils Packet.

(** ** Constants and data of MeshRouter.h *)

Definition ROUTE_TIMEOUT : Z := seconds 180.
Definition UPDATE_INTERVAL : Z := seconds 10.
Definition TRIGGER_DEBOUNCE : Z := milliseconds 100.
Definition DEFAULT_TTL : Z := 10.
Definition INF_COST : Z := 16.

Record RouteEntry := Route {
  next_hop : bytes;
  cost : Z;               (* uint32 *)
  dirty : bool;
  last_updated : Z
}.

Record NeighborView := View {
  advertised_routes : gmap bytes Z;
  last_heard_from : Z
}.

(** A default-constructed view. *)
Definition empty_view : NeighborView := View ∅ 0.

Inductive RouterEvent :=
| PACKET_RECEIVED (peer : bytes) (packet : RoutedPacket)
| PEER_CONNECTED (peer : bytes)
| PEER_DISCONNECTED (peer : bytes).

(** [transport_] and [on_packet_for_me_cb_] say whether the weak pointer can be
    locked and whether a callback is set; [draws] counts the UUIDs drawn. *)
Record MeshRouter := {
  self_id_ : bytes;
  transport_ : bool;
  running_ : bool;
  on_packet_for_me_cb_ : bool;
  forwarding_table_ : gmap bytes RouteEntry;
  neighbor_views_ : gmap bytes NeighborView;
  seen_packet_ids_ : Dedup.TimedDedupSet (bytes * bool);
  event_queue_ : Queue.ThreadSafeQueue RouterEvent;
  last_periodic_update : Z;
  trigger_deadline_ : Z;
  trigger_pending_ : bool;
  draws : nat
}.

Inductive action :=
| SendTcp (peer : bytes) (env : Envelope)
| SendUdp (peer : bytes) (pkt : RoutedPacket)
| Deliver (pkt : RoutedPacket).          (* a call of [on_packet_for_me_cb_] *)

(** ** Field updates *)

Definition with_tables (ft : gmap bytes RouteEntry) (nv : gmap bytes NeighborView) (r : MeshRouter)
    : MeshRouter := {|
  self_id_ := self_id_ r; transport_ := transport_ r; running_ := running_ r;
  on_packet_for_me_cb_ := on_packet_for_me_cb_ r;
  forwarding_table_ := ft; neighbor_views_ := nv;
  seen_packet_ids_ := seen_packet_ids_ r; event_queue_ := event_queue_ r;
  last_periodic_update := last_periodic_update r; trigger_deadline_ := trigger_deadline_ r;
  trigger_pending_ := trigger_pending_ r; draws := draws r
|}.

Definition with_timers (period deadline : Z) (pending : bool) (r : MeshRouter) : MeshRouter := {|
  self_id_ := self_id_ r; transport_ := transport_ r; running_ := running_ r;
  on_packet_for_me_cb_ := on_packet_for_me_cb_ r;
  forwarding_table_ := forwarding_table_ r; neighbor_views_ := neighbor_views_ r;
  seen_packet_ids_ := seen_packet_ids_ r; event_queue_ := event_queue_ r;
  last_periodic_update := period; trigger_deadline_ := deadline;
  trigger_pending_ := pending; draws := draws r
|}.

Definition with_seen (s : Dedup.TimedDedupSet (bytes * bool)) (r : MeshRouter) : MeshRouter := {|
  self_id_ := self_id_ r; transport_ := transport_ r; running_ := running_ r;
  on_packet_for_me_cb_ := on_packet_for_me_cb_ r;
  forwarding_table_ := forwarding_table_ r; neighbor_views_ := neighbor_views_ r;
  seen_packet_ids_ := s; event_queue_ := event_queue_ r;
  last_periodic_update := last_periodic_update r; trigger_deadline_ := trigger_deadline_ r;
  trigger_pending_ := trigger_pending_ r; draws := draws r
|}.

Definition with_queue (q : Queue.ThreadSafeQueue RouterEvent) (r : MeshRouter) : MeshRouter := {|
  self_id_ := self_id_ r; transport_ := transport_ r; running_ := running_ r;
  on_packet_for_me_cb_ := on_packet_for_me_cb_ r;
  forwarding_table_ := forwarding_table_ r; neighbor_views_ := neighbor_views_ r;
  seen_packet_ids_ := seen_packet_ids_ r; event_queue_ := q;
  last_periodic_update := last_periodic_update r; trigger_deadline_ := trigger_deadline_ r;
  trigger_pending_ := trigger_pending_ r; draws := draws r
|}.

Definition with_draws (n : nat) (r : MeshRouter) : MeshRouter := {|
  self_id_ := self_id_ r; transport_ := transport_ r; running_ := running_ r;
  on_packet_for_me_cb_ := on_packet_for_me_cb_ r;
  forwarding_table_ := forwarding_table_ r; neighbor_views_ := neighbor_views_ r;
  seen_packet_ids_ := seen_packet_ids_ r; event_queue_ := event_queue_ r;
  last_periodic_update := last_periodic_update r; trigger_deadline_ := trigger_deadline_ r;
  trigger_pending_ := trigger_pending_ r; draws := n
|}.

Definition with_flags (transport running cb : bool) (r : MeshRouter) : MeshRouter := {|
  self_id_ := self_id_ r; transport_ := transport; running_ := running;
  on_packet_for_me_cb_ := cb;
  forwarding_table_ := forwarding_table_ r; neighbor_views_ := neighbor_views_ r;
  seen_packet_ids_ := seen_packet_ids_ r; event_queue_ := event_queue_ r;
  last_periodic_update := last_periodic_update r; trigger_deadline_ := trigger_deadline_ r;
  trigger_pending_ := trigger_pending_ r; draws := draws r
|}.

(** ** Construction and configuration *)

(** The entry of the constructor leaves [last_updated] at the epoch. *)
Definition make_router (self : bytes) (transport : bool) (now : Z) : MeshRouter := {|
  self_id_ := self; transport_ := transport; running_ := false; on_packet_for_me_cb_ := false;
  forwarding_table_ := {[ self := Route self 0 false 0 ]}; neighbor_views_ := ∅;
  seen_packet_ids_ := Dedup.new_dedup (seconds 30); event_queue_ := Queue.new_queue;
  last_periodic_update := now; trigger_deadline_ := 0; trigger_pending_ := false; draws := 0
|}.

Definition start (r : MeshRouter) : MeshRouter :=
  if running_ r then r else with_flags (transport_ r) true (on_packet_for_me_cb_ r) r.

Definition stop (r : MeshRouter) : MeshRouter :=
  with_flags (transport_ r) false (on_packet_for_me_cb_ r) r.

Definition set_transport (alive : bool) (r : MeshRouter) : MeshRouter :=
  with_flags alive (running_ r) (on_packet_for_me_cb_ r) r.

Definition set_on_packet_for_me (r : MeshRouter) : MeshRouter :=
  with_flags (transport_ r) (running_ r) true r.

(** ** The sink interface: events are queued *)

Definition push_event (e : RouterEvent) (r : MeshRouter) : MeshRouter :=
  with_queue (Queue.push e (event_queue_ r)) r.

Definition push_data_bytes {w : Wire RoutedPacket} (from_peer payload_bytes : bytes) (r : MeshRouter)
    : MeshRouter :=
  match decodeRoutedPacket payload_bytes with
  | None => r
  | Some pkt => push_event (PACKET_RECEIVED from_peer pkt) r
  end.

Definition on_peer_connected (peer : bytes) (r : MeshRouter) : MeshRouter :=
  push_event (PEER_CONNECTED peer) r.

Definition on_peer_disconnected (peer : bytes) (r : MeshRouter) : MeshRouter :=
  push_event (PEER_DISCONNECTED peer) r.

Section router.
Context {o : IterOrder} {w : Wire RoutedPacket}.
Context (uuid : nat -> bytes).

(** ** The forwarding table *)

(** The body of the inner loop of the second pass. *)
Definition relax (self neighbor : bytes) (now : Z) (dest : bytes) (remote_cost : Z)
    (t : gmap bytes RouteEntry) : gmap bytes RouteEntry :=
  if bool_decide (dest = self) then t
  else
    let total_cost := u32 (remote_cost + 1) in
    if (INF_COST <=? total_cost)%Z then t
    else match t !! dest with
         | None => <[dest := Route neighbor total_cost true now]> t
         | Some e => if (total_cost <? cost e)%Z
                     then <[dest := Route neighbor total_cost true now]> t else t
         end.

(** The local [new_table]. *)
Definition new_table (now : Z) (r : MeshRouter) : gmap bytes RouteEntry :=
  let t := {[ self_id_ r := Route (self_id_ r) 0 false now ]} in
  let t := for_each (neighbor_views_ r)
             (fun neighbor_id _ t => <[neighbor_id := Route neighbor_id 1 true now]> t) t in
  for_each (neighbor_views_ r)
    (fun neighbor_id view t =>
       for_each (advertised_routes view) (relax (self_id_ r) neighbor_id now) t) t.

(** One round of the merge into [forwarding_table_], with [table_changed]. *)
Definition merge_entry (now : Z) (dest : bytes) (entry : RouteEntry)
    (s : gmap bytes RouteEntry * bool) : gmap bytes RouteEntry * bool :=
  match s.1 !! dest with
  | None => (<[dest := Route (next_hop entry) (cost entry) true now]> s.1, true)
  | Some old =>
      if negb (cost old =? cost entry)%Z || negb (bool_decide (next_hop old = next_hop entry))
      then (<[dest := Route (next_hop entry) (cost entry) true now]> s.1, true)
      else s
  end.

(** One round of the search for lost routes. *)
Definition lose_entry (now : Z) (fresh : gmap bytes RouteEntry) (dest : bytes) (e : RouteEntry)
    (s : gmap bytes RouteEntry * bool) : gmap bytes RouteEntry * bool :=
  match fresh !! dest with
  | Some _ => s
  | None => if (cost e <? INF_COST)%Z
            then (<[dest := Route (next_hop e) INF_COST true now]> s.1, true) else s
  end.

Definition recalculate_forwarding_table (now : Z) (r : MeshRouter) : MeshRouter :=
  let fresh := new_table now r in
  let '(ft, changed) := for_each fresh (merge_entry now) (forwarding_table_ r, false) in
  let '(ft, changed) := for_each ft (lose_entry now fresh) (ft, changed) in
  let r := with_tables ft (neighbor_views_ r) r in
  if changed && negb (trigger_pending_ r)
  then with_timers (last_periodic_update r) (now + TRIGGER_DEBOUNCE) true r
  else r.

(** ** Routing updates *)

Definition absorb (dest : bytes) (c : Z) (adv : gmap bytes Z) : gmap bytes Z :=
  if (INF_COST <=? c)%Z then delete dest adv else <[dest := c]> adv.

Definition process_routing_update (clk : nat -> Z) (neighbor_id : bytes) (table : RouteTable)
    (r : MeshRouter) : MeshRouter :=
  let view := default empty_view (neighbor_views_ r !! neighbor_id) in
  let view := View (for_each table absorb (advertised_routes view)) (clk 0) in
  recalculate_forwarding_table (clk 1)
    (with_tables (forwarding_table_ r) (<[neighbor_id := view]> (neighbor_views_ r)) r).

Definition peer_connected (clk : nat -> Z) (peer : bytes) (r : MeshRouter) : MeshRouter :=
  let view := default empty_view (neighbor_views_ r !! peer) in
  recalculate_forwarding_table (clk 1)
    (with_tables (forwarding_table_ r)
       (<[peer := View (advertised_routes view) (clk 0)]> (neighbor_views_ r)) r).

Definition peer_disconnected (clk : nat -> Z) (peer : bytes) (r : MeshRouter) : MeshRouter :=
  recalculate_forwarding_table (clk 0)
    (with_tables (forwarding_table_ r) (delete peer (neighbor_views_ r)) r).

(** ** Advertisements *)

(** The envelope both senders build: no message id is set. *)
Definition update_envelope (id self neighbor : bytes) (ttl : Z) (update : RouteTable) : Envelope := {|
  msg_id := []; env_from := None; env_to := None; env_type := DATA;
  env_payload := SerializeAsString (MakeRoutingTableRoutedPacket id self neighbor ttl update);
  env_expect_response := false
|}.

(** [transport_.lock()] and a send, with one UUID drawn for the packet. *)
Definition advertise (r : MeshRouter) (ttl : Z) (neighbor : bytes) (update : RouteTable)
    (s : nat * list action) : nat * list action :=
  let env := update_envelope (uuid s.1) (self_id_ r) neighbor ttl update in
  (S s.1, if transport_ r then s.2 ++ [SendTcp neighbor env] else s.2).

(** [protobuf::Map::insert]: an existing key is left alone. *)
Definition map_insert (k : bytes) (c : Z) (t : RouteTable) : RouteTable :=
  match t !! k with Some _ => t | None => <[k := c]> t end.

(** The table the triggered update sends to one neighbour. *)
Definition triggered_table (ft : gmap bytes RouteEntry) (routes : gmap bytes Z) (neighbor : bytes)
    : RouteTable :=
  for_each routes (fun dest c update =>
    let final_cost :=
      match ft !! dest with
      | Some e => if bool_decide (next_hop e = neighbor) then INF_COST else c
      | None => c
      end in
    map_insert dest final_cost update) ∅.

(** The first loop: collect the routes to send and clear their dirty flags. *)
Definition collect (dest : bytes) (e : RouteEntry) (s : gmap bytes Z * gmap bytes RouteEntry)
    : gmap bytes Z * gmap bytes RouteEntry :=
  if dirty e || (INF_COST <=? cost e)%Z
  then (<[dest := cost e]> s.1, <[dest := Route (next_hop e) (cost e) false (last_updated e)]> s.2)
  else s.

Definition send_triggered_updates (r : MeshRouter) : MeshRouter * list action :=
  let '(routes, ft) := for_each (forwarding_table_ r) collect (∅, forwarding_table_ r) in
  let r := with_tables ft (neighbor_views_ r) r in
  if bool_decide (routes = ∅) then (r, [])
  else
    let '(n, acts) := for_each (neighbor_views_ r) (fun neighbor_id _ s =>
      advertise r DEFAULT_TTL neighbor_id (triggered_table ft routes neighbor_id) s) (draws r, []) in
    (with_draws n r, acts).

(** The table the periodic broadcast sends to one neighbour. *)
Definition full_table (ft : gmap bytes RouteEntry) (neighbor : bytes) : RouteTable :=
  for_each ft (fun dest e update =>
    map_insert dest (if bool_decide (next_hop e = neighbor) then INF_COST else cost e) update) ∅.

Definition broadcast_full_table (r : MeshRouter) : MeshRouter * list action :=
  let '(n, acts) := for_each (neighbor_views_ r) (fun neighbor_id _ s =>
    advertise r 15 neighbor_id (full_table (forwarding_table_ r) neighbor_id) s) (draws r, []) in
  (with_draws n r, acts).

(** ** Periodic maintenance *)

Definition expire_neighbor (now : Z) (n : bytes) (v : NeighborView)
    (s : gmap bytes NeighborView * bool) : gmap bytes NeighborView * bool :=
  if (ROUTE_TIMEOUT <? now - last_heard_from v)%Z then (delete n s.1, true) else s.

Definition collect_garbage (now : Z) (dest : bytes) (e : RouteEntry) (ft : gmap bytes RouteEntry)
    : gmap bytes RouteEntry :=
  if (INF_COST <=? cost e)%Z && (seconds 15 <? now - last_updated e)%Z then delete dest ft else ft.

Definition run_periodic_maintenance (clk : nat -> Z) (r : MeshRouter) : MeshRouter * list action :=
  let now := clk 0 in
  let '(nv, expired) := for_each (neighbor_views_ r) (expire_neighbor now) (neighbor_views_ r, false) in
  let r := with_tables (forwarding_table_ r) nv r in
  let r := if expired then recalculate_forwarding_table (clk 1) r else r in
  let '(r, acts1) :=
    if trigger_pending_ r && (trigger_deadline_ r <=? now)%Z
    then let '(r, acts) := send_triggered_updates r in
         (with_timers (last_periodic_update r) (trigger_deadline_ r) false r, acts)
    else (r, []) in
  let '(r, acts2) :=
    if (UPDATE_INTERVAL <? now - last_periodic_update r)%Z
    then let '(r, acts) := broadcast_full_table r in
         (with_timers now (trigger_deadline_ r) (trigger_pending_ r) r, acts)
    else (r, []) in
  let ft := for_each (forwarding_table_ r) (collect_garbage now) (forwarding_table_ r) in
  (with_seen (Dedup.cleanup (clk 2) (seen_packet_ids_ r)) (with_tables ft (neighbor_views_ r) r),
   acts1 ++ acts2).

(** ** Queries *)

Definition get_direct_neighbors (r : MeshRouter) : list bytes :=
  filter (fun n => n <> self_id_ r) (iter (neighbor_views_ r)).*1.

Definition get_peers_in_network (r : MeshRouter) : list bytes := (iter (forwarding_table_ r)).*1.

Definition determine_next_hop (dest_peer : bytes) (r : MeshRouter) : list bytes :=
  if bool_decide (dest_peer = []) then get_direct_neighbors r
  else match forwarding_table_ r !! dest_peer with
       | None => []
       | Some e => if (INF_COST <=? cost e)%Z then [] else [next_hop e]
       end.

(** ** Data packets *)

(** One round of the forwarding loop of [route_data_packet]. *)
Definition forward_one (immediate_src : bytes) (pkt : RoutedPacket) (r : MeshRouter)
    (next_peer : bytes) (s : nat * list action) : nat * list action :=
  if bool_decide (next_peer = immediate_src) then s
  else if bool_decide (next_peer = self_id_ r) then s
  else
    let forward_pkt := set_ttl (ttl pkt - 1) pkt in
    if (ttl forward_pkt <=? 0)%Z then s
    else if transport_ r then
      match transport forward_pkt with
      | TCP => (S s.1, s.2 ++ [SendTcp next_peer
                 (MakeGenericData (uuid s.1) (SerializeAsString forward_pkt))])
      | UDP => (s.1, s.2 ++ [SendUdp next_peer forward_pkt])
      | Transport_other _ => s
      end
    else s.

Definition forward (immediate_src : bytes) (pkt : RoutedPacket) (r : MeshRouter)
    : MeshRouter * list action :=
  let next_hops := determine_next_hop (to_peer_id pkt) r in
  let '(n, acts) := foldl (fun s p => forward_one immediate_src pkt r p s) (draws r, []) next_hops in
  (with_draws n r, acts).

(** [on_packet_for_me_cb_]: it is given the packet by reference and may send
    through the router again. *)
Context (on_packet_for_me : MeshRouter -> RoutedPacket -> MeshRouter * RoutedPacket * list action).

(** Both callers pass [pkt.to_peer_id()] by reference for [dest_peer]: after the
    callback it is read again from the packet. *)
Definition route_data_packet (clk : nat -> Z) (immediate_src pkt_id : bytes) (pkt : RoutedPacket)
    (r : MeshRouter) : MeshRouter * list action :=
  let is_broadcast := bool_decide (to_peer_id pkt = []) in
  let is_only_for_me := bool_decide (to_peer_id pkt = self_id_ r) in
  let is_my_own_message := bool_decide (from_peer_id pkt = self_id_ r) in
  let '(r, pkt, acts) :=
    if (is_broadcast || is_only_for_me) && on_packet_for_me_cb_ r && negb is_my_own_message
    then let '(r', pkt', acts) := on_packet_for_me r pkt in (r', pkt', Deliver pkt :: acts)
    else (r, pkt, []) in
  if is_only_for_me then (r, acts)
  else
    let dedup_key := (pkt_id, expect_response pkt) in
    if negb (bool_decide (immediate_src = self_id_ r)) &&
       Dedup.contains dedup_key (seen_packet_ids_ r)
    then (r, acts)
    else
      let r := with_seen (Dedup.insert (clk 0) dedup_key (seen_packet_ids_ r)).2 r in
      let '(r, sent) := forward immediate_src pkt r in
      (r, acts ++ sent).

Definition send_packet (clk : nat -> Z) (pkt : RoutedPacket) (r : MeshRouter)
    : MeshRouter * list action :=
  route_data_packet clk (self_id_ r) (to_hex (id pkt)) pkt r.

Definition handle_packet (clk : nat -> Z) (src_id : bytes) (pkt : RoutedPacket) (r : MeshRouter)
    : MeshRouter * list action :=
  if bool_decide (src_id = self_id_ r) || bool_decide (from_peer_id pkt = self_id_ r) then (r, [])
  else
    let r := match neighbor_views_ r !! src_id with
             | Some v => with_tables (forwarding_table_ r)
                 (<[src_id := View (advertised_routes v) (clk 0)]> (neighbor_views_ r)) r
             | None => r
             end in
    match type pkt with
    | ROUTING_UPDATE =>
        (process_routing_update (fun i => clk (S i)) src_id (get_route_table pkt) r, [])
    | _ => route_data_packet (fun i => clk (S i)) src_id (to_hex (id pkt)) pkt r
    end.

(** ** The event loop *)

Definition handle_event (clk : nat -> Z) (e : RouterEvent) (r : MeshRouter)
    : MeshRouter * list action :=
  match e with
  | PEER_CONNECTED peer => (peer_connected clk peer r, [])
  | PEER_DISCONNECTED peer => (peer_disconnected clk peer r, [])
  | PACKET_RECEIVED peer pkt => handle_packet clk peer pkt r
  end.

Definition MAINTENANCE_TICK_RATE : Z := milliseconds 100.

(** The time [pop_for] may wait, in milliseconds. *)
Definition wait_duration (now next_maintenance_time : Z) : Z :=
  let wait := Z.quot (next_maintenance_time - now) 1000000 in
  if (wait <? 0)%Z then 0%Z else wait.

(** One iteration of [processing_loop] after [pop_for] has returned, its time
    over or not; [None] while it still waits.  [clk_event], [now] and [clk_maint]
    are the clock readings of the event's handler, of the loop and of the
    maintenance. *)
Definition loop_iteration (expired : bool) (clk_event : nat -> Z) (now : Z) (clk_maint : nat -> Z)
    (next_maintenance_time : Z) (r : MeshRouter) : option (MeshRouter * Z * list action) :=
  match Queue.pop_for expired (event_queue_ r) with
  | None => None
  | Some (event_opt, q) =>
      let r := with_queue q r in
      let '(r, acts1) := match event_opt with
                         | Some e => handle_event clk_event e r
                         | None => (r, [])
                         end in
      if (next_maintenance_time <=? now)%Z
      then let '(r, acts2) := run_periodic_maintenance clk_maint r in
           Some (r, now + MAINTENANCE_TICK_RATE, acts1 ++ acts2)%Z
      else Some (r, next_maintenance_time, acts1)
  end.

End router.

End Router.
