(* ===== verification/RouterTable.v ===== *)
(** * The forwarding table of the router

    [recalculate_forwarding_table] computes shortest distance-vector routes,
    whatever the iteration order of the hash tables, marks exactly what changed,
    and is idempotent (src/src/mesh/routing/MeshRouter.cpp). *)

From S2P Require Import Prelude Cxx DedupSet ThreadSafeQueue Utils Packet MeshRouter.

Module Table.
Import Utils Packet Router.

(** ** The specification: distances through the neighbours *)

(** What neighbour [n], with view [v], offers for destination [d]. *)
Definition offer (d n : bytes) (v : NeighborView) : Z :=
  if bool_decide (d = n) then 1
  else match advertised_routes v !! d with Some c => Z.min (c + 1) INF_COST | None => INF_COST end.

(** The least of the offers, capped at infinity. *)
Definition best_offer (nv : gmap bytes NeighborView) (d : bytes) : Z :=
  foldr (fun kv acc => Z.min (offer d kv.1 kv.2) acc) INF_COST (map_to_list nv).

(** The node reaches itself at no cost, unless a peer has connected under the
    node's own name: then the direct route to that peer takes its place. *)
Definition self_cost (r : MeshRouter) : Z :=
  match neighbor_views_ r !! self_id_ r with Some _ => 1 | None => 0 end.

Definition dv_cost (r : MeshRouter) (d : bytes) : Z :=
  if bool_decide (d = self_id_ r) then self_cost r else best_offer (neighbor_views_ r) d.

(** The cost a table gives a destination; an absent one is unreachable. *)
Definition entry_cost (e : option RouteEntry) : Z := match e with Some e => cost e | None => INF_COST end.
Definition table_cost (r : MeshRouter) (d : bytes) : Z := entry_cost (forwarding_table_ r !! d).

(** ** Invariants *)

(** Every stored advertisement is finite. *)
Definition views_ok (r : MeshRouter) : Prop :=
  forall n v d c, neighbor_views_ r !! n = Some v -> advertised_routes v !! d = Some c ->
    (0 <= c < INF_COST)%Z.

(** The node has its route to itself; costs are at most infinity; a finite
    route goes through a current neighbour. *)
Definition table_ok (r : MeshRouter) : Prop :=
  (exists e, forwarding_table_ r !! self_id_ r = Some e /\ cost e = self_cost r /\ next_hop e = self_id_ r) /\
  forall d e, d <> self_id_ r -> forwarding_table_ r !! d = Some e ->
    (1 <= cost e <= INF_COST)%Z /\
    ((cost e < INF_COST)%Z -> is_Some (neighbor_views_ r !! next_hop e)).

Definition costs_ok (r : MeshRouter) : Prop :=
  forall d e, forwarding_table_ r !! d = Some e -> (0 <= cost e <= INF_COST)%Z.

Definition router_ok (r : MeshRouter) : Prop := views_ok r /\ table_ok r.

(** The table agrees with the views: least costs, best next hops. *)
Definition settled (r : MeshRouter) : Prop :=
  forall d, table_cost r d = dv_cost r d /\
    forall e, d <> self_id_ r -> forwarding_table_ r !! d = Some e -> (cost e < INF_COST)%Z ->
      exists v, neighbor_views_ r !! next_hop e = Some v /\ offer d (next_hop e) v = cost e.

Lemma self_cost_range r : (0 <= self_cost r <= 1)%Z.
Proof. unfold self_cost. destruct (neighbor_views_ r !! self_id_ r); lia. Qed.

Lemma table_ok_costs r : table_ok r -> costs_ok r.
Proof.
  intros [(e0 & H0 & Hc & _) Ht] d e He. destruct (decide (d = self_id_ r)) as [->|Hd].
  - rewrite H0 in He. simplify_eq. rewrite Hc. pose proof (self_cost_range r). unfold INF_COST. lia.
  - destruct (Ht d e Hd He) as [? _]. lia.
Qed.

Section table.
Context {o : IterOrder} {laws : IterOrderLaws o}.
Implicit Types (r : MeshRouter) (d n : bytes).

(** ** The table built from the views *)

(** The effect of [relax] on one entry. *)
Definition relax_entry (self neighbor : bytes) (now : Z) (dest : bytes) (remote_cost : Z)
    (e : option RouteEntry) : option RouteEntry :=
  if bool_decide (dest = self) then e
  else
    let total := u32 (remote_cost + 1) in
    if (INF_COST <=? total)%Z then e
    else match e with
         | None => Some (Route neighbor total true now)
         | Some x => if (total <? cost x)%Z then Some (Route neighbor total true now) else e
         end.

Lemma relax_local self n now dest c t d :
  relax self n now dest c t !! d =
  if decide (d = dest) then relax_entry self n now dest c (t !! dest) else t !! d.
Proof.
  unfold relax, relax_entry. destruct (decide (d = dest)) as [->|Hd];
    repeat case_goal; simplify_eq; rewrite ?lookup_insert_eq, ?lookup_insert_ne by done; done.
Qed.

(** All the offers for [d] folded into its entry. *)
Definition relax_all (self : bytes) (now : Z) d (l : list (bytes * NeighborView))
    (e : option RouteEntry) : option RouteEntry :=
  foldl (fun e nv => match advertised_routes nv.2 !! d with
                     | Some c => relax_entry self nv.1 now d c e
                     | None => e
                     end) e l.

Definition direct_entry r (now : Z) d : option RouteEntry :=
  match neighbor_views_ r !! d with
  | Some _ => Some (Route d 1 true now)
  | None => if bool_decide (d = self_id_ r) then Some (Route (self_id_ r) 0 false now) else None
  end.

Lemma new_table_lookup r now d :
  new_table now r !! d =
  relax_all (self_id_ r) now d (iter (neighbor_views_ r)) (direct_entry r now d).
Proof.
  unfold new_table.
  set (t1 := for_each (neighbor_views_ r)
    (fun n (_ : NeighborView) t => <[n := Route n 1 true now]> t) _).
  assert (t1 !! d = direct_entry r now d) as <-.
  { unfold t1. rewrite (for_each_local (fun k _ _ => Some (Route k 1 true now))).
    - unfold direct_entry. destruct (neighbor_views_ r !! d); [done|].
      case_bool_decide; subst; [by rewrite lookup_singleton_eq|by rewrite lookup_singleton_ne].
    - intros. destruct (decide _) as [->|]; by rewrite ?lookup_insert_eq, ?lookup_insert_ne by done. }
  generalize t1. clear t1. unfold for_each at 1. generalize (iter (neighbor_views_ r)) as l.
  intros l. induction l as [|[n v] l IH]; intros t1; [done|]. simpl. rewrite IH. f_equal.
  apply (for_each_local (relax_entry (self_id_ r) n now)). intros. apply relax_local.
Qed.

(** A route to [d] of cost [c] through neighbour [n]. *)
Definition route_via r d n (c : Z) : Prop :=
  exists v, neighbor_views_ r !! n = Some v /\
    ((d = n /\ c = 1%Z) \/ (exists rc, advertised_routes v !! d = Some rc /\ c = (rc + 1)%Z /\ (c < INF_COST)%Z)).

Section relaxing.
Context (self : bytes) (now : Z) (d : bytes) (Hself : d <> self).

Lemma relax_entry_cost n rc e :
  (0 <= rc < INF_COST)%Z -> (entry_cost e <= INF_COST)%Z ->
  entry_cost (relax_entry self n now d rc e) = Z.min (entry_cost e) (rc + 1).
Proof using Hself.
  intros Hrc He. unfold relax_entry. rewrite bool_decide_false by done. unfold INF_COST in *.
  rewrite u32_small by lia. destruct (Z.leb_spec 16 (rc + 1)).
  - lia.
  - destruct e as [e|]; simpl in *; [|unfold INF_COST; lia]. destruct (Z.ltb_spec (rc + 1) (cost e)); simpl; lia.
Qed.

(** The fold keeps the least offer and the neighbour that made it. *)
Lemma relax_all_spec l e :
  (forall n v c, (n, v) ∈ l -> advertised_routes v !! d = Some c -> (0 <= c < INF_COST)%Z) ->
  (entry_cost e <= INF_COST)%Z ->
  let e' := relax_all self now d l e in
  (entry_cost e' <= entry_cost e)%Z /\
  (forall n v c, (n, v) ∈ l -> advertised_routes v !! d = Some c -> (entry_cost e' <= c + 1)%Z) /\
  (e' = e \/ exists n v c, (n, v) ∈ l /\ advertised_routes v !! d = Some c /\
     (c + 1 < INF_COST)%Z /\ e' = Some (Route n (c + 1) true now)).
Proof using Hself.
  revert e. induction l as [|[n v] l IH]; intros e Hl He; simpl.
  { split_and!; [done| |by left]. by intros ? ? ? ?%not_elem_of_nil. }
  destruct (advertised_routes v !! d) as [c|] eqn:Hc.
  - assert (0 <= c < INF_COST)%Z as Hcr by (by eapply Hl; [left|]).
    pose proof (relax_entry_cost n c e Hcr He) as Hcost.
    destruct (IH (relax_entry self n now d c e)) as (H1 & H2 & H3);
      [by intros; eapply Hl; [right|]|lia|]. split_and!; [lia| |].
    + intros n' v' c' [[= -> ->]|Hin]%elem_of_cons Hc'; [|by eapply H2].
      simplify_eq. lia.
    + destruct H3 as [H3|(n' & v' & c' & ? & ? & ? & ?)];
        [|right; exists n', v', c'; split_and!; try done; by right].
      fold (relax_all self now d l (relax_entry self n now d c e)) in *.
      rewrite H3. unfold relax_entry. rewrite bool_decide_false by done.
      unfold INF_COST in *. rewrite u32_small by lia. destruct (Z.leb_spec 16 (c + 1)); [by left|].
      destruct e as [x|]; [destruct (Z.ltb_spec (c + 1) (cost x)); [|by left]|];
        right; exists n, v, c; split_and!; try done; by left.
  - destruct (IH e) as (H1 & H2 & H3); [by intros; eapply Hl; [right|]|done|].
    split_and!; [done| |].
    + intros n' v' c' [[= -> ->]|Hin]%elem_of_cons Hc'; [congruence|by eapply H2].
    + destruct H3 as [H3|(n' & v' & c' & ? & ? & ? & ?)]; [by left|].
      right; exists n', v', c'; split_and!; try done; by right.
Qed.
End relaxing.

(** The table holds a least-cost route for every destination that has one. *)
Lemma new_table_spec r now d :
  views_ok r -> d <> self_id_ r ->
  match new_table now r !! d with
  | Some e => route_via r d (next_hop e) (cost e) /\ (1 <= cost e < INF_COST)%Z /\
              forall n c, route_via r d n c -> (cost e <= c)%Z
  | None => forall n c, ~ route_via r d n c
  end.
Proof.
  intros Hv Hd. rewrite new_table_lookup.
  assert (direct_entry r now d = None \/
          direct_entry r now d = Some (Route d 1 true now) /\ is_Some (neighbor_views_ r !! d)) as Hde.
  { unfold direct_entry. destruct (neighbor_views_ r !! d); [by right|].
    rewrite bool_decide_false by done. by left. }
  assert (forall n v c, (n, v) ∈ iter (neighbor_views_ r) -> advertised_routes v !! d = Some c ->
            (0 <= c < INF_COST)%Z) as Hl by (intros n v c ?%elem_of_iter ?; by eapply Hv).
  destruct (relax_all_spec (self_id_ r) now d Hd (iter (neighbor_views_ r)) (direct_entry r now d) Hl)
    as (H1 & H2 & H3); [by destruct Hde as [->|[-> _]]|].
  assert (forall n c, route_via r d n c -> (entry_cost (relax_all (self_id_ r) now d
            (iter (neighbor_views_ r)) (direct_entry r now d)) <= c)%Z) as Hmin.
  { intros n c (v & Hn & [[<- ->]|(rc & Hrc & -> & _)]).
    - destruct Hde as [Hde|[Hde _]].
      + unfold direct_entry in Hde. by rewrite Hn in Hde.
      + rewrite Hde in H1. rewrite Hde. exact H1.
    - eapply H2; [by apply elem_of_iter|done]. }
  destruct (relax_all _ _ _ _ _) as [e|] eqn:E; simpl in *.
  - assert (route_via r d (next_hop e) (cost e) /\ (1 <= cost e < INF_COST)%Z) as [Hvia Hb]; [|done].
    destruct H3 as [H3|(n & v & c & Hin & Hc & Hlt & [= ->])].
    + destruct Hde as [Hde|[Hde [v Hn]]]; rewrite Hde in H3; [done|].
      injection H3 as ->. simpl. split; [exists v; split; [done|by left]|]. unfold INF_COST. lia.
    + pose proof (Hl _ _ _ Hin Hc). simpl. split; [|lia]. exists v. split; [by apply elem_of_iter|].
      right. by exists c.
  - intros n c Hvia. pose proof (Hmin n c Hvia) as Hle.
    destruct Hvia as (v & Hn & [[<- ->]|(rc & Hrc & -> & Hlt)]); unfold INF_COST in *; lia.
Qed.

Lemma new_table_self r now :
  exists e, new_table now r !! self_id_ r = Some e /\ next_hop e = self_id_ r /\ cost e = self_cost r.
Proof.
  assert (new_table now r !! self_id_ r = direct_entry r now (self_id_ r)) as ->.
  { rewrite new_table_lookup. generalize (iter (neighbor_views_ r)) as l. intros l.
    induction l as [|[n v] l IH]; [done|]. simpl. destruct (advertised_routes v !! self_id_ r); [|done].
    unfold relax_entry at 1. by rewrite bool_decide_true. }
  unfold direct_entry, self_cost. destruct (neighbor_views_ r !! self_id_ r); [by eexists|].
  rewrite bool_decide_true by done. by eexists.
Qed.

(** ** The specification's cost is the least route *)

Lemma best_offer_spec (l : list (bytes * NeighborView)) d :
  let b := foldr (fun kv acc => Z.min (offer d kv.1 kv.2) acc) INF_COST l in
  (b <= INF_COST)%Z /\ (forall n v, (n, v) ∈ l -> (b <= offer d n v)%Z) /\
  (b = INF_COST \/ exists n v, (n, v) ∈ l /\ b = offer d n v).
Proof.
  induction l as [|[n v] l (H1 & H2 & H3)]; simpl.
  { split_and!; [done| |by left]. by intros ? ? ?%not_elem_of_nil. }
  split_and!; [lia| |].
  - intros n' v' [[= -> ->]|Hin]%elem_of_cons; [lia|]. specialize (H2 _ _ Hin). lia.
  - destruct (Z.min_spec (offer d n v) (foldr (fun kv acc => Z.min (offer d kv.1 kv.2) acc) INF_COST l))
      as [[_ ->]|[_ ->]].
    + right. exists n, v. split; [by left|done].
    + destruct H3 as [?|(n' & v' & ? & ?)]; [by left|]. right. exists n', v'. split; [by right|done].
Qed.

(** Views that offer at least as much give no larger a best offer. *)
Lemma best_offer_le (nv nv' : gmap bytes NeighborView) d :
  (forall n v, nv' !! n = Some v -> exists v', nv !! n = Some v' /\ offer d n v' = offer d n v) ->
  (best_offer nv d <= best_offer nv' d)%Z.
Proof.
  intros H. destruct (best_offer_spec (map_to_list nv) d) as (H1 & H2 & _).
  destruct (best_offer_spec (map_to_list nv') d) as (_ & _ & H3).
  fold (best_offer nv d) in *. fold (best_offer nv' d) in *.
  destruct H3 as [->|(n & v & Hin & ->)]; [done|]. apply elem_of_map_to_list in Hin.
  destruct (H n v Hin) as (v' & Hv' & <-). apply H2. by apply elem_of_map_to_list.
Qed.

(** An offer below infinity is a route, and every route is an offer. *)
Lemma offer_route r d n v :
  views_ok r -> neighbor_views_ r !! n = Some v ->
  (offer d n v < INF_COST)%Z -> route_via r d n (offer d n v).
Proof.
  intros Hv Hn Hlt. exists v. split; [done|]. unfold offer in *. case_bool_decide; [by left|].
  right. destruct (advertised_routes v !! d) as [c|] eqn:Hc; [|lia]. exists c.
  split_and!; [done|lia|lia].
Qed.

Lemma route_offer r d n c :
  views_ok r -> route_via r d n c -> exists v, neighbor_views_ r !! n = Some v /\ (offer d n v <= c)%Z.
Proof.
  intros Hv (v & Hn & Hc). exists v. split; [done|]. unfold offer.
  case_bool_decide; destruct Hc as [[? ->]|(rc & Hrc & -> & ?)]; try done.
  - pose proof (Hv _ _ _ _ Hn Hrc). lia.
  - rewrite Hrc. lia.
Qed.

(** The cost in the new table is the specification's. *)
Lemma new_table_cost r now d :
  views_ok r -> entry_cost (new_table now r !! d) = dv_cost r d.
Proof.
  intros Hv. unfold dv_cost. case_bool_decide as Hd.
  { subst. by destruct (new_table_self r now) as (e & -> & _ & ?). }
  pose proof (new_table_spec r now d Hv Hd) as Hs.
  destruct (best_offer_spec (map_to_list (neighbor_views_ r)) d) as (H1 & H2 & H3).
  fold (best_offer (neighbor_views_ r) d) in *.
  destruct (new_table now r !! d) as [e|]; simpl.
  - destruct Hs as (Hvia & Hb & Hmin). apply Z.le_antisymm.
    + destruct H3 as [->|(n & v & Hin & Heq)]; [lia|]. apply elem_of_map_to_list in Hin.
      rewrite Heq. destruct (Z.lt_ge_cases (offer d n v) INF_COST); [|lia].
      apply (Hmin n). by apply offer_route.
    + destruct (route_offer r d _ _ Hv Hvia) as (v & Hn & Hle).
      apply elem_of_map_to_list in Hn. specialize (H2 _ _ Hn). lia.
  - destruct H3 as [->|(n & v & Hin & Heq)]; [done|]. apply elem_of_map_to_list in Hin.
    destruct (Z.lt_ge_cases (offer d n v) INF_COST) as [Hlt|]; [|lia].
    exfalso. eapply Hs. by apply offer_route.
Qed.

(** ** The merge *)

Definition merged (now : Z) (e : RouteEntry) (old : option RouteEntry) : option RouteEntry * bool :=
  match old with
  | None => (Some (Route (next_hop e) (cost e) true now), true)
  | Some x => if negb (cost x =? cost e)%Z || negb (bool_decide (next_hop x = next_hop e))
              then (Some (Route (next_hop e) (cost e) true now), true) else (Some x, false)
  end.

Definition lost (now : Z) (fresh : gmap bytes RouteEntry) d (e : RouteEntry) (cur : option RouteEntry)
    : option RouteEntry * bool :=
  match fresh !! d with
  | Some _ => (cur, false)
  | None => if (cost e <? INF_COST)%Z then (Some (Route (next_hop e) INF_COST true now), true)
            else (cur, false)
  end.

(** What [recalculate_forwarding_table] leaves in one entry, and whether it
    counts as a change. *)
Definition updated (now : Z) r d : option RouteEntry * bool :=
  match new_table now r !! d with
  | Some e => merged now e (forwarding_table_ r !! d)
  | None => match forwarding_table_ r !! d with
            | Some old => if (cost old <? INF_COST)%Z
                          then (Some (Route (next_hop old) INF_COST true now), true)
                          else (Some old, false)
            | None => (None, false)
            end
  end.

Lemma recalculate_lookup r now :
  let r' := recalculate_forwarding_table now r in
  (forall d, forwarding_table_ r' !! d = (updated now r d).1) /\
  neighbor_views_ r' = neighbor_views_ r /\ self_id_ r' = self_id_ r /\
  last_periodic_update r' = last_periodic_update r /\
  seen_packet_ids_ r' = seen_packet_ids_ r /\ event_queue_ r' = event_queue_ r /\
  transport_ r' = transport_ r /\ draws r' = draws r /\
  on_packet_for_me_cb_ r' = on_packet_for_me_cb_ r /\
  (trigger_pending_ r' = true <->
     trigger_pending_ r = true \/ exists d, (updated now r d).2 = true) /\
  (trigger_pending_ r = true -> trigger_deadline_ r' = trigger_deadline_ r).
Proof.
  unfold recalculate_forwarding_table.
  destruct (for_each_flagged (fun _ e old => merged now e old) (merge_entry now) (new_table now r)
    (forwarding_table_ r) false) as [Hm1 Hm2].
  { intros k e t b d. unfold merge_entry, merged. simpl. destruct (decide (d = k)) as [->|];
      repeat case_goal; simplify_eq; simpl; rewrite ?lookup_insert_eq, ?lookup_insert_ne by done; done. }
  { intros k e t b. unfold merge_entry, merged. simpl. repeat case_goal; simpl;
      by rewrite ?orb_true_r, ?orb_false_r. }
  destruct (for_each (new_table now r) _ _) as [ft1 ch1]. simpl in *.
  destruct (for_each_flagged (fun k e cur => lost now (new_table now r) k e cur)
    (lose_entry now (new_table now r)) ft1 ft1 ch1) as [Hl1 Hl2].
  { intros k e t b d. unfold lose_entry, lost. simpl. destruct (decide (d = k)) as [->|];
      repeat case_goal; simplify_eq; simpl; rewrite ?lookup_insert_eq, ?lookup_insert_ne by done; done. }
  { intros k e t b. unfold lose_entry, lost. simpl. repeat case_goal; simpl;
      by rewrite ?orb_true_r, ?orb_false_r. }
  destruct (for_each ft1 _ _) as [ft2 ch2]. simpl in *.
  assert (forall d, ft2 !! d = (updated now r d).1) as Hft.
  { intros d. rewrite Hl1, Hm1. unfold updated, lost. destruct (new_table now r !! d) as [e|] eqn:E.
    - by destruct (merged now e (forwarding_table_ r !! d)) as [[x|] ?].
    - destruct (forwarding_table_ r !! d) as [old|]; [|done]. by destruct (cost old <? INF_COST)%Z. }
  assert (ch2 = true <-> exists d, (updated now r d).2 = true) as Hch.
  { rewrite Hl2, Hm2. unfold updated. split.
    - intros [[|(k & e & He & Hf)]|(k & e & He & Hf)]; [done| |]; exists k.
      + by rewrite He.
      + unfold lost in Hf. rewrite Hm1 in He. destruct (new_table now r !! k); [done|].
        rewrite He. by destruct (cost e <? INF_COST)%Z.
    - intros [d Hd]. destruct (new_table now r !! d) as [e|] eqn:E.
      + left. right. by exists d, e.
      + destruct (forwarding_table_ r !! d) as [old|] eqn:Eo; [|done]. right. exists d, old.
        unfold lost. rewrite Hm1, E. split; [done|]. by destruct (cost old <? INF_COST)%Z. }
  rewrite <-Hch. destruct ch2, (trigger_pending_ r) eqn:Ep; simpl; rewrite ?Ep; split_and!;
    try done; try tauto; intuition congruence.
Qed.

Lemma updated_cost r now d :
  views_ok r -> costs_ok r -> entry_cost (updated now r d).1 = dv_cost r d.
Proof.
  intros Hv Hc. rewrite <-(new_table_cost r now) by done. unfold updated.
  destruct (new_table now r !! d) as [e|]; simpl.
  - destruct (forwarding_table_ r !! d) as [x|]; simpl; [|done].
    destruct (Z.eqb_spec (cost x) (cost e)), (bool_decide _); simpl; done.
  - destruct (forwarding_table_ r !! d) as [x|] eqn:Ex; [|done].
    destruct (Z.ltb_spec (cost x) INF_COST); simpl; [done|]. specialize (Hc _ _ Ex). lia.
Qed.

(** A fresh finite entry goes through the neighbour with the best offer. *)
Lemma new_table_best r now d e :
  views_ok r -> d <> self_id_ r -> new_table now r !! d = Some e ->
  exists v, neighbor_views_ r !! next_hop e = Some v /\ offer d (next_hop e) v = dv_cost r d.
Proof.
  intros Hv Hd He. pose proof (new_table_spec r now d Hv Hd) as Hs.
  pose proof (new_table_cost r now d Hv) as Hc. rewrite He in Hs, Hc. simpl in Hc.
  destruct Hs as (Hvia & Hb & Hmin). destruct (route_offer r d _ _ Hv Hvia) as (v & Hn & Hle).
  exists v. split; [done|]. apply Z.le_antisymm; [lia|]. rewrite <-Hc.
  apply (Hmin (next_hop e)). apply offer_route; [done..|]. lia.
Qed.

(** The entry after a recalculation agrees with the fresh one. *)
Lemma updated_fresh r now d e :
  new_table now r !! d = Some e ->
  exists x, (updated now r d).1 = Some x /\ next_hop x = next_hop e /\ cost x = cost e.
Proof.
  intros He. unfold updated, merged. rewrite He. destruct (forwarding_table_ r !! d) as [x|]; simpl;
    [|by eexists].
  destruct (Z.eqb_spec (cost x) (cost e)); simpl; [|by eexists].
  case_bool_decide; simpl; by eexists.
Qed.

(** Where nothing fresh exists the entry is dead. *)
Lemma updated_dead r now d x :
  costs_ok r -> new_table now r !! d = None -> (updated now r d).1 = Some x -> cost x = INF_COST.
Proof.
  intros Hc Hn. unfold updated. rewrite Hn. destruct (forwarding_table_ r !! d) as [old|] eqn:E; [|done].
  destruct (Z.ltb_spec (cost old) INF_COST); simpl; intros [= <-]; [done|].
  specialize (Hc _ _ E). lia.
Qed.

Lemma recalculate_ok r now :
  views_ok r -> costs_ok r -> router_ok (recalculate_forwarding_table now r).
Proof.
  intros Hv Hc. destruct (recalculate_lookup r now) as (Hft & Hnv & Hself & _).
  split; [by unfold views_ok; rewrite Hnv|]. split.
  - unfold self_cost. rewrite Hself, Hft, Hnv. destruct (new_table_self r now) as (e & He & Hn & Hce).
    destruct (updated_fresh r now _ _ He) as (x & -> & Hxn & Hxc). exists x. split; [done|]. by rewrite Hxn, Hxc, Hce.
  - intros d e Hd He. rewrite Hself in Hd. rewrite Hft in He. rewrite Hnv.
    destruct (new_table now r !! d) as [f|] eqn:Ef.
    + destruct (updated_fresh r now d f Ef) as (x & Hx & Hn & Hcx). simplify_eq.
      pose proof (new_table_spec r now d Hv Hd) as Hs. rewrite Ef in Hs.
      destruct Hs as ((v & Hv' & _) & Hb & _). split; [lia|]. rewrite Hn. by exists v.
    + rewrite (updated_dead r now d e Hc Ef He). unfold INF_COST. split; lia.
Qed.

Lemma recalculate_settled r now : views_ok r -> costs_ok r -> settled (recalculate_forwarding_table now r).
Proof.
  intros Hv Hc d. destruct (recalculate_lookup r now) as (Hft & Hnv & Hs & _).
  assert (dv_cost (recalculate_forwarding_table now r) d = dv_cost r d) as ->
    by (unfold dv_cost, self_cost; by rewrite Hnv, Hs).
  unfold table_cost. rewrite Hft, Hnv, Hs. split; [by apply updated_cost|].
  intros e Hd He Hlt. destruct (new_table now r !! d) as [f|] eqn:Ef.
  - destruct (updated_fresh r now d f Ef) as (x & Hx & Hn & Hcx). simplify_eq.
    destruct (new_table_best r now d f Hv Hd Ef) as (v & Hv' & Ho). exists v. rewrite Hn.
    split; [done|]. rewrite Ho, <-(new_table_cost r now d Hv), Ef. done.
  - rewrite (updated_dead r now d e Hc Ef He) in Hlt. lia.
Qed.

(** A destination that no neighbour offers any more keeps its entry, at infinity. *)
Lemma lost_route r now d e :
  views_ok r -> dv_cost r d = INF_COST -> forwarding_table_ r !! d = Some e -> (cost e < INF_COST)%Z ->
  forwarding_table_ (recalculate_forwarding_table now r) !! d = Some (Route (next_hop e) INF_COST true now).
Proof.
  intros Hv Hd He Hlt. destruct (recalculate_lookup r now) as [-> _]. unfold updated. rewrite He.
  rewrite <-(new_table_cost r now d Hv) in Hd. destruct (new_table now r !! d) as [f|] eqn:Ef; simpl in Hd.
  - destruct (decide (d = self_id_ r)) as [->|Hne].
    + destruct (new_table_self r now) as (e' & He' & _ & Hc). pose proof (self_cost_range r).
      rewrite Ef in He'. simplify_eq. unfold INF_COST in *. lia.
    + pose proof (new_table_spec r now d Hv Hne) as Hs. rewrite Ef in Hs. lia.
  - by rewrite (proj2 (Z.ltb_lt _ _)).
Qed.

(** A recalculation that changes nothing leaves the router as it is. *)
Lemma recalculate_unchanged r now :
  (forall d, updated now r d = (forwarding_table_ r !! d, false)) ->
  recalculate_forwarding_table now r = r.
Proof.
  intros H. unfold recalculate_forwarding_table.
  pose proof (recalculate_lookup r now) as Hr. unfold recalculate_forwarding_table in Hr.
  destruct (for_each (new_table now r) _ _) as [ft1 ch1].
  destruct (for_each ft1 _ _) as [ft2 ch2]. destruct Hr as (Hft & Hr).
  assert (ft2 = forwarding_table_ r) as ->.
  { apply map_eq. intros d. specialize (Hft d). rewrite H in Hft. simpl in Hft. rewrite <-Hft.
    by destruct (ch2 && _). }
  assert (with_tables (forwarding_table_ r) (neighbor_views_ r) r = r) as Hid by by destruct r.
  rewrite Hid in *. destruct (ch2 && negb (trigger_pending_ r)) eqn:E; [|done].
  apply andb_true_iff in E as [_ E%negb_true_iff].
  destruct Hr as (_ & _ & _ & _ & _ & _ & _ & _ & Ht & _). simpl in Ht.
  destruct (proj1 Ht eq_refl) as [?|[d Hd]]; [congruence|]. by rewrite H in Hd.
Qed.

(** The time of a recalculation does not influence the routes it finds. *)
Definition route_key (e : RouteEntry) : bytes * Z := (next_hop e, cost e).

Lemma relax_entry_key self n now now' d c e e' :
  route_key <$> e = route_key <$> e' ->
  route_key <$> relax_entry self n now d c e = route_key <$> relax_entry self n now' d c e'.
Proof.
  intros H. unfold relax_entry. case_bool_decide; [done|]. destruct (_ <=? _)%Z; [done|].
  destruct e as [e|], e' as [e'|]; try done.
  assert (next_hop e = next_hop e' /\ cost e = cost e') as [H1 H2]
    by (unfold route_key in H; simpl in H; split; congruence). rewrite H2.
  destruct (_ <? _)%Z; simpl; [done|]. unfold route_key. by rewrite H1, H2.
Qed.

Lemma new_table_key r now now' d :
  route_key <$> new_table now r !! d = route_key <$> new_table now' r !! d.
Proof.
  rewrite !new_table_lookup.
  assert (route_key <$> direct_entry r now d = route_key <$> direct_entry r now' d) as H.
  { unfold direct_entry. destruct (neighbor_views_ r !! d); [done|]. by case_bool_decide. }
  revert H. generalize (direct_entry r now d) as e, (direct_entry r now' d) as e'.
  generalize (iter (neighbor_views_ r)) as l. intros l.
  induction l as [|[n v] l IH]; intros e e' H; [done|]. simpl. apply IH.
  destruct (advertised_routes v !! d); [|done]. by apply relax_entry_key.
Qed.

Lemma new_table_views r r' now :
  self_id_ r' = self_id_ r -> neighbor_views_ r' = neighbor_views_ r -> new_table now r' = new_table now r.
Proof. intros Hs Hn. unfold new_table. by rewrite Hs, Hn. Qed.

(** The second of two recalculations has nothing to do. *)
Lemma updated_again r now now' d :
  updated now' (recalculate_forwarding_table now r) d =
  (forwarding_table_ (recalculate_forwarding_table now r) !! d, false).
Proof.
  destruct (recalculate_lookup r now) as (Hft & Hnv & Hself & _). unfold updated.
  rewrite (new_table_views r) by done. rewrite Hft. pose proof (new_table_key r now now' d) as Hk.
  destruct (new_table now' r !! d) as [e'|], (new_table now r !! d) as [e|] eqn:Ee; try done.
  - destruct (updated_fresh r now d e Ee) as (x & -> & Hn & Hc).
    assert (next_hop e = next_hop e' /\ cost e = cost e') as [Hk1 Hk2]
      by (unfold route_key in Hk; simpl in Hk; split; congruence).
    unfold merged. rewrite Hc, Hn, Hk1, Hk2, Z.eqb_refl, bool_decide_true by done. done.
  - unfold updated. rewrite Ee. destruct (forwarding_table_ r !! d) as [old|]; [|done].
    destruct (Z.ltb_spec (cost old) INF_COST); simpl; [done|].
    by rewrite (proj2 (Z.ltb_ge _ _)).
Qed.

End table.

(** (C7) [recalculate_forwarding_table_locked], from any table with costs up to 16
    and any views with stored advertisements below 16 (which is what its callers
    have, also when neighbours have just been added, changed or removed: the old
    table may hold routes through peers that are gone).  Afterwards the cost of
    every destination is the least offer of the current neighbours (1 for a
    neighbour, one more than an advertised cost otherwise, 16 for unreachable; 0
    for the node itself, or 1 if a peer uses the node's name); a reachable
    destination is routed through a neighbour that makes that offer; and a route
    that no neighbour offers any more stays in the table, at cost 16 and marked to
    be advertised; for every iteration order of the hash tables. *)
Theorem recalculate_shortest_routes {o : IterOrder} {laws : IterOrderLaws o}
    (r : MeshRouter) (now : Z) (d : bytes) (Hviews : views_ok r) (Hcosts : costs_ok r) :
  let r' := recalculate_forwarding_table now r in
  table_cost r' d = dv_cost r d /\
  (d <> self_id_ r -> (dv_cost r d < INF_COST)%Z ->
   exists e v, forwarding_table_ r' !! d = Some e /\ neighbor_views_ r !! next_hop e = Some v /\
     offer d (next_hop e) v = dv_cost r d) /\
  (forall e, dv_cost r d = INF_COST -> forwarding_table_ r !! d = Some e -> (cost e < INF_COST)%Z ->
   forwarding_table_ r' !! d = Some (Route (next_hop e) INF_COST true now)).
Proof.
  intros r'. destruct (recalculate_settled r now Hviews Hcosts d) as [Hc Hbest].
  destruct (recalculate_lookup r now) as (_ & Hnv & Hs & _).
  assert (dv_cost r' d = dv_cost r d) as Hdv by (unfold r', dv_cost, self_cost; by rewrite Hnv, Hs).
  fold r' in Hc, Hbest. rewrite Hdv in Hc. split_and!; [done| |intros e; by apply lost_route].
  intros Hd Hlt. unfold table_cost in Hc. destruct (forwarding_table_ r' !! d) as [e|] eqn:Ee; simpl in Hc; [|lia].
  unfold r' in Hbest. rewrite Hs, Hnv in Hbest. destruct (Hbest e Hd eq_refl) as (v & Hv & Ho); [lia|]. exists e, v.
  by rewrite Ho.
Qed.

(** [recalculate_forwarding_table_locked] marks exactly what it changes:
    an entry is left alone or rewritten with the dirty flag and the current time;
    any change leaves a triggered update pending, and one that was already
    pending keeps its deadline; a second recalculation, at any time, changes
    nothing at all. *)
Theorem recalculate_marks_changes {o : IterOrder} {laws : IterOrderLaws o}
    (r : MeshRouter) (now : Z) :
  let r' := recalculate_forwarding_table now r in
  (forall d, forwarding_table_ r' !! d = forwarding_table_ r !! d \/
     exists e, forwarding_table_ r' !! d = Some e /\ dirty e = true /\ last_updated e = now) /\
  (forwarding_table_ r' <> forwarding_table_ r -> trigger_pending_ r' = true) /\
  (trigger_pending_ r = true -> trigger_deadline_ r' = trigger_deadline_ r) /\
  (forall later, recalculate_forwarding_table later r' = r').
Proof.
  destruct (recalculate_lookup r now) as (Hft & _ & _ & _ & _ & _ & _ & _ & _ & Ht & Hd).
  assert (forall d, (updated now r d = (forwarding_table_ r !! d, false)) \/
            (updated now r d).2 = true /\ exists e, (updated now r d).1 = Some e /\ dirty e = true /\
              last_updated e = now) as Hu.
  { intros d. unfold updated, merged. repeat case_goal; simpl; eauto 6. }
  split_and!; [|..|done|].
  - intros d. rewrite Hft. destruct (Hu d) as [->|[_ ?]]; [by left|by right].
  - intros Hne. destruct (trigger_pending_ (recalculate_forwarding_table now r)) eqn:E; [done|].
    destruct Hne. apply map_eq. intros d. rewrite Hft. destruct (Hu d) as [->|[Hb _]]; [done|].
    enough (false = true) by done. apply Ht. right. by exists d.
  - intros later. apply recalculate_unchanged. intros d. apply updated_again.
Qed.

(** ** A router with one neighbour, at work *)

Definition nA : bytes := (lit "a")%mesh.
Definition nB : bytes := (lit "b")%mesh.
Definition nC : bytes := (lit "c")%mesh.

Definition demo_router : MeshRouter :=
  with_tables (forwarding_table_ (make_router nA true 0)) {[ nB := View {[ nC := 1%Z ]} 0 ]}
    (set_on_packet_for_me (make_router nA true 0)).

Lemma demo_router_ok : router_ok demo_router.
Proof.
  split.
  - intros n v d c. simpl. intros [<- <-]%lookup_singleton_Some. simpl.
    intros [<- <-]%lookup_singleton_Some. unfold INF_COST. lia.
  - split; [eexists; split_and!; reflexivity|]. intros d e Hd. simpl.
    intros [<- <-]%lookup_singleton_Some. done.
Qed.

(** The same router when [nB] has just gone: its table still has the routes
    through [nB]. *)
Definition demo_lost : MeshRouter :=
  let r := @recalculate_forwarding_table map_order 5 demo_router in with_tables (forwarding_table_ r) ∅ r.

Lemma recalculate_shortest_routes_witness :
  let r' := @recalculate_forwarding_table map_order 5 demo_router in
  let gone := @recalculate_forwarding_table map_order 9 demo_lost in
  table_cost r' nC = 2%Z /\
  (exists e v, forwarding_table_ r' !! nC = Some e /\
    neighbor_views_ demo_router !! next_hop e = Some v /\ offer nC (next_hop e) v = 2%Z) /\
  table_cost gone nC = 16%Z /\ forwarding_table_ gone !! nC = Some (Route nB 16 true 9).
Proof.
  destruct demo_router_ok as [Hv Ht%table_ok_costs].
  destruct (@recalculate_shortest_routes map_order map_order_laws demo_router 5 nC Hv Ht) as (W1 & W2 & _).
  destruct (@recalculate_shortest_routes map_order map_order_laws demo_lost 9 nC) as (W3 & _ & W4).
  - intros n v d c. simpl. by rewrite lookup_empty.
  - exact (table_ok_costs _ (proj2 (@recalculate_ok map_order map_order_laws demo_router 5 Hv Ht))).
  - split_and!; [exact W1|apply W2; [discriminate|reflexivity]|exact W3|].
    refine (W4 (Route nB 2 true 5) _ _ _); [reflexivity|vm_compute; reflexivity|reflexivity].
Defined.

Lemma recalculate_marks_changes_witness :
  let r' := @recalculate_forwarding_table map_order 5 demo_router in
  forwarding_table_ r' !! nC = Some (Route nB 2 true 5) /\ trigger_pending_ r' = true /\
  @recalculate_forwarding_table map_order 9 r' = r'.
Proof.
  destruct (@recalculate_marks_changes map_order map_order_laws demo_router 5) as (_ & W1 & _ & W2).
  split_and!; [reflexivity| |apply W2]. apply W1. intros E.
  apply (f_equal (lookup nC)) in E. vm_compute in E. discriminate.
Defined.

End Table.
