(* ===== verification/RouterAdvert.v ===== *)
(** * Advertisements of the router

    The triggered and the periodic distance-vector messages, poison reverse, and
    how a receiver absorbs them (src/src/mesh/routing/MeshRouter.cpp). *)

From S2P Require Import Prelude Cxx DedupSet ThreadSafeQueue Utils Packet MeshRouter RouterTable.

Module Advert.
Import Utils Packet Router Table.

(** The cost told to neighbour [n] for a route: infinity when the route goes
    through [n] itself. *)
Definition poisoned (n : bytes) (e : RouteEntry) : Z :=
  if bool_decide (next_hop e = n) then INF_COST else cost e.

(** The routes a triggered update carries. *)
Definition must_send (e : RouteEntry) : bool := dirty e || (INF_COST <=? cost e)%Z.

Definition cleaned (e : RouteEntry) : RouteEntry :=
  if must_send e then Route (next_hop e) (cost e) false (last_updated e) else e.

Section advert.
Context {o : IterOrder} {laws : IterOrderLaws o} {w : Wire RoutedPacket}.
Context (uuid : nat -> bytes).
Implicit Types (r : MeshRouter) (n d : bytes) (ft : gmap bytes RouteEntry).

Lemma map_insert_local (k : bytes) (c : Z) (t : RouteTable) d :
  map_insert k c t !! d =
  if decide (d = k) then Some (default c (t !! k)) else t !! d.
Proof.
  unfold map_insert. destruct (decide (d = k)) as [->|Hd];
    destruct (t !! k) eqn:E; rewrite ?lookup_insert_eq, ?lookup_insert_ne by done; done.
Qed.

Lemma full_table_lookup ft n d : full_table ft n !! d = poisoned n <$> ft !! d.
Proof.
  unfold full_table. rewrite (for_each_local (fun _ e x => Some (default (poisoned n e) x))).
  - destruct (ft !! d); done.
  - intros. apply map_insert_local.
Qed.

Lemma triggered_table_lookup ft (routes : gmap bytes Z) n d :
  triggered_table ft routes n !! d =
  (fun c => match ft !! d with
            | Some e => if bool_decide (next_hop e = n) then INF_COST else c
            | None => c end) <$> routes !! d.
Proof.
  unfold triggered_table.
  rewrite (for_each_local (fun k c x => Some (default (match ft !! k with
            | Some e => if bool_decide (next_hop e = n) then INF_COST else c
            | None => c end) x))).
  - by destruct (routes !! d).
  - intros. apply map_insert_local.
Qed.

(** The first loop of [send_triggered_updates]. *)
Lemma collect_loop ft :
  exists routes ft', for_each ft collect (∅, ft) = (routes, ft') /\
    (forall d, routes !! d = e ← ft !! d; if must_send e then Some (cost e) else None) /\
    (forall d, ft' !! d = cleaned <$> ft !! d).
Proof.
  eexists _, _. split.
  { apply for_each_prod with
      (f := fun d e t => if must_send e then <[d := cost e]> t else t)
      (g := fun d e t => if must_send e then <[d := cleaned e]> t else t).
    intros d e a b. unfold collect, cleaned, must_send. by destruct (dirty e || _). }
  split; intros d.
  - rewrite (for_each_local (fun _ e x => if must_send e then Some (cost e) else x)).
    + by destruct (ft !! d).
    + intros k e t d'. destruct (must_send e), (decide (d' = k)) as [->|]; try done;
        by rewrite ?lookup_insert_eq, ?lookup_insert_ne.
  - rewrite (for_each_local (fun _ e x => if must_send e then Some (cleaned e) else x)).
    + destruct (ft !! d) as [e|]; [|done]. simpl. unfold cleaned. by destruct (must_send e).
    + intros k e t d'. destruct (must_send e), (decide (d' = k)) as [->|]; try done;
        by rewrite ?lookup_insert_eq, ?lookup_insert_ne.
Qed.

(** The sending loop: one message per neighbour, each with a UUID of its own. *)
Lemma advertise_loop r (ttl : Z) (tbl : bytes -> RouteTable) (k : nat) :
  for_each (neighbor_views_ r) (fun n _ s => advertise uuid r ttl n (tbl n) s) (k, []) =
  (k + size (neighbor_views_ r),
   if transport_ r
   then imap (fun i n => SendTcp n (update_envelope (uuid (k + i)) (self_id_ r) n ttl (tbl n)))
          (iter (neighbor_views_ r)).*1
   else []).
Proof.
  unfold for_each.
  assert (forall (l : list (bytes * NeighborView)) k acts,
    foldl (fun s kv => advertise uuid r ttl kv.1 (tbl kv.1) s) (k, acts) l =
    (k + length l, acts ++ if transport_ r then
       imap (fun i n => SendTcp n (update_envelope (uuid (k + i)) (self_id_ r) n ttl (tbl n))) l.*1
     else [])) as Hl.
  { intros l. induction l as [|[n v] l IH]; intros k' acts; simpl.
    - rewrite Nat.add_0_r. destruct (transport_ r); by rewrite app_nil_r.
    - unfold advertise at 2. simpl. rewrite IH. f_equal; [lia|]. destruct (transport_ r); [|done].
      rewrite <-app_assoc. simpl. rewrite Nat.add_0_r. do 2 f_equal.
      apply imap_ext. intros i x _. simpl. by rewrite Nat.add_succ_r. }
  rewrite Hl. simpl. f_equal. rewrite <-length_map_to_list. f_equal.
  by rewrite (iter_perm _ (neighbor_views_ r)).
Qed.

Lemma absorb_loop (t : RouteTable) (adv : gmap bytes Z) d :
  for_each t absorb adv !! d =
  match t !! d with
  | Some c => if (INF_COST <=? c)%Z then None else Some c
  | None => adv !! d
  end.
Proof.
  rewrite (for_each_local (fun _ c _ => if (INF_COST <=? c)%Z then None else Some c)).
  - done.
  - intros k c m d'. unfold absorb. destruct (_ <=? _)%Z, (decide (d' = k)) as [->|];
      rewrite ?lookup_insert_eq, ?lookup_insert_ne, ?lookup_delete_eq, ?lookup_delete_ne by done; done.
Qed.

(** Absorbing a table of unsigned costs keeps every stored one finite. *)
Lemma absorb_views_ok r n (t : RouteTable) ft time :
  views_ok r -> (forall d c, t !! d = Some c -> (0 <= c)%Z) ->
  views_ok (with_tables ft (<[n := View (for_each t absorb (advertised_routes
    (default empty_view (neighbor_views_ r !! n)))) time]> (neighbor_views_ r)) r).
Proof.
  intros Hv Ht n' v d c Hn' Hc. simpl in Hn'. destruct (decide (n' = n)) as [->|Hne].
  - rewrite lookup_insert_eq in Hn'. injection Hn' as <-. simpl in Hc. rewrite absorb_loop in Hc.
    destruct (t !! d) as [c0|] eqn:E.
    + destruct (Z.leb_spec INF_COST c0); [done|]. injection Hc as <-. specialize (Ht _ _ E). lia.
    + destruct (neighbor_views_ r !! n) as [v0|] eqn:E0; simpl in Hc; [by eapply Hv|].
      by rewrite lookup_empty in Hc.
  - rewrite lookup_insert_ne in Hn' by done. by eapply Hv.
Qed.

(** ** Membership in the list of messages *)

Lemma elem_of_advertised r (ttl : Z) (tbl : bytes -> RouteTable) (k : nat) n v :
  neighbor_views_ r !! n = Some v ->
  exists i, SendTcp n (update_envelope (uuid i) (self_id_ r) n ttl (tbl n)) ∈
    imap (fun i n => SendTcp n (update_envelope (uuid (k + i)) (self_id_ r) n ttl (tbl n)))
      (iter (neighbor_views_ r)).*1.
Proof.
  intros Hn. assert (n ∈ (iter (neighbor_views_ r)).*1) as Hin by (apply iter_keys; by exists v).
  apply list_elem_of_lookup in Hin as [i Hi]. exists (k + i). apply list_elem_of_lookup. exists i.
  by rewrite list_lookup_imap, Hi.
Qed.

(** ** The two senders *)

Lemma broadcast_full_table_eq r :
  broadcast_full_table uuid r =
  (with_draws (draws r + size (neighbor_views_ r)) r,
   if transport_ r
   then imap (fun i n => SendTcp n (update_envelope (uuid (draws r + i)) (self_id_ r) n 15
               (full_table (forwarding_table_ r) n))) (iter (neighbor_views_ r)).*1
   else []).
Proof. unfold broadcast_full_table. by rewrite (advertise_loop r 15). Qed.

Lemma send_triggered_updates_eq r :
  exists routes ft',
    (forall d, routes !! d = e ← forwarding_table_ r !! d; if must_send e then Some (cost e) else None) /\
    (forall d, ft' !! d = cleaned <$> forwarding_table_ r !! d) /\
    send_triggered_updates uuid r =
    let r1 := with_tables ft' (neighbor_views_ r) r in
    if bool_decide (routes = ∅) then (r1, [])
    else (with_draws (draws r + size (neighbor_views_ r)) r1,
          if transport_ r
          then imap (fun i n => SendTcp n (update_envelope (uuid (draws r + i)) (self_id_ r) n DEFAULT_TTL
                      (triggered_table ft' routes n))) (iter (neighbor_views_ r)).*1
          else []).
Proof.
  destruct (collect_loop (forwarding_table_ r)) as (routes & ft' & E & Hr & Hft).
  exists routes, ft'. split_and!; [done..|]. unfold send_triggered_updates. rewrite E.
  destruct (bool_decide (routes = ∅)); [done|].
  by rewrite (advertise_loop (with_tables ft' (neighbor_views_ r) r) DEFAULT_TTL
               (triggered_table ft' routes)).
Qed.
End advert.

(** (C29) Poison reverse in the periodic broadcast: every neighbour is sent
    exactly one message, and its table lists every known destination with its
    cost, or with infinity when the route goes through that very neighbour. *)
Theorem full_table_poisons_reverse {o : IterOrder} {laws : IterOrderLaws o} {w : Wire RoutedPacket}
    (uuid : nat -> bytes) (r : MeshRouter) (Hup : transport_ r = true) :
  let '(r', acts) := broadcast_full_table uuid r in
  acts = imap (fun i n => SendTcp n (update_envelope (uuid (draws r + i)) (self_id_ r) n 15
           (full_table (forwarding_table_ r) n))) (iter (neighbor_views_ r)).*1 /\
  (forall n d, full_table (forwarding_table_ r) n !! d = poisoned n <$> forwarding_table_ r !! d) /\
  NoDup (iter (neighbor_views_ r)).*1 /\
  (forall n, n ∈ (iter (neighbor_views_ r)).*1 <-> is_Some (neighbor_views_ r !! n)) /\
  forwarding_table_ r' = forwarding_table_ r.
Proof.
  rewrite broadcast_full_table_eq, Hup. split_and!; try done.
  - intros. apply full_table_lookup.
  - apply NoDup_iter_keys.
  - intros. apply iter_keys.
Qed.

Lemma full_table_poisons_reverse_witness :
  let '(r', acts) := @broadcast_full_table map_order packet_wire (fun _ => []) demo_router in
  acts = [SendTcp nB (@update_envelope packet_wire [] nA nB 15
            (@full_table map_order {[ nA := Route nA 0 false 0 ]} nB))] /\
  forwarding_table_ r' = forwarding_table_ demo_router.
Proof.
  pose proof (@full_table_poisons_reverse map_order map_order_laws packet_wire
    (fun _ => []) demo_router eq_refl) as W.
  destruct (broadcast_full_table _ demo_router) as [r' acts].
  destruct W as (W1 & _ & _ & _ & W2). split; [|exact W2]. rewrite W1. reflexivity.
Defined.

(** (C30) A triggered update carries every route that changed since the last one
    and every dead route, poisoned for the neighbour it goes through, to every
    neighbour; afterwards no entry is dirty. *)
Theorem triggered_update_complete {o : IterOrder} {laws : IterOrderLaws o} {w : Wire RoutedPacket}
    (uuid : nat -> bytes) (r : MeshRouter) (Hup : transport_ r = true)
    (d : bytes) (e : RouteEntry) (He : forwarding_table_ r !! d = Some e) (Hsend : must_send e = true)
    (n : bytes) (Hn : is_Some (neighbor_views_ r !! n)) :
  let '(r', acts) := send_triggered_updates uuid r in
  (exists i table, SendTcp n (update_envelope (uuid i) (self_id_ r) n DEFAULT_TTL table) ∈ acts /\
     table !! d = Some (poisoned n e)) /\
  (forall d' e', forwarding_table_ r' !! d' = Some e' -> dirty e' = false /\
     table_cost r' d' = table_cost r d').
Proof.
  destruct (send_triggered_updates_eq uuid r) as (routes & ft' & Hr & Hft & ->).
  assert (routes !! d = Some (cost e)) as Hd by (rewrite Hr, He; simpl; by rewrite Hsend).
  rewrite bool_decide_false by (intros ->; by rewrite lookup_empty in Hd). rewrite Hup. split.
  - destruct Hn as [v Hn].
    destruct (elem_of_advertised uuid r DEFAULT_TTL (triggered_table ft' routes) (draws r) n v Hn)
      as [i Hi]. exists i, (triggered_table ft' routes n). split; [exact Hi|].
    rewrite triggered_table_lookup, Hd, Hft, He. simpl. unfold cleaned. by rewrite Hsend.
  - simpl. intros d' e'. unfold table_cost. simpl. rewrite Hft.
    destruct (forwarding_table_ r !! d') as [x|]; [|done]. simpl. intros [= <-].
    unfold cleaned, must_send. destruct (dirty x) eqn:Ex; simpl; [done|].
    destruct (_ <=? _)%Z; simpl; done.
Qed.

Lemma triggered_update_complete_witness :
  let r := @recalculate_forwarding_table map_order 5 demo_router in
  let '(r', acts) := @send_triggered_updates map_order packet_wire (fun _ => []) r in
  exists i table, SendTcp nB (@update_envelope packet_wire ((fun _ => []) (i : nat)) nA nB
      DEFAULT_TTL table) ∈ acts /\ table !! nC = Some INF_COST.
Proof.
  pose proof (@triggered_update_complete map_order map_order_laws packet_wire
    (fun _ => []) (@recalculate_forwarding_table map_order 5 demo_router) eq_refl nC
    (Route nB 2 true 5) eq_refl eq_refl nB ltac:(by eexists)) as W.
  simpl. destruct (send_triggered_updates _ _) as [r' acts]. destruct W as [W _]. exact W.
Defined.

(** No two-node loop: after [b] has absorbed the table [a] sends it, [b]
    never routes a destination through [a] that [a] routes through [b]. *)
Theorem no_two_node_loop {o : IterOrder} {laws : IterOrderLaws o}
    (a b : MeshRouter) (clk : nat -> Z) (Ha : router_ok a) (Hb : router_ok b)
    (Hne : self_id_ a <> self_id_ b) (d : bytes) (ea eb : RouteEntry) :
  let b' := process_routing_update clk (self_id_ a) (full_table (forwarding_table_ a) (self_id_ b)) b in
  forwarding_table_ a !! d = Some ea -> next_hop ea = self_id_ b ->
  forwarding_table_ b' !! d = Some eb -> (cost eb < INF_COST)%Z ->
  next_hop eb <> self_id_ a.
Proof.
  intros b' Hea Hnh Heb Hfin Hloop.
  assert (d <> self_id_ a) as Hda.
  { intros ->. destruct Ha as [_ [(e & He & _ & Hn) _]]. congruence. }
  unfold b', process_routing_update in Heb.
  set (view := default empty_view (neighbor_views_ b !! self_id_ a)) in *.
  set (b1 := with_tables _ _ b) in *.
  assert (views_ok b1) as Hv1.
  { apply absorb_views_ok; [apply Hb|]. intros d' c. rewrite full_table_lookup.
    intros (e & He & ->)%fmap_Some. pose proof (table_ok_costs a (proj2 Ha) d' e He).
    unfold poisoned. case_bool_decide; unfold INF_COST; lia. }
  assert (costs_ok b1) as Hc1 by (exact (table_ok_costs b (proj2 Hb))).
  destruct (recalculate_lookup b1 (clk 1)) as (Hft & _). rewrite Hft in Heb.
  assert (d <> self_id_ b1) as Hdb.
  { intros ->. destruct (new_table_self b1 (clk 1)) as (f & Hf & Hfn & _).
    destruct (updated_fresh b1 (clk 1) _ _ Hf) as (x & Hx & Hn & _).
    rewrite Hx in Heb. simplify_eq. simpl in *. congruence. }
  destruct (new_table (clk 1) b1 !! d) as [f|] eqn:Ef;
    [|rewrite (updated_dead b1 (clk 1) d eb Hc1 Ef Heb) in Hfin; lia].
  destruct (updated_fresh b1 (clk 1) d f Ef) as (x & Hx & Hn & _). simplify_eq.
  pose proof (new_table_spec b1 (clk 1) d Hv1 Hdb) as Hs. rewrite Ef in Hs.
  destruct Hs as ((v & Hnv & Hvia) & _). rewrite <-Hn, Hloop in Hnv, Hvia. simpl in Hnv.
  rewrite lookup_insert_eq in Hnv. injection Hnv as <-.
  destruct Hvia as [[? _]|(rc & Hrc & _)]; [done|]. simpl in Hrc.
  rewrite absorb_loop, full_table_lookup, Hea in Hrc. simpl in Hrc. unfold poisoned in Hrc.
  by rewrite bool_decide_true in Hrc.
Qed.

(** A node between [a] and [c]. *)
Definition demo_middle : MeshRouter :=
  with_tables (forwarding_table_ (make_router nB true 0)) {[ nC := View ∅ 0 ]} (make_router nB true 0).

Lemma demo_middle_ok : router_ok demo_middle.
Proof.
  split.
  - intros n v d c. simpl. intros [<- <-]%lookup_singleton_Some. simpl. by rewrite lookup_empty.
  - split; [eexists; split_and!; reflexivity|]. intros d e Hd. simpl.
    intros [<- <-]%lookup_singleton_Some. done.
Qed.

Lemma no_two_node_loop_witness :
  let a := @recalculate_forwarding_table map_order 5 demo_router in
  let b' := @process_routing_update map_order Z.of_nat nA
              (@full_table map_order (forwarding_table_ a) nB) demo_middle in
  forwarding_table_ a !! nC = Some (Route nB 2 true 5) /\
  forwarding_table_ b' !! nC = Some (Route nC 1 true 1) /\ nC <> nA.
Proof.
  split_and!; [vm_compute; reflexivity..|].
  apply (@no_two_node_loop map_order map_order_laws
    (@recalculate_forwarding_table map_order 5 demo_router) demo_middle Z.of_nat) with (d := nC)
    (ea := Route nB 2 true 5) (eb := Route nC 1 true 1).
  - destruct demo_router_ok as [? ?]. apply (@recalculate_ok map_order map_order_laws); [done|].
    by apply table_ok_costs.
  - exact demo_middle_ok.
  - vm_compute. discriminate.
  - vm_compute. reflexivity.
  - reflexivity.
  - vm_compute. reflexivity.
  - reflexivity.
Defined.

End Advert.
