(* ===== verification/RouterInvariants.v ===== *)
(** * Invariants of the router

    Every operation of the router keeps the well-formedness of its tables, so it
    holds in every state the router can reach from its constructor, whatever the
    peers send; and what periodic maintenance does
    (src/src/mesh/routing/MeshRouter.cpp). *)

From S2P Require Import Prelude Cxx DedupSet ThreadSafeQueue Utils Packet MeshRouter RouterTable.
From S2P Require Import RouterAdvert.

Module RouterInv.
Import Utils Packet Router Table Advert.

(** The invariant reads three fields only. *)
Lemma router_ok_same r r' :
  self_id_ r' = self_id_ r -> forwarding_table_ r' = forwarding_table_ r ->
  neighbor_views_ r' = neighbor_views_ r -> router_ok r -> router_ok r'.
Proof. intros Hs Hf Hn. unfold router_ok, views_ok, table_ok, self_cost. by rewrite Hs, Hf, Hn. Qed.

(** The tables are well-formed and the routes are the cheapest ones. *)
Definition router_sound (r : MeshRouter) : Prop := router_ok r /\ settled r.

Lemma router_sound_same r r' :
  self_id_ r' = self_id_ r -> forwarding_table_ r' = forwarding_table_ r ->
  neighbor_views_ r' = neighbor_views_ r -> router_sound r -> router_sound r'.
Proof.
  intros Hs Hf Hn [Hok Hset]. split; [by apply (router_ok_same r)|].
  unfold settled, table_cost, dv_cost, self_cost in *. by rewrite Hs, Hf, Hn.
Qed.

Create HintDb router.
#[export] Hint Extern 1 (router_ok (with_seen _ _)) => eapply router_ok_same; [reflexivity..|] : router.
#[export] Hint Extern 1 (router_ok (with_draws _ _)) => eapply router_ok_same; [reflexivity..|] : router.
#[export] Hint Extern 1 (router_ok (with_queue _ _)) => eapply router_ok_same; [reflexivity..|] : router.
#[export] Hint Extern 1 (router_ok (with_timers _ _ _ _)) => eapply router_ok_same; [reflexivity..|] : router.
#[export] Hint Extern 1 (router_ok (with_flags _ _ _ _)) => eapply router_ok_same; [reflexivity..|] : router.

(** Events the transport layer delivers: the costs of a parsed packet are
    unsigned. *)
Definition event_ok (e : RouterEvent) : Prop :=
  match e with
  | PACKET_RECEIVED _ pkt => packet_u32 pkt = true
  | _ => True
  end.

Lemma packet_costs_nonneg p d c :
  packet_u32 p = true -> get_route_table p !! d = Some c -> (0 <= c)%Z.
Proof.
  unfold packet_u32, is_u32. intros [_ H]%andb_true_iff Hd. bool_to_prop.
  specialize (H d c Hd). simpl in H. bool_to_prop. lia.
Qed.

(** The router notes that a neighbour is alive. *)
Definition hear (now : Z) (src : bytes) (r : MeshRouter) : MeshRouter :=
  match neighbor_views_ r !! src with
  | Some v => with_tables (forwarding_table_ r) (<[src := View (advertised_routes v) now]> (neighbor_views_ r)) r
  | None => r
  end.

Section invariants.
Context {o : IterOrder} {laws : IterOrderLaws o} {w : Wire RoutedPacket}.
Context (uuid : nat -> bytes).
Implicit Types (r : MeshRouter) (n d : bytes) (clk : nat -> Z).

(** ** Single operations *)

Lemma make_router_sound self up now : router_sound (make_router self up now).
Proof.
  split; [split; [|split]|].
  - intros n v d c. simpl. by rewrite lookup_empty.
  - eexists. simpl. rewrite lookup_singleton_eq. by split_and!.
  - intros d e Hd. simpl. by rewrite lookup_singleton_ne.
  - intros d. unfold table_cost, dv_cost. simpl. case_bool_decide as Hd.
    + subst. by rewrite lookup_singleton_eq.
    + by rewrite lookup_singleton_ne.
Qed.

Lemma make_router_ok self up now : router_ok (make_router self up now).
Proof. apply make_router_sound. Qed.

(** Views with the same advertisements give the same routes. *)
Lemma settled_views nv r :
  settled r -> (forall n, advertised_routes <$> nv !! n = advertised_routes <$> neighbor_views_ r !! n) ->
  settled (with_tables (forwarding_table_ r) nv r).
Proof.
  intros Hset Ha.
  assert (forall n v, nv !! n = Some v ->
    exists v', neighbor_views_ r !! n = Some v' /\ forall d, offer d n v' = offer d n v) as H1.
  { intros n v Hn. specialize (Ha n). rewrite Hn in Ha.
    destruct (neighbor_views_ r !! n) as [v'|]; simpl in Ha; [|done]. injection Ha as Ha.
    exists v'. split; [done|]. intros d. unfold offer. by rewrite Ha. }
  assert (forall n v, neighbor_views_ r !! n = Some v ->
    exists v', nv !! n = Some v' /\ forall d, offer d n v' = offer d n v) as H2.
  { intros n v Hn. specialize (Ha n). rewrite Hn in Ha.
    destruct (nv !! n) as [v'|]; simpl in Ha; [|done]. injection Ha as Ha.
    exists v'. split; [done|]. intros d. unfold offer. by rewrite Ha. }
  intros d. destruct (Hset d) as [Hc Hb]. split; simpl.
  - change (table_cost r d = dv_cost (with_tables (forwarding_table_ r) nv r) d). rewrite Hc.
    unfold dv_cost, self_cost. simpl. case_bool_decide.
    + specialize (Ha (self_id_ r)). destruct (neighbor_views_ r !! self_id_ r), (nv !! self_id_ r); done.
    + apply Z.le_antisymm; apply best_offer_le; intros n v Hn;
        [destruct (H1 n v Hn) as (v' & ? & ?)|destruct (H2 n v Hn) as (v' & ? & ?)]; by exists v'.
  - intros e Hd He Hlt. destruct (Hb e Hd He Hlt) as (v & Hv & Ho).
    destruct (H2 _ _ Hv) as (v' & ? & Ho'). exists v'. by rewrite Ho'.
Qed.

(** A table with the same costs and, where they are finite, the same next hops. *)
Lemma settled_table ft r :
  settled r -> (forall d, entry_cost (ft !! d) = table_cost r d) ->
  (forall d e, ft !! d = Some e -> (cost e < INF_COST)%Z ->
     exists e', forwarding_table_ r !! d = Some e' /\ next_hop e' = next_hop e /\ cost e' = cost e) ->
  settled (with_tables ft (neighbor_views_ r) r).
Proof.
  intros Hset Hc He d. destruct (Hset d) as [H1 H2]. split.
  - unfold table_cost at 1. simpl. by rewrite Hc.
  - intros e Hd Hf Hlt. destruct (He d e Hf Hlt) as (e' & Hf' & <- & Ec). rewrite <-Ec in Hlt |- *. by apply H2.
Qed.

Lemma hear_views (now : Z) n v r n' :
  neighbor_views_ r !! n = Some v ->
  advertised_routes <$> <[n := View (advertised_routes v) now]> (neighbor_views_ r) !! n' =
  advertised_routes <$> neighbor_views_ r !! n'.
Proof.
  intros Hn. destruct (decide (n' = n)) as [->|]; [by rewrite lookup_insert_eq, Hn|by rewrite lookup_insert_ne].
Qed.

Lemma hear_ok (now : Z) n r : router_ok r -> router_ok (hear now n r).
Proof.
  intros [Hv [He Ht]]. unfold hear. destruct (neighbor_views_ r !! n) as [v|] eqn:Hn; [|done].
  assert (forall n', is_Some (<[n := View (advertised_routes v) now]> (neighbor_views_ r) !! n') <->
    is_Some (neighbor_views_ r !! n')) as Hk
    by (intros n'; rewrite <-!(fmap_is_Some advertised_routes), hear_views by done; done).
  split; [|split]; simpl.
  - intros n' v' d c. simpl. destruct (decide (n' = n)) as [->|].
    + rewrite lookup_insert_eq. intros [= <-]. simpl. by eauto.
    + rewrite lookup_insert_ne by done. eauto.
  - destruct He as (e & ? & Hc & ?). exists e. split_and!; [done| |done]. rewrite Hc. unfold self_cost. simpl.
    pose proof (hear_views now n v r (self_id_ r) Hn) as E.
    by destruct (<[_ := _]> (neighbor_views_ r) !! self_id_ r), (neighbor_views_ r !! self_id_ r).
  - intros d e Hd Hde. destruct (Ht d e Hd Hde) as [? Hf]. split; [done|]. intros Hlt. by apply Hk, Hf.
Qed.

Lemma hear_sound (now : Z) n r : router_sound r -> router_sound (hear now n r).
Proof.
  intros [Hok Hset]. split; [by apply hear_ok|]. unfold hear.
  destruct (neighbor_views_ r !! n) as [v|] eqn:Hn; [|done]. apply settled_views; [done|]. intros n'. by apply hear_views.
Qed.

Lemma hear_keeps (now : Z) n r :
  self_id_ (hear now n r) = self_id_ r /\ forwarding_table_ (hear now n r) = forwarding_table_ r /\
  event_queue_ (hear now n r) = event_queue_ r /\ on_packet_for_me_cb_ (hear now n r) = on_packet_for_me_cb_ r.
Proof. unfold hear. by destruct (neighbor_views_ r !! n). Qed.

(** A recalculation makes the router sound. *)
Lemma recalculate_sound (now : Z) r : views_ok r -> costs_ok r -> router_sound (recalculate_forwarding_table now r).
Proof. intros Hv Hc. split; [by apply recalculate_ok|by apply recalculate_settled]. Qed.

Lemma process_routing_update_sound clk n (t : RouteTable) r :
  router_ok r -> (forall d c, t !! d = Some c -> (0 <= c)%Z) -> router_sound (process_routing_update clk n t r).
Proof.
  intros [Hv Ht] Hc. apply recalculate_sound; [by apply absorb_views_ok|]. exact (table_ok_costs r Ht).
Qed.

Lemma connected_views_ok (time : Z) n r :
  views_ok r ->
  views_ok (with_tables (forwarding_table_ r)
    (<[n := View (advertised_routes (default empty_view (neighbor_views_ r !! n))) time]> (neighbor_views_ r)) r).
Proof.
  intros Hv n' v d c. simpl. destruct (decide (n' = n)) as [->|].
  - rewrite lookup_insert_eq. intros [= <-]. simpl.
    destruct (neighbor_views_ r !! n) as [v0|] eqn:E; simpl; [by eauto|by rewrite lookup_empty].
  - rewrite lookup_insert_ne by done. eauto.
Qed.

(** Fewer neighbours. *)
Lemma subset_views_ok nv r :
  views_ok r -> nv ⊆ neighbor_views_ r -> views_ok (with_tables (forwarding_table_ r) nv r).
Proof. intros Hv Hsub n v d c Hn. simpl in Hn. eapply lookup_weaken in Hn; [|exact Hsub]. by eapply Hv. Qed.

Lemma peer_connected_sound clk n r : router_ok r -> router_sound (peer_connected clk n r).
Proof. intros [Hv Ht]. apply recalculate_sound; [by apply connected_views_ok|exact (table_ok_costs r Ht)]. Qed.

Lemma peer_disconnected_sound clk n r : router_ok r -> router_sound (peer_disconnected clk n r).
Proof.
  intros [Hv Ht]. apply recalculate_sound; [|exact (table_ok_costs r Ht)].
  apply subset_views_ok; [done|apply delete_subseteq].
Qed.

(** ** Periodic maintenance *)

(** A neighbour is dropped when it has been silent for more than three minutes. *)
Definition timed_out (now : Z) (v : NeighborView) : bool := (ROUTE_TIMEOUT <? now - last_heard_from v)%Z.

Lemma expire_loop (now : Z) (nv : gmap bytes NeighborView) :
  let '(nv', expired) := for_each nv (expire_neighbor now) (nv, false) in
  (forall n, nv' !! n = v ← nv !! n; if timed_out now v then None else Some v) /\
  (expired = false -> nv' = nv).
Proof.
  destruct (for_each_flagged (fun _ v x => if timed_out now v then (None, true) else (x, false))
    (expire_neighbor now) nv nv false) as [H1 H2].
  { intros k v t b d. unfold expire_neighbor. fold (timed_out now v). destruct (timed_out now v); simpl;
      destruct (decide (d = k)) as [->|]; rewrite ?lookup_delete_eq, ?lookup_delete_ne by done; done. }
  { intros k v t b. unfold expire_neighbor. fold (timed_out now v).
    destruct (timed_out now v); simpl; by rewrite ?orb_true_r, ?orb_false_r. }
  destruct (for_each nv (expire_neighbor now) (nv, false)) as [nv' expired]. simpl in *.
  assert (forall n, nv' !! n = v ← nv !! n; if timed_out now v then None else Some v) as H.
  { intros n. rewrite H1. destruct (nv !! n) as [v|]; [|done]. simpl. by destruct (timed_out now v). }
  split; [done|]. intros ->. apply map_eq. intros n. rewrite H.
  destruct (nv !! n) as [v|] eqn:E; [|done]. simpl. destruct (timed_out now v) eqn:Et; [|done].
  enough (false = true) by done. apply H2. right. exists n, v. by rewrite Et.
Qed.

(** A dead route is removed once it has been dead for more than 15 seconds. *)
Definition garbage (now : Z) (e : RouteEntry) : bool :=
  (INF_COST <=? cost e)%Z && (seconds 15 <? now - last_updated e)%Z.

Lemma garbage_loop (now : Z) (ft : gmap bytes RouteEntry) d :
  for_each ft (collect_garbage now) ft !! d = e ← ft !! d; if garbage now e then None else Some e.
Proof.
  rewrite (for_each_local (fun _ e x => if garbage now e then None else x)).
  - destruct (ft !! d) as [e|]; [|done]. simpl. by destruct (garbage now e).
  - intros k e t d'. unfold collect_garbage. fold (garbage now e).
    destruct (garbage now e), (decide (d' = k)) as [->|];
      rewrite ?lookup_delete_eq, ?lookup_delete_ne by done; done.
Qed.

Lemma garbage_ok (now : Z) r :
  router_ok r ->
  router_ok (with_tables (for_each (forwarding_table_ r) (collect_garbage now) (forwarding_table_ r))
    (neighbor_views_ r) r).
Proof.
  intros [Hv [(e0 & He0 & Hc0 & Hn0) Ht]]. split; [done|]. split; simpl.
  - exists e0. rewrite garbage_loop, He0. simpl. unfold garbage. pose proof (self_cost_range r).
    rewrite Hc0, (proj2 (Z.leb_gt _ _)) by (unfold INF_COST; lia). done.
  - intros d e Hd. rewrite garbage_loop. intros (e' & He' & Hg)%bind_Some.
    destruct (garbage now e'); [done|]. injection Hg as <-. by eapply Ht.
Qed.

Lemma garbage_sound (now : Z) r :
  router_sound r ->
  router_sound (with_tables (for_each (forwarding_table_ r) (collect_garbage now) (forwarding_table_ r))
    (neighbor_views_ r) r).
Proof.
  intros [Hok Hset]. split; [by apply garbage_ok|]. pose proof (table_ok_costs r (proj2 Hok)) as Hc.
  apply settled_table; [done|..]; intros d; rewrite garbage_loop.
  - unfold table_cost. destruct (forwarding_table_ r !! d) as [e|] eqn:E; [|done]. simpl.
    unfold garbage. destruct (Z.leb_spec INF_COST (cost e)); [|done]. specialize (Hc d e E).
    destruct (_ && _); simpl; lia.
  - intros e (e' & He & Hg)%bind_Some _. destruct (garbage now e'); [done|]. injection Hg as <-. by exists e'.
Qed.

(** Sending changes dirty flags at most. *)
Lemma send_triggered_ok r : router_ok r -> router_ok (send_triggered_updates uuid r).1.
Proof.
  intros [Hv [(e0 & He0 & Hc0 & Hn0) Ht]].
  destruct (send_triggered_updates_eq uuid r) as (routes & ft' & _ & Hft & ->).
  assert (forall e, next_hop (cleaned e) = next_hop e /\ cost (cleaned e) = cost e) as Hcl
    by (intros e; unfold cleaned; by destruct (must_send e)).
  assert (router_ok (with_tables ft' (neighbor_views_ r) r)) as Hok.
  { split; [done|]. split; simpl.
    - exists (cleaned e0). destruct (Hcl e0) as [-> ->]. by rewrite Hft, He0.
    - intros d e Hd. rewrite Hft. intros (e' & He' & ->)%fmap_Some. destruct (Hcl e') as [-> ->].
      by eapply Ht. }
  case_bool_decide; simpl; [done|]. by eapply router_ok_same; [..|exact Hok].
Qed.

Lemma send_triggered_sound r : router_sound r -> router_sound (send_triggered_updates uuid r).1.
Proof.
  intros [Hok Hset]. split; [by apply send_triggered_ok|].
  destruct (send_triggered_updates_eq uuid r) as (routes & ft' & _ & Hft & ->).
  assert (forall e, next_hop (cleaned e) = next_hop e /\ cost (cleaned e) = cost e) as Hcl
    by (intros e; unfold cleaned; by destruct (must_send e)).
  assert (settled (with_tables ft' (neighbor_views_ r) r)) as Hs.
  { apply settled_table; [done|..]; intros d; rewrite Hft.
    - unfold table_cost. destruct (forwarding_table_ r !! d) as [e|]; [|done]. simpl. apply Hcl.
    - intros e (e' & He & ->)%fmap_Some _. exists e'. by destruct (Hcl e') as [-> ->]. }
  by case_bool_decide.
Qed.

Lemma send_triggered_keeps r :
  let r' := (send_triggered_updates uuid r).1 in
  neighbor_views_ r' = neighbor_views_ r /\ last_periodic_update r' = last_periodic_update r /\
  seen_packet_ids_ r' = seen_packet_ids_ r /\ self_id_ r' = self_id_ r /\ event_queue_ r' = event_queue_ r.
Proof.
  destruct (send_triggered_updates_eq uuid r) as (routes & ft' & _ & _ & ->).
  by case_bool_decide.
Qed.

(** The router after the neighbours that timed out are gone. *)
Lemma expired_subset (now : Z) (nv nv' : gmap bytes NeighborView) :
  (forall n, nv' !! n = v ← nv !! n; if timed_out now v then None else Some v) -> nv' ⊆ nv.
Proof.
  intros H. apply map_subseteq_spec. intros n v. rewrite H. intros (v' & Hn & Hto)%bind_Some.
  destruct (timed_out now v'); congruence.
Qed.

Lemma expire_ok clk r nv (expired : bool) :
  router_ok r ->
  (forall n, nv !! n = v ← neighbor_views_ r !! n; if timed_out (clk 0) v then None else Some v) ->
  (expired = false -> nv = neighbor_views_ r) ->
  let r' := if expired then recalculate_forwarding_table (clk 1) (with_tables (forwarding_table_ r) nv r)
            else with_tables (forwarding_table_ r) nv r in
  router_ok r' /\ (settled r -> settled r').
Proof.
  intros [Hv Ht] Hnv%expired_subset Hex. destruct expired.
  - destruct (recalculate_sound (clk 1) (with_tables (forwarding_table_ r) nv r)) as [? ?];
      [by apply subset_views_ok|exact (table_ok_costs r Ht)|done].
  - rewrite Hex by done. split; [by apply (router_ok_same r)|]. intros Hs. by apply (router_sound_same r).
Qed.

(** What holds after the neighbours that timed out are gone, and survives sending
    and the removal of dead routes, holds after maintenance. *)
Lemma maintenance_keeps_all (P : MeshRouter -> Prop) clk r :
  (forall nv expired,
    (forall n, nv !! n = v ← neighbor_views_ r !! n; if timed_out (clk 0) v then None else Some v) ->
    (expired = false -> nv = neighbor_views_ r) ->
    P (if expired then recalculate_forwarding_table (clk 1) (with_tables (forwarding_table_ r) nv r)
       else with_tables (forwarding_table_ r) nv r)) ->
  (forall r1 r2, self_id_ r2 = self_id_ r1 -> forwarding_table_ r2 = forwarding_table_ r1 ->
    neighbor_views_ r2 = neighbor_views_ r1 -> P r1 -> P r2) ->
  (forall r1, P r1 -> P (send_triggered_updates uuid r1).1) ->
  (forall r1, P r1 -> P (with_tables (for_each (forwarding_table_ r1) (collect_garbage (clk 0)) (forwarding_table_ r1))
    (neighbor_views_ r1) r1)) ->
  P (run_periodic_maintenance uuid clk r).1.
Proof.
  intros Hexp Hsame Htrig Hgc. unfold run_periodic_maintenance.
  pose proof (expire_loop (clk 0) (neighbor_views_ r)) as He.
  destruct (for_each (neighbor_views_ r) _ _) as [nv expired]. destruct He as [Hnv Hex].
  pose proof (Hexp nv expired Hnv Hex) as H1.
  set (r1 := if expired then _ else _) in *. clearbody r1.
  set (p2 := if trigger_pending_ r1 && _ then _ else _).
  assert (P p2.1) as H2.
  { unfold p2. destruct (_ && _); [|done]. pose proof (Htrig r1 H1) as Hs.
    destruct (send_triggered_updates uuid r1) as [r2 acts]. simpl in *. by eapply Hsame; [..|exact Hs]. }
  destruct p2 as [r2 acts1]. simpl in H2.
  set (p3 := if (UPDATE_INTERVAL <? _)%Z then _ else _).
  assert (P p3.1) as H3.
  { unfold p3. destruct (_ <? _)%Z; [|done]. rewrite broadcast_full_table_eq. simpl. by eapply Hsame; [..|exact H2]. }
  destruct p3 as [r3 acts2]. simpl in *. by eapply Hsame; [..|exact (Hgc r3 H3)].
Qed.

Lemma maintenance_ok clk r : router_ok r -> router_ok (run_periodic_maintenance uuid clk r).1.
Proof.
  intros Hok. apply maintenance_keeps_all.
  - intros nv expired Hnv Hex. by apply expire_ok.
  - apply router_ok_same.
  - apply send_triggered_ok.
  - intros r1. apply garbage_ok.
Qed.

Lemma maintenance_sound clk r : router_sound r -> router_sound (run_periodic_maintenance uuid clk r).1.
Proof.
  intros [Hok Hset]. apply maintenance_keeps_all.
  - intros nv expired Hnv Hex. destruct (expire_ok clk r nv expired Hok Hnv Hex) as [? Hs]. split; [done|by apply Hs].
  - apply router_sound_same.
  - apply send_triggered_sound.
  - intros r1. apply garbage_sound.
Qed.

(** The neighbours after maintenance. *)
Lemma maintenance_neighbors clk r n :
  neighbor_views_ (run_periodic_maintenance uuid clk r).1 !! n =
  v ← neighbor_views_ r !! n; if timed_out (clk 0) v then None else Some v.
Proof.
  unfold run_periodic_maintenance.
  pose proof (expire_loop (clk 0) (neighbor_views_ r)) as He.
  destruct (for_each (neighbor_views_ r) _ _) as [nv expired]. destruct He as [Hnv _].
  rewrite <-Hnv. set (r1 := if expired then _ else _).
  assert (neighbor_views_ r1 = nv) as Hr1.
  { unfold r1. destruct expired; [|done].
    by destruct (recalculate_lookup (with_tables (forwarding_table_ r) nv r) (clk 1)) as (_ & -> & _). }
  clearbody r1. rewrite <-Hr1.
  set (p2 := if trigger_pending_ r1 && _ then _ else _).
  assert (neighbor_views_ p2.1 = neighbor_views_ r1) as <-.
  { unfold p2. destruct (_ && _); [|done]. pose proof (send_triggered_keeps r1) as [Hk _].
    by destruct (send_triggered_updates uuid r1). }
  destruct p2 as [r2 acts1]. simpl. destruct (_ <? _)%Z; [|done].
  by rewrite broadcast_full_table_eq.
Qed.

(** ** Data packets *)

Context (on_packet_for_me : MeshRouter -> RoutedPacket -> MeshRouter * RoutedPacket * list action).

(** What the router needs of the callback: it only uses the router's own
    operations, which keep its invariant and its identity. *)
Class CallbackOk : Prop := callback_ok :
  forall r p, router_sound r -> router_sound (on_packet_for_me r p).1.1 /\
    self_id_ (on_packet_for_me r p).1.1 = self_id_ r /\
    (Forall (event_ok) (Queue.queue_ (event_queue_ r)) ->
     Forall (event_ok) (Queue.queue_ (event_queue_ (on_packet_for_me r p).1.1))).

Context {cb_ok : CallbackOk}.

(** The invariant with what the queue holds. *)
Definition router_inv r : Prop :=
  router_sound r /\ Forall (event_ok) (Queue.queue_ (event_queue_ r)).

Lemma forward_inv src p r :
  router_inv r -> router_inv (forward uuid src p r).1 /\ self_id_ (forward uuid src p r).1 = self_id_ r.
Proof.
  intros [Hok Hq]. unfold forward. destruct (foldl _ _ _) as [n acts]. simpl. split; [|done].
  split; [|done]. by eapply router_sound_same; [..|exact Hok].
Qed.

Lemma route_data_packet_inv clk src pid p r :
  router_inv r ->
  router_inv (route_data_packet uuid on_packet_for_me clk src pid p r).1 /\
  self_id_ (route_data_packet uuid on_packet_for_me clk src pid p r).1 = self_id_ r.
Proof.
  intros [Hok Hq]. unfold route_data_packet.
  set (x := if (bool_decide (to_peer_id p = []) || _) && _ && _ then _ else _).
  assert (router_inv x.1.1 /\ self_id_ x.1.1 = self_id_ r) as [Hx Hs].
  { unfold x. destruct (_ && _); [|done]. destruct (callback_ok r p Hok) as (H1 & H2 & H3).
    destruct (on_packet_for_me r p) as [[r' p'] acts]. simpl in *. split; [|done].
    split; [done|auto]. }
  destruct x as [[r' p'] acts]. simpl in *. destruct (bool_decide (to_peer_id p = _)); [done|].
  destruct (_ && _); [done|].
  set (r2 := with_seen _ r'). assert (router_inv r2) as H2.
  { destruct Hx as [? ?]. split; [|done]. by apply (router_sound_same r'). }
  destruct (forward_inv src p' r2 H2) as [Hf1 Hf2]. destruct (forward uuid src p' r2) as [r3 sent].
  simpl in *. split; [done|]. by rewrite Hf2.
Qed.

Lemma recalculate_keeps_queue (now : Z) r :
  event_queue_ (recalculate_forwarding_table now r) = event_queue_ r /\
  self_id_ (recalculate_forwarding_table now r) = self_id_ r.
Proof. by destruct (recalculate_lookup r now) as (_ & _ & -> & _ & _ & -> & _). Qed.

Lemma handle_packet_inv clk src p r :
  router_inv r -> packet_u32 p = true ->
  router_inv (handle_packet uuid on_packet_for_me clk src p r).1 /\
  self_id_ (handle_packet uuid on_packet_for_me clk src p r).1 = self_id_ r.
Proof.
  intros [Hok Hq] Hp. unfold handle_packet. case_bool_decide as Hsrc; [done|].
  case_bool_decide; [done|]. simpl.
  fold (hear (clk 0) src r). set (r1 := hear (clk 0) src r).
  assert (router_inv r1 /\ self_id_ r1 = self_id_ r) as [H1 Hs].
  { destruct (hear_keeps (clk 0) src r) as (Es & _ & Eq & _). split; [|done].
    split; [by apply hear_sound|]. unfold r1. by rewrite Eq. }
  clearbody r1. destruct (type p).
  - destruct H1 as [H1 Hq1].
    destruct (recalculate_keeps_queue (clk 2) (with_tables (forwarding_table_ r1)
      (<[src:=View (for_each (get_route_table p) absorb (advertised_routes
          (default empty_view (neighbor_views_ r1 !! src)))) (clk 1)]> (neighbor_views_ r1)) r1))
      as [Hk1 Hk2]. simpl in Hk1, Hk2. simpl. unfold process_routing_update.
    split; [split|].
    + apply (process_routing_update_sound (fun i => clk (S i))); [apply H1|].
      intros. by eapply packet_costs_nonneg.
    + by rewrite Hk1.
    + by rewrite Hk2, Hs.
  - destruct (route_data_packet_inv (fun i => clk (S i)) src (to_hex (id p)) p r1 H1) as [? ->]. done.
  - destruct (route_data_packet_inv (fun i => clk (S i)) src (to_hex (id p)) p r1 H1) as [? ->]. done.
  - destruct (route_data_packet_inv (fun i => clk (S i)) src (to_hex (id p)) p r1 H1) as [? ->]. done.
Qed.

Lemma handle_event_inv clk e r :
  router_inv r -> event_ok e ->
  router_inv (handle_event uuid on_packet_for_me clk e r).1 /\
  self_id_ (handle_event uuid on_packet_for_me clk e r).1 = self_id_ r.
Proof.
  intros [Hok Hq] He. destruct e as [peer p|peer|peer]; simpl in *.
  - by apply handle_packet_inv.
  - unfold peer_connected. destruct (recalculate_keeps_queue (clk 1) (with_tables (forwarding_table_ r)
      (<[peer:=View (advertised_routes (default empty_view (neighbor_views_ r !! peer))) (clk 0)]>
         (neighbor_views_ r)) r)) as [Hk1 Hk2]. simpl in Hk1, Hk2.
    split; [split; [by apply (peer_connected_sound clk), Hok|by rewrite Hk1]|done].
  - unfold peer_disconnected. destruct (recalculate_keeps_queue (clk 0) (with_tables (forwarding_table_ r)
      (delete peer (neighbor_views_ r)) r)) as [Hk1 Hk2]. simpl in Hk1, Hk2.
    split; [split; [by apply (peer_disconnected_sound clk), Hok|by rewrite Hk1]|done].
Qed.

Lemma maintenance_keeps clk r :
  event_queue_ (run_periodic_maintenance uuid clk r).1 = event_queue_ r /\
  self_id_ (run_periodic_maintenance uuid clk r).1 = self_id_ r.
Proof.
  unfold run_periodic_maintenance. destruct (for_each (neighbor_views_ r) _ _) as [nv expired].
  set (r1 := if expired then _ else _).
  assert (event_queue_ r1 = event_queue_ r /\ self_id_ r1 = self_id_ r) as [Hr1 Hr2].
  { unfold r1. destruct expired; [apply (recalculate_keeps_queue (clk 1) (with_tables _ nv r))|done]. }
  clearbody r1. rewrite <-Hr1, <-Hr2.
  set (p2 := if trigger_pending_ r1 && _ then _ else _).
  assert (event_queue_ p2.1 = event_queue_ r1 /\ self_id_ p2.1 = self_id_ r1) as [<- <-].
  { unfold p2. destruct (_ && _); [|done]. pose proof (send_triggered_keeps r1) as (_ & _ & _ & ? & ?).
    by destruct (send_triggered_updates uuid r1). }
  destruct p2 as [r2 acts1]. simpl. destruct (_ <? _)%Z; [|done].
  by rewrite broadcast_full_table_eq.
Qed.

Lemma loop_iteration_inv expired clk1 (now : Z) clk2 (next : Z) r r' next' acts :
  router_inv r ->
  loop_iteration uuid on_packet_for_me expired clk1 now clk2 next r = Some (r', next', acts) ->
  router_inv r' /\ self_id_ r' = self_id_ r.
Proof.
  intros [Hok Hq]. unfold loop_iteration.
  pose proof (Queue.pop_for_cases expired (event_queue_ r)) as Hpop.
  destruct (Queue.pop_for expired (event_queue_ r)) as [[ev q]|]; [|done].
  assert (router_inv (with_queue q r) /\ match ev with Some e => event_ok e | None => True end)
    as [H1 Hev].
  { destruct ev as [e|].
    - destruct Hpop as [Heq _]. rewrite Heq in Hq. apply Forall_cons in Hq as [He Hq].
      split; [|done]. split; [|done]. by eapply router_sound_same; [..|exact Hok].
    - destruct Hpop as [-> _]. split; [|done]. split; [|done]. by eapply router_sound_same; [..|exact Hok]. }
  set (x := match ev with Some _ => _ | None => _ end).
  assert (router_inv x.1 /\ self_id_ x.1 = self_id_ r) as [Hx Hs].
  { unfold x. destruct ev as [e|]; [|done]. by apply (handle_event_inv clk1 e (with_queue q r)). }
  destruct x as [r2 acts1]. simpl in *. destruct (_ <=? _)%Z.
  - pose proof (maintenance_sound clk2 r2 (proj1 Hx)) as Hm. destruct (maintenance_keeps clk2 r2) as [Hk1 Hk2].
    destruct (run_periodic_maintenance uuid clk2 r2) as [r3 acts2]. simpl in *. intros [= <- <- <-].
    split; [|congruence]. split; [done|]. rewrite Hk1. apply Hx.
  - intros [= <- <- <-]. done.
Qed.

(** ** Reachable states *)

(** What can happen to a router: the transport layer queues events, its own
    thread runs one iteration of the loop, the application sends a packet. *)
Inductive router_step r : MeshRouter -> Prop :=
| rs_data peer s : router_step r (push_data_bytes peer s r)
| rs_connected peer : router_step r (on_peer_connected peer r)
| rs_disconnected peer : router_step r (on_peer_disconnected peer r)
| rs_loop expired clk1 now clk2 next r' next' acts :
    loop_iteration uuid on_packet_for_me expired clk1 now clk2 next r = Some (r', next', acts) ->
    router_step r r'
| rs_send clk p : router_step r (send_packet uuid on_packet_for_me clk p r).1
| rs_callback : router_step r (set_on_packet_for_me r)
| rs_transport up : router_step r (set_transport up r).

Lemma push_event_inv e r : router_inv r -> event_ok e -> router_inv (push_event e r).
Proof.
  intros [Hok Hq] He. split; [by eapply router_sound_same; [..|exact Hok]|].
  simpl. apply Forall_app. split; [done|by constructor].
Qed.

Lemma router_step_inv {pw : PacketWire} r r' :
  router_inv r -> router_step r r' -> router_inv r' /\ self_id_ r' = self_id_ r.
Proof.
  intros Hinv Hstep. destruct Hstep as [peer s|peer|peer|????????? |clk p| |up].
  - unfold push_data_bytes, decodeRoutedPacket. destruct (ParseFromString s) as [p|] eqn:E; [|done].
    split; [|done]. apply push_event_inv; [done|]. by eapply packet_ok_u32, packet_parsed.
  - split; [|done]. by apply push_event_inv.
  - split; [|done]. by apply push_event_inv.
  - by eapply loop_iteration_inv.
  - by apply route_data_packet_inv.
  - destruct Hinv as [Hok Hq]. split; [|done]. split; [|done]. by eapply router_sound_same; [..|exact Hok].
  - destruct Hinv as [Hok Hq]. split; [|done]. split; [|done]. by eapply router_sound_same; [..|exact Hok].
Qed.
End invariants.

(** (C9) In every state the router reaches from its constructor, under any
    packets from any peers, peers of any name that come and go (also one that uses
    the node's own name), any interleaving of events, loop iterations and
    application sends and any clock: the routes are exactly the cheapest ones that
    the current views of the neighbours offer, with next hops that attain them;
    costs to other nodes stay between 1 and 16 and every finite route goes through
    a current neighbour; the node has a route to itself, of cost 0, or 1 exactly
    while a peer is connected under its name; and every stored advertisement is
    below infinity, so that adding a hop never overflows. *)
Theorem router_tables_invariant {o : IterOrder} {laws : IterOrderLaws o} {w : Wire RoutedPacket}
    {pw : PacketWire} (uuid : nat -> bytes)
    (cb : MeshRouter -> RoutedPacket -> MeshRouter * RoutedPacket * list action)
    {cb_ok : CallbackOk cb} (self : bytes) (up : bool) (now : Z) (r : MeshRouter)
    (Hreach : rtc (router_step uuid cb) (make_router self up now) r) :
  router_ok r /\ settled r /\ self_id_ r = self.
Proof.
  assert (router_inv (make_router self up now) /\ self_id_ (make_router self up now) = self) as H.
  { split; [|done]. split; [apply make_router_sound|constructor]. }
  enough (router_inv r /\ self_id_ r = self) as [[[? ?] _] ?] by done.
  revert H. induction Hreach as [x|x y z Hxy _ IH]; [done|]. intros [Hx Hs]. apply IH.
  destruct (router_step_inv uuid cb x y Hx Hxy) as [? ->]. done.
Qed.

(** A callback that does nothing. *)
Definition ignore_packet (r : MeshRouter) (p : RoutedPacket) : MeshRouter * RoutedPacket * list action :=
  (r, p, []).

Lemma ignore_packet_ok : CallbackOk ignore_packet.
Proof. by intros r p H. Qed.

(** A router to which a peer with the name [n] connects, after its loop has run. *)
Definition joined (n : bytes) : MeshRouter :=
  match @loop_iteration map_order packet_wire (fun _ => []) ignore_packet true (fun _ => 0%Z) 0 (fun _ => 0%Z) 1
          (on_peer_connected n (make_router nA true 0)) with
  | Some (r, _, _) => r
  | None => make_router nA true 0
  end.

Lemma router_tables_invariant_witness :
  (router_ok (joined nB) /\ settled (joined nB) /\ forwarding_table_ (joined nB) !! nB = Some (Route nB 1 true 0)) /\
  (router_ok (joined nA) /\ settled (joined nA) /\ forwarding_table_ (joined nA) !! nA = Some (Route nA 1 true 0)).
Proof.
  split.
  - destruct (@router_tables_invariant map_order map_order_laws packet_wire packet_wire_laws (fun _ => [])
      ignore_packet ignore_packet_ok nA true 0 (joined nB)) as (W1 & W2 & _).
    + eapply rtc_l; [apply (rs_connected _ _ _ nB)|]. apply rtc_once.
      apply (rs_loop (fun _ => []) ignore_packet _ true (fun _ => 0%Z) 0 (fun _ => 0%Z) 1 _ 1 []). vm_compute. reflexivity.
    + split_and!; [exact W1|exact W2|vm_compute; reflexivity].
  - destruct (@router_tables_invariant map_order map_order_laws packet_wire packet_wire_laws (fun _ => [])
      ignore_packet ignore_packet_ok nA true 0 (joined nA)) as (W1 & W2 & _).
    + eapply rtc_l; [apply (rs_connected _ _ _ nA)|]. apply rtc_once.
      apply (rs_loop (fun _ => []) ignore_packet _ true (fun _ => 0%Z) 0 (fun _ => 0%Z) 1 _ 1 []). vm_compute. reflexivity.
    + split_and!; [exact W1|exact W2|vm_compute; reflexivity].
Defined.

(** (C31) [run_periodic_maintenance] drops exactly the neighbours that have been
    silent for more than 180 seconds, leaves no finite route through any of them,
    and keeps the invariant. *)
Theorem maintenance_expires_neighbors {o : IterOrder} {laws : IterOrderLaws o} {w : Wire RoutedPacket}
    (uuid : nat -> bytes) (clk : nat -> Z) (r : MeshRouter) (Hok : router_ok r) :
  let r' := (run_periodic_maintenance uuid clk r).1 in
  (forall n, neighbor_views_ r' !! n =
     v ← neighbor_views_ r !! n; if timed_out (clk 0) v then None else Some v) /\
  (forall d e v, d <> self_id_ r -> forwarding_table_ r' !! d = Some e -> (cost e < INF_COST)%Z ->
     neighbor_views_ r !! next_hop e = Some v -> timed_out (clk 0) v = false) /\
  router_ok r'.
Proof.
  pose proof (maintenance_ok uuid clk r Hok) as Hr'. split_and!; [|..|done].
  - intros n. apply maintenance_neighbors.
  - intros d e v Hd He Hlt Hv. destruct Hr' as [_ [_ Ht]].
    destruct (maintenance_keeps uuid clk r) as [_ Hs]. rewrite <-Hs in Hd.
    destruct (Ht d e Hd He) as [_ Hn]. destruct (Hn Hlt) as [v' Hv'].
    rewrite maintenance_neighbors, Hv in Hv'. simpl in Hv'. by destruct (timed_out (clk 0) v).
Qed.

Lemma maintenance_expires_neighbors_witness :
  let r' := (@run_periodic_maintenance map_order packet_wire (fun _ => [])
               (fun _ => seconds 181) demo_router).1 in
  neighbor_views_ r' !! nB = None /\ router_ok r'.
Proof.
  destruct (@maintenance_expires_neighbors map_order map_order_laws packet_wire (fun _ => [])
    (fun _ => seconds 181) demo_router demo_router_ok) as (W1 & _ & W2).
  split; [|exact W2]. rewrite W1. reflexivity.
Defined.

End RouterInv.
