(* ===== verification/RouterNames.v ===== *)
(** * The names a router knows

    Every peer id in the tables of a router is UTF-8 when the ids it hears of are:
    then the advertisements it sends can be parsed by their receivers, and the
    thread that logs the routing table (print_routing_table of
    src/src/mesh/routing/MeshRouter.cpp) does not throw. *)

From S2P Require Import Prelude Cxx DedupSet ThreadSafeQueue Utils Packet Logger MeshRouter RouterTable.
From S2P Require Import RouterAdvert RouterInvariants.

Module Names.
Import Utils Packet Logger Router Table Advert RouterInv.

Implicit Types (r : MeshRouter) (n d : bytes) (clk : nat -> Z).

(** ** The log of the routing table *)

Section dump.
Context {o : IterOrder} {dj : Json}.

Definition table_dump r : json :=
  JArray (map (fun kv => JObject [((lit "destination")%mesh, JString kv.1);
                                  ((lit "next_hop")%mesh, JString (next_hop kv.2));
                                  ((lit "cost")%mesh, JInt (cost kv.2))]) (iter (forwarding_table_ r))).

(** One round of the loop; [None]: it throws, which ends the program. *)
Definition print_routing_table (lg : logger) r : option (option bytes) :=
  debug (lit "RoutingManager")%mesh (JObject [((lit "routing_table")%mesh, table_dump r)])
    (lit "Routing table update")%mesh lg.
End dump.

(** ** Names *)

Abbreviation name_ok n := (utf8_valid n = true).

Definition event_names (e : RouterEvent) : Prop :=
  match e with
  | PEER_CONNECTED peer | PEER_DISCONNECTED peer => name_ok peer
  | PACKET_RECEIVED peer p => name_ok peer /\ forall d c, get_route_table p !! d = Some c -> name_ok d
  end.

Definition view_names (nv : gmap bytes NeighborView) : Prop :=
  forall n v, nv !! n = Some v -> name_ok n /\ forall d c, advertised_routes v !! d = Some c -> name_ok d.

Definition table_names (ft : gmap bytes RouteEntry) : Prop :=
  forall d e, ft !! d = Some e -> name_ok d /\ name_ok (next_hop e).

Record names_valid r : Prop := {
  self_name : name_ok (self_id_ r);
  ft_names : table_names (forwarding_table_ r);
  nv_names : view_names (neighbor_views_ r);
  queue_names : Forall event_names (Queue.queue_ (event_queue_ r))
}.

(** What data packets leave alone; the ids of packets are only added to. *)
Record same_tables r r' : Prop := {
  st_self : self_id_ r' = self_id_ r;
  st_ft : forwarding_table_ r' = forwarding_table_ r;
  st_nv : neighbor_views_ r' = neighbor_views_ r;
  st_queue : event_queue_ r' = event_queue_ r;
  st_seen : Dedup.grows (seen_packet_ids_ r) (seen_packet_ids_ r')
}.

#[export] Instance same_tables_preorder : PreOrder same_tables.
Proof. split; [by intros r|]. intros r1 r2 r3 [] []. split; [congruence..|by etrans]. Qed.

Lemma same_tables_names r r' : same_tables r r' -> names_valid r -> names_valid r'.
Proof. intros [E1 E2 E3 E4 _] []. split; by rewrite ?E1, ?E2, ?E3, ?E4. Qed.

(** The callback may send packets through the router, as the node's does. *)
Class CallbackSends (cb : MeshRouter -> RoutedPacket -> MeshRouter * RoutedPacket * list action) : Prop :=
  callback_sends : forall r p, same_tables r (cb r p).1.1.

#[export] Instance callback_sends_ok cb : CallbackSends cb -> CallbackOk cb.
Proof.
  intros H r p Hr. destruct (H r p) as [E1 E2 E3 E4 _]. split_and!; [by apply (router_sound_same r)|done|by rewrite E4].
Qed.

(** An advertisement the receiver can parse: a routing update from [self] to the
    neighbour it is sent to, with costs between 0 and infinity. *)
Definition update_ok {w : Wire RoutedPacket} (self : bytes) (a : action) : Prop :=
  match a with
  | SendTcp n env =>
      env_type env = DATA /\ exists p, decodeRoutedPacket (env_payload env) = Some p /\
        from_peer_id p = self /\ to_peer_id p = n /\ type p = ROUTING_UPDATE /\
        forall d c, get_route_table p !! d = Some c -> (0 <= c <= INF_COST)%Z
  | _ => False
  end.

Lemma make_router_names self up (now : Z) : name_ok self -> names_valid (make_router self up now).
Proof. intros Hs. split; try done. intros d e. simpl. by intros [<- <-]%lookup_singleton_Some. Qed.

Section names.
Context {o : IterOrder} {laws : IterOrderLaws o} {w : Wire RoutedPacket} {pw : PacketWire}.
Context (uuid : nat -> bytes).

(** ** The tables *)

Lemma new_table_names (now : Z) r : views_ok r -> names_valid r -> table_names (new_table now r).
Proof using laws.
  intros Hv [Hs _ Hn _] d e He. destruct (decide (d = self_id_ r)) as [->|Hd].
  - destruct (new_table_self r now) as (e' & He' & Hnh & _). rewrite He in He'. simplify_eq. by rewrite Hnh.
  - pose proof (new_table_spec r now d Hv Hd) as Hspec. rewrite He in Hspec.
    destruct Hspec as [(v & Hnv & Hvia) _]. destruct (Hn _ _ Hnv) as [Hname Hadv]. split; [|done].
    destruct Hvia as [[-> _]|(c & Hc & _)]; [done|by eapply Hadv].
Qed.

Lemma recalculate_names (now : Z) r : views_ok r -> names_valid r -> names_valid (recalculate_forwarding_table now r).
Proof using laws.
  intros Hv Hr. pose proof (new_table_names now r Hv Hr) as Hnew. destruct Hr as [Hs Hf Hn Hq].
  destruct (recalculate_lookup r now) as (Hlk & En & Es & _ & _ & Eq & _). split; [by rewrite Es| |by rewrite En|by rewrite Eq].
  intros d e. rewrite Hlk. unfold updated, merged.
  destruct (new_table now r !! d) as [e1|] eqn:E1, (forwarding_table_ r !! d) as [e0|] eqn:E0; simpl;
    repeat case_goal; intros [= <-]; simpl; first [by apply (Hnew d)|by apply (Hf d)].
Qed.

(** A new view of a neighbour. *)
Lemma views_names_insert nv n v :
  view_names nv -> name_ok n -> (forall d c, advertised_routes v !! d = Some c -> name_ok d) ->
  view_names (<[n := v]> nv).
Proof.
  intros Hnv Hn Hv n' v'. destruct (decide (n' = n)) as [->|Hne].
  - rewrite lookup_insert_eq. by intros [= <-].
  - rewrite lookup_insert_ne by done. apply Hnv.
Qed.

Lemma old_view_names nv n d c :
  view_names nv -> advertised_routes (default empty_view (nv !! n)) !! d = Some c -> name_ok d.
Proof.
  intros Hnv. destruct (nv !! n) as [v|] eqn:E; simpl; [by apply (Hnv n v)|by rewrite lookup_empty].
Qed.

Lemma view_names_subset nv nv' : view_names nv -> nv' ⊆ nv -> view_names nv'.
Proof. intros H Hsub n v Hn. eapply lookup_weaken in Hn; [|exact Hsub]. by apply H. Qed.

Lemma with_views_names nv r : names_valid r -> view_names nv -> names_valid (with_tables (forwarding_table_ r) nv r).
Proof. by intros [] ?. Qed.

(** ** Advertisements *)

Definition costs_bounded (t : RouteTable) : Prop :=
  forall d c, t !! d = Some c -> name_ok d /\ (0 <= c <= INF_COST)%Z.

Lemma advert_ok (u self n : bytes) (ttl : Z) (t : RouteTable) :
  name_ok self -> name_ok n -> costs_bounded t -> update_ok self (SendTcp n (update_envelope u self n ttl t)).
Proof using pw.
  intros Hs Hn Ht. split; [done|]. exists (MakeRoutingTableRoutedPacket u self n ttl t). split_and!; try done.
  - apply parse_serialize. unfold packet_ok, packet_u32. simpl. rewrite Hs, Hn, !andb_true_iff, !bool_decide_eq_true.
    split_and!; try done.
    + unfold is_u32. pose proof (u32_range ttl). rewrite andb_true_iff. lia.
    + intros d c Hc. destruct (Ht d c Hc). unfold is_u32, INF_COST in *. rewrite andb_true_iff. lia.
    + intros d c Hc. by destruct (Ht d c Hc).
  - intros d c Hc. by destruct (Ht d c Hc).
Qed.

(** One message for each neighbour. *)
Lemma adverts_ok r (ttl : Z) (tbl : bytes -> RouteTable) (k : nat) :
  names_valid r -> (forall n, costs_bounded (tbl n)) ->
  Forall (update_ok (self_id_ r))
    (if transport_ r
     then imap (fun i n => SendTcp n (update_envelope (uuid (k + i)) (self_id_ r) n ttl (tbl n)))
            (iter (neighbor_views_ r)).*1
     else []).
Proof using laws pw.
  intros Hr Ht. destruct (transport_ r); [|constructor]. apply Forall_forall. intros a (i & n & -> & Hi)%elem_of_lookup_imap.
  apply list_elem_of_lookup_2, iter_keys in Hi as [v Hv]. apply advert_ok; [apply Hr|by apply (nv_names r Hr n v)|done].
Qed.

Lemma poisoned_bounded n e : (0 <= cost e <= INF_COST)%Z -> (0 <= poisoned n e <= INF_COST)%Z.
Proof. unfold poisoned. case_bool_decide; unfold INF_COST; lia. Qed.

Lemma full_table_ok r :
  costs_ok r -> names_valid r -> Forall (update_ok (self_id_ r)) (broadcast_full_table uuid r).2.
Proof using laws pw.
  intros Hc Hr. rewrite broadcast_full_table_eq. apply (adverts_ok r 15 (full_table (forwarding_table_ r))); [done|].
  intros n d c. rewrite full_table_lookup. intros (e & He & ->)%fmap_Some.
  split; [by apply (ft_names r Hr d e)|by eapply poisoned_bounded, Hc].
Qed.

Lemma cleaned_hop e : next_hop (cleaned e) = next_hop e.
Proof. unfold cleaned. by destruct (must_send e). Qed.

Lemma triggered_ok r :
  costs_ok r -> names_valid r ->
  names_valid (send_triggered_updates uuid r).1 /\ Forall (update_ok (self_id_ r)) (send_triggered_updates uuid r).2.
Proof using laws pw.
  intros Hc Hr. destruct (send_triggered_updates_eq uuid r) as (routes & ft' & Hroutes & Hft & ->).
  assert (names_valid (with_tables ft' (neighbor_views_ r) r)) as Hr'.
  { destruct Hr as [H1 H2 H3 H4]. split; try done. intros d e. simpl. rewrite Hft. intros (e0 & He & ->)%fmap_Some.
    rewrite cleaned_hop. by apply H2. }
  cbn zeta. case_bool_decide; [by split|]. split; [by destruct Hr'|].
  apply (adverts_ok r DEFAULT_TTL (triggered_table ft' routes)); [done|]. intros n d c.
  rewrite triggered_table_lookup. intros (c0 & Hc0 & ->)%fmap_Some. rewrite Hroutes in Hc0.
  apply bind_Some in Hc0 as (e & He & Hs). destruct (must_send e); [|done]. injection Hs as <-.
  split; [by apply (ft_names r Hr d e)|]. rewrite Hft, He. simpl. rewrite cleaned_hop. by eapply (poisoned_bounded n e), Hc.
Qed.

(** ** Maintenance *)

Lemma expire_names clk r nv (expired : bool) :
  router_ok r -> names_valid r ->
  (forall n, nv !! n = v ← neighbor_views_ r !! n; if timed_out (clk 0) v then None else Some v) ->
  names_valid (if expired then recalculate_forwarding_table (clk 1) (with_tables (forwarding_table_ r) nv r)
            else with_tables (forwarding_table_ r) nv r).
Proof using laws.
  intros [Hv _] Hr Hnv%expired_subset.
  assert (names_valid (with_tables (forwarding_table_ r) nv r)) as Hr1
    by (apply with_views_names; [done|]; eapply view_names_subset; [apply Hr|done]).
  destruct expired; [|done]. by apply recalculate_names; [apply subset_views_ok|].
Qed.

Lemma garbage_names (now : Z) r s :
  names_valid r ->
  names_valid (with_seen s (with_tables (for_each (forwarding_table_ r) (collect_garbage now) (forwarding_table_ r))
    (neighbor_views_ r) r)).
Proof using laws.
  intros [H1 H2 H3 H4]. split; try done. intros d e. simpl. rewrite garbage_loop.
  intros (e' & He & Hg)%bind_Some. destruct (garbage now e'); [done|]. injection Hg as <-. by apply H2.
Qed.

Lemma maintenance_names clk r :
  router_ok r -> names_valid r ->
  names_valid (run_periodic_maintenance uuid clk r).1 /\
  Forall (update_ok (self_id_ r)) (run_periodic_maintenance uuid clk r).2.
Proof using laws pw.
  intros Hok Hr. unfold run_periodic_maintenance.
  pose proof (expire_loop (clk 0) (neighbor_views_ r)) as He.
  destruct (for_each (neighbor_views_ r) _ _) as [nv expired]. destruct He as [Hnv Hex].
  pose proof (proj1 (expire_ok clk r nv expired Hok Hnv Hex)) as Hok1.
  pose proof (expire_names clk r nv expired Hok Hr Hnv) as H1.
  set (r1 := if expired then _ else _) in *.
  assert (self_id_ r1 = self_id_ r) as <-.
  { unfold r1. destruct expired; [apply (recalculate_keeps_queue (clk 1) (with_tables _ nv r))|done]. }
  clearbody r1. set (p2 := if trigger_pending_ r1 && _ then _ else _).
  assert (router_ok p2.1 /\ names_valid p2.1 /\ self_id_ p2.1 = self_id_ r1 /\ Forall (update_ok (self_id_ r1)) p2.2)
    as (Hok2 & H2 & <- & Ha2).
  { unfold p2. destruct (_ && _); [|done]. pose proof (send_triggered_ok uuid r1 Hok1) as Hk.
    destruct (triggered_ok r1 (table_ok_costs r1 (proj2 Hok1)) H1) as [Hn Ha].
    pose proof (send_triggered_keeps uuid r1) as (_ & _ & _ & Es & _).
    destruct (send_triggered_updates uuid r1) as [r2 acts]. simpl in *. split_and!; [|by destruct Hn|done|done].
    by apply (router_ok_same r2). }
  destruct p2 as [r2 acts1]. simpl in *. set (p3 := if (UPDATE_INTERVAL <? _)%Z then _ else _).
  assert (names_valid p3.1 /\ Forall (update_ok (self_id_ r2)) p3.2) as [H3 Ha3].
  { unfold p3. destruct (_ <? _)%Z; [|done]. pose proof (full_table_ok r2 (table_ok_costs r2 (proj2 Hok2)) H2) as Ha.
    rewrite broadcast_full_table_eq in Ha |- *. simpl in *. split; [by destruct H2|done]. }
  destruct p3 as [r3 acts2]. split; [by apply garbage_names|by apply Forall_app].
Qed.

(** ** Events *)

Lemma hear_names (now : Z) src r : names_valid r -> names_valid (hear now src r).
Proof.
  intros Hr. unfold hear. destruct (neighbor_views_ r !! src) as [v|] eqn:E; [|done].
  destruct (nv_names r Hr src v E) as [Hsrc Hv]. apply with_views_names; [done|]. by apply views_names_insert; [apply Hr|..].
Qed.

Lemma process_update_names clk (src : bytes) (t : RouteTable) r :
  router_ok r -> names_valid r -> name_ok src ->
  (forall d c, t !! d = Some c -> name_ok d /\ (0 <= c)%Z) -> names_valid (process_routing_update clk src t r).
Proof using laws.
  intros [Hv _] Hr Hsrc Ht. apply recalculate_names.
  - apply absorb_views_ok; [done..|]. intros d c Hc. by apply (Ht d c).
  - apply with_views_names; [done|]. apply views_names_insert; [apply Hr|done|]. simpl. intros d c.
    rewrite absorb_loop. destruct (t !! d) as [c'|] eqn:E; [intros _; by apply (Ht d c')|]. apply old_view_names, Hr.
Qed.

Lemma peer_connected_names clk (peer : bytes) r :
  router_ok r -> names_valid r -> name_ok peer -> names_valid (peer_connected clk peer r).
Proof using laws.
  intros [Hv _] Hr Hp. apply recalculate_names; [by apply connected_views_ok|].
  apply with_views_names; [done|]. apply views_names_insert; [apply Hr|done|]. simpl. intros d c. apply old_view_names, Hr.
Qed.

Lemma peer_disconnected_names clk peer r : router_ok r -> names_valid r -> names_valid (peer_disconnected clk peer r).
Proof using laws.
  intros [Hv _] Hr. apply recalculate_names; [apply subset_views_ok; [done|apply delete_subseteq]|].
  apply with_views_names; [done|]. eapply view_names_subset; [apply Hr|apply delete_subseteq].
Qed.

Context (cb : MeshRouter -> RoutedPacket -> MeshRouter * RoutedPacket * list action).

Lemma route_data_packet_tables clk src pid p r :
  same_tables r (cb r p).1.1 -> same_tables r (route_data_packet uuid cb clk src pid p r).1.
Proof.
  intros Hcb. unfold route_data_packet.
  set (x := if (bool_decide (to_peer_id p = []) || _) && _ && _ then _ else _).
  assert (same_tables r x.1.1) as Hx.
  { unfold x. destruct (_ && _); [|done]. by destruct (cb r p) as [[r' p'] acts]. }
  destruct x as [[r' p'] acts]. simpl in *. destruct (bool_decide (to_peer_id p = _)); [done|].
  destruct (_ && _); [done|]. unfold forward. destruct (foldl _ _ _) as [k sent]. simpl. etrans; [exact Hx|].
  split; try done. apply Dedup.insert_grows.
Qed.

(** A packet is ignored, or changes at most when its neighbour was heard of, or is
    a routing update. *)
Lemma handle_packet_cases clk src p r :
  let r1 := hear (clk 0) src r in let r' := (handle_packet uuid cb clk src p r).1 in
  same_tables r1 (cb r1 p).1.1 ->
  r' = r \/ same_tables r1 r' \/
  (src <> self_id_ r /\ r' = process_routing_update (fun i => clk (S i)) src (get_route_table p) r1).
Proof.
  intros r1 r' Hcb. unfold r', handle_packet. case_bool_decide as Hself; [by left|]. case_bool_decide; [by left|]. cbn [orb].
  fold (hear (clk 0) src r). fold r1. right. destruct (type p); [by right|left; by apply route_data_packet_tables..].
Qed.

Lemma handle_packet_names clk src p r :
  same_tables (hear (clk 0) src r) (cb (hear (clk 0) src r) p).1.1 ->
  router_sound r -> names_valid r -> packet_u32 p = true -> event_names (PACKET_RECEIVED src p) ->
  let r' := (handle_packet uuid cb clk src p r).1 in router_sound r' /\ names_valid r' /\ self_id_ r' = self_id_ r.
Proof using laws.
  intros Hcb Hok Hr Hp [Hsrc Ht].
  pose proof (hear_sound (clk 0) src r Hok) as Hok1. pose proof (hear_names (clk 0) src r Hr) as Hr1.
  destruct (hear_keeps (clk 0) src r) as [Es _].
  destruct (handle_packet_cases clk src p r Hcb) as [->|[Hs|[_ ->]]]; [done|..].
  - split_and!; [|by eapply same_tables_names|destruct Hs; congruence].
    destruct Hs. by eapply router_sound_same; [..|exact Hok1].
  - rewrite <-Es.
    assert (forall d c, get_route_table p !! d = Some c -> (0 <= c)%Z) as Hc by (intros; by eapply packet_costs_nonneg).
    split_and!; [by apply process_routing_update_sound; [apply Hok1|]| |].
    2: { unfold process_routing_update. by rewrite (proj2 (recalculate_keeps_queue _ _)). }
    apply process_update_names; [apply Hok1|done..|]. intros d c Hd. by eauto.
Qed.

Context {quiet : CallbackSends cb}.

Lemma handle_event_names clk e r :
  router_sound r -> names_valid r -> event_ok e -> event_names e -> names_valid (handle_event uuid cb clk e r).1.
Proof using laws quiet.
  intros Hok Hr He Hn. destruct e as [peer p|peer|peer]; simpl in *.
  - by apply handle_packet_names; [apply callback_sends|..].
  - by apply peer_connected_names; [apply Hok|..].
  - by apply peer_disconnected_names; [apply Hok|..].
Qed.

(** The invariants together. *)
Definition named_inv r : Prop := router_inv r /\ names_valid r.

Lemma loop_iteration_names expired clk1 (now : Z) clk2 (next : Z) r r' next' acts :
  named_inv r -> loop_iteration uuid cb expired clk1 now clk2 next r = Some (r', next', acts) -> names_valid r'.
Proof using laws pw quiet.
  intros [[Hok Hq] [N1 N2 N3 N4]]. unfold loop_iteration.
  pose proof (Queue.pop_for_cases expired (event_queue_ r)) as Hpop.
  destruct (Queue.pop_for expired (event_queue_ r)) as [[ev q]|]; [|done].
  assert (named_inv (with_queue q r) /\
    match ev with Some e => event_ok e /\ event_names e | None => True end) as [[[Hok1 Hq1] H1] Hev].
  { assert (router_sound (with_queue q r)) as Hok1 by by apply (router_sound_same r).
    destruct ev as [e|].
    - destruct Hpop as [Heq _]. rewrite Heq in Hq, N4. apply Forall_cons in Hq as [He Hq]. apply Forall_cons in N4 as [Hn N4].
      done.
    - by destruct Hpop as [-> _]. }
  set (x := match ev with Some _ => _ | None => _ end).
  assert (router_sound x.1 /\ names_valid x.1) as [[Hok2 _] H2].
  { unfold x. destruct ev as [e|]; [|done]. destruct Hev as [He Hn]. split; [|by apply handle_event_names].
    by destruct (handle_event_inv uuid cb clk1 e (with_queue q r)) as [[? _] _]. }
  destruct x as [r2 acts1]. simpl in *. destruct (_ <=? _)%Z; [|by intros [= <- <- <-]].
  destruct (maintenance_names clk2 r2 Hok2 H2) as [H3 _].
  destruct (run_periodic_maintenance uuid clk2 r2) as [r3 acts2]. by intros [= <- <- <-].
Qed.

(** Steps of a router whose transport layer names its peers in UTF-8, as the
    handshake does (its messages have [string] fields). *)
Inductive named_step r : MeshRouter -> Prop :=
| named_data peer s : name_ok peer -> named_step r (push_data_bytes peer s r)
| named_connected peer : name_ok peer -> named_step r (on_peer_connected peer r)
| named_disconnected peer : name_ok peer -> named_step r (on_peer_disconnected peer r)
| named_loop expired clk1 now clk2 next r' next' acts :
    loop_iteration uuid cb expired clk1 now clk2 next r = Some (r', next', acts) -> named_step r r'
| named_send clk p : named_step r (send_packet uuid cb clk p r).1
| named_callback : named_step r (set_on_packet_for_me r)
| named_transport up : named_step r (set_transport up r).

Lemma named_router_step r r' : named_step r r' -> router_step uuid cb r r'.
Proof. intros []; by econstructor. Qed.

Lemma push_event_names e r : names_valid r -> event_names e -> names_valid (push_event e r).
Proof. intros [] He. split; try done. simpl. apply Forall_app. by split; [|constructor]. Qed.

Lemma parsed_names peer s p : name_ok peer -> ParseFromString s = Some p -> event_names (PACKET_RECEIVED peer p).
Proof using pw.
  intros Hp E. split; [done|]. intros d c. apply packet_parsed in E. unfold packet_ok in E.
  rewrite !andb_true_iff, !bool_decide_eq_true in E. by apply E.
Qed.

Lemma named_step_inv r r' : named_inv r -> named_step r r' -> named_inv r' /\ self_id_ r' = self_id_ r.
Proof using laws pw quiet.
  intros [Hinv Hr] Hs. destruct (router_step_inv uuid cb r r' Hinv (named_router_step r r' Hs)) as [Hinv' Es].
  split; [|done]. split; [done|]. destruct Hs as [peer s Hp|peer Hp|peer Hp|????????? |clk p| |up].
  - unfold push_data_bytes, decodeRoutedPacket. destruct (ParseFromString s) as [p|] eqn:E; [|done].
    apply push_event_names; [done|]. by eapply parsed_names.
  - by apply push_event_names.
  - by apply push_event_names.
  - by eapply (loop_iteration_names _ _ _ _ _ r); [split|].
  - eapply same_tables_names; [apply route_data_packet_tables, callback_sends|done].
  - by destruct Hr.
  - by destruct Hr.
Qed.

(** ** The log *)

Lemma table_dump_valid r : names_valid r -> strings_valid (table_dump r) = true.
Proof using laws.
  intros Hr. simpl. rewrite forallb_forall. intros j Hj. apply list_elem_of_In, list_elem_of_fmap in Hj as ([d e] & -> & Hin).
  apply elem_of_iter in Hin. destruct (ft_names r Hr d e Hin) as [Hd Hn]. simpl. by rewrite Hd, Hn.
Qed.

Lemma print_total {dj : Json} {jl : JsonLaws dj} lg r : names_valid r -> is_Some (print_routing_table lg r).
Proof using laws.
  intros Hr. destruct (print_routing_table lg r) eqn:E; [by eexists|]. apply write_throws in E.
  change (true && strings_valid (table_dump r) && true = false) in E. by rewrite table_dump_valid in E.
Qed.
End names.

(** A router on names in UTF-8.  If its own id and the ids its transport layer
    reports are UTF-8, then in every state it reaches, whatever bytes arrive: every
    id in its tables is UTF-8; each message its maintenance sends is parsed by the
    receiver, as a routing update under the router's own name, addressed to that
    neighbour, with costs from 0 to 16; and the thread that logs the routing table
    does not throw. *)
Theorem router_names_safe {o : IterOrder} {laws : IterOrderLaws o} {w : Wire RoutedPacket} {pw : PacketWire}
    {dj : Json} {jl : JsonLaws dj} (uuid : nat -> bytes)
    (cb : MeshRouter -> RoutedPacket -> MeshRouter * RoutedPacket * list action) {quiet : CallbackSends cb}
    (self : bytes) (up : bool) (now : Z) (r : MeshRouter) (Hself : utf8_valid self = true)
    (Hreach : rtc (named_step uuid cb) (make_router self up now) r) :
  names_valid r /\
  (forall clk, Forall (update_ok self) (run_periodic_maintenance uuid clk r).2) /\
  (forall lg, is_Some (print_routing_table lg r)).
Proof.
  assert (named_inv r /\ self_id_ r = self) as [[[[Hok _] Hq] Hr] <-].
  { revert Hreach. apply (rtc_keeps (fun r => named_inv r /\ self_id_ r = self)).
    - intros r1 r2 [Hi <-] Hs. by apply (named_step_inv uuid cb r1 r2).
    - split; [|done]. split; [split; [apply make_router_sound|constructor]|by apply make_router_names]. }
  split_and!; [done|intros clk; by apply maintenance_names|intros lg; by apply print_total].
Qed.

(** A router that hears of a neighbour and then advertises. *)
Definition named_router : MeshRouter :=
  match @loop_iteration map_order packet_wire (fun _ => []) ignore_packet true (fun _ => 0%Z) 0 (fun _ => 0%Z) (seconds 1)
          (on_peer_connected nB (make_router nA true 0)) with
  | Some (r, _, _) => r
  | None => make_router nA true 0
  end.

#[local] Instance ignore_sends : CallbackSends ignore_packet.
Proof. by intros r p. Qed.

Lemma router_names_safe_witness :
  length (@run_periodic_maintenance map_order packet_wire (fun _ => []) (fun _ => seconds 11) named_router).2 = 2 /\
  Forall (@update_ok packet_wire nA)
    (@run_periodic_maintenance map_order packet_wire (fun _ => []) (fun _ => seconds 11) named_router).2 /\
  forall lg, is_Some (@print_routing_table map_order toy_json lg named_router).
Proof.
  destruct (@router_names_safe map_order map_order_laws packet_wire packet_wire_laws toy_json toy_json_laws
    (fun _ => []) ignore_packet ignore_sends nA true 0 named_router) as (_ & W1 & W2).
  - vm_compute. reflexivity.
  - eapply rtc_l; [apply named_connected with (peer := nB); vm_compute; reflexivity|].
    apply rtc_once. apply (named_loop (fun _ => []) ignore_packet _ true (fun _ => 0%Z) 0 (fun _ => 0%Z) (seconds 1)
      named_router (seconds 1) []). vm_compute. reflexivity.
  - split_and!; [vm_compute; reflexivity|exact (W1 _)|exact W2].
Defined.

End Names.
