(* ===== verification/RouterForward.v ===== *)
(** * Forwarding of data packets

    What [route_data_packet], [send_packet] and [handle_packet] send and deliver:
    next hops, split horizon, time to live and duplicate suppression
    (src/src/mesh/routing/MeshRouter.cpp). *)

From S2P Require Import Prelude Cxx DedupSet ThreadSafeQueue Utils Packet MeshRouter RouterTable.
From S2P Require Import RouterInvariants.

Module Forward.
Import Utils Packet Router Table RouterInv.

(** The packet as it leaves this node. *)
Definition hop_packet (p : RoutedPacket) : RoutedPacket := set_ttl (ttl p - 1) p.

(** The peers a packet is forwarded to: the next hops, less the peer it came
    from and the node itself. *)
Definition targets {o : IterOrder} (src : bytes) (p : RoutedPacket) (r : MeshRouter) : list bytes :=
  filter (fun n => n <> src /\ n <> self_id_ r) (determine_next_hop (to_peer_id p) r).

(** The call of the transport layer for one target; [u] is the UUID drawn. *)
Definition send_action {w : Wire RoutedPacket} (u : bytes) (p : RoutedPacket) (n : bytes) : option action :=
  match transport p with
  | TCP => Some (SendTcp n (MakeGenericData u (SerializeAsString p)))
  | UDP => Some (SendUdp n p)
  | Transport_other _ => None
  end.

Section forward.
Context {o : IterOrder} {laws : IterOrderLaws o} {w : Wire RoutedPacket}.
Context (uuid : nat -> bytes).
Implicit Types (r : MeshRouter) (p : RoutedPacket) (n d src : bytes).

Lemma hop_ttl p : (1 <= ttl p < 2 ^ 32)%Z -> ttl (hop_packet p) = (ttl p - 1)%Z.
Proof. intros. simpl. rewrite u32_small; lia. Qed.

(** The forwarding loop sends one message to every target, or nothing when the
    time to live runs out, the transport layer is gone or the packet names an
    unknown transport. *)
Lemma forward_loop src p r (l : list bytes) k (acts : list action) :
  let hops := filter (fun n => n <> src /\ n <> self_id_ r) l in
  (foldl (fun s n => forward_one uuid src p r n s) (k, acts) l).2 =
  acts ++ if (ttl (hop_packet p) <=? 0)%Z || negb (transport_ r) then []
          else match transport p with
               | TCP => imap (fun i n => SendTcp n (MakeGenericData (uuid (k + i))
                          (SerializeAsString (hop_packet p)))) hops
               | UDP => map (fun n => SendUdp n (hop_packet p)) hops
               | Transport_other _ => []
               end.
Proof.
  revert k acts. induction l as [|n l IH]; intros k acts; simpl.
  { destruct (_ || _), (transport p); by rewrite app_nil_r. }
  unfold forward_one at 2. fold (hop_packet p). rewrite filter_cons. case_bool_decide as H1.
  { rewrite decide_False by tauto. apply IH. }
  case_bool_decide as H2. { rewrite decide_False by tauto. apply IH. }
  rewrite decide_True by done. destruct (_ <=? _)%Z; [apply IH|]. simpl.
  destruct (transport_ r); simpl; [|apply IH].
  destruct (transport p); simpl; rewrite IH; [| |done]; rewrite <-app_assoc; simpl; [|done].
  rewrite Nat.add_0_r. do 2 f_equal. apply imap_ext. intros i x _. simpl. by rewrite Nat.add_succ_r.
Qed.

Lemma forward_actions src p r :
  (forward uuid src p r).2 =
  if (ttl (hop_packet p) <=? 0)%Z || negb (transport_ r) then []
  else match transport p with
       | TCP => imap (fun i n => SendTcp n (MakeGenericData (uuid (draws r + i))
                  (SerializeAsString (hop_packet p)))) (targets src p r)
       | UDP => map (fun n => SendUdp n (hop_packet p)) (targets src p r)
       | Transport_other _ => []
       end.
Proof.
  unfold forward. pose proof (forward_loop src p r (determine_next_hop (to_peer_id p) r) (draws r) []) as H.
  destruct (foldl _ _ _) as [n acts]. simpl in *. by rewrite H.
Qed.

Lemma forward_state src p r :
  exists k : nat, (forward uuid src p r).1 = with_draws k r.
Proof. unfold forward. destruct (foldl _ _ _) as [n acts]. by exists n. Qed.

(** Every action of the loop is a send of the decremented packet to a target. *)
Lemma forward_elem src p r a :
  a ∈ (forward uuid src p r).2 ->
  exists u n, send_action u (hop_packet p) n = Some a /\ n ∈ targets src p r /\
    (0 < ttl (hop_packet p))%Z.
Proof.
  rewrite forward_actions. destruct (Z.leb_spec (ttl (hop_packet p)) 0); simpl;
    [by intros ?%not_elem_of_nil|].
  destruct (transport_ r); simpl; [|by intros ?%not_elem_of_nil]. unfold send_action. simpl.
  destruct (transport p); [| |by intros ?%not_elem_of_nil].
  - intros (i & n & -> & Hi)%elem_of_lookup_imap_1. exists (uuid (draws r + i)), n.
    split_and!; [done| |done]. by eapply list_elem_of_lookup_2.
  - intros (n & -> & Hn)%list_elem_of_fmap. exists [], n. done.
Qed.

Context (on_packet_for_me : MeshRouter -> RoutedPacket -> MeshRouter * RoutedPacket * list action).

(** A packet in transit: neither a broadcast nor for this node. *)
Definition transit p r : Prop := to_peer_id p <> [] /\ to_peer_id p <> self_id_ r.

Definition dedup_key p : bytes * bool := (to_hex (id p), expect_response p).

(** The packet is dropped as a duplicate. *)
Definition is_duplicate src p r : bool :=
  negb (bool_decide (src = self_id_ r)) && Dedup.contains (dedup_key p) (seen_packet_ids_ r).

Lemma route_transit clk src p r :
  transit p r ->
  route_data_packet uuid on_packet_for_me clk src (to_hex (id p)) p r =
  if is_duplicate src p r then (r, [])
  else forward uuid src p (with_seen (Dedup.insert (clk 0) (dedup_key p) (seen_packet_ids_ r)).2 r).
Proof.
  intros [Hb Hm]. unfold route_data_packet. rewrite !(bool_decide_false (to_peer_id p = _)) by done.
  simpl. unfold is_duplicate, dedup_key. destruct (_ && _); [done|].
  by destruct (forward _ _ _ _).
Qed.

(** Delivery to the node itself never forwards. *)
Lemma route_to_me clk src pid p r :
  to_peer_id p = self_id_ r ->
  route_data_packet uuid on_packet_for_me clk src pid p r =
  if on_packet_for_me_cb_ r && negb (bool_decide (from_peer_id p = self_id_ r))
  then let '(r', _, acts) := on_packet_for_me r p in (r', Deliver p :: acts)
  else (r, []).
Proof.
  intros Hm. unfold route_data_packet. rewrite (bool_decide_true (to_peer_id p = self_id_ r)) by done.
  rewrite orb_true_r. simpl. destruct (on_packet_for_me_cb_ r); simpl; [|done].
  destruct (negb _); [|done]. by destruct (on_packet_for_me r p) as [[r' p'] acts].
Qed.

(** After a packet is routed its key is remembered. *)
Lemma insert_contains (now : Z) (key : bytes * bool) (s : Dedup.TimedDedupSet (bytes * bool)) :
  Dedup.contains key (Dedup.insert now key s).2 = true.
Proof.
  unfold Dedup.contains. apply bool_decide_true. unfold Dedup.insert.
  case_bool_decide as H; simpl; [done|]. apply elem_of_union. left. by apply elem_of_singleton.
Qed.

Lemma route_transit_seen clk src p r :
  transit p r -> Dedup.contains (dedup_key p)
    (seen_packet_ids_ (route_data_packet uuid on_packet_for_me clk src (to_hex (id p)) p r).1) = true.
Proof.
  intros Ht. rewrite route_transit by done. destruct (is_duplicate src p r) eqn:E.
  - unfold is_duplicate in E. by apply andb_true_iff in E as [_ E].
  - destruct (forward_state src p (with_seen (Dedup.insert (clk 0) (dedup_key p) (seen_packet_ids_ r)).2 r))
      as [n ->]. simpl. apply insert_contains.
Qed.

Lemma route_transit_self clk src p r :
  transit p r -> self_id_ (route_data_packet uuid on_packet_for_me clk src (to_hex (id p)) p r).1 = self_id_ r.
Proof.
  intros Ht. rewrite route_transit by done. destruct (is_duplicate src p r); [done|].
  by destruct (forward_state src p (with_seen (Dedup.insert (clk 0) (dedup_key p) (seen_packet_ids_ r)).2 r)) as [n ->].
Qed.
End forward.

(** (C28) Forwarding of a packet in transit, from any peer and with any 32-bit
    time to live: it is dropped if it is a duplicate, if its time to live is 1, if
    the transport layer is gone, if its destination has no finite route, or if the
    next hop is the peer it came from or the node itself; otherwise it is sent,
    once, to the next hop of the forwarding table over the transport it names (one
    that is neither TCP nor UDP sends nothing), with the time to live lowered by
    one modulo 2^32 (so that 0 becomes 4294967295 and the packet is forwarded);
    the application callback is never called. *)
Theorem unicast_forwarding {o : IterOrder} {laws : IterOrderLaws o} {w : Wire RoutedPacket}
    (uuid : nat -> bytes)
    (cb : MeshRouter -> RoutedPacket -> MeshRouter * RoutedPacket * list action)
    (clk : nat -> Z) (src : bytes) (p : RoutedPacket) (r : MeshRouter)
    (Htransit : transit p r) (Httl : (0 <= ttl p < 2 ^ 32)%Z) :
  (route_data_packet uuid cb clk src (to_hex (id p)) p r).2 =
  if is_duplicate src p r || (ttl p =? 1)%Z || negb (transport_ r) then []
  else match forwarding_table_ r !! to_peer_id p with
       | Some e => if (cost e <? INF_COST)%Z && negb (bool_decide (next_hop e = src)) &&
                      negb (bool_decide (next_hop e = self_id_ r))
                   then option_list (send_action (uuid (draws r))
                          (set_ttl (if (ttl p =? 0)%Z then 4294967295 else ttl p - 1) p) (next_hop e)) else []
       | None => []
       end.
Proof.
  rewrite route_transit by done. destruct (is_duplicate src p r); [done|]. simpl.
  rewrite forward_actions. cbn [transport_ with_seen].
  assert (hop_packet p = set_ttl (if (ttl p =? 0)%Z then 4294967295 else ttl p - 1) p /\
    (ttl (hop_packet p) <=? 0)%Z = (ttl p =? 1)%Z) as [<- ->].
  { unfold hop_packet. destruct (Z.eqb_spec (ttl p) 0) as [->|]; [done|]. split; [done|].
    fold (hop_packet p). rewrite hop_ttl by lia. destruct (Z.leb_spec (ttl p - 1) 0), (Z.eqb_spec (ttl p) 1); lia. }
  destruct (_ || _); [done|].
  unfold targets, determine_next_hop. destruct Htransit as [Hb _]. rewrite bool_decide_false by done.
  simpl. destruct (forwarding_table_ r !! to_peer_id p) as [e|]; simpl;
    [|by destruct (transport p)].
  destruct (Z.leb_spec INF_COST (cost e)), (Z.ltb_spec (cost e) INF_COST); try lia; simpl;
    [by destruct (transport p)|].
  rewrite filter_cons, filter_nil. unfold send_action. simpl.
  repeat case_bool_decide; simpl; repeat case_decide; try tauto; destruct (transport p); simpl;
    rewrite ?Nat.add_0_r; done.
Qed.

Definition demo_packet (t : TransportProtocol) (life : Z) : RoutedPacket := {|
  id := [x01]; from_peer_id := nB; to_peer_id := nC; ttl := life; type := BINARY; transport := t;
  subtype := []; expect_response := false; signature := []; encrypted_session_key := [];
  payload := binary_data [x2a]
|}.

(** The demo router with its table computed. *)
Definition demo_ready : MeshRouter := @recalculate_forwarding_table map_order 5 demo_router.

Lemma unicast_forwarding_witness :
  (@route_data_packet map_order packet_wire (fun _ => []) ignore_packet Z.of_nat nA (to_hex [x01])
     (demo_packet UDP 10) demo_ready).2 = [SendUdp nB (demo_packet UDP 9)] /\
  (@route_data_packet map_order packet_wire (fun _ => []) ignore_packet Z.of_nat nA (to_hex [x01])
     (demo_packet UDP 0) demo_ready).2 = [SendUdp nB (demo_packet UDP 4294967295)].
Proof.
  split.
  - pose proof (@unicast_forwarding map_order map_order_laws packet_wire (fun _ => [])
      ignore_packet Z.of_nat nA (demo_packet UDP 10) demo_ready) as W.
    etrans; [apply W|vm_compute; reflexivity]; [split; vm_compute; discriminate|simpl; lia].
  - pose proof (@unicast_forwarding map_order map_order_laws packet_wire (fun _ => [])
      ignore_packet Z.of_nat nA (demo_packet UDP 0) demo_ready) as W.
    etrans; [apply W|vm_compute; reflexivity]; [split; vm_compute; discriminate|simpl; lia].
Defined.

(** What the application is handed before the router forwards: the router and the
    packet as the callback leaves them, and the actions so far. *)
Definition handed (cb : MeshRouter -> RoutedPacket -> MeshRouter * RoutedPacket * list action)
    (p : RoutedPacket) (r : MeshRouter) : MeshRouter * RoutedPacket * list action :=
  if (bool_decide (to_peer_id p = []) || bool_decide (to_peer_id p = self_id_ r)) &&
     on_packet_for_me_cb_ r && negb (bool_decide (from_peer_id p = self_id_ r))
  then let '(r', p', acts) := cb r p in (r', p', Deliver p :: acts)
  else (r, p, []).

(** (C10) Split horizon and time to live, for every packet and any callback.
    [route_data_packet] first hands a broadcast or a packet for this node to the
    application, which leaves a router [r1] and a packet [p1]; all that it does
    after that is send [p1] with its time to live lowered by one modulo 2^32, and
    positive, to next hops that [r1] has for it and that are neither the peer the
    packet came from nor the node itself.  It sends nothing at all if the packet
    is for this node only, or if it came from a peer and its id has been seen.  (By
    the wrap-around a time to live of 0 is not lowered but becomes 4294967295.) *)
Theorem forwarding_safety {o : IterOrder} {laws : IterOrderLaws o} {w : Wire RoutedPacket}
    (uuid : nat -> bytes)
    (cb : MeshRouter -> RoutedPacket -> MeshRouter * RoutedPacket * list action)
    (clk : nat -> Z) (src pid : bytes) (p : RoutedPacket) (r : MeshRouter) :
  let '(r1, p1, delivered) := handed cb p r in
  exists sent, (route_data_packet uuid cb clk src pid p r).2 = delivered ++ sent /\
    (to_peer_id p = self_id_ r -> sent = []) /\
    (src <> self_id_ r1 -> Dedup.contains (pid, expect_response p1) (seen_packet_ids_ r1) = true -> sent = []) /\
    forall a, a ∈ sent -> exists u n,
      send_action u (set_ttl (ttl p1 - 1) p1) n = Some a /\
      n ∈ determine_next_hop (to_peer_id p1) r1 /\ n <> src /\ n <> self_id_ r1 /\
      ttl p1 <> 1%Z /\ ((1 <= ttl p1 < 2 ^ 32)%Z -> (0 < ttl (set_ttl (ttl p1 - 1) p1) < ttl p1)%Z).
Proof.
  unfold route_data_packet. fold (handed cb p r). destruct (handed cb p r) as [[r1 p1] delivered].
  case_bool_decide as Hme.
  { exists []. rewrite app_nil_r. split_and!; [done..|]. by intros a ?%not_elem_of_nil. }
  destruct (negb _ && _) eqn:Edup.
  { exists []. rewrite app_nil_r. split_and!; [done..|]. by intros a ?%not_elem_of_nil. }
  set (r2 := with_seen _ r1). pose proof (forward_elem uuid src p1 r2) as Hf.
  destruct (forward uuid src p1 r2) as [r3 sent]. simpl in Hf. exists sent.
  split_and!; [done|done| |].
  { intros Hsrc Hseen. rewrite Hseen, bool_decide_false in Edup by done. done. }
  intros a Ha. destruct (Hf a Ha) as (u & n & Hs & Hn & Ht). exists u, n.
  apply list_elem_of_filter in Hn as [[? ?] ?]. split_and!; try done.
  - intros E. simpl in Ht. rewrite E in Ht. done.
  - intros Hr. pose proof (hop_ttl p1 Hr) as E. simpl in E, Ht |- *. lia.
Qed.

Definition demo_broadcast : RoutedPacket := {|
  id := [x01]; from_peer_id := nC; to_peer_id := []; ttl := 5; type := TEXT; transport := UDP;
  subtype := []; expect_response := false; signature := []; encrypted_session_key := [];
  payload := text [x68]
|}.

Lemma forwarding_safety_witness :
  let acts := (@route_data_packet map_order packet_wire (fun _ => []) ignore_packet Z.of_nat nC
     (to_hex [x01]) demo_broadcast demo_ready).2 in
  acts = [Deliver demo_broadcast; SendUdp nB (set_ttl 4 demo_broadcast)] /\
  exists u n, @send_action packet_wire u (set_ttl 4 demo_broadcast) n = Some (SendUdp nB (set_ttl 4 demo_broadcast)) /\
    n ∈ @determine_next_hop map_order [] demo_ready /\ n <> nC /\ n <> nA.
Proof.
  intros acts. assert (acts = [Deliver demo_broadcast; SendUdp nB (set_ttl 4 demo_broadcast)]) as E
    by (vm_compute; reflexivity).
  split; [exact E|].
  pose proof (@forwarding_safety map_order map_order_laws packet_wire (fun _ => []) ignore_packet Z.of_nat
    nC (to_hex [x01]) demo_broadcast demo_ready) as W.
  assert (on_packet_for_me_cb_ demo_ready = true /\ self_id_ demo_ready = nA) as [Hcb Hid] by (vm_compute; by split).
  assert (handed ignore_packet demo_broadcast demo_ready = (demo_ready, demo_broadcast, [Deliver demo_broadcast])) as Hh
    by (unfold handed; rewrite Hcb, Hid; reflexivity).
  rewrite Hh in W. destruct W as (sent & W1 & _ & _ & W2).
  fold acts in W1. rewrite E in W1. injection W1 as <-.
  destruct (W2 (SendUdp nB (set_ttl 4 demo_broadcast))) as (u & n & H1 & H2 & H3 & H4 & _); [by left|].
  exists u, n. rewrite Hid in H4. split_and!; [exact H1|exact H2|exact H3|exact H4].
Defined.

(** A broadcast is handed to the application on every arrival: the
    callback runs before the duplicate check, so each copy that reaches the node
    from another peer is delivered again, although only the first is forwarded. *)
Theorem broadcast_duplicates_delivered {o : IterOrder} {w : Wire RoutedPacket} (uuid : nat -> bytes)
    (cb : MeshRouter -> RoutedPacket -> MeshRouter * RoutedPacket * list action)
    (clk : nat -> Z) (src : bytes) (p : RoutedPacket) (r : MeshRouter)
    (Hcb : on_packet_for_me_cb_ r = true) (Hbcast : to_peer_id p = []) (Hid : self_id_ r <> [])
    (Hfrom : from_peer_id p <> self_id_ r) (Hsrc : src <> self_id_ r)
    (Hseen : Dedup.contains (dedup_key p) (seen_packet_ids_ r) = true)
    (Hkeep : forall r' p' acts, cb r p = (r', p', acts) ->
       expect_response p' = expect_response p /\ seen_packet_ids_ r' = seen_packet_ids_ r /\
       self_id_ r' = self_id_ r) :
  route_data_packet uuid cb clk src (to_hex (id p)) p r =
  ((cb r p).1.1, Deliver p :: (cb r p).2).
Proof.
  unfold route_data_packet. rewrite Hcb, Hbcast, bool_decide_true by done.
  rewrite (bool_decide_false (from_peer_id p = _)) by done. simpl.
  destruct (cb r p) as [[r' p'] acts] eqn:E. destruct (Hkeep _ _ _ eq_refl) as (He & Hs & Hself). simpl.
  rewrite (bool_decide_false ([] = _)) by done. rewrite Hself, bool_decide_false by done. simpl.
  rewrite He, Hs. unfold dedup_key in Hseen. by rewrite Hseen.
Qed.

Lemma broadcast_duplicates_delivered_witness :
  let r1 := (@route_data_packet map_order packet_wire (fun _ => []) ignore_packet Z.of_nat nB
               (to_hex [x01]) demo_broadcast demo_ready).1 in
  @route_data_packet map_order packet_wire (fun _ => []) ignore_packet Z.of_nat nC
     (to_hex [x01]) demo_broadcast r1 = (r1, [Deliver demo_broadcast]).
Proof.
  intros r1.
  assert (on_packet_for_me_cb_ r1 = true /\ self_id_ r1 = nA /\
          Dedup.contains (dedup_key demo_broadcast) (seen_packet_ids_ r1) = true) as (H1 & H2 & H3)
    by (vm_compute; split_and!; reflexivity).
  clearbody r1.
  apply (@broadcast_duplicates_delivered map_order packet_wire (fun _ => []) ignore_packet Z.of_nat nC
    demo_broadcast r1); rewrite ?H2; try done.
  unfold ignore_packet. by intros ? ? ? [= <- <- <-].
Defined.

(** A packet that arrives with time to live 0 is not dropped: the
    decrement wraps around to 4294967295, the test [<= 0] on the unsigned field
    fails, and the packet is forwarded with a fresh lifetime. *)
Theorem ttl_zero_wraps {o : IterOrder} {laws : IterOrderLaws o} {w : Wire RoutedPacket}
    (uuid : nat -> bytes)
    (cb : MeshRouter -> RoutedPacket -> MeshRouter * RoutedPacket * list action)
    (clk : nat -> Z) (src : bytes) (p : RoutedPacket) (r : MeshRouter) (e : RouteEntry)
    (Htransit : transit p r) (Httl : ttl p = 0%Z) (Hup : transport_ r = true)
    (Hudp : transport p = UDP) (Hnew : is_duplicate src p r = false)
    (Hroute : forwarding_table_ r !! to_peer_id p = Some e) (Hfin : (cost e < INF_COST)%Z)
    (Hn1 : next_hop e <> src) (Hn2 : next_hop e <> self_id_ r) :
  (route_data_packet uuid cb clk src (to_hex (id p)) p r).2 =
    [SendUdp (next_hop e) (set_ttl 4294967295 p)].
Proof.
  rewrite route_transit, Hnew by done. rewrite forward_actions. simpl. rewrite Hup, Hudp, Httl. simpl.
  unfold targets, determine_next_hop. destruct Htransit as [Hb _]. rewrite bool_decide_false by done.
  simpl. rewrite Hroute, (proj2 (Z.leb_gt _ _)) by done. rewrite filter_cons, filter_nil.
  rewrite decide_True by done. unfold hop_packet. rewrite Httl. reflexivity.
Qed.

Lemma ttl_zero_wraps_witness :
  (@route_data_packet map_order packet_wire (fun _ => []) ignore_packet Z.of_nat nA (to_hex [x01])
     (demo_packet UDP 0) demo_ready).2 = [SendUdp nB (demo_packet UDP 4294967295)].
Proof.
  pose proof (@ttl_zero_wraps map_order map_order_laws packet_wire (fun _ => []) ignore_packet Z.of_nat nA
    (demo_packet UDP 0) demo_ready (Route nB 2 true 5)) as W.
  etrans; [apply W|vm_compute; reflexivity];
    [split; vm_compute; discriminate|reflexivity|vm_compute; reflexivity|reflexivity
    |vm_compute; reflexivity|vm_compute; reflexivity|reflexivity|vm_compute; discriminate
    |vm_compute; discriminate].
Defined.

End Forward.
