(* ===== verification/RouterDedup.v ===== *)
(** * How long a packet is remembered

    A router that has forwarded a packet in transit drops every further copy of it
    for the 30 seconds of [seen_packet_ids_], whatever else it does meanwhile: other
    packets, routing updates, peers that come and go, periodic maintenance with its
    clean-up of old ids (src/src/mesh/routing/MeshRouter.cpp). *)

From S2P Require Import Prelude Cxx DedupSet ThreadSafeQueue Utils Packet MeshRouter RouterTable.
From S2P Require Import RouterAdvert RouterInvariants RouterNames RouterForward.

Module Window.
Import Utils Packet Router Table Advert RouterInv Names Forward.

Implicit Types (r : MeshRouter) (p : RoutedPacket) (clk : nat -> Z).

(** How long ids are kept. *)
Definition WINDOW : Z := seconds 30.

(** The name of the node and the state of the ids in every reachable router. *)
Record ids_ok (self : bytes) r : Prop := {
  ids_self : self_id_ r = self;
  ids_consistent : Dedup.consistent (seen_packet_ids_ r);
  ids_age : Dedup.max_age_ (seen_packet_ids_ r) = WINDOW
}.

Definition ids_grow r r' : Prop :=
  self_id_ r' = self_id_ r /\ Dedup.grows (seen_packet_ids_ r) (seen_packet_ids_ r').

Lemma grow_ok self r r' : ids_grow r r' -> ids_ok self r -> ids_ok self r'.
Proof. intros (Es & E & C & _) [? ? ?]. split; [congruence|by apply C|congruence]. Qed.

Lemma same_tables_grow r r' : same_tables r r' -> ids_grow r r'.
Proof. by intros []. Qed.

Section window.
Context {o : IterOrder} {laws : IterOrderLaws o} {w : Wire RoutedPacket}.
Context (uuid : nat -> bytes).
Context (cb : MeshRouter -> RoutedPacket -> MeshRouter * RoutedPacket * list action) {quiet : CallbackSends cb}.

(** ** What each operation does to the ids *)

Lemma recalculate_seen (now : Z) r :
  seen_packet_ids_ (recalculate_forwarding_table now r) = seen_packet_ids_ r /\
  self_id_ (recalculate_forwarding_table now r) = self_id_ r.
Proof using laws. by destruct (recalculate_lookup r now) as (_ & _ & -> & _ & -> & _). Qed.

Lemma hear_seen (now : Z) src r :
  seen_packet_ids_ (hear now src r) = seen_packet_ids_ r /\ self_id_ (hear now src r) = self_id_ r.
Proof. unfold hear. by destruct (neighbor_views_ r !! src). Qed.

Lemma recalculate_grow (now : Z) r r1 :
  seen_packet_ids_ r1 = seen_packet_ids_ r -> self_id_ r1 = self_id_ r ->
  ids_grow r (recalculate_forwarding_table now r1).
Proof using laws.
  intros E1 E2. destruct (recalculate_seen now r1) as [E3 E4]. unfold ids_grow. by rewrite E3, E4, E1, E2.
Qed.

Lemma handle_packet_seen clk src p r : ids_grow r (handle_packet uuid cb clk src p r).1.
Proof using laws quiet.
  destruct (hear_seen (clk 0) src r) as [E1 E2].
  destruct (handle_packet_cases uuid cb clk src p r (callback_sends _ p)) as [->|[Hs|[_ ->]]].
  - by split.
  - apply same_tables_grow in Hs. unfold ids_grow in *. by rewrite <-E1, <-E2.
  - by apply recalculate_grow.
Qed.

Lemma handle_event_seen clk e r : ids_grow r (handle_event uuid cb clk e r).1.
Proof using laws quiet.
  destruct e as [peer p|peer|peer]; [apply handle_packet_seen|by apply recalculate_grow..].
Qed.

Lemma maintenance_seen clk r :
  seen_packet_ids_ (run_periodic_maintenance uuid clk r).1 = Dedup.cleanup (clk 2) (seen_packet_ids_ r).
Proof using laws.
  unfold run_periodic_maintenance. destruct (for_each (neighbor_views_ r) _ _) as [nv expired].
  set (r1 := if expired then _ else _).
  assert (seen_packet_ids_ r1 = seen_packet_ids_ r) as <- by (unfold r1; destruct expired; [apply (recalculate_seen (clk 1) (with_tables _ nv r))|done]).
  clearbody r1. set (p2 := if trigger_pending_ r1 && _ then _ else _).
  assert (seen_packet_ids_ p2.1 = seen_packet_ids_ r1) as <-.
  { unfold p2. destruct (_ && _); [|done]. pose proof (send_triggered_keeps uuid r1) as (_ & _ & E & _).
    by destruct (send_triggered_updates uuid r1). }
  destruct p2 as [r2 acts]. simpl. destruct (_ <? _)%Z; [|done]. by rewrite broadcast_full_table_eq.
Qed.

(** One iteration of the loop: ids are added, and then those are dropped that are
    too old at the time of the clean-up, if there is one. *)
Lemma loop_seen expired clk1 (now : Z) clk2 (next : Z) r r' next' acts :
  loop_iteration uuid cb expired clk1 now clk2 next r = Some (r', next', acts) ->
  exists r1, ids_grow r r1 /\ self_id_ r' = self_id_ r1 /\
    (seen_packet_ids_ r' = seen_packet_ids_ r1 \/ seen_packet_ids_ r' = Dedup.cleanup (clk2 2) (seen_packet_ids_ r1)).
Proof using laws quiet.
  unfold loop_iteration. destruct (Queue.pop_for expired (event_queue_ r)) as [[ev q]|]; [|done].
  set (x := match ev with Some _ => _ | None => _ end).
  assert (ids_grow r x.1) as Hx.
  { unfold x. destruct ev as [e|]; [|by split]. apply (handle_event_seen clk1 e (with_queue q r)). }
  destruct x as [r1 acts1]. simpl in Hx. pose proof (maintenance_seen clk2 r1) as Hm.
  destruct (maintenance_keeps uuid clk2 r1) as [_ Hs].
  destruct (_ <=? _)%Z; [|intros [= <- <- <-]; exists r1; auto].
  destruct (run_periodic_maintenance uuid clk2 r1) as [r2 acts2]. intros [= <- <- <-]. exists r1. auto.
Qed.

(** ** Runs *)

Lemma loop_ok self (now : Z) r r' :
  ids_ok self r -> self_id_ r' = self_id_ r ->
  (seen_packet_ids_ r' = seen_packet_ids_ r \/ seen_packet_ids_ r' = Dedup.cleanup now (seen_packet_ids_ r)) ->
  ids_ok self r'.
Proof.
  intros [Hs Hc Ha] Es [E|E]; [split; congruence|].
  destruct (Dedup.cleanup_drop now _ Hc) as (n & _ & _ & Hc' & Ha'). split; [congruence|by rewrite E|congruence].
Qed.

Lemma send_grow clk p r : ids_grow r (send_packet uuid cb clk p r).1.
Proof using quiet. apply same_tables_grow, route_data_packet_tables, callback_sends. Qed.

Lemma router_step_seen self r r' : ids_ok self r -> router_step uuid cb r r' -> ids_ok self r'.
Proof using laws quiet.
  intros Hok Hs.
  destruct Hs as [peer s|peer|peer|expired clk1 now clk2 next r' next' acts Hl|clk p| |up]; try (by destruct Hok).
  - unfold push_data_bytes. destruct (decodeRoutedPacket s); by destruct Hok.
  - destruct (loop_seen _ _ _ _ _ _ _ _ _ Hl) as (r1 & Hg & Es & E).
    by eapply (loop_ok self (clk2 2) r1); [eapply grow_ok|..].
  - by eapply grow_ok; [apply send_grow|].
Qed.

Lemma reachable_ids self up (now : Z) r : rtc (router_step uuid cb) (make_router self up now) r -> ids_ok self r.
Proof using laws quiet.
  apply (rtc_keeps (ids_ok self)); [exact (router_step_seen self)|]. split; [done| |done]. split; [done|constructor].
Qed.

(** Steps of a router whose clean-ups happen until [limit]. *)
Inductive step_until (limit : Z) r : MeshRouter -> Prop :=
| until_data peer s : step_until limit r (push_data_bytes peer s r)
| until_connected peer : step_until limit r (on_peer_connected peer r)
| until_disconnected peer : step_until limit r (on_peer_disconnected peer r)
| until_loop expired clk1 now clk2 next r' next' acts :
    (clk2 2%nat <= limit)%Z ->
    loop_iteration uuid cb expired clk1 now clk2 next r = Some (r', next', acts) -> step_until limit r r'
| until_send clk p : step_until limit r (send_packet uuid cb clk p r).1
| until_callback : step_until limit r (set_on_packet_for_me r)
| until_transport up : step_until limit r (set_transport up r).

Lemma until_router_step limit r r' : step_until limit r r' -> router_step uuid cb r r'.
Proof. intros []; by econstructor. Qed.

(** An id that was seen at time [t] is known until [t + WINDOW]. *)
Definition known_since (self : bytes) (t : Z) (key : bytes * bool) r : Prop :=
  ids_ok self r /\ Dedup.remembers t key (seen_packet_ids_ r).

Lemma step_until_known self t key r r' :
  known_since self t key r -> step_until (t + WINDOW) r r' -> known_since self t key r'.
Proof using laws quiet.
  intros [Hok Hk] Hs. split; [by eapply router_step_seen, until_router_step|].
  destruct Hs as [peer s|peer|peer|expired clk1 now clk2 next r' next' acts Hle Hl|clk p| |up]; try done.
  - unfold push_data_bytes. by destruct (decodeRoutedPacket s).
  - destruct (loop_seen _ _ _ _ _ _ _ _ _ Hl) as (r1 & Hg & _ & E).
    pose proof (Dedup.grows_remembers t key _ _ (proj2 Hg) Hk) as Hk1. pose proof (ids_age _ _ (grow_ok _ r r1 Hg Hok)) as Ha.
    destruct E as [->| ->]; [done|]. apply Dedup.cleanup_remembers; [done|]. rewrite Ha. lia.
  - eapply Dedup.grows_remembers; [apply send_grow|exact Hk].
Qed.

(** ** Packets in transit *)

(** A packet in transit goes through [route_data_packet]. *)
Lemma handle_transit clk src p r :
  src <> self_id_ r -> from_peer_id p <> self_id_ r -> type p <> ROUTING_UPDATE -> transit p r ->
  handle_packet uuid cb clk src p r =
  if is_duplicate src p r then (hear (clk 0) src r, [])
  else forward uuid src p (with_seen (Dedup.insert (clk 1) (dedup_key p) (seen_packet_ids_ r)).2 (hear (clk 0) src r)).
Proof.
  intros Hsrc Hfrom Hty Htr. unfold handle_packet. rewrite !bool_decide_false by done. cbn [orb].
  fold (hear (clk 0) src r). destruct (hear_keeps (clk 0) src r) as [Es _].
  assert (transit p (hear (clk 0) src r)) as Htr' by (unfold transit; by rewrite Es).
  destruct (hear_seen (clk 0) src r) as [E _].
  destruct (type p); [done|..]; rewrite route_transit by done; unfold is_duplicate; by rewrite Es, E.
Qed.

Lemma first_copy_known clk src p r :
  ids_ok (self_id_ r) r -> src <> self_id_ r -> from_peer_id p <> self_id_ r -> type p <> ROUTING_UPDATE -> transit p r ->
  Dedup.contains (dedup_key p) (seen_packet_ids_ r) = false ->
  known_since (self_id_ r) (clk 1) (dedup_key p) (handle_packet uuid cb clk src p r).1.
Proof using laws quiet.
  intros Hok Hsrc Hfrom Hty Htr Hnew. split; [eapply grow_ok; [apply handle_packet_seen|done]|].
  rewrite handle_transit by done. unfold is_duplicate. rewrite Hnew, andb_false_r.
  set (r1 := with_seen _ _). destruct (forward_state uuid src p r1) as [n ->]. simpl.
  by apply Dedup.insert_remembers; [apply Hok|].
Qed.
End window.

(** (C11) Duplicate suppression.  In any reachable state a packet in transit
    arrives whose id is not known.  Then for 30 seconds, whatever the router does in
    between (other packets, routing updates, peers that come and go, sends of the
    application, periodic maintenance, as long as its clean-ups read the clock at
    most 30 seconds after the first copy), another copy of the packet, from any
    peer, is dropped: it is not sent to anybody, nothing is delivered, and the
    router only notes that it has heard of that peer. *)
Theorem transit_forwarded_once {o : IterOrder} {laws : IterOrderLaws o} {w : Wire RoutedPacket}
    (uuid : nat -> bytes)
    (cb : MeshRouter -> RoutedPacket -> MeshRouter * RoutedPacket * list action) {quiet : CallbackSends cb}
    (self : bytes) (up : bool) (now : Z) (clk clk' : nat -> Z) (src src' : bytes) (p p' : RoutedPacket)
    (r r' : MeshRouter)
    (Hreach : rtc (router_step uuid cb) (make_router self up now) r)
    (Hsrc : src <> self /\ from_peer_id p <> self) (Hty : type p <> ROUTING_UPDATE)
    (Hto : to_peer_id p <> [] /\ to_peer_id p <> self)
    (Hnew : Dedup.contains (dedup_key p) (seen_packet_ids_ r) = false)
    (Hrun : rtc (step_until uuid cb (clk 1 + seconds 30)) (handle_packet uuid cb clk src p r).1 r')
    (Hcopy : id p' = id p /\ expect_response p' = expect_response p /\ type p' = type p /\
             from_peer_id p' = from_peer_id p /\ to_peer_id p' = to_peer_id p)
    (Hsrc' : src' <> self) :
  handle_packet uuid cb clk' src' p' r' = (hear (clk' 0) src' r', []).
Proof.
  pose proof (reachable_ids uuid cb self up now r Hreach) as Hok. pose proof (ids_self _ _ Hok) as Er.
  destruct Hsrc as [Hs1 Hs2].
  assert (known_since self (clk 1) (dedup_key p) r') as [Hok' Hk].
  { revert Hrun. apply (rtc_keeps (known_since self (clk 1) (dedup_key p))); [apply step_until_known; done|].
    subst self. by apply first_copy_known. }
  pose proof (ids_self _ _ Hok') as Er'. destruct Hcopy as (Hid & Hex & Hty' & Hf & Ht).
  rewrite handle_transit by (unfold transit; by rewrite ?Er', ?Hf, ?Hty', ?Ht).
  assert (dedup_key p' = dedup_key p) as Ek by (unfold dedup_key; by rewrite Hid, Hex).
  unfold is_duplicate. rewrite Er', Ek, bool_decide_false by done. by rewrite (Dedup.remembers_contains _ _ _ Hk).
Qed.

(** ** A router between two peers *)

(** One iteration of the loop at time [now], with maintenance if it is due. *)
Definition iterate (now next : Z) r : MeshRouter :=
  match @loop_iteration map_order packet_wire (fun _ => []) ignore_packet true (fun _ => now) now (fun _ => now) next r with
  | Some (r', _, _) => r'
  | None => r
  end.

Lemma iterate_loop (now next : Z) r :
  exists next' acts, @loop_iteration map_order packet_wire (fun _ => []) ignore_packet true (fun _ => now) now
    (fun _ => now) next r = Some (iterate now next r, next', acts).
Proof.
  unfold iterate. destruct (loop_iteration _ _ _ _ _ _ _ _) as [[[r' next'] acts]|] eqn:E; [by eexists _, _|].
  unfold loop_iteration, Queue.pop_for in E. destruct (Queue.ready (event_queue_ r)), (Queue.take_front _ _) as [ev q];
    destruct (match ev with Some _ => _ | None => _ end) as [r1 acts1], (_ <=? _)%Z; try done;
    by destruct (run_periodic_maintenance _ _ r1).
Qed.

Definition between : MeshRouter :=
  iterate 0 1 (on_peer_connected nC (iterate 0 1 (on_peer_connected nB (make_router nA true 0)))).

(** A packet from a node behind [nB] for [nC]. *)
Definition passing (life : Z) : RoutedPacket := {|
  id := [x01]; from_peer_id := [x7a]; to_peer_id := nC; ttl := life; type := BINARY; transport := UDP;
  subtype := []; expect_response := false; signature := []; encrypted_session_key := []; payload := binary_data [x2a]
|}.

(** The first copy is forwarded; after maintenance 20 seconds later a second copy
    is dropped. *)
Lemma transit_forwarded_once_witness :
  let first := @handle_packet map_order packet_wire (fun _ => []) ignore_packet (fun _ => 0%Z) nB (passing 9) between in
  let later := iterate (seconds 20) (seconds 1) first.1 in
  first.2 = [SendUdp nC (passing 8)] /\
  @handle_packet map_order packet_wire (fun _ => []) ignore_packet (fun _ => seconds 21) nC (passing 5) later =
    (hear (seconds 21) nC later, []).
Proof.
  intros first later. split; [vm_compute; reflexivity|].
  apply (@transit_forwarded_once map_order map_order_laws packet_wire (fun _ => []) ignore_packet ignore_sends nA true 0
    (fun _ => 0%Z) (fun _ => seconds 21) nB nC (passing 9) (passing 5) between later).
  - destruct (iterate_loop 0 1 (on_peer_connected nB (make_router nA true 0))) as (n1 & a1 & L1).
    destruct (iterate_loop 0 1 (on_peer_connected nC (iterate 0 1 (on_peer_connected nB (make_router nA true 0)))))
      as (n2 & a2 & L2).
    eapply rtc_l; [apply (rs_connected _ _ _ nB)|]. eapply rtc_l; [exact (rs_loop _ _ _ _ _ _ _ _ _ _ _ L1)|].
    eapply rtc_l; [apply (rs_connected _ _ _ nC)|]. apply rtc_once. exact (rs_loop _ _ _ _ _ _ _ _ _ _ _ L2).
  - split; vm_compute; discriminate.
  - discriminate.
  - split; vm_compute; discriminate.
  - vm_compute. reflexivity.
  - destruct (iterate_loop (seconds 20) (seconds 1) first.1) as (n1 & a1 & L1).
    apply rtc_once. refine (until_loop _ _ _ _ _ _ _ _ _ _ _ _ _ L1). vm_compute. discriminate.
  - by split_and!.
  - vm_compute. discriminate.
Defined.

End Window.
