(* ===== verification/RouterNetwork.v ===== *)
(** * Convergence of the routing protocol

    A network of routers that exchange their periodic full-table broadcasts over
    a fixed topology, through the real senders and handlers of
    src/src/mesh/routing/MeshRouter.cpp and the wire format: whatever the orders
    of delivery and of hash-table iteration, poison reverse included, the tables
    converge to hop distances. *)

From S2P Require Import Prelude Cxx DedupSet ThreadSafeQueue Utils Packet MeshRouter RouterTable.
From S2P Require Import RouterAdvert RouterInvariants.

Module Network.
Import Utils Packet Router Table Advert RouterInv.

(** ** Topologies *)

(** An undirected graph; peer ids are strings, hence UTF-8. *)
Class Topology (adj : bytes -> list bytes) : Prop := {
  adj_sym : forall u n, n ∈ adj u -> u ∈ adj n;
  adj_irrefl : forall u, u ∉ adj u;
  adj_nodup : forall u, NoDup (adj u);
  adj_utf8 : forall u n, n ∈ adj u -> utf8_valid n = true
}.

(** A walk of [c] hops. *)
Inductive walk (adj : bytes -> list bytes) : bytes -> bytes -> Z -> Prop :=
| walk_nil u : walk adj u u 0
| walk_step u n d c : n ∈ adj u -> walk adj n d c -> walk adj u d (c + 1).

(** [c] is the hop distance, 16 standing for 16 or more. *)
Definition hop_distance (adj : bytes -> list bytes) (u d : bytes) (c : Z) : Prop :=
  ((c < INF_COST)%Z /\ walk adj u d c /\ forall j, walk adj u d j -> (c <= j)%Z) \/
  (c = INF_COST /\ forall j, walk adj u d j -> (INF_COST <= j)%Z).

Lemma walk_nonneg adj u d c : walk adj u d c -> (0 <= c)%Z.
Proof. induction 1; lia. Qed.

Lemma walk_0 adj u d : walk adj u d 0 -> u = d.
Proof.
  intros Hw. remember 0%Z as z eqn:Hz. destruct Hw as [|u n d c Hn Hw]; [done|].
  apply walk_nonneg in Hw. lia.
Qed.

Lemma walk_utf8 adj u d c :
  Topology adj -> walk adj u d c -> utf8_valid u = true -> utf8_valid d = true.
Proof. intros Ht. induction 1 as [|u n d c Hn _ IH]; [done|]. intros _. apply IH. by eapply adj_utf8. Qed.

(** ** One round of the protocol *)

Section network.
Context {o : IterOrder} {laws : IterOrderLaws o} {w : Wire RoutedPacket} {pw : PacketWire}.
Context (uuid : bytes -> nat -> bytes).
Context (cb : MeshRouter -> RoutedPacket -> MeshRouter * RoutedPacket * list action).
Context (adj : bytes -> list bytes) {topo : Topology adj}.
Implicit Types (r : MeshRouter) (u n d : bytes) (net : bytes -> MeshRouter).

(** The envelopes a list of actions sends to [u]. *)
Definition messages_to u (acts : list action) : list Envelope :=
  omap (fun a => match a with
                 | SendTcp p env => if bool_decide (p = u) then Some env else None
                 | _ => None
                 end) acts.

(** What the transport layer does with an envelope: the payload is decoded and
    the packet handled. *)
Definition deliver (clk : nat -> Z) n (env : Envelope) r : MeshRouter :=
  match decodeRoutedPacket (env_payload env) with
  | None => r
  | Some pkt => (handle_packet (uuid (self_id_ r)) cb clk n pkt r).1
  end.

(** Every node broadcasts its table; then every node handles what its
    neighbours sent, in the order [ord]. *)
Definition round (ord : bytes -> list bytes) (clk : bytes -> bytes -> nat -> Z) net u : MeshRouter :=
  foldl (fun r n => foldl (fun r env => deliver (clk u n) n env r) r
                      (messages_to u (broadcast_full_table (uuid n) (net n)).2))
    (broadcast_full_table (uuid u) (net u)).1 (ord u).

Inductive rounds : nat -> (bytes -> MeshRouter) -> (bytes -> MeshRouter) -> Prop :=
| rounds_0 net : rounds 0 net net
| rounds_S k net net' ord clk :
    rounds k net net' -> (forall u, ord u ≡ₚ adj u) -> rounds (S k) net (round ord clk net').

Lemma iter_rounds k clk net : rounds k net (Nat.iter k (round adj clk) net).
Proof. induction k as [|k IH]; [constructor|]. simpl. by constructor. Qed.

(** ** The invariant of a node *)

Definition adv_of r n : option (gmap bytes Z) := advertised_routes <$> neighbor_views_ r !! n.

(** The views list the neighbours, and what they advertise are real walks. *)
Record node_inv u r : Prop := {
  inv_self : self_id_ r = u;
  inv_ok : router_ok r;
  inv_up : transport_ r = true;
  inv_idle : on_packet_for_me_cb_ r = true /\ seen_packet_ids_ r = Dedup.new_dedup (seconds 30);
  inv_settled : settled r;
  inv_neighbors : forall n, is_Some (neighbor_views_ r !! n) <-> n ∈ adj u;
  inv_walks : forall n a d c, adv_of r n = Some a -> a !! d = Some c -> walk adj n d c;
  inv_keys : forall n d, n ∈ adj u -> is_Some (forwarding_table_ r !! d) -> utf8_valid d = true
}.

(** No node is its own neighbour. *)
Lemma inv_self_cost u r : node_inv u r -> self_cost r = 0%Z.
Proof using topo.
  intros Hi. unfold self_cost. rewrite (inv_self u r Hi).
  destruct (neighbor_views_ r !! u) as [v|] eqn:E; [|done]. destruct (adj_irrefl u).
  apply (inv_neighbors u r Hi). by exists v.
Qed.

(** An offer of a sound view is a walk. *)
Lemma offer_walk u r n v d :
  node_inv u r -> neighbor_views_ r !! n = Some v -> (offer d n v < INF_COST)%Z ->
  walk adj u d (offer d n v).
Proof.
  intros Hi Hn Hlt. unfold offer in *.
  assert (n ∈ adj u) as Hadj by (apply (inv_neighbors u r Hi); by exists v).
  case_bool_decide as Hd; [subst; apply (walk_step adj u n n 0); [done|constructor]|].
  destruct (advertised_routes v !! d) as [c|] eqn:Hc; [|lia].
  rewrite Z.min_l by lia. apply walk_step with n; [done|].
  apply (inv_walks u r Hi n (advertised_routes v)); [|done]. unfold adv_of. by rewrite Hn.
Qed.

(** Finite costs are lengths of walks. *)
Lemma table_sound u r d :
  node_inv u r -> (table_cost r d < INF_COST)%Z -> walk adj u d (table_cost r d).
Proof.
  intros Hi. rewrite (proj1 (inv_settled u r Hi d)). unfold dv_cost.
  rewrite (inv_self u r Hi), (inv_self_cost u r Hi). case_bool_decide as Hd; [subst; constructor|].
  destruct (best_offer_spec (map_to_list (neighbor_views_ r)) d) as (_ & _ & H).
  fold (best_offer (neighbor_views_ r) d) in H.
  destruct H as [->|(n & v & Hin & ->)]; [lia|]. apply elem_of_map_to_list in Hin.
  by apply offer_walk with r.
Qed.

(** ** One message *)

Section message.
Context (u n : bytes) (r : MeshRouter) (t : RouteTable).
Context (Hi : node_inv u r) (Hn : n ∈ adj u).
Context (Ht : forall d c, t !! d = Some c ->
  (0 <= c)%Z /\ ((c < INF_COST)%Z -> walk adj n d c) /\ utf8_valid d = true).

(** The advertisements of [n] after its table [t] is absorbed. *)
Definition absorbed (a : gmap bytes Z) d : option Z :=
  match t !! d with
  | Some c => if (INF_COST <=? c)%Z then None else Some c
  | None => a !! d
  end.

Lemma update_inv clk :
  let r' := process_routing_update clk n t r in
  node_inv u r' /\
  (exists a a', adv_of r n = Some a /\ adv_of r' n = Some a' /\ forall d, a' !! d = absorbed a d) /\
  (forall n', n' <> n -> adv_of r' n' = adv_of r n').
Proof using Hi Hn Ht topo laws.
  assert (n <> u) as Hne by (intros ->; by apply (adj_irrefl u)).
  pose proof (inv_self u r Hi) as Hself. destruct (inv_ok u r Hi) as [Hv Htab].
  destruct (proj2 (inv_neighbors u r Hi n) Hn) as [v Hview].
  unfold process_routing_update. rewrite Hview. simpl.
  set (a' := for_each t absorb (advertised_routes v)).
  set (r1 := with_tables (forwarding_table_ r) (<[n:=View a' (clk 0)]> (neighbor_views_ r)) r).
  assert (forall d, a' !! d = absorbed (advertised_routes v) d) as Ha'
    by (intros d; apply absorb_loop).
  assert (views_ok r1) as Hv1.
  { unfold r1, a'. pose proof (absorb_views_ok r n t (forwarding_table_ r) (clk 0) Hv) as H.
    rewrite Hview in H. apply H. intros d c Hd. by destruct (Ht d c Hd). }
  assert (costs_ok r1) as Hc1 by exact (table_ok_costs r Htab).
  destruct (recalculate_lookup r1 (clk 1)) as (Hft & Hnv & Hs & _ & Hseen & _ & Hup & _ & Hcb & _).
  assert (forall n', neighbor_views_ r1 !! n' = if decide (n' = n) then Some (View a' (clk 0))
            else neighbor_views_ r !! n') as Hnv1.
  { intros n'. unfold r1. simpl. destruct (decide (n' = n)) as [->|];
      by rewrite ?lookup_insert_eq, ?lookup_insert_ne by done. }
  assert (forall n' a d c, adv_of r1 n' = Some a -> a !! d = Some c -> walk adj n' d c) as Hw1.
  { intros n' a d c. unfold adv_of. rewrite Hnv1. destruct (decide (n' = n)) as [->|Hn'].
    - simpl. intros [= <-]. rewrite Ha'. unfold absorbed. destruct (t !! d) as [c0|] eqn:E.
      + destruct (Ht d c0 E) as (? & Hw & _). destruct (Z.leb_spec INF_COST c0); [done|].
        intros [= <-]. by apply Hw.
      + intros Hc. apply (inv_walks u r Hi n (advertised_routes v)); [|done].
        unfold adv_of. by rewrite Hview.
    - apply (inv_walks u r Hi). }
  split_and!.
  - split.
    + rewrite Hs. exact Hself.
    + by apply recalculate_ok.
    + rewrite Hup. apply (inv_up u r Hi).
    + rewrite Hcb, Hseen. apply (inv_idle u r Hi).
    + by apply recalculate_settled.
    + intros n'. rewrite Hnv, Hnv1. destruct (decide (n' = n)) as [->|]; [by split; eauto|].
      apply (inv_neighbors u r Hi).
    + intros n' a d c. unfold adv_of. rewrite Hnv. apply Hw1.
    + intros n0 d Hn0. rewrite Hft. intros [e He].
      destruct (new_table (clk 1) r1 !! d) as [f|] eqn:Ef.
      * destruct (decide (d = u)) as [->|Hd]; [by apply (adj_utf8 n); apply adj_sym|].
        assert (d <> self_id_ r1) as Hd1 by (simpl; congruence).
        pose proof (new_table_spec r1 (clk 1) d Hv1 Hd1) as Hsp. rewrite Ef in Hsp.
        destruct Hsp as ((v' & Hv' & Hvia) & _).
        assert (next_hop f ∈ adj u) as Hadj.
        { apply (inv_neighbors u r Hi). rewrite Hnv1 in Hv'.
          destruct (decide (next_hop f = n)) as [->|]; eauto. }
        destruct Hvia as [[-> _]|(rc & Hrc & _)]; [by eapply adj_utf8|].
        apply (walk_utf8 adj (next_hop f) d rc topo); [|by eapply adj_utf8].
        apply (Hw1 _ (advertised_routes v')); [|done]. unfold adv_of. by rewrite Hv'.
      * apply (inv_keys u r Hi n0); [done|]. unfold updated in He. rewrite Ef in He. simpl in He.
        destruct (forwarding_table_ r !! d); [by eexists|done].
  - exists (advertised_routes v), a'. unfold adv_of. rewrite Hnv, Hnv1, Hview, decide_True by done. done.
  - intros n' Hn'. unfold adv_of. by rewrite Hnv, Hnv1, decide_False.
Qed.
End message.

(** Refreshing [last_heard_from] changes nothing the invariant speaks of. *)
Lemma touch_inv u r n v (time : Z) :
  node_inv u r -> neighbor_views_ r !! n = Some v ->
  let r' := with_tables (forwarding_table_ r)
              (<[n := View (advertised_routes v) time]> (neighbor_views_ r)) r in
  node_inv u r' /\ forall n', adv_of r' n' = adv_of r n'.
Proof.
  intros Hi Hv r'.
  assert (forall n', adv_of r' n' = adv_of r n') as Ha.
  { intros n'. unfold adv_of, r'. simpl. destruct (decide (n' = n)) as [->|];
      [by rewrite lookup_insert_eq, Hv|by rewrite lookup_insert_ne]. }
  pose proof (hear_sound time n r (conj (inv_ok u r Hi) (inv_settled u r Hi))) as Hh.
  unfold hear in Hh. rewrite Hv in Hh. destruct Hh as [Hok Hset].
  split; [|done]. split; [apply Hi|exact Hok|apply (inv_up u r Hi)|apply (inv_idle u r Hi)|exact Hset|..].
  - intros n'. rewrite <-(inv_neighbors u r Hi n'). specialize (Ha n'). unfold adv_of in Ha.
    destruct (neighbor_views_ r' !! n'), (neighbor_views_ r !! n'); simpl in Ha; done.
  - intros n' a d c. rewrite Ha. apply (inv_walks u r Hi).
  - apply (inv_keys u r Hi).
Qed.

(** Every action sent to [u] by the broadcast of a neighbour: one envelope. *)
Lemma messages_to_one u (l : list bytes) (f : nat -> bytes -> Envelope) :
  NoDup l -> u ∈ l ->
  exists i, messages_to u (imap (fun i n => SendTcp n (f i n)) l) = [f i u].
Proof.
  revert f. induction l as [|n l IH]; intros f Hnd Hin; [by apply not_elem_of_nil in Hin|].
  apply NoDup_cons in Hnd as [Hn Hnd]. simpl. case_bool_decide as Heq.
  - subst. exists 0. f_equal. clear IH Hin Hnd. revert f.
    induction l as [|n l IH]; intros f; [done|]. apply not_elem_of_cons in Hn as [Hne Hn].
    simpl. rewrite bool_decide_false by done. apply (IH Hn (fun i => f (S i))).
  - apply elem_of_cons in Hin as [|Hin]; [done|].
    destruct (IH (fun i => f (S i)) Hnd Hin) as [i Hi]. exists (S i). exact Hi.
Qed.

Lemma inbox_one net u n :
  node_inv n (net n) -> u ∈ adj n ->
  exists i, messages_to u (broadcast_full_table (uuid n) (net n)).2 =
    [update_envelope (uuid n i) n u 15 (full_table (forwarding_table_ (net n)) u)].
Proof.
  intros Hi Hu. rewrite broadcast_full_table_eq, (inv_up n (net n) Hi), (inv_self n (net n) Hi). simpl.
  destruct (messages_to_one u (iter (neighbor_views_ (net n))).*1
    (fun i p => update_envelope (uuid n (draws (net n) + i)) n p 15
                  (full_table (forwarding_table_ (net n)) p))) as [i ->].
  - apply NoDup_iter_keys.
  - apply iter_keys. by apply (inv_neighbors n (net n) Hi).
  - by eexists.
Qed.

(** The table a neighbour sends is sound. *)
Lemma full_table_sound net u n d c :
  node_inv n (net n) -> u ∈ adj n -> full_table (forwarding_table_ (net n)) u !! d = Some c ->
  (0 <= c <= INF_COST)%Z /\ ((c < INF_COST)%Z -> walk adj n d c) /\ utf8_valid d = true.
Proof.
  intros Hi Hu. rewrite full_table_lookup. intros (e & He & ->)%fmap_Some.
  pose proof (table_ok_costs _ (proj2 (inv_ok n _ Hi)) d e He) as Hc. unfold poisoned.
  assert (table_cost (net n) d = cost e) as Htc by (unfold table_cost; by rewrite He).
  split; [case_bool_decide; unfold INF_COST in *; lia|]. split.
  - case_bool_decide; [lia|]. intros Hlt. rewrite <-Htc. apply table_sound; [done|]. lia.
  - apply (inv_keys n _ Hi u); [done|]. by eexists.
Qed.

Lemma update_packet_ok (i : bytes) n u (t : RouteTable) :
  utf8_valid n = true -> utf8_valid u = true ->
  (forall d c, t !! d = Some c -> (0 <= c <= INF_COST)%Z /\ utf8_valid d = true) ->
  packet_ok (MakeRoutingTableRoutedPacket i n u 15 t) = true.
Proof.
  intros Hn Hu Ht. unfold packet_ok, packet_u32. simpl. rewrite Hn, Hu. simpl.
  rewrite !bool_decide_true; [done| |]; intros d c Hd; simpl; destruct (Ht d c Hd) as [Hc Hk]; [done|].
  unfold is_u32, INF_COST in *. apply andb_true_iff. split; [apply Z.leb_le|apply Z.ltb_lt]; lia.
Qed.

(** Handling one neighbour's broadcast. *)
Lemma deliver_inv net u n r clk :
  node_inv u r -> node_inv n (net n) -> n ∈ adj u ->
  let r' := foldl (fun r env => deliver clk n env r) r
              (messages_to u (broadcast_full_table (uuid n) (net n)).2) in
  node_inv u r' /\
  (exists a a', adv_of r n = Some a /\ adv_of r' n = Some a' /\
     forall d, a' !! d = absorbed (full_table (forwarding_table_ (net n)) u) a d) /\
  (forall n', n' <> n -> adv_of r' n' = adv_of r n').
Proof.
  intros Hi Hin Hn. pose proof (adj_sym u n Hn) as Hu.
  destruct (inbox_one net u n Hin Hu) as [i ->]. simpl. unfold deliver, decodeRoutedPacket. simpl.
  assert (n <> u) as Hne by (intros ->; by apply (adj_irrefl u)).
  rewrite parse_serialize.
  2:{ apply update_packet_ok; [by apply (adj_utf8 u)|by apply (adj_utf8 n)|].
      intros d c Hd. destruct (full_table_sound net u n d c Hin Hu Hd) as (? & _ & ?). done. }
  unfold handle_packet. simpl. rewrite (inv_self u r Hi).
  rewrite (bool_decide_false (n = u)) by done. simpl.
  destruct (proj2 (inv_neighbors u r Hi n) Hn) as [v Hv]. rewrite Hv. unfold get_route_table. simpl.
  destruct (touch_inv u r n v (clk 0) Hi Hv) as [Hi1 Ha1].
  set (r1 := with_tables _ _ r) in *.
  destruct (update_inv u n r1 (full_table (forwarding_table_ (net n)) u) Hi1 Hn) with (clk := fun i => clk (S i))
    as (H1 & H2 & H3).
  { intros d c Hd. destruct (full_table_sound net u n d c Hin Hu Hd) as (? & ? & ?). split_and!; [lia|done..]. }
  split_and!; [done| |].
  - by rewrite Ha1 in H2.
  - intros n' Hn'. rewrite H3 by done. apply Ha1.
Qed.

(** Handling the broadcasts of a list of neighbours. *)
Lemma deliver_all net u (l : list bytes) clk r :
  (forall n, node_inv n (net n)) -> node_inv u r -> NoDup l -> (forall n, n ∈ l -> n ∈ adj u) ->
  let r' := foldl (fun r n => foldl (fun r env => deliver (clk n) n env r) r
                      (messages_to u (broadcast_full_table (uuid n) (net n)).2)) r l in
  node_inv u r' /\
  (forall n, n ∈ l -> exists a a', adv_of r n = Some a /\ adv_of r' n = Some a' /\
     forall d, a' !! d = absorbed (full_table (forwarding_table_ (net n)) u) a d) /\
  (forall n, n ∉ l -> adv_of r' n = adv_of r n).
Proof.
  intros Hnet. revert r. induction l as [|n l IH]; intros r Hi Hnd Hl; simpl.
  { split_and!; [done| |done]. by intros n ?%not_elem_of_nil. }
  apply NoDup_cons in Hnd as [Hn Hnd].
  destruct (deliver_inv net u n r (clk n) Hi (Hnet n)) as (Hi1 & Ha1 & Ho1); [apply Hl; by left|].
  set (r1 := foldl _ r _) in *.
  destruct (IH r1 Hi1 Hnd) as (Hi2 & Ha2 & Ho2); [intros; apply Hl; by right|]. split_and!; [done|..].
  - intros m [->|Hm]%elem_of_cons.
    + rewrite Ho2 by done. exact Ha1.
    + assert (m <> n) by (intros ->; done). rewrite <-(Ho1 m) by done. by apply Ha2.
  - intros m [Hm1 Hm2]%not_elem_of_cons. rewrite Ho2, Ho1 by done. done.
Qed.

Lemma draws_inv u r k : node_inv u r -> node_inv u (with_draws k r).
Proof. intros []. by split. Qed.

Lemma round_inv ord clk net u :
  (forall n, node_inv n (net n)) -> ord u ≡ₚ adj u ->
  node_inv u (round ord clk net u) /\
  forall n, n ∈ adj u -> exists a a', adv_of (round ord clk net u) n = Some a' /\
    adv_of (net u) n = Some a /\ forall d, a' !! d = absorbed (full_table (forwarding_table_ (net n)) u) a d.
Proof.
  intros Hnet Hord. unfold round.
  assert (node_inv u (broadcast_full_table (uuid u) (net u)).1 /\
    forall n, adv_of (broadcast_full_table (uuid u) (net u)).1 n = adv_of (net u) n) as [H0 Ha0].
  { rewrite broadcast_full_table_eq. simpl. split; [by apply draws_inv|done]. }
  destruct (deliver_all net u (ord u) (clk u) _ Hnet H0) as (H1 & H2 & _).
  { rewrite Hord. apply adj_nodup. } { intros n. by rewrite Hord. }
  split; [done|]. intros n Hn. rewrite <-Hord in Hn. destruct (H2 n Hn) as (a & a' & ? & ? & ?).
  exists a, a'. rewrite <-Ha0. done.
Qed.

(** ** Completeness: shortest walks are found *)

Definition known (k : Z) net : Prop :=
  forall u d j, walk adj u d j -> (j <= k)%Z -> (j < INF_COST)%Z -> (table_cost (net u) d <= j)%Z.

(** An offer bounds the cost. *)
Lemma table_cost_le u r n v d :
  node_inv u r -> neighbor_views_ r !! n = Some v -> d <> u -> (table_cost r d <= offer d n v)%Z.
Proof.
  intros Hi Hv Hd. rewrite (proj1 (inv_settled u r Hi d)). unfold dv_cost.
  rewrite (inv_self u r Hi), bool_decide_false by done.
  destruct (best_offer_spec (map_to_list (neighbor_views_ r)) d) as (_ & H & _).
  apply H. by apply elem_of_map_to_list.
Qed.

Lemma table_cost_self u r : node_inv u r -> table_cost r u = 0%Z.
Proof.
  intros Hi. rewrite (proj1 (inv_settled u r Hi u)). unfold dv_cost.
  by rewrite (inv_self u r Hi), bool_decide_true, (inv_self_cost u r Hi).
Qed.

Lemma known_1 net : (forall u, node_inv u (net u)) -> known 1 net.
Proof.
  intros Hnet u d j Hw Hj _. destruct (decide (d = u)) as [->|Hd].
  { rewrite table_cost_self by done. by eapply walk_nonneg. }
  destruct Hw as [u|u n d c Hn Hw]; [done|]. pose proof (walk_nonneg _ _ _ _ Hw).
  assert (c = 0%Z) as -> by lia.
  apply walk_0 in Hw as ->.
  destruct (proj2 (inv_neighbors u _ (Hnet u) d) Hn) as [v Hv].
  etrans; [by apply (table_cost_le u _ d v)|]. unfold offer. by rewrite bool_decide_true.
Qed.

(** A neighbour whose route goes back through [u] has it from [u]. *)
Lemma poisoned_back net u n d e :
  node_inv n (net n) -> d <> n -> d <> u -> forwarding_table_ (net n) !! d = Some e ->
  (cost e < INF_COST)%Z -> next_hop e = u -> walk adj u d (cost e - 1).
Proof.
  intros Hi Hdn Hdu He Hlt Hback.
  destruct (proj2 (inv_settled n _ Hi d) e) as (v & Hv & Ho); [by rewrite (inv_self n _ Hi)|done..|].
  rewrite Hback in Hv, Ho. unfold offer in Ho. rewrite bool_decide_false in Ho by done.
  destruct (advertised_routes v !! d) as [c|] eqn:Hc; [|lia].
  assert (cost e - 1 = c)%Z as -> by lia.
  apply (inv_walks n _ Hi u (advertised_routes v)); [|done]. unfold adv_of. by rewrite Hv.
Qed.

Lemma known_step k ord clk net :
  (forall n, node_inv n (net n)) -> (forall u, ord u ≡ₚ adj u) -> known k net ->
  known (k + 1) (round ord clk net).
Proof.
  intros Hnet Hord Hk u d j Hw Hjk Hj.
  destruct (round_inv ord clk net u Hnet (Hord u)) as [Hi Hadv].
  assert (exists m, j <= Z.of_nat m)%Z as [m Hm] by (exists (Z.to_nat j); lia).
  revert j Hw Hjk Hj Hm. induction m as [|m IH]; intros j Hw Hjk Hj Hm.
  { assert (j = 0%Z) as -> by (apply walk_nonneg in Hw; lia). apply walk_0 in Hw as ->.
    by rewrite table_cost_self. }
  destruct (decide (d = u)) as [->|Hd]; [rewrite table_cost_self by done; by eapply walk_nonneg|].
  destruct Hw as [u|u n d c Hn Hw]; [done|].
  destruct (Hadv n Hn) as (a & a' & Ha' & _ & Habs).
  apply fmap_Some in Ha' as (v' & Hv' & ->).
  pose proof (table_cost_le u _ n v' d Hi Hv' Hd) as Hle. unfold offer in Hle.
  case_bool_decide as Hdn; [apply walk_nonneg in Hw; lia|].
  pose proof (Hk n d c Hw ltac:(lia) ltac:(lia)) as Hc. unfold table_cost in Hc.
  destruct (forwarding_table_ (net n) !! d) as [e|] eqn:He; simpl in Hc; [|lia].
  destruct (decide (next_hop e = u)) as [Hback|Hfwd].
  - pose proof (poisoned_back net u n d e (Hnet n) Hdn Hd He ltac:(lia) Hback) as Hw'.
    etrans; [apply (IH _ Hw'); lia|lia].
  - rewrite Habs in Hle. unfold absorbed in Hle. rewrite full_table_lookup, He in Hle. simpl in Hle.
    unfold poisoned in Hle. rewrite bool_decide_false in Hle by done.
    rewrite (proj2 (Z.leb_gt _ _)) in Hle by lia. lia.
Qed.

Lemma rounds_inv k net net' :
  rounds k net net' -> (forall u, node_inv u (net u)) ->
  (forall u, node_inv u (net' u)) /\ known (Z.of_nat k + 1) net'.
Proof.
  induction 1 as [net|k net net' ord clk _ IH Hord]; intros Hnet; [by split; [|apply known_1]|].
  destruct (IH Hnet) as [Hnet' Hk]. split.
  - intros u. by apply round_inv.
  - replace (Z.of_nat (S k) + 1)%Z with (Z.of_nat k + 1 + 1)%Z by lia. by apply known_step.
Qed.

(** ** Booting a node: what its constructor does to the router, and one event
    per neighbour *)

Definition new_node (now : Z) u : MeshRouter :=
  set_on_packet_for_me (set_transport true (make_router u false now)).

Definition boot (now : Z) (clk : bytes -> nat -> Z) u : MeshRouter :=
  foldl (fun r n => peer_connected (clk n) n r) (new_node now u) (adj u).

(** The node after it has met the neighbours [l]. *)
Definition booted u (l : list bytes) r : Prop :=
  self_id_ r = u /\ router_ok r /\ transport_ r = true /\
  (on_packet_for_me_cb_ r = true /\ seen_packet_ids_ r = Dedup.new_dedup (seconds 30)) /\ settled r /\
  (forall n, is_Some (neighbor_views_ r !! n) <-> n ∈ l) /\
  (forall n a, adv_of r n = Some a -> a = ∅) /\
  (forall d, is_Some (forwarding_table_ r !! d) -> d = u \/ d ∈ l).

Lemma make_router_booted u now : booted u [] (new_node now u).
Proof.
  assert (forall n, is_Some (neighbor_views_ (new_node now u) !! n) <-> n ∈ []) as Hn.
  { intros n. simpl. rewrite lookup_empty. split; [by intros []|by intros ?%not_elem_of_nil]. }
  destruct (make_router_sound u false now) as [Hok Hset].
  split_and!; [done|exact Hok|done|done|done|exact Hset|done| |].
  - intros n a. unfold adv_of. simpl. by rewrite lookup_empty.
  - intros d. simpl. intros [e [<- _]%lookup_singleton_Some]. by left.
Qed.

Lemma peer_connected_booted u l r clk n :
  booted u l r -> n <> u -> booted u (l ++ [n]) (peer_connected clk n r).
Proof.
  intros (Hs & Hok & Hup & [Hcb Hseen] & _ & Hn & Ha & Hk) Hne. unfold peer_connected.
  set (r1 := with_tables _ _ r).
  assert (forall n', neighbor_views_ r1 !! n' = if decide (n' = n) then
            Some (View (advertised_routes (default empty_view (neighbor_views_ r !! n))) (clk 0))
          else neighbor_views_ r !! n') as Hnv1.
  { intros n'. simpl. destruct (decide (n' = n)) as [->|]; by rewrite ?lookup_insert_eq, ?lookup_insert_ne. }
  assert (forall n' a, adv_of r1 n' = Some a -> a = ∅) as Ha1.
  { intros n' a. unfold adv_of. rewrite Hnv1. destruct (decide (n' = n)) as [->|]; [|apply Ha].
    simpl. intros [= <-]. specialize (Ha n). unfold adv_of in Ha.
    destruct (neighbor_views_ r !! n) as [v|]; simpl in *; [by apply Ha|done]. }
  assert (views_ok r1) as Hv1.
  { intros n' v d c Hv Hc. specialize (Ha1 n'). unfold adv_of in Ha1. rewrite Hv in Ha1.
    specialize (Ha1 _ eq_refl). by rewrite Ha1, lookup_empty in Hc. }
  assert (costs_ok r1) as Hc1 by exact (table_ok_costs r (proj2 Hok)).
  destruct (recalculate_lookup r1 (clk 1)) as (Hft & Hnv & Hs' & _ & Hseen' & _ & Hup' & _ & Hcb' & _).
  split_and!.
  - by rewrite Hs'.
  - by apply recalculate_ok.
  - by rewrite Hup'.
  - by rewrite Hcb'.
  - by rewrite Hseen'.
  - by apply recalculate_settled.
  - intros n'. rewrite Hnv, Hnv1, elem_of_app, list_elem_of_singleton, <-Hn.
    destruct (decide (n' = n)) as [->|]; [|tauto]. split; [by right|by eauto].
  - intros n' a. unfold adv_of. rewrite Hnv. apply Ha1.
  - intros d. rewrite Hft, elem_of_app, list_elem_of_singleton. intros [e He].
    destruct (new_table (clk 1) r1 !! d) as [f|] eqn:Ef.
    + destruct (decide (d = u)) as [|Hd]; [by left|].
      assert (d <> self_id_ r1) as Hd1 by (simpl; congruence).
      pose proof (new_table_spec r1 (clk 1) d Hv1 Hd1) as Hsp. rewrite Ef in Hsp.
      destruct Hsp as ((v' & Hv' & [[Heq _]|(rc & Hrc & _)]) & _).
      * rewrite <-Heq, Hnv1 in Hv'. destruct (decide (d = n)); [by right; right|].
        right. left. apply Hn. by eexists.
      * specialize (Ha1 (next_hop f)). unfold adv_of in Ha1. rewrite Hv' in Ha1.
        specialize (Ha1 _ eq_refl). by rewrite Ha1, lookup_empty in Hrc.
    + unfold updated in He. rewrite Ef in He. simpl in He.
      destruct (Hk d) as [|]; [destruct (forwarding_table_ r !! d); [by eexists|done]|by left|by right; left].
Qed.

Lemma boot_list u (l : list bytes) r (l0 : list bytes) clk :
  (forall n, n ∈ l -> n <> u) -> booted u l0 r ->
  booted u (l0 ++ l) (foldl (fun r n => peer_connected (clk n) n r) r l).
Proof.
  revert r l0. induction l as [|n l IH]; intros r l0 Hne H0; simpl; [by rewrite app_nil_r|].
  replace (l0 ++ n :: l) with ((l0 ++ [n]) ++ l) by by rewrite <-app_assoc.
  apply IH; [intros; apply Hne; by right|]. apply peer_connected_booted; [done|]. apply Hne. by left.
Qed.

Lemma boot_inv now clk u : node_inv u (boot now clk u).
Proof.
  assert (booted u (adj u) (boot now clk u)) as (Hs & Hok & Hup & Hidle & Hset & Hn & Ha & Hk).
  { apply (boot_list u (adj u) (new_node now u) [] clk); [|apply make_router_booted].
    intros n Hn ->. by apply (adj_irrefl u). }
  split; try done.
  - intros n a d c H1 H2. rewrite (Ha n a H1), lookup_empty in H2. done.
  - intros n d Hn' [->|Hd]%Hk; [by apply (adj_utf8 n), adj_sym|by eapply adj_utf8].
Qed.

(** Shortest walks continue at the next hop. *)
Lemma next_hop_closer net u d e :
  (forall n, node_inv n (net n)) -> known 15 net -> d <> u ->
  forwarding_table_ (net u) !! d = Some e -> (cost e < INF_COST)%Z ->
  next_hop e ∈ adj u /\ table_cost (net (next_hop e)) d = (cost e - 1)%Z.
Proof.
  intros Hnet Hk Hd He Hlt.
  destruct (proj2 (inv_settled u _ (Hnet u) d) e) as (v & Hv & Ho);
    [by rewrite (inv_self u _ (Hnet u))|done..|].
  assert (next_hop e ∈ adj u) as Hn by (apply (inv_neighbors u _ (Hnet u)); by eexists).
  split; [done|].
  assert (walk adj (next_hop e) d (cost e - 1)) as Hw.
  { unfold offer in Ho. case_bool_decide as Hdn.
    - subst d. rewrite <-Ho. constructor.
    - destruct (advertised_routes v !! d) as [c|] eqn:Hc; [|lia].
      assert (cost e - 1 = c)%Z as -> by lia.
      apply (inv_walks u _ (Hnet u) _ (advertised_routes v)); [|done]. unfold adv_of. by rewrite Hv. }
  pose proof (walk_nonneg _ _ _ _ Hw). unfold INF_COST in *.
  pose proof (Hk _ _ _ Hw ltac:(lia) ltac:(unfold INF_COST; lia)) as Hle. apply Z.le_antisymm; [done|].
  assert (walk adj u d (table_cost (net (next_hop e)) d + 1)) as Hw2.
  { apply walk_step with (next_hop e); [done|]. apply table_sound; [done|]. unfold INF_COST. lia. }
  pose proof (Hk _ _ _ Hw2 ltac:(lia) ltac:(unfold INF_COST; lia)) as Hle2.
  unfold table_cost in Hle2 at 1. rewrite He in Hle2. simpl in Hle2. lia.
Qed.
(** Costs are hop distances. *)
Lemma table_exact net u d :
  (forall n, node_inv n (net n)) -> known 15 net -> hop_distance adj u d (table_cost (net u) d).
Proof.
  intros Hnet H15. destruct (Z.lt_ge_cases (table_cost (net u) d) INF_COST) as [Hlt|Hge].
  - left. split_and!; [done|by apply table_sound|]. intros j Hw.
    destruct (Z.lt_ge_cases j INF_COST); [|lia]. apply H15; [done| |done]. unfold INF_COST in *. lia.
  - right. split.
    + apply Z.le_antisymm; [|lia]. rewrite (proj1 (inv_settled u _ (Hnet u) d)). unfold dv_cost.
      rewrite (inv_self_cost u _ (Hnet u)).
      case_bool_decide; [done|]. by destruct (best_offer_spec (map_to_list (neighbor_views_ (net u))) d).
    + intros j Hw. destruct (Z.lt_ge_cases j INF_COST); [|lia].
      pose proof (H15 u d j Hw). unfold INF_COST in *. lia.
Qed.

(** The state after 14 rounds. *)
Lemma rounds_converge now (clk : bytes -> bytes -> nat -> Z) k net :
  rounds k (fun u => boot now (clk u) u) net -> 14 <= k ->
  (forall u, node_inv u (net u)) /\ known 15 net.
Proof.
  intros Hrun Hk. destruct (rounds_inv k _ net Hrun (fun u => boot_inv now (clk u) u)) as [Hnet Hkn].
  split; [done|]. intros a b j Hw Hj. apply Hkn; [done|lia].
Qed.

(** A usable route of a converged network. *)
Lemma next_hop_route net u d :
  (forall n, node_inv n (net n)) -> known 15 net -> d <> u -> (table_cost (net u) d < INF_COST)%Z ->
  exists e, forwarding_table_ (net u) !! d = Some e /\ cost e = table_cost (net u) d /\ next_hop e ∈ adj u /\
    table_cost (net (next_hop e)) d = (table_cost (net u) d - 1)%Z.
Proof.
  intros Hnet H15 Hd Hlt. unfold table_cost in Hlt. destruct (forwarding_table_ (net u) !! d) as [e|] eqn:He;
    simpl in Hlt; [|lia]. exists e.
  destruct (next_hop_closer net u d e Hnet H15 Hd He Hlt) as [? ->]. unfold table_cost. by rewrite He.
Qed.
End network.

(** (C6) Convergence: on any topology, from freshly booted nodes, after 14 or
    more rounds of full-table broadcasts, delivered in any order, every router's
    cost for every destination is the hop distance (16 for 16 hops or more), and
    the next hop of a reachable destination is a neighbour one hop closer to it:
    following next hops reaches the destination without loops. *)
Theorem routing_converges {o : IterOrder} {laws : IterOrderLaws o} {w : Wire RoutedPacket}
    {pw : PacketWire} (uuid : bytes -> nat -> bytes)
    (cb : MeshRouter -> RoutedPacket -> MeshRouter * RoutedPacket * list action)
    (adj : bytes -> list bytes) {topo : Topology adj}
    (now : Z) (clk : bytes -> bytes -> nat -> Z) (k : nat) (net : bytes -> MeshRouter)
    (Hrun : rounds uuid cb adj k (fun u => boot adj now (clk u) u) net) (Hk : 14 <= k) (u d : bytes) :
  hop_distance adj u d (table_cost (net u) d) /\
  (d <> u -> (table_cost (net u) d < INF_COST)%Z ->
   exists e, forwarding_table_ (net u) !! d = Some e /\ next_hop e ∈ adj u /\
     table_cost (net (next_hop e)) d = (table_cost (net u) d - 1)%Z).
Proof.
  destruct (rounds_converge uuid cb adj now clk k net Hrun Hk) as [Hnet H15].
  split; [by apply table_exact|]. intros Hd Hlt.
  destruct (next_hop_route adj net u d Hnet H15 Hd Hlt) as (e & He & _ & Hn & Hc). by exists e.
Qed.

(** The line a - b - c. *)
Definition line (u : bytes) : list bytes :=
  if bool_decide (u = nA) then [nB]
  else if bool_decide (u = nB) then [nA; nC]
  else if bool_decide (u = nC) then [nB] else [].

Lemma line_topology : Topology line.
Proof.
  assert (forall u n, n ∈ line u -> (u = nA /\ n = nB) \/ (u = nB /\ (n = nA \/ n = nC)) \/ (u = nC /\ n = nB))
    as Hl.
  { intros u n. unfold line. repeat case_bool_decide; rewrite ?elem_of_cons, ?elem_of_nil; intuition. }
  split.
  - intros u n [[-> ->]|[[-> [->| ->]]|[-> ->]]]%Hl; apply (bool_decide_unpack _); vm_compute; exact I.
  - intros u Hu%Hl. vm_compute in Hu. intuition congruence.
  - intros u. unfold line. repeat case_bool_decide; apply (bool_decide_unpack _); vm_compute; exact I.
  - intros u n [[_ ->]|[[_ [->| ->]]|[_ ->]]]%Hl; reflexivity.
Qed.

Lemma routing_converges_witness :
  exists net, @rounds map_order packet_wire (fun _ _ => []) ignore_packet line 14
      (fun u => @boot map_order line 0 (fun _ => Z.of_nat) u) net /\
    hop_distance line nA nC (table_cost (net nA) nC) /\ (table_cost (net nA) nC <= 2)%Z.
Proof.
  set (step := @round map_order packet_wire (fun _ _ => []) ignore_packet line (fun _ _ => Z.of_nat)).
  set (net0 := fun u => @boot map_order line 0 (fun _ => Z.of_nat) u).
  pose proof (fun k => @iter_rounds map_order packet_wire (fun _ _ => []) ignore_packet line k (fun _ _ => Z.of_nat) net0) as Hr.
  exists (Nat.iter 14 step net0). split; [apply Hr|].
  destruct (@routing_converges map_order map_order_laws packet_wire packet_wire_laws (fun _ _ => [])
    ignore_packet line line_topology 0 (fun _ _ => Z.of_nat) 14 (Nat.iter 14 step net0) (Hr 14)
    ltac:(lia) nA nC) as [W _].
  split; [exact W|].
  assert (walk line nA nC 2) as Hw.
  { apply (walk_step line nA nB nC 1); [by left|]. apply (walk_step line nB nC nC 0); [by right; left|].
    constructor. }
  destruct W as [(_ & _ & Hmin)|(_ & Hmin)]; [by apply Hmin|].
  specialize (Hmin 2%Z Hw). unfold INF_COST in Hmin. lia.
Defined.

End Network.
