(* ===== verification/UdpTransport.v ===== *)
(** * The UDP transport

    [UdpTransport] of src/src/mesh/net/udp/UdpTransport.{h,cpp}: one FEC encoder
    per destination, one decoder per source and code parameters, and the
    datagram handler.  The socket is what is sent and what arrives. *)

From S2P Require Import Prelude GF256 GaussJordan Cauchy FecFrame FecCodec FecRecovery.
From S2P Require Import FecInvariants Utils Packet.

Module Udp.
Import Frame Fec Recovery FecInv Utils Packet.

(** ** The code *)

Record UdpFecOptions := FecOptions { enabled : bool; data_shards : nat; roots : nat }.

Record endpoint := Endpoint { address : bytes; port : Z }.

(** A [unique_ptr] of the maps may be null. *)
Record UdpTransport := Transport {
  is_open : bool;
  fec_options_ : UdpFecOptions;
  encoders_by_endpoint_ : gmap bytes (option FecCodec);
  decoders_by_endpoint_ : gmap bytes (option FecCodec);
  on_receive_cb_ : bool
}.

Inductive udp_error := BindFailed | NoDataShard | TooManyShards.

(** The constructor, and what it throws.  The initialiser of [socket_] opens a
    socket and binds it to the [uint16_t] port before the body runs; [udp_bind]
    says for which ports the system allows that. *)
Definition make_transport (udp_bind : Z -> bool) (port : Z) (opts : UdpFecOptions)
    : outcome udp_error UdpTransport :=
  if negb (udp_bind (u16 port)) then Err BindFailed
  else
  let opts := if roots opts =? 0 then FecOptions false (data_shards opts) (roots opts) else opts in
  if enabled opts && (data_shards opts <? 1) then Err NoDataShard
  else if enabled opts && (254 <? data_shards opts + roots opts) then Err TooManyShards
  else Ok (Transport true opts ∅ ∅ false).

Definition set_on_receive (t : UdpTransport) : UdpTransport :=
  Transport (is_open t) (fec_options_ t) (encoders_by_endpoint_ t) (decoders_by_endpoint_ t) true.

Definition shutdown (t : UdpTransport) : UdpTransport :=
  Transport false (fec_options_ t) (encoders_by_endpoint_ t) (decoders_by_endpoint_ t) (on_receive_cb_ t).

Definition endpoint_key (e : endpoint) : bytes := address e ++ [x3a] ++ to_string (port e).

Definition decoder_key (e : endpoint) (k m : nat) : bytes :=
  endpoint_key e ++ [x2f] ++ to_string (Z.of_nat k) ++ [x2f] ++ to_string (Z.of_nat m).

Definition with_encoder (key : bytes) (c : option FecCodec) (t : UdpTransport) : UdpTransport :=
  Transport (is_open t) (fec_options_ t) (<[key := c]> (encoders_by_endpoint_ t))
    (decoders_by_endpoint_ t) (on_receive_cb_ t).

Definition with_decoder (key : bytes) (c : option FecCodec) (t : UdpTransport) : UdpTransport :=
  Transport (is_open t) (fec_options_ t) (encoders_by_endpoint_ t)
    (<[key := c]> (decoders_by_endpoint_ t)) (on_receive_cb_ t).

(** [map[key]], and the codec built when the pointer is null; a constructor that
    throws leaves the null entry behind. *)
Definition codec_in (m : gmap bytes (option FecCodec)) (key : bytes) (k r : nat)
    : outcome fec_error FecCodec :=
  match m !! key with
  | Some (Some c) => Ok c
  | _ => make_codec k r
  end.

Definition encoder_for (e : endpoint) (t : UdpTransport) : UdpTransport * outcome fec_error FecCodec :=
  let key := endpoint_key e in
  match codec_in (encoders_by_endpoint_ t) key (data_shards (fec_options_ t)) (roots (fec_options_ t)) with
  | Ok c => (with_encoder key (Some c) t, Ok c)
  | Err x => (with_encoder key None t, Err x)
  end.

Definition decoder_for (e : endpoint) (k m : nat) (t : UdpTransport)
    : UdpTransport * outcome fec_error FecCodec :=
  let key := decoder_key e k m in
  match codec_in (decoders_by_endpoint_ t) key k m with
  | Ok c => (with_decoder key (Some c) t, Ok c)
  | Err x => (with_decoder key None t, Err x)
  end.

(** The datagram handed to the socket. *)
Definition send_datagram (dest : endpoint) (datagram : bytes) (t : UdpTransport)
    : list (endpoint * bytes) :=
  if is_open t then [(dest, datagram)] else [].

Definition send_packet {w : Wire RoutedPacket} (dest : endpoint) (pkt : RoutedPacket) (t : UdpTransport)
    : UdpTransport * list (endpoint * bytes) :=
  if negb (is_open t) then (t, [])
  else
    let payload := SerializeAsString pkt in
    if negb (enabled (fec_options_ t)) then (t, send_datagram dest payload t)
    else
      match encoder_for dest t with
      | (t, Err _) => (t, [])
      | (t, Ok encoder) =>
          let '(encoder, encoded) := encode encoder payload in
          let t := with_encoder (endpoint_key dest) (Some encoder) t in
          match encoded with
          | Err _ => (t, [])
          | Ok r => (t, send_datagram dest (data_frame r) t ++
                        (parity_frames r ≫= fun f => send_datagram dest f t))
          end
      end.

(** The completion handler of [async_receive_from], for a datagram that arrived
    without error: the payloads handed to [on_receive_cb_].  The buffer of 65536
    bytes holds any datagram, which has at most 65507. *)
Definition receive_datagram (src : endpoint) (raw_data : bytes) (t : UdpTransport)
    : UdpTransport * list (endpoint * bytes) :=
  if negb (is_open t) then (t, [])
  else if (length raw_data =? 0) || negb (on_receive_cb_ t) then (t, [])
  else if is_fec_frame raw_data then
    match frame_config raw_data with
    | None => (t, [])
    | Some (k, m) =>
        match decoder_for src k m t with
        | (t, Err _) => (t, [])
        | (t, Ok decoder) =>
            let '(decoder, payloads) := decode decoder raw_data in
            (with_decoder (decoder_key src k m) (Some decoder) t, map (fun p => (src, p)) payloads)
        end
    end
  else (t, [(src, raw_data)]).

(** ** Keys *)

(** [uint16_t] ports and [uint8_t] parameters. *)
Definition endpoint_ok (e : endpoint) : Prop := (0 <= port e < 65536)%Z.

Lemma colon_not_digit : is_digit x3a = false.
Proof. done. Qed.
Lemma slash_not_digit : is_digit x2f = false.
Proof. done. Qed.

Lemma endpoint_key_inj e1 e2 :
  endpoint_ok e1 -> endpoint_ok e2 -> endpoint_key e1 = endpoint_key e2 -> e1 = e2.
Proof.
  unfold endpoint_ok, endpoint_key. intros H1 H2 H. simpl in H.
  apply split_last in H as [Ha Hp].
  - apply to_string_inj in Hp; [|lia..]. destruct e1, e2. simpl in *. by subst.
  - apply not_in_digits; [done|]. apply to_string_digits. lia.
  - apply not_in_digits; [done|]. apply to_string_digits. lia.
Qed.

Lemma decoder_key_inj e1 e2 k1 k2 m1 m2 :
  endpoint_ok e1 -> endpoint_ok e2 -> k1 < 256 -> k2 < 256 -> m1 < 256 -> m2 < 256 ->
  decoder_key e1 k1 m1 = decoder_key e2 k2 m2 -> e1 = e2 /\ k1 = k2 /\ m1 = m2.
Proof.
  intros He1 He2 Hk1 Hk2 Hm1 Hm2 H. unfold decoder_key in H.
  rewrite !(app_assoc (endpoint_key _)), !(app_assoc (_ ++ _)) in H.
  rewrite <-!(app_assoc _ [x2f]) in H. simpl in H.
  assert (forall n, x2f ∉ to_string (Z.of_nat n)) as Hs.
  { intros n. apply not_in_digits; [done|]. apply to_string_digits. lia. }
  replace (endpoint_key e1 ++ x2f :: to_string (Z.of_nat k1) ++ x2f :: to_string (Z.of_nat m1))
    with ((endpoint_key e1 ++ x2f :: to_string (Z.of_nat k1)) ++ x2f :: to_string (Z.of_nat m1)) in H
    by (by rewrite <-app_assoc).
  replace (endpoint_key e2 ++ x2f :: to_string (Z.of_nat k2) ++ x2f :: to_string (Z.of_nat m2))
    with ((endpoint_key e2 ++ x2f :: to_string (Z.of_nat k2)) ++ x2f :: to_string (Z.of_nat m2)) in H
    by (by rewrite <-app_assoc).
  apply split_last in H as [H Hm]; [|apply Hs..]. apply split_last in H as [He Hk]; [|apply Hs..].
  apply to_string_inj in Hm, Hk; [|lia..]. apply endpoint_key_inj in He; [|done..].
  split_and!; [done|lia|lia].
Qed.

(** ** Codecs behind the maps *)

Definition params_ok (k m : nat) : Prop := 1 <= k /\ 1 <= m /\ k + m <= 254.

(** The codec an access to the map works with. *)
Definition codec_at (t : gmap bytes (option FecCodec)) (key : bytes) (k m : nat) : FecCodec :=
  match t !! key with Some (Some c) => c | _ => initial_codec k m end.

Lemma make_codec_params k m : params_ok k m -> make_codec k m = Ok (initial_codec k m).
Proof.
  intros (Hk & Hm & Hkm). unfold make_codec. do 3 (case_goal; [bool_to_prop; lia|]). done.
Qed.

Lemma codec_in_at t key k m : params_ok k m -> codec_in t key k m = Ok (codec_at t key k m).
Proof.
  intros H. unfold codec_in, codec_at. destruct (t !! key) as [[c|]|]; [done|..]; by apply make_codec_params.
Qed.

Lemma codec_at_insert t key k m c : codec_at (<[key := Some c]> t) key k m = c.
Proof. unfold codec_at. by rewrite lookup_insert_eq. Qed.

Lemma with_encoder_twice key c c' t : with_encoder key c' (with_encoder key c t) = with_encoder key c' t.
Proof. unfold with_encoder. simpl. by rewrite insert_insert_eq. Qed.

Lemma with_decoder_twice key c c' t : with_decoder key c' (with_decoder key c t) = with_decoder key c' t.
Proof. unfold with_decoder. simpl. by rewrite insert_insert_eq. Qed.

Section udp.
Context {w : Wire RoutedPacket}.
Implicit Types (t : UdpTransport) (src dest : endpoint).

(** ** Sending *)

(** Successive packets to one destination. *)
Fixpoint send_all dest (ps : list RoutedPacket) t : UdpTransport * list (endpoint * bytes) :=
  match ps with
  | [] => (t, [])
  | p :: ps => let '(t, d) := send_packet dest p t in
               let '(t, ds) := send_all dest ps t in (t, d ++ ds)
  end.

Definition encoder_at dest t : FecCodec :=
  codec_at (encoders_by_endpoint_ t) (endpoint_key dest) (data_shards (fec_options_ t)) (roots (fec_options_ t)).

(** The socket is open and FEC is on with valid parameters. *)
Definition fec_on t : Prop :=
  is_open t = true /\ enabled (fec_options_ t) = true /\
  params_ok (data_shards (fec_options_ t)) (roots (fec_options_ t)).

Lemma send_packet_fec dest p t :
  fec_on t ->
  send_packet dest p t =
  let '(c, res) := encode (encoder_at dest t) (SerializeAsString p) in
  (with_encoder (endpoint_key dest) (Some c) t, map (fun f => (dest, f)) (emitted res)).
Proof.
  intros (Ho & He & Hp). unfold send_packet. rewrite Ho, He. simpl. unfold encoder_for.
  rewrite codec_in_at by done. fold (encoder_at dest t).
  destruct (encode (encoder_at dest t) (SerializeAsString p)) as [c [r|e]];
    rewrite with_encoder_twice; [|done].
  unfold send_datagram. simpl. rewrite Ho. simpl. do 2 f_equal.
Qed.

Lemma send_all_fec dest ps t :
  fec_on t ->
  (send_all dest ps t).2 =
  map (fun f => (dest, f)) (concat (map emitted (encode_all (encoder_at dest t) (map SerializeAsString ps)).2)).
Proof.
  revert t. induction ps as [|p ps IH]; intros t Ht; [done|]. simpl.
  rewrite send_packet_fec by done. destruct (encode _ _) as [c res].
  specialize (IH (with_encoder (endpoint_key dest) (Some c) t) Ht).
  unfold encoder_at in IH. simpl in IH. rewrite codec_at_insert in IH.
  destruct (send_all dest ps _) as [t' ds]. simpl in IH. rewrite IH.
  destruct (encode_all c _) as [c' rs]. simpl. by rewrite map_app.
Qed.

(** ** Receiving *)

Fixpoint receive_all src (dgs : list bytes) t : UdpTransport * list (list (endpoint * bytes)) :=
  match dgs with
  | [] => (t, [])
  | dg :: dgs => let '(t, d) := receive_datagram src dg t in
                 let '(t, ds) := receive_all src dgs t in (t, d :: ds)
  end.

Definition decoder_at src (k m : nat) t : FecCodec :=
  codec_at (decoders_by_endpoint_ t) (decoder_key src k m) k m.

Definition listening t : Prop := is_open t = true /\ on_receive_cb_ t = true.

Lemma fec_frame_nonempty dg : is_fec_frame dg = true -> (length dg =? 0) = false.
Proof. unfold is_fec_frame. destruct dg; [done|]. done. Qed.

Lemma receive_fec src dg k m t :
  listening t -> params_ok k m -> frame_config dg = Some (k, m) ->
  receive_datagram src dg t =
  let '(c, out) := decode (decoder_at src k m t) dg in
  (with_decoder (decoder_key src k m) (Some c) t, map (fun p => (src, p)) out).
Proof.
  intros [Ho Hc] Hp Hcfg. unfold receive_datagram. rewrite Ho, Hc. simpl.
  assert (is_fec_frame dg = true) as Hf.
  { unfold frame_config in Hcfg. by destruct (is_fec_frame dg). }
  rewrite fec_frame_nonempty, Hf, Hcfg by done. simpl. unfold decoder_for.
  rewrite codec_in_at by done. fold (decoder_at src k m t).
  destruct (decode (decoder_at src k m t) dg) as [c out]. by rewrite with_decoder_twice.
Qed.

Lemma receive_all_fec src dgs k m t :
  listening t -> params_ok k m -> Forall (fun dg => frame_config dg = Some (k, m)) dgs ->
  (receive_all src dgs t).2 =
  map (map (fun p => (src, p))) (decode_all (decoder_at src k m t) dgs).2.
Proof.
  intros Hl Hp Hf. revert t Hl. induction Hf as [|dg dgs Hdg _ IH]; intros t Hl; [done|]. simpl.
  rewrite (receive_fec src dg k m) by done. destruct (decode _ dg) as [c out].
  specialize (IH (with_decoder (decoder_key src k m) (Some c) t) Hl).
  unfold decoder_at in IH. simpl in IH. rewrite codec_at_insert in IH.
  destruct (receive_all src dgs _) as [t' ds]. simpl in IH. rewrite IH.
  by destruct (decode_all c dgs).
Qed.

Lemma group_frame_config gid k m ps i :
  params_ok k m -> frame_config (group_frame gid k m ps i) = Some (k, m).
Proof. intros (? & ? & ?). unfold group_frame. rewrite frame_config_make_header; [done|lia..]. Qed.

(** ** Robustness *)

(** Every decoder is in order and sits under the key of its parameters. *)
Definition decoders_ok t : Prop :=
  forall src k m c, endpoint_ok src -> k < 256 -> m < 256 ->
    decoders_by_endpoint_ t !! decoder_key src k m = Some (Some c) ->
    recv_ok c /\ k_ c = k /\ m_ c = m.

Lemma initial_recv_ok k m : params_ok k m -> recv_ok (initial_codec k m).
Proof.
  intros Hp. destruct (initial_codec_ok k m (make_codec_params k m Hp)) as [Hc _].
  split_and!; [done|simpl; lia|]. intros gid g. simpl. by rewrite lookup_empty.
Qed.

(** A decoder stored under its key keeps the others as they are. *)
Lemma with_decoder_ok src k m c t :
  decoders_ok t -> endpoint_ok src -> k < 256 -> m < 256 ->
  match c with Some c => recv_ok c /\ k_ c = k /\ m_ c = m | None => True end ->
  decoders_ok (with_decoder (decoder_key src k m) c t).
Proof.
  intros Ht Hs Hk Hm Hc src' k' m' c' Hs' Hk' Hm' Hl. simpl in Hl.
  destruct (decide (decoder_key src' k' m' = decoder_key src k m)) as [Heq|Hne].
  - apply decoder_key_inj in Heq as (-> & -> & ->); [|done..]. rewrite lookup_insert_eq in Hl. by simplify_eq.
  - rewrite lookup_insert_ne in Hl by done. by eapply Ht.
Qed.

Lemma codec_in_ok src k m t :
  decoders_ok t -> endpoint_ok src -> k < 256 -> m < 256 ->
  match codec_in (decoders_by_endpoint_ t) (decoder_key src k m) k m with
  | Ok c => recv_ok c /\ k_ c = k /\ m_ c = m
  | Err _ => ~ params_ok k m
  end.
Proof.
  intros Ht Hs Hk Hm. unfold codec_in.
  assert (match make_codec k m with Ok c => recv_ok c /\ k_ c = k /\ m_ c = m
          | Err _ => ~ params_ok k m end) as Hmake.
  { destruct (make_codec k m) as [c|e] eqn:E.
    - apply make_codec_Ok in E as (Hc & _ & Hk' & Hm' & _ & _ & Hg & Hord). split_and!; try done.
      split_and!; [done|rewrite Hord; simpl; lia|]. intros gid g. by rewrite Hg, lookup_empty.
    - intros Hp. by rewrite make_codec_params in E. }
  destruct (decoders_by_endpoint_ t !! decoder_key src k m) as [[c|]|] eqn:E; [|exact Hmake..].
  by eapply Ht.
Qed.
End udp.

(** (C8) Recovery end to end over UDP: the sender gives its socket [k + m]
    datagrams for every [k] packets sent to a destination, and any [k] of them,
    in any order, make the receiver hand exactly the [k] serialised packets, in
    order and from that source, to the application. *)
Theorem udp_end_to_end {w : Wire RoutedPacket} (s r : UdpTransport) (src dest : endpoint)
    (ps : list RoutedPacket) (sel : list nat)
    (Hs : fec_on s) (Hr : listening r)
    (Henc : send_ok (encoder_at dest s)) (Hseq : send_seq_ (encoder_at dest s) = 0)
    (Hk : k_ (encoder_at dest s) = data_shards (fec_options_ s))
    (Hm : m_ (encoder_at dest s) = roots (fec_options_ s))
    (Hps : length ps = data_shards (fec_options_ s))
    (Hsize : Forall (fun p => (len_of (SerializeAsString p) <= max_payload (data_shards (fec_options_ s)))%Z) ps)
    (Hdec : let d := decoder_at src (data_shards (fec_options_ s)) (roots (fec_options_ s)) r in
       codec_ok d /\ k_ d = data_shards (fec_options_ s) /\ m_ d = roots (fec_options_ s) /\
       recv_groups_ d !! send_group_id_ (encoder_at dest s) = None)
    (Hsel : NoDup sel) (Hlen : length sel = data_shards (fec_options_ s))
    (Hrange : Forall (fun i => i < data_shards (fec_options_ s) + roots (fec_options_ s)) sel) :
  let sent := (send_all dest ps s).2 in
  length sent = data_shards (fec_options_ s) + roots (fec_options_ s) /\
  Forall (fun x => x.1 = dest) sent /\
  concat (receive_all src (map (fun i => sent.*2 !!! i) sel) r).2 =
    map (fun p => (src, SerializeAsString p)) ps.
Proof.
  set (k := data_shards (fec_options_ s)) in *. set (m := roots (fec_options_ s)) in *.
  pose proof Hs as (_ & _ & Hp). fold k m in Hp. pose proof Hp as (Hk1 & Hm1 & Hkm).
  assert (group_ok k m (map SerializeAsString ps)) as Hok.
  { split_and!; try done; [by rewrite length_map|]. by apply Forall_map. }
  rewrite send_all_fec by done.
  destruct (encode_group_frames (encoder_at dest s) (map SerializeAsString ps) Henc Hseq) as [_ Hframes].
  { by rewrite Hk, Hm. }
  rewrite Hframes, Hk, Hm. set (gid := send_group_id_ (encoder_at dest s)) in *.
  set (frames := map (group_frame gid k m (map SerializeAsString ps)) (seq 0 (k + m))).
  assert ((map (fun f => (dest, f)) frames).*2 = frames) as Hsnd.
  { rewrite <-list_fmap_compose. apply list_fmap_id. }
  split_and!.
  - unfold frames. by rewrite !length_map, length_seq.
  - apply Forall_map, Forall_forall. done.
  - rewrite Hsnd. unfold frames. rewrite select_frames by done.
    rewrite (receive_all_fec src _ k m r Hr Hp).
    2:{ apply Forall_map, Forall_forall. intros i _. by apply group_frame_config. }
    destruct Hdec as (Hcod & Hdk & Hdm & Hfresh). pose proof Henc as (_ & Hgid & _).
    destruct (decode_all_frames gid k m (map SerializeAsString ps) Hgid Hok sel []
      (decoder_at src k m r)) as (d' & -> & _).
    + destruct Hcod as (_ & _ & _ & He). rewrite Hdk, Hdm in He. by split_and!.
    + by rewrite app_nil_r.
    + rewrite app_nil_r. by rewrite Forall_forall in Hrange.
    + simpl. lia.
    + lia.
    + simpl. rewrite map_app, concat_app. simpl. rewrite app_nil_r.
      assert (concat (map (map (fun p : bytes => (src, p))) (replicate (length sel - 1) [])) = []) as ->.
      { induction (length sel - 1) as [|n IH]; [done|]. simpl. exact IH. }
      simpl. rewrite map_map. done.
Qed.

Definition demo_ep (n : Z) : endpoint := Endpoint (lit "10.0.0.1")%mesh n.

Definition demo_fec (cb : bool) : UdpTransport := Transport true (FecOptions true 2 1) ∅ ∅ cb.

(** A message type of small packets, serialised as a list of bytes. *)
Definition tiny_wire : Wire RoutedPacket := {|
  SerializeAsString p := id p;
  ParseFromString s := Some (set_id s empty_packet)
|}.

Lemma udp_end_to_end_witness :
  let p := set_id [x07; x08] empty_packet in let q := set_id [x09] empty_packet in
  let sent := (@send_all tiny_wire (demo_ep 9001) [p; q] (demo_fec false)).2 in
  length sent = 3 /\
  concat (receive_all (demo_ep 9000) (map (fun i => sent.*2 !!! i) [2; 1]) (demo_fec true)).2 =
    [(demo_ep 9000, [x07; x08]); (demo_ep 9000, [x09])].
Proof.
  pose proof (@udp_end_to_end tiny_wire (demo_fec false) (demo_fec true) (demo_ep 9000) (demo_ep 9001)
    [set_id [x07; x08] empty_packet; set_id [x09] empty_packet] [2; 1]) as W.
  assert (params_ok 2 1) as Hp by (unfold params_ok; lia).
  destruct (initial_codec_ok 2 1 (make_codec_params 2 1 Hp)) as [H1 H2].
  destruct W as (W1 & _ & W2).
  - by split_and!. - done. - exact H2. - reflexivity. - reflexivity. - reflexivity. - reflexivity.
  - repeat constructor; vm_compute; discriminate.
  - split_and!; try reflexivity; exact H1.
  - apply (bool_decide_unpack _); vm_compute; exact I.
  - reflexivity.
  - apply (bool_decide_unpack _); vm_compute; exact I.
  - split; [exact W1|exact W2].
Defined.

(** (C35) The datagram handler withstands any input: whatever bytes arrive from
    whatever endpoint, the transport keeps every decoder well formed and under
    the key of its own source and parameters, leaves the decoders of all other
    sources and parameters alone, and hands up either nothing, the datagram
    itself when it is not a FEC frame, or exactly [k] payloads. *)
Theorem receive_robust (src : endpoint) (dg : bytes) (t : UdpTransport)
    (Hok : decoders_ok t) (Hsrc : endpoint_ok src) :
  let '(t', out) := receive_datagram src dg t in
  decoders_ok t' /\
  (forall src' k m, endpoint_ok src' -> k < 256 -> m < 256 ->
     src' <> src \/ frame_config dg <> Some (k, m) ->
     decoders_by_endpoint_ t' !! decoder_key src' k m = decoders_by_endpoint_ t !! decoder_key src' k m) /\
  (out = [] \/ (is_fec_frame dg = false /\ out = [(src, dg)]) \/
   exists k m, frame_config dg = Some (k, m) /\ params_ok k m /\ length out = k).
Proof.
  unfold receive_datagram. destruct (negb (is_open t)); [by split_and!; [| |left]|].
  destruct (_ || _); [by split_and!; [| |left]|].
  destruct (is_fec_frame dg) eqn:Hf; [|by split_and!; [| |right; left]].
  destruct (frame_config dg) as [[k m]|] eqn:Hcfg; [|by split_and!; [| |left]].
  assert (k < 256 /\ m < 256) as [Hk Hm].
  { unfold frame_config in Hcfg. rewrite Hf in Hcfg. injection Hcfg as <- <-. split; apply b2n_range. }
  pose proof (codec_in_ok src k m t Hok Hsrc Hk Hm) as Hc. unfold decoder_for.
  assert (forall (t1 : UdpTransport) c src' k' m', endpoint_ok src' -> k' < 256 -> m' < 256 ->
     src' <> src \/ Some (k, m) <> Some (k', m') ->
     decoders_by_endpoint_ (with_decoder (decoder_key src k m) c t1) !! decoder_key src' k' m' =
     decoders_by_endpoint_ t1 !! decoder_key src' k' m') as Hother.
  { intros t1 c src' k' m' Hs' Hk' Hm' Hne. simpl. rewrite lookup_insert_ne; [done|].
    intros (<- & <- & <-)%decoder_key_inj; [|done..]. by destruct Hne. }
  destruct (codec_in _ _ k m) as [c|e].
  - destruct Hc as (Hrc & <- & <-). pose proof (decode_recv_ok c dg Hrc) as Hd.
    destruct (decode c dg) as [c' out]. destruct Hd as (Hrc' & Hk' & Hm' & Hout).
    rewrite with_decoder_twice. split_and!.
    + apply with_decoder_ok; try done.
    + intros. by apply Hother.
    + destruct Hout as [->|Hout]; [by left|]. right. right. exists (k_ c), (m_ c).
      split_and!; [done| |by rewrite length_map]. destruct Hrc as ((? & ? & ? & _) & _). done.
  - split_and!; [by apply with_decoder_ok|intros; by apply Hother|by left].
Qed.

Lemma receive_robust_witness :
  let '(t', out) := receive_datagram (demo_ep 9000) [x68; x69] (demo_fec true) in
  decoders_ok t' /\ (out = [] \/ (is_fec_frame [x68; x69] = false /\ out = [(demo_ep 9000, [x68; x69])]) \/
    exists k m, frame_config [x68; x69] = Some (k, m) /\ params_ok k m /\ length out = k).
Proof.
  pose proof (receive_robust (demo_ep 9000) [x68; x69] (demo_fec true)) as W.
  destruct (receive_datagram _ _ _) as [t' out]. destruct W as (W1 & _ & W2).
  - intros src k m c _ _ _. simpl. by rewrite lookup_empty.
  - unfold endpoint_ok. simpl. lia.
  - split; [exact W1|exact W2].
Defined.

End Udp.
