(* ===== verification/Session.v ===== *)
(** * Sessions

    [GenericSession] of src/src/mesh/net/Session.{h,cpp}: the framing of
    messages on a byte stream, the reading state machine, and the outbox of
    asynchronous writes.  The stream below (Stream.v) is the bytes it carries;
    the strand makes the handlers below run one at a time. *)

From S2P Require Import Prelude.

Module Session.

(** ** Framing *)

(** The frame of a message: 16 bytes of id, the length in network order, the
    payload.  [None]: the message is refused.  The id is read as 16 bytes from
    the string's buffer; a shorter id is read out of bounds. *)
Inductive send_error := PayloadTooLong | IdOutOfBounds.

Definition make_frame (req_id message : bytes) : outcome send_error bytes :=
  let size := Z.of_nat (length message) in
  if (2 ^ 32 - 1 <? size)%Z then Err PayloadTooLong
  else if length req_id <? 16 then Err IdOutOfBounds
  else
    let len := u32 size in
    Ok (take 16 req_id ++ [byte_at len 24; byte_at len 16; byte_at len 8; byte_at len 0] ++ message).

(** ** The reading state machine *)

Definition kMaxMessage : Z := 10 * 1024 * 1024.

(** Which [async_read_fully] is outstanding, with the bytes it has so far. *)
Inductive reader :=
| ReadHeader (acc : bytes)
| ReadPayload (msg_id : bytes) (len : nat) (acc : bytes)
| Stopped.

Definition message := (bytes * bytes)%type.

(** The completion handler of the payload: deliver, then read the next header. *)
Definition payload_done (msg_id payload : bytes) : reader * list message :=
  (ReadHeader [], [(msg_id, payload)]).

(** [do_read_payload]: a read of no bytes completes at once. *)
Definition do_read_payload (msg_id : bytes) (len : Z) : reader * list message :=
  if (len =? 0)%Z then payload_done msg_id [] else (ReadPayload msg_id (Z.to_nat len) [], []).

(** The completion handler of the header. *)
Definition header_done (header_buf : bytes) : reader * list message :=
  let msg_id := take 16 header_buf in
  let len := be32 (header_buf !!! 16) (header_buf !!! 17) (header_buf !!! 18) (header_buf !!! 19) in
  if (kMaxMessage <? len)%Z then (Stopped, []) else do_read_payload msg_id len.

(** One byte arrives. *)
Definition read_byte (r : reader) (b : byte) : reader * list message :=
  match r with
  | Stopped => (Stopped, [])
  | ReadHeader acc =>
      let acc := acc ++ [b] in
      if length acc =? 20 then header_done acc else (ReadHeader acc, [])
  | ReadPayload msg_id len acc =>
      let acc := acc ++ [b] in
      if length acc =? len then payload_done msg_id acc else (ReadPayload msg_id len acc, [])
  end.

(** A read that fails stops the session. *)
Definition read_failed (r : reader) : reader := Stopped.

Fixpoint read_bytes (r : reader) (s : bytes) : reader * list message :=
  match s with
  | [] => (r, [])
  | b :: s => let '(r, ms) := read_byte r b in
              let '(r, ms') := read_bytes r s in (r, ms ++ ms')
  end.

(** ** The outbox *)

(** [inflight]: the write the stream layer has, and whether it has completed with
    its handler still to run; [wire]: the bytes written; [undefined]: a
    [pop_front] on an empty deque has happened. *)
Record GenericSession := {
  is_open : bool;
  outbox_ : list bytes;
  inflight : option (bytes * bool);
  wire : bytes;
  undefined : bool
}.

Definition new_session : GenericSession := {|
  is_open := true; outbox_ := []; inflight := None; wire := []; undefined := false
|}.

Definition do_write (s : GenericSession) : GenericSession :=
  match outbox_ s with
  | [] => s
  | msg :: _ => {| is_open := is_open s; outbox_ := outbox_ s; inflight := Some (msg, false);
                   wire := wire s; undefined := undefined s |}
  end.

(** The lambda [async_send_message] posts to the strand. *)
Definition enqueue (data : bytes) (s : GenericSession) : GenericSession :=
  let write_in_progress := negb (bool_decide (outbox_ s = [])) in
  let s := {| is_open := is_open s; outbox_ := outbox_ s ++ [data]; inflight := inflight s;
              wire := wire s; undefined := undefined s |} in
  if write_in_progress then s else do_write s.

(** The lambda [stop] posts to the strand. *)
Definition stop (s : GenericSession) : GenericSession :=
  if negb (is_open s) then s
  else {| is_open := false; outbox_ := []; inflight := inflight s;
          wire := wire s; undefined := undefined s |}.

(** The handler of the stream's handshake, which [start] asks for: the first
    header is read, or the session stops. *)
Definition handshake_done (ok : bool) (s : GenericSession) : GenericSession * reader :=
  if ok then (s, ReadHeader []) else (stop s, Stopped).

(** The stream layer finishes the write. *)
Definition io_complete (s : GenericSession) : option GenericSession :=
  match inflight s with
  | Some (msg, false) =>
      if is_open s then
        Some {| is_open := is_open s; outbox_ := outbox_ s; inflight := Some (msg, true);
                wire := wire s ++ msg; undefined := undefined s |}
      else None
  | _ => None
  end.

(** The completion handler of a successful write. *)
Definition write_done (s : GenericSession) : option GenericSession :=
  match inflight s with
  | Some (_, true) =>
      let s := {| is_open := is_open s; outbox_ := tail (outbox_ s); inflight := None; wire := wire s;
                  undefined := undefined s || bool_decide (outbox_ s = []) |} in
      Some (do_write s)
  | _ => None
  end.

(** The completion handler of a failed write: it posts [stop]. *)
Definition write_failed (s : GenericSession) : option GenericSession :=
  match inflight s with
  | Some (_, false) =>
      Some (stop {| is_open := is_open s; outbox_ := outbox_ s; inflight := None;
                    wire := wire s; undefined := undefined s |})
  | _ => None
  end.

(** Handlers on the strand, with the frames enqueued so far. *)
Inductive step : GenericSession * list bytes -> GenericSession * list bytes -> Prop :=
| step_send s q data : step (s, q) (enqueue data s, q ++ [data])
| step_io s s' q : io_complete s = Some s' -> step (s, q) (s', q)
| step_done s s' q : write_done s = Some s' -> step (s, q) (s', q).

Inductive step_or_stop : GenericSession * list bytes -> GenericSession * list bytes -> Prop :=
| step_normal x y : step x y -> step_or_stop x y
| step_stop s q : step_or_stop (s, q) (stop s, q)
| step_fail s s' q : write_failed s = Some s' -> step_or_stop (s, q) (s', q).

(** ** Reading back what was framed *)

Lemma read_bytes_app r s1 s2 :
  read_bytes r (s1 ++ s2) =
  (let '(r1, m1) := read_bytes r s1 in let '(r2, m2) := read_bytes r1 s2 in (r2, m1 ++ m2)).
Proof.
  revert r. induction s1 as [|b s1 IH]; intros r; simpl.
  - by destruct (read_bytes r s2).
  - destruct (read_byte r b) as [r' ms]. rewrite IH. destruct (read_bytes r' s1) as [r1 m1].
    destruct (read_bytes r1 s2) as [r2 m2]. by rewrite app_assoc.
Qed.

(** Bytes accumulate until the last one. *)
Lemma read_header_bytes acc s :
  length acc + length s = 20 -> s <> [] -> read_bytes (ReadHeader acc) s = header_done (acc ++ s).
Proof.
  revert acc. induction s as [|b s IH]; intros acc Hlen Hne; [done|]. simpl in Hlen.
  cbn [read_bytes read_byte]. rewrite length_app. simpl. destruct s as [|b' s].
  - simpl in *. rewrite (proj2 (Nat.eqb_eq _ _)) by lia. simpl.
    destruct (header_done _) as [r ms]. by rewrite app_nil_r.
  - rewrite (proj2 (Nat.eqb_neq _ _)) by (simpl in *; lia). rewrite IH; [|rewrite length_app; simpl in *; lia|done].
    rewrite <-app_assoc. simpl. by destruct (header_done _).
Qed.

Lemma read_payload_bytes id len acc s :
  length acc + length s = len -> s <> [] ->
  read_bytes (ReadPayload id len acc) s = payload_done id (acc ++ s).
Proof.
  revert acc. induction s as [|b s IH]; intros acc Hlen Hne; [done|]. simpl in Hlen.
  cbn [read_bytes read_byte]. rewrite length_app. simpl. destruct s as [|b' s].
  - simpl in *. rewrite (proj2 (Nat.eqb_eq _ _)) by lia. done.
  - rewrite (proj2 (Nat.eqb_neq _ _)) by (simpl in *; lia). rewrite IH; [|rewrite length_app; simpl in *; lia|done].
    by rewrite <-app_assoc.
Qed.

Lemma read_stopped s : read_bytes Stopped s = (Stopped, []).
Proof. induction s as [|b s IH]; [done|]. simpl. by rewrite IH. Qed.

(** The header of a frame, read back. *)
Lemma header_done_frame id (size : Z) :
  length id = 16 -> (0 <= size < 2 ^ 32)%Z ->
  header_done (id ++ [byte_at size 24; byte_at size 16; byte_at size 8; byte_at size 0]) =
  if (kMaxMessage <? size)%Z then (Stopped, []) else do_read_payload id size.
Proof.
  intros Hid Hs. unfold header_done.
  rewrite !lookup_total_app_r, Hid by lia. rewrite take_app_length' by done.
  change (16 - 16) with 0. change (17 - 16) with 1. change (18 - 16) with 2. change (19 - 16) with 3.
  cbn [lookup_total list_lookup_total]. by rewrite be32_byte_at.
Qed.

Lemma read_frame req_id msg frame :
  make_frame req_id msg = Ok frame ->
  read_bytes (ReadHeader []) frame =
  if (kMaxMessage <? Z.of_nat (length msg))%Z then (Stopped, []) else (ReadHeader [], [(take 16 req_id, msg)]).
Proof.
  unfold make_frame. intros H. case_in H; [done|]. case_in H; [done|]. bool_to_prop.
  rewrite u32_small in H by lia. set (size := Z.of_nat (length msg)) in *.
  assert (frame = (take 16 req_id ++ [byte_at size 24; byte_at size 16; byte_at size 8; byte_at size 0])
                    ++ msg) as -> by (rewrite <-app_assoc; by injection H).
  rewrite read_bytes_app, read_header_bytes.
  - simpl app. rewrite header_done_frame; [|rewrite length_take; lia|lia].
    destruct (Z.ltb_spec kMaxMessage size); [by rewrite read_stopped|].
    unfold do_read_payload. destruct (Z.eqb_spec size 0) as [Hz|Hz].
    + destruct msg; [done|]. simpl in size. lia.
    + rewrite read_payload_bytes; [done|unfold size; simpl; lia|intros ->; done].
  - rewrite length_app, length_take. cbn [length]. lia.
  - by destruct (take 16 req_id).
Qed.

(** The bytes of a sequence of frames, read back. *)
Lemma read_frames (msgs : list message) (frames : list bytes) :
  map (fun m => make_frame m.1 m.2) msgs = map Ok frames ->
  Forall (fun m => (Z.of_nat (length m.2) <= kMaxMessage)%Z) msgs ->
  read_bytes (ReadHeader []) (concat frames) = (ReadHeader [], map (fun m => (take 16 m.1, m.2)) msgs).
Proof.
  intros Hframes Hsize. revert frames Hframes.
  induction Hsize as [|[id m] msgs Hm _ IH]; intros [|f frames] Hf; try done.
  simpl in Hf. injection Hf as Hf Hfs. simpl. rewrite read_bytes_app, (read_frame id m f Hf).
  simpl in Hm. rewrite (proj2 (Z.ltb_ge _ _)) by lia. by rewrite (IH frames Hfs).
Qed.

(** The reads of a stream that arrives in pieces. *)
Definition read_chunks (r : reader) (chunks : list bytes) : reader * list message :=
  foldl (fun s c => let '(r, ms) := read_bytes s.1 c in (r, s.2 ++ ms)) (r, []) chunks.

Lemma read_chunks_concat r chunks : read_chunks r chunks = read_bytes r (concat chunks).
Proof.
  assert (forall r ms, foldl (fun s c => let '(r, ms) := read_bytes s.1 c in (r, s.2 ++ ms)) (r, ms) chunks =
    (let '(r', ms') := read_bytes r (concat chunks) in (r', ms ++ ms'))) as Hfold.
  { clear. induction chunks as [|c chunks IH]; intros r ms; simpl; [by rewrite app_nil_r|].
    rewrite read_bytes_app. destruct (read_bytes r c) as [r1 m1]. rewrite IH.
    destruct (read_bytes r1 (concat chunks)) as [r2 m2]. by rewrite app_assoc. }
  unfold read_chunks. rewrite Hfold. by destruct (read_bytes r (concat chunks)).
Qed.

(** (C26) Framing round trip: the reader at the other end of the stream, however
    the bytes are cut into reads, delivers exactly the messages that were framed,
    in order and with their ids, and is ready for the next one. *)
Theorem framing_roundtrip (msgs : list message) (frames chunks : list bytes)
    (Hframes : map (fun m => make_frame m.1 m.2) msgs = map Ok frames)
    (Hsize : Forall (fun m => (Z.of_nat (length m.2) <= kMaxMessage)%Z) msgs)
    (Hchunks : concat chunks = concat frames) :
  read_chunks (ReadHeader []) chunks = (ReadHeader [], map (fun m => (take 16 m.1, m.2)) msgs).
Proof. rewrite read_chunks_concat, Hchunks. by apply read_frames. Qed.

Definition demo_id : bytes := replicate 16 x11.

Lemma framing_roundtrip_witness :
  exists f1 f2, make_frame demo_id [x61; x62] = Ok f1 /\ make_frame demo_id [] = Ok f2 /\
  read_chunks (ReadHeader []) [take 7 f1; drop 7 f1 ++ take 3 f2; drop 3 f2] =
    (ReadHeader [], [(demo_id, [x61; x62]); (demo_id, [])]).
Proof.
  eexists _, _. split; [reflexivity|]. split; [reflexivity|].
  apply (framing_roundtrip [(demo_id, [x61; x62]); (demo_id, [])]
    [demo_id ++ [x00; x00; x00; x02; x61; x62]; demo_id ++ [x00; x00; x00; x00]]).
  - reflexivity.
  - repeat constructor; simpl; unfold kMaxMessage; lia.
  - reflexivity.
Defined.

(** A frame longer than 10 MiB, which the sender accepts up to 4 GiB,
    stops the reader for good: nothing of it is delivered, nor anything that
    follows it on the stream. *)
Theorem oversized_frame_stops (req_id msg frame rest : bytes)
    (Hframe : make_frame req_id msg = Ok frame) (Hbig : (kMaxMessage < Z.of_nat (length msg))%Z) :
  read_bytes (ReadHeader []) (frame ++ rest) = (Stopped, []).
Proof.
  rewrite read_bytes_app, (read_frame req_id msg frame Hframe), (proj2 (Z.ltb_lt _ _)) by done.
  by rewrite read_stopped.
Qed.

(** One byte more than the limit. *)
Definition big_message : bytes := replicate (Z.to_nat (kMaxMessage + 1)) x00.

Lemma big_message_length : Z.of_nat (length big_message) = (kMaxMessage + 1)%Z.
Proof. unfold big_message. rewrite length_replicate. apply Z2Nat.id. unfold kMaxMessage. lia. Qed.

Lemma oversized_frame_stops_witness :
  exists frame, make_frame demo_id big_message = Ok frame /\
    read_bytes (ReadHeader []) (frame ++ [x00]) = (Stopped, []).
Proof.
  assert (exists frame, make_frame demo_id big_message = Ok frame) as [frame Hf].
  { unfold make_frame. rewrite big_message_length. eexists. reflexivity. }
  exists frame. split; [exact Hf|].
  apply (oversized_frame_stops demo_id big_message frame [x00] Hf).
  rewrite big_message_length. lia.
Defined.

(** The sender frames every message it accepts, and refuses, or reads out
    of bounds of the id, in exactly the other cases. *)
Theorem make_frame_cases (req_id msg : bytes) :
  match make_frame req_id msg with
  | Ok frame => 16 <= length req_id /\ (Z.of_nat (length msg) < 2 ^ 32)%Z /\
                length frame = 20 + length msg
  | Err PayloadTooLong => (2 ^ 32 <= Z.of_nat (length msg))%Z
  | Err IdOutOfBounds => length req_id < 16
  end.
Proof.
  unfold make_frame. case_goal; [bool_to_prop; lia|]. case_goal; [by bool_to_prop|]. bool_to_prop.
  split_and!; [done|lia|]. rewrite !length_app, length_take. cbn [length]. lia.
Qed.

(** ** Writing *)

(** Without a stop: a write is in flight exactly when the outbox is not empty,
    and what is written and what waits are the frames enqueued, in order. *)
Definition session_inv (x : GenericSession * list bytes) : Prop :=
  let '(s, q) := x in
  is_open s = true /\ undefined s = false /\
  match inflight s, outbox_ s with
  | None, [] => wire s = concat q
  | Some (m, false), m' :: rest => m = m' /\ wire s ++ concat (m :: rest) = concat q
  | Some (m, true), m' :: rest => m = m' /\ wire s ++ concat rest = concat q
  | _, _ => False
  end.

Lemma session_step_inv x y : session_inv x -> step x y -> session_inv y.
Proof.
  intros Hi Hs. destruct Hs as [s q data|s s' q H|s s' q H]; destruct Hi as (Ho & Hu & Hw).
  - unfold enqueue. destruct (inflight s) as [[m [|]]|] eqn:Ei, (outbox_ s) as [|m' rest] eqn:Eo; try done.
    + destruct Hw as [-> Hw]. rewrite bool_decide_false by done. simpl. split_and!; [done..|].
      rewrite !concat_app, <-Hw, <-app_assoc. done.
    + destruct Hw as [-> Hw]. rewrite bool_decide_false by done. simpl. split_and!; [done..|].
      rewrite !concat_app, <-Hw. simpl. by rewrite <-!app_assoc.
    + rewrite bool_decide_true by done. simpl. split_and!; [done..|].
      rewrite concat_app, Hw. simpl. done.
  - unfold io_complete in H. destruct (inflight s) as [[m [|]]|]; try done. rewrite Ho in H.
    injection H as <-. simpl. destruct (outbox_ s) as [|m' rest]; [done|]. destruct Hw as [-> Hw].
    split_and!; try done. by rewrite <-Hw, <-app_assoc.
  - unfold write_done in H. destruct (inflight s) as [[m [|]]|]; try done. injection H as <-.
    destruct (outbox_ s) as [|m' rest]; [done|]. destruct Hw as [-> Hw]. simpl.
    destruct rest as [|m2 rest]; simpl in *; rewrite Hu, ?app_nil_r in *; by split_and!.
Qed.

Lemma session_reachable s q : rtc step (new_session, []) (s, q) -> session_inv (s, q).
Proof. by apply (rtc_keeps session_inv); [exact session_step_inv|]. Qed.

(** The session never sticks: the completions alone write the outbox out. *)
Lemma session_drains s q :
  session_inv (s, q) -> exists s', rtc step (s, q) (s', q) /\ inflight s' = None /\ wire s' = concat q.
Proof.
  remember (length (outbox_ s)) as n eqn:Hn. revert s Hn.
  induction n as [|n IH]; intros s Hn (Ho & Hu & Hw); destruct (outbox_ s) as [|m rest] eqn:Eo; try done.
  - destruct (inflight s) as [[? []]|] eqn:Ei; try done. by exists s.
  - assert (exists s1, rtc step (s, q) (s1, q) /\ session_inv (s1, q) /\
      inflight s1 = Some (m, true) /\ outbox_ s1 = m :: rest) as (s1 & H1 & Hi & Ei & Eo1).
    { destruct (inflight s) as [[m' []]|] eqn:Ei; try done; destruct Hw as [-> Hw].
      - exists s. split_and!; [done| |done..]. unfold session_inv. by rewrite Ho, Hu, Ei, Eo.
      - eassert (step (s, q) (_, q)) as Hs by (apply step_io; unfold io_complete; rewrite Ei, Ho; reflexivity).
        eexists. split; [by apply rtc_once|]. split_and!; [|done|done].
        eapply session_step_inv; [|exact Hs]. unfold session_inv. by rewrite Ho, Hu, Ei, Eo. }
    eassert (step (s1, q) (_, q)) as Hs by (apply step_done; unfold write_done; rewrite Ei; reflexivity).
    pose proof (session_step_inv _ _ Hi Hs) as Hi'. eapply IH in Hi' as (s' & Hr & ?).
    + exists s'. split; [|done]. etrans; [exact H1|]. eapply rtc_l; [exact Hs|exact Hr].
    + rewrite Eo1. simpl. destruct rest; simpl in *; lia.
Qed.

(** (C27) Ordered, exclusive writes: as long as the session is not stopped, for
    any interleaving of sends and completions, at most one write is in flight, the
    bytes written are whole frames in the order they were enqueued, none lost,
    repeated or interleaved; an idle session has written everything, and the
    completions alone always bring it there. *)
Theorem outbox_fifo (s : GenericSession) (q : list bytes) (Hreach : rtc step (new_session, []) (s, q)) :
  wire s `prefix_of` concat q /\ undefined s = false /\
  (inflight s = None -> outbox_ s = [] /\ wire s = concat q) /\
  exists s', rtc step (s, q) (s', q) /\ inflight s' = None /\ wire s' = concat q.
Proof.
  pose proof (session_reachable s q Hreach) as Hi.
  assert (exists s', rtc step (s, q) (s', q) /\ inflight s' = None /\ wire s' = concat q) as Hd
    by (by apply session_drains).
  destruct Hi as (Ho & Hu & Hw). destruct (inflight s) as [[m [|]]|], (outbox_ s) as [|m' rest]; try done.
  - destruct Hw as [-> Hw]. split_and!; [rewrite <-Hw; by eexists|done..].
  - destruct Hw as [-> Hw]. split_and!; [rewrite <-Hw; by eexists|done..].
  - by rewrite Hw.
Qed.

Lemma outbox_fifo_witness :
  let s := {| is_open := true; outbox_ := [[x02]]; inflight := Some ([x02], false);
              wire := [x01]; undefined := false |} in
  rtc step (new_session, []) (s, [[x01]; [x02]]) /\ wire s `prefix_of` concat [[x01]; [x02]].
Proof.
  assert (rtc step (new_session, []) ({| is_open := true; outbox_ := [[x02]];
    inflight := Some ([x02], false); wire := [x01]; undefined := false |}, [[x01]; [x02]])) as Hr.
  { eapply rtc_l; [apply (step_send new_session [] [x01])|].
    eapply rtc_l; [apply (step_send _ _ [x02])|].
    eapply rtc_l; [apply step_io; reflexivity|]. apply rtc_once, step_done. reflexivity. }
  split; [exact Hr|]. destruct (outbox_fifo _ _ Hr) as [W _]. exact W.
Defined.

(** The race between [stop] and a finished write: when a session with one
    frame outstanding is stopped after the stream has finished the write and
    before its handler runs, the handler pops from the deque [stop] has cleared,
    which is undefined behaviour. *)
Theorem stop_race_undefined (data : bytes) :
  exists s, rtc step_or_stop (new_session, []) (s, [data]) /\ undefined s = true.
Proof.
  eexists. split.
  - eapply rtc_l; [apply step_normal, (step_send new_session [] data)|].
    eapply rtc_l; [apply step_normal, step_io; reflexivity|].
    eapply rtc_l; [apply step_stop|].
    apply rtc_once, step_normal, step_done. reflexivity.
  - reflexivity.
Qed.

End Session.
