(* ===== verification/Stream.v ===== *)
(** * The stream layer

    [StreamLayer] of src/src/mesh/net/IStream.h and its two implementations
    [TcpStream] and [SslStream] (Stream.{h,cpp}), over the sockets of boost::asio.
    An asynchronous operation is the request it makes; its handler is run by the
    session (Session.v) when the request is complete.  The sessions are made on
    such streams, and the flag [is_open] of Session.v is the state of the stream. *)

From S2P Require Import Prelude Session.

Module Stream.

(** ** boost::asio *)

(** [remote_endpoint] gives the address as text, or throws.  The error codes of
    [cancel] and [close] are dropped by the callers. *)
Class Asio := {
  tcp_socket : Type;
  sock_is_open : tcp_socket -> bool;
  sock_cancel : tcp_socket -> tcp_socket;
  sock_close : tcp_socket -> tcp_socket;
  sock_remote_endpoint : tcp_socket -> option bytes;
  ssl_context : Type;
  ssl_stream : Type;
  make_ssl_stream : tcp_socket -> ssl_context -> ssl_stream;
  lowest_layer : ssl_stream -> tcp_socket;
  on_lowest_layer : (tcp_socket -> tcp_socket) -> ssl_stream -> ssl_stream
}.

(** A closed socket is not open and has no peer; cancelling leaves it open. *)
Class AsioLaws (a : Asio) : Prop := {
  close_closes : forall s, sock_is_open (sock_close s) = false;
  cancel_open : forall s, sock_is_open (sock_cancel s) = sock_is_open s;
  closed_no_peer : forall s, sock_is_open s = false -> sock_remote_endpoint s = None;
  lowest_made : forall s ctx, lowest_layer (make_ssl_stream s ctx) = s;
  lowest_updated : forall f s, lowest_layer (on_lowest_layer f s) = f (lowest_layer s)
}.

(** What an asynchronous call asks for: [Posted] runs its handler with success,
    the others when the socket is done. *)
Inductive request :=
| Posted
| TlsHandshake (server : bool)
| ReadFully (tls : bool) (size : nat)
| WriteFully (tls : bool) (buffer : bytes).

(** ** The interface *)

Class StreamLayer (S : Type) := {
  async_handshake : S -> request;
  async_read_fully : S -> nat -> request;
  async_write_fully : S -> bytes -> request;
  cancel : S -> S;
  close : S -> S;
  remote_address : S -> bytes;
  is_open : S -> bool
}.

Section streams.
Context {a : Asio}.

(** [TcpStream]: the handshake does nothing. *)
Record TcpStream := { socket_ : tcp_socket }.

Definition tcp_stream : StreamLayer TcpStream := {|
  async_handshake _ := Posted;
  async_read_fully _ size := ReadFully false size;
  async_write_fully _ buffer := WriteFully false buffer;
  cancel s := {| socket_ := sock_cancel (socket_ s) |};
  close s := {| socket_ := sock_close (socket_ s) |};
  remote_address s := default [] (sock_remote_endpoint (socket_ s));
  is_open s := sock_is_open (socket_ s)
|}.

Record SslStream := { stream_ : ssl_stream; is_server_ : bool }.

Definition make_ssl (sock : tcp_socket) (ctx : ssl_context) (is_server : bool) : SslStream :=
  {| stream_ := make_ssl_stream sock ctx; is_server_ := is_server |}.

Definition ssl_stream_layer : StreamLayer SslStream := {|
  async_handshake s := TlsHandshake (is_server_ s);
  async_read_fully _ size := ReadFully true size;
  async_write_fully _ buffer := WriteFully true buffer;
  cancel s := {| stream_ := on_lowest_layer sock_cancel (stream_ s); is_server_ := is_server_ s |};
  close s := {| stream_ := on_lowest_layer sock_close (stream_ s); is_server_ := is_server_ s |};
  remote_address s := default [] (sock_remote_endpoint (lowest_layer (stream_ s)));
  is_open s := sock_is_open (lowest_layer (stream_ s))
|}.
End streams.

#[export] Existing Instance tcp_stream.
#[export] Existing Instance ssl_stream_layer.

(** ** What a session relies on *)

Class StreamLaws (S : Type) {l : StreamLayer S} : Prop := {
  stream_close : forall s : S, is_open (close s) = false;
  stream_cancel : forall s : S, is_open (cancel s) = is_open s;
  stream_closed_addr : forall s : S, is_open s = false -> remote_address s = [];
  stream_requests : forall (s : S) size buffer, exists tls,
    async_read_fully s size = ReadFully tls size /\ async_write_fully s buffer = WriteFully tls buffer
}.

#[export] Instance tcp_laws {a : Asio} {la : AsioLaws a} : StreamLaws TcpStream.
Proof.
  split.
  - intros s. apply close_closes.
  - intros s. apply cancel_open.
  - intros s H. simpl. by rewrite closed_no_peer.
  - intros s size buffer. by exists false.
Qed.

#[export] Instance ssl_laws {a : Asio} {la : AsioLaws a} : StreamLaws SslStream.
Proof.
  split.
  - intros s. simpl. rewrite lowest_updated. apply close_closes.
  - intros s. simpl. rewrite lowest_updated. apply cancel_open.
  - intros s H. simpl. by rewrite closed_no_peer.
  - intros s size buffer. by exists true.
Qed.

(** ** The session's use of its stream *)

Section session.
Context {S : Type} {l : StreamLayer S} {ls : StreamLaws S}.

(** The lambda of [GenericSession::stop]; [None]: no stream. *)
Definition stop_stream (s : option S) : option S :=
  match s with
  | Some s => if is_open s then Some (close (cancel s)) else Some s
  | None => None
  end.

Definition remote_addr (s : option S) : option bytes := remote_address <$> s.

(** Stopping closes the stream, once: a second stop finds it closed. *)
Theorem stop_stream_closes (s : S) :
  exists s', stop_stream (Some s) = Some s' /\ is_open s' = false /\ stop_stream (Some s') = Some s' /\
    remote_addr (Some s') = Some [].
Proof using ls.
  simpl. destruct (is_open s) eqn:E.
  - exists (close (cancel s)). rewrite stream_close. split_and!; try done. simpl. by rewrite stream_closed_addr by apply stream_close.
  - exists s. rewrite E. split_and!; try done. simpl. by rewrite stream_closed_addr.
Qed.

(** [~GenericSession]. *)
Definition destroy_session (s : option S) : option S := close <$> s.

(** The flag of the session is the state of its stream. *)
Definition in_step (x : option S * Session.GenericSession) : Prop :=
  Session.is_open x.2 = default false (is_open <$> x.1).

(** Stopping a session and its stream keeps them in step; what reads, writes and
    completions do leaves the flag alone. *)
Lemma stop_in_step x : in_step x -> in_step (stop_stream x.1, Session.stop x.2).
Proof using ls.
  destruct x as [[s|] g]; unfold in_step, Session.stop; simpl; intros E; rewrite E; [|done].
  destruct (is_open s) eqn:Eo; simpl; [by rewrite stream_close|by rewrite E, Eo].
Qed.

Lemma destroy_closes s : default false (is_open <$> destroy_session s) = false.
Proof using ls. destruct s as [s|]; simpl; [apply stream_close|done]. Qed.
End session.

(** ** The sessions *)

Definition make_tcp_session {a : Asio} (sock : tcp_socket) : option TcpStream * Session.GenericSession :=
  (Some {| socket_ := sock |}, Session.new_session).

Definition make_ssl_session {a : Asio} (sock : tcp_socket) (ctx : ssl_context) (is_server : bool)
    : option SslStream * Session.GenericSession :=
  (Some (make_ssl sock ctx is_server), Session.new_session).

(** A session on a connected socket starts in step with its stream, and asks for
    the handshake the role given to it says. *)
Theorem sessions_start {a : Asio} {la : AsioLaws a} (sock : tcp_socket) (ctx : ssl_context) (is_server : bool) :
  sock_is_open sock = true ->
  in_step (make_tcp_session sock) /\ in_step (make_ssl_session sock ctx is_server) /\
  async_handshake <$> (make_tcp_session sock).1 = Some Posted /\
  async_handshake <$> (make_ssl_session sock ctx is_server).1 = Some (TlsHandshake is_server).
Proof.
  intros Ho. split_and!; [| |done|done]; unfold in_step; simpl; [by rewrite Ho|].
  by rewrite lowest_made, Ho.
Qed.

(** A concrete socket: whether it is open, and its peer. *)
Definition toy_asio : Asio := {|
  tcp_socket := bool * bytes; sock_is_open := fst; sock_cancel s := s; sock_close s := (false, s.2);
  sock_remote_endpoint s := if s.1 then Some s.2 else None;
  ssl_context := unit; ssl_stream := bool * bytes; make_ssl_stream s _ := s; lowest_layer s := s;
  on_lowest_layer f s := f s
|}.

Lemma toy_asio_laws : AsioLaws toy_asio.
Proof. split; try done. intros [open peer]. simpl. by intros ->. Qed.

End Stream.
