(* ===== verification/AsyncWriter.v ===== *)
(** * The write queue

    [AsyncWriteQueue] of src/src/mesh/utils/AsyncWriter.h: buffers are written one
    at a time, in order, and the queue can be cancelled.  The strand runs the
    handlers below one at a time; the stream finishes a write when it likes. *)

From S2P Require Import Prelude.

Module Writer.

(** [inflight]: the buffer [async_write] works on; [written]: the buffers whose
    write has succeeded. *)
Record AsyncWriteQueue := {
  queue_ : list bytes;
  write_in_progress_ : bool;
  inflight : option bytes;
  written : list bytes
}.

Implicit Types (s : AsyncWriteQueue) (q : list bytes).

Definition new_queue : AsyncWriteQueue := {|
  queue_ := []; write_in_progress_ := false; inflight := None; written := []
|}.

(** [do_write] is called on a queue that is not empty. *)
Definition do_write s : AsyncWriteQueue := {|
  queue_ := queue_ s; write_in_progress_ := write_in_progress_ s; inflight := head (queue_ s); written := written s
|}.

(** The lambda [write] posts. *)
Definition write (buffer : bytes) s : AsyncWriteQueue :=
  let s' := {| queue_ := queue_ s ++ [buffer]; write_in_progress_ := true; inflight := inflight s; written := written s |} in
  if negb (write_in_progress_ s) then do_write s' else s'.

(** The lambda [cancel] posts: the write under way goes on. *)
Definition cancel s : AsyncWriteQueue := {|
  queue_ := []; write_in_progress_ := write_in_progress_ s; inflight := inflight s; written := written s
|}.

(** The completion handler, without and with an error. *)
Definition write_done s : option AsyncWriteQueue :=
  match inflight s with
  | None => None
  | Some buffer =>
      let idle q := {| queue_ := q; write_in_progress_ := false; inflight := None; written := written s ++ [buffer] |} in
      match queue_ s with
      | [] => Some (idle [])
      | [_] => Some (idle [])
      | _ :: rest => Some (do_write {| queue_ := rest; write_in_progress_ := write_in_progress_ s; inflight := None;
                                       written := written s ++ [buffer] |})
      end
  end.

Definition write_failed s : option AsyncWriteQueue :=
  match inflight s with
  | None => None
  | Some _ => Some {| queue_ := []; write_in_progress_ := false; inflight := None; written := written s |}
  end.

(** ** Histories *)

(** The state with the buffers given to [write] so far. *)
Inductive step : AsyncWriteQueue * list bytes -> AsyncWriteQueue * list bytes -> Prop :=
| step_write s q buffer : step (s, q) (write buffer s, q ++ [buffer])
| step_done s s' q : write_done s = Some s' -> step (s, q) (s', q).

Inductive step_or_drop : AsyncWriteQueue * list bytes -> AsyncWriteQueue * list bytes -> Prop :=
| step_keep x y : step x y -> step_or_drop x y
| step_cancel s q : step_or_drop (s, q) (cancel s, q)
| step_failed s s' q : write_failed s = Some s' -> step_or_drop (s, q) (s', q).

(** A write is under way exactly when the flag is set; the buffers that may still
    be written are the latest ones, after those written or dropped. *)
Definition ordered (x : AsyncWriteQueue * list bytes) : Prop :=
  let '(s, q) := x in
  match inflight s with
  | None => write_in_progress_ s = false /\ queue_ s = [] /\ written s `sublist_of` q
  | Some b => write_in_progress_ s = true /\
      exists before rest, q = before ++ rest /\ written s ++ [b] `sublist_of` before /\
        (queue_ s = b :: rest \/ queue_ s = rest)
  end.

(** Without a cancel or an error nothing is dropped. *)
Definition nothing_lost (x : AsyncWriteQueue * list bytes) : Prop :=
  let '(s, q) := x in
  q = written s ++ queue_ s /\ inflight s = head (queue_ s) /\
  write_in_progress_ s = negb (bool_decide (queue_ s = [])).

Lemma step_keeps_all x y : nothing_lost x -> step x y -> nothing_lost y.
Proof.
  intros Hc Hs. destruct Hs as [s q b|s s' q H]; destruct Hc as (-> & Hi & Hw).
  - unfold write. rewrite Hw. destruct (queue_ s) as [|b0 l]; simpl in *.
    + by rewrite !app_nil_r.
    + by rewrite Hi, <-app_assoc.
  - unfold write_done in H. rewrite Hi in H. destruct (queue_ s) as [|b [|b' l]]; simpl in H; try done;
      injection H as <-; simpl; rewrite <-?app_assoc, ?app_nil_r; [done|]. split_and!; [done..|]. by rewrite Hw.
Qed.

Lemma sublist_snoc (l1 l2 : list bytes) b : l1 `sublist_of` l2 -> l1 ++ [b] `sublist_of` l2 ++ [b].
Proof. intros. by apply sublist_app. Qed.

Lemma step_ordered x y : ordered x -> step_or_drop x y -> ordered y.
Proof.
  intros Ho Hs. destruct Hs as [x y Hs|s q|s s' q H].
  - destruct Hs as [s q b|s s' q H]; unfold ordered in *.
    + unfold write. destruct (inflight s) as [c|] eqn:Ei; destruct Ho as (Hw & Ho); rewrite Hw; simpl.
      * split; [done|]. destruct Ho as (before & rest & -> & Hsub & Hq).
        exists before, (rest ++ [b]). rewrite app_assoc. split_and!; [done..|].
        destruct Hq as [->| ->]; [by left|by right].
      * destruct Ho as [-> Hsub]. simpl. split; [done|]. exists (q ++ [b]), []. rewrite app_nil_r.
        split_and!; [done|by apply sublist_snoc|by left].
    + unfold write_done in H. destruct (inflight s) as [b|] eqn:Ei; [|done].
      destruct Ho as (Hw & before & rest & -> & Hsub & Hq).
      assert (forall l, written s ++ [b] `sublist_of` (before ++ l)) as Hgrow.
      { intros l. etrans; [exact Hsub|]. by apply sublist_inserts_r. }
      destruct (queue_ s) as [|c [|c' l]] eqn:Eq; injection H as <-; simpl.
      * split_and!; [done|done|apply Hgrow].
      * split_and!; [done|done|apply Hgrow].
      * split; [done|]. destruct Hq as [[= -> <-]| <-].
        -- exists (before ++ [c']), l. rewrite <-app_assoc. split_and!; [done|by apply sublist_snoc|by left].
        -- exists (before ++ [c; c']), l. rewrite <-app_assoc. split_and!; [done| |by left].
           change [c; c'] with ([c] ++ [c']). rewrite app_assoc. apply sublist_snoc, Hgrow.
  - unfold ordered in *. unfold cancel. simpl. destruct (inflight s) as [b|]; destruct Ho as (Hw & Ho); [|naive_solver].
    split; [done|]. destruct Ho as (before & rest & -> & Hsub & _). exists (before ++ rest), [].
    rewrite app_nil_r. split_and!; [done| |by right]. etrans; [exact Hsub|]. by apply sublist_inserts_r.
  - unfold write_failed in H. unfold ordered in *. destruct (inflight s) as [b|] eqn:Ei; [|done]. injection H as <-.
    simpl. destruct Ho as (_ & before & rest & -> & Hsub & _). split_and!; [done..|].
    apply sublist_inserts_r. etrans; [|exact Hsub]. by apply sublist_inserts_r.
Qed.

(** Writes are exclusive and in order: whatever is written, cancelled or
    fails, a write is under way exactly while the flag is set, and the buffers
    written are, whole and in order, among those given to [write]; without a
    cancel or a failure none is lost, and an idle queue has written them all. *)
Theorem write_queue_order (s : AsyncWriteQueue) (q : list bytes)
    (Hreach : rtc step_or_drop (new_queue, []) (s, q)) :
  (write_in_progress_ s = true <-> is_Some (inflight s)) /\ written s `sublist_of` q /\
  (rtc step (new_queue, []) (s, q) -> q = written s ++ queue_ s /\ (inflight s = None -> q = written s)).
Proof.
  assert (ordered (s, q)) as Ho.
  { eapply rtc_keeps; [exact step_ordered| |exact Hreach]. done. }
  assert (rtc step (new_queue, []) (s, q) -> nothing_lost (s, q)) as Hc.
  { apply (rtc_keeps nothing_lost); [exact step_keeps_all|done]. }
  split; [|split].
  - unfold ordered in Ho. destruct (inflight s); destruct Ho as [-> _]; [by split|]. split; [done|]. by intros [? ?].
  - unfold ordered in Ho. destruct (inflight s) as [b|]; [|by apply Ho].
    destruct Ho as (_ & before & rest & -> & Hsub & _). apply sublist_inserts_r.
    etrans; [|exact Hsub]. by apply sublist_inserts_r.
  - intros (Hq & Hi & _)%Hc. split; [done|]. intros Hn. rewrite Hn in Hi.
    destruct (queue_ s); [by rewrite app_nil_r in Hq|done].
Qed.

Lemma write_queue_order_witness :
  let s := {| queue_ := []; write_in_progress_ := false; inflight := None; written := [[x01]] |} in
  rtc step_or_drop (new_queue, []) (s, [[x01]; [x02]]) /\ written s `sublist_of` [[x01]; [x02]].
Proof.
  assert (rtc step_or_drop (new_queue, []) ({| queue_ := []; write_in_progress_ := false; inflight := None;
    written := [[x01]] |}, [[x01]; [x02]])) as Hr.
  { eapply rtc_l; [apply step_keep, (step_write new_queue [] [x01])|].
    eapply rtc_l; [apply step_keep, (step_write _ _ [x02])|].
    eapply rtc_l; [apply step_cancel|]. apply rtc_once, step_keep, step_done. reflexivity. }
  split; [exact Hr|]. apply (write_queue_order _ _ Hr).
Defined.

(** A buffer written after a cancel may be lost: [cancel] empties the queue while
    a write is under way, so the completion handler takes the next buffer for the
    one it has written and drops it unsent. *)
Theorem cancel_loses_next_write (b1 b2 : bytes) :
  exists s, rtc step_or_drop (cancel (write b1 new_queue), [b1]) (s, [b1; b2]) /\
    written s = [b1] /\ queue_ s = [] /\ inflight s = None.
Proof.
  eexists. split; [|split; [|split]].
  - eapply rtc_l; [apply step_keep, (step_write _ _ b2)|]. apply rtc_once, step_keep, step_done. reflexivity.
  - reflexivity.
  - reflexivity.
  - reflexivity.
Qed.

End Writer.
