(* ===== verification/RequestTracker.v ===== *)
(** * The request tracker

    [AsyncRequestTracker] of src/src/mesh/utils/AsyncRequestTracker.h: pending
    requests and broadcasts with their timers.  Callbacks are names; an operation
    returns the calls it makes, in order.  A timer is armed, then its handler is
    ready to run (its time over, or, for a broadcast, its wait aborted), then the
    handler runs; a handler that is ready can no longer be cancelled. *)

From S2P Require Import Prelude.

Module Tracker.

Section tracker.
Context {K T : Type} `{EqDecision K}.

(** What a timer's handler captured. *)
Inductive wait := WaitRequest (req_id : bytes) | WaitBroadcast (req_id : bytes) (on_complete : K).

Inductive call :=
| CallRequest (cb : K) (from_id : bytes) (payload : option T)
| CallResponse (cb : K) (from_id : bytes) (payload : T)
| CallComplete (cb : K).

Record AsyncRequestTracker := {
  pending_requests_ : gmap bytes (K * nat);      (* callback, timer *)
  broadcasts_ : gmap bytes (K * nat);            (* on_response, timer *)
  armed : gmap nat wait;
  ready : list (nat * wait);
  next_timer : nat
}.

Implicit Types (s : AsyncRequestTracker).

Definition new_tracker : AsyncRequestTracker := {|
  pending_requests_ := ∅; broadcasts_ := ∅; armed := ∅; ready := []; next_timer := 0
|}.

Definition with_maps (p b : gmap bytes (K * nat)) s : AsyncRequestTracker := {|
  pending_requests_ := p; broadcasts_ := b; armed := armed s; ready := ready s; next_timer := next_timer s
|}.

Definition with_armed (a : gmap nat wait) (r : list (nat * wait)) (n : nat) s : AsyncRequestTracker := {|
  pending_requests_ := pending_requests_ s; broadcasts_ := broadcasts_ s;
  armed := a; ready := r; next_timer := n
|}.

(** A new timer with its [async_wait]. *)
Definition arm (h : wait) s : AsyncRequestTracker :=
  with_armed (<[next_timer s := h]> (armed s)) (ready s) (S (next_timer s)) s.

(** [cancel()] or destruction of a timer: the handler of a request returns at
    once on [operation_aborted], that of a broadcast does not look. *)
Definition abort_timer (t : nat) s : AsyncRequestTracker :=
  match armed s !! t with
  | None => s
  | Some (WaitRequest _) => with_armed (delete t (armed s)) (ready s) (next_timer s) s
  | Some h => with_armed (delete t (armed s)) (ready s ++ [(t, h)]) (next_timer s) s
  end.

(** [try_emplace] keeps an entry that exists; the new timer then dies. *)
Definition track_broadcast (req_id : bytes) (on_response on_complete : K) s : AsyncRequestTracker :=
  let t := next_timer s in
  let s := arm (WaitBroadcast req_id on_complete) s in
  match broadcasts_ s !! req_id with
  | Some _ => abort_timer t s
  | None => with_maps (pending_requests_ s) (<[req_id := (on_response, t)]> (broadcasts_ s)) s
  end.

(** An entry that exists is overwritten and its timer dies. *)
Definition track_request_callback (req_id : bytes) (callback : K) s : AsyncRequestTracker :=
  let t := next_timer s in
  let s := arm (WaitRequest req_id) s in
  let old := pending_requests_ s !! req_id in
  let s := with_maps (<[req_id := (callback, t)]> (pending_requests_ s)) (broadcasts_ s) s in
  match old with Some (_, t') => abort_timer t' s | None => s end.

Definition complete_request (req_id from_id : bytes) (payload : option T) s
    : bool * AsyncRequestTracker * list call :=
  match pending_requests_ s !! req_id with
  | None => (false, s, [])
  | Some (cb, t) =>
      (true, abort_timer t (with_maps (delete req_id (pending_requests_ s)) (broadcasts_ s) s),
       [CallRequest cb from_id payload])
  end.

Definition fulfill_request (req_id from_id : bytes) (payload : T) s
    : bool * AsyncRequestTracker * list call :=
  match pending_requests_ s !! req_id with
  | None =>
      match broadcasts_ s !! req_id with
      | Some (cb, _) => (true, s, [CallResponse cb from_id payload])
      | None => (false, s, [])
      end
  | Some _ => complete_request req_id from_id (Some payload) s
  end.

(** The time of an armed timer is over. *)
Definition expire (t : nat) s : option AsyncRequestTracker :=
  match armed s !! t with
  | None => None
  | Some h => Some (with_armed (delete t (armed s)) (ready s ++ [(t, h)]) (next_timer s) s)
  end.

(** The body of a handler that runs. *)
Definition handle_wait (h : wait) s : AsyncRequestTracker * list call :=
  match h with
  | WaitRequest req_id => let '(_, s, calls) := complete_request req_id [] None s in (s, calls)
  | WaitBroadcast req_id on_complete =>
      match broadcasts_ s !! req_id with
      | Some (_, t) =>
          (abort_timer t (with_maps (pending_requests_ s) (delete req_id (broadcasts_ s)) s),
           [CallComplete on_complete])
      | None => (s, [])
      end
  end.

(** ** Histories *)

(** The state with the requests tracked and the calls made so far. *)
Record history := History {
  tracker : AsyncRequestTracker;
  tracked : list (bytes * K);
  calls : list call
}.

(** Request ids are UUIDs and callbacks are fresh closures: neither repeats.
    [fulfill_request] releases the lock between its look-up and
    [complete_request]: a run in which nothing comes between is [step_fulfill];
    one in which other operations do ends, at any later time, in
    [step_complete]. *)
Inductive step (h : history) : history -> Prop :=
| step_request req cb :
    req ∉ (tracked h).*1 -> cb ∉ (tracked h).*2 ->
    step h (History (track_request_callback req cb (tracker h)) (tracked h ++ [(req, cb)]) (calls h))
| step_broadcast req on_response on_complete :
    step h (History (track_broadcast req on_response on_complete (tracker h)) (tracked h) (calls h))
| step_fulfill req from payload b s' cs :
    fulfill_request req from payload (tracker h) = (b, s', cs) ->
    step h (History s' (tracked h) (calls h ++ cs))
| step_complete req from payload b s' cs :
    complete_request req from (Some payload) (tracker h) = (b, s', cs) ->
    step h (History s' (tracked h) (calls h ++ cs))
| step_expire t s' :
    expire t (tracker h) = Some s' -> step h (History s' (tracked h) (calls h))
| step_handler t w l1 l2 s' cs :
    ready (tracker h) = l1 ++ (t, w) :: l2 ->
    handle_wait w (with_armed (armed (tracker h)) (l1 ++ l2) (next_timer (tracker h)) (tracker h)) = (s', cs) ->
    step h (History s' (tracked h) (calls h ++ cs)).

Definition start : history := History new_tracker [] [].

(** How often a request callback has been called. *)
Definition calls_back (cb : K) (c : call) : bool :=
  match c with CallRequest cb' _ _ => bool_decide (cb' = cb) | _ => false end.

Definition times_called (cb : K) (cs : list call) : nat :=
  length (filter (fun c => calls_back cb c = true) cs).

(** The timer of a request is armed or its handler is ready. *)
Definition timed s (t : nat) (req : bytes) : Prop :=
  armed s !! t = Some (WaitRequest req) \/ (t, WaitRequest req) ∈ ready s.

(** [x]: a request whose handler is running and which needs no timer. *)
Record inv (x : option bytes) (h : history) : Prop := {
  inv_ids : NoDup (tracked h).*1;
  inv_cbs : NoDup (tracked h).*2;
  inv_known : forall req cb t, pending_requests_ (tracker h) !! req = Some (cb, t) ->
    (req, cb) ∈ tracked h /\ t < next_timer (tracker h) /\
    (x = Some req \/ timed (tracker h) t req);
  inv_timers : forall r1 r2 c1 c2 t, pending_requests_ (tracker h) !! r1 = Some (c1, t) ->
    pending_requests_ (tracker h) !! r2 = Some (c2, t) -> r1 = r2;
  inv_armed : forall t w, armed (tracker h) !! t = Some w -> t < next_timer (tracker h);
  inv_bcast : forall req cb t r c, broadcasts_ (tracker h) !! req = Some (cb, t) ->
    t < next_timer (tracker h) /\ pending_requests_ (tracker h) !! r <> Some (c, t);
  inv_once : forall req cb, (req, cb) ∈ tracked h ->
    match pending_requests_ (tracker h) !! req with
    | Some (cb', _) => cb' = cb /\ times_called cb (calls h) = 0
    | None => times_called cb (calls h) = 1
    end;
  inv_called : forall cb, 0 < times_called cb (calls h) -> cb ∈ (tracked h).*2
}.

Lemma times_called_app cb cs1 cs2 :
  times_called cb (cs1 ++ cs2) = times_called cb cs1 + times_called cb cs2.
Proof. unfold times_called. by rewrite filter_app, length_app. Qed.

Lemma abort_timer_fields t s :
  pending_requests_ (abort_timer t s) = pending_requests_ s /\
  broadcasts_ (abort_timer t s) = broadcasts_ s /\ next_timer (abort_timer t s) = next_timer s /\
  (forall t' w, armed (abort_timer t s) !! t' = Some w -> armed s !! t' = Some w) /\
  (forall t' req, t' <> t -> timed s t' req -> timed (abort_timer t s) t' req).
Proof.
  unfold abort_timer. destruct (armed s !! t) as [[req|req k]|] eqn:E; simpl; split_and!; try done.
  - by intros t' w [_ ?]%lookup_delete_Some.
  - intros t' r Hne [Ha|Hr]; [left|right; done]. simpl. by rewrite lookup_delete_ne.
  - by intros t' w [_ ?]%lookup_delete_Some.
  - intros t' r Hne [Ha|Hr]; [left|right; apply elem_of_app; by left]. simpl. by rewrite lookup_delete_ne.
Qed.

(** A pair of the tracked list is determined by either component. *)
Lemma tracked_inj_cb (l : list (bytes * K)) r1 r2 cb :
  NoDup l.*2 -> (r1, cb) ∈ l -> (r2, cb) ∈ l -> r1 = r2.
Proof.
  intros Hnd [i Hi]%list_elem_of_lookup [j Hj]%list_elem_of_lookup.
  assert (i = j) as ->.
  { eapply NoDup_lookup; [exact Hnd|..]; rewrite list_lookup_fmap; [by rewrite Hi|by rewrite Hj]. }
  congruence.
Qed.

(** Completing a request keeps the invariant. *)
Lemma complete_inv x h req from (payload : option T) b s' cs :
  inv x h -> x = None \/ x = Some req -> complete_request req from payload (tracker h) = (b, s', cs) ->
  inv None (History s' (tracked h) (calls h ++ cs)).
Proof.
  intros Hi Hx. unfold complete_request.
  destruct (pending_requests_ (tracker h) !! req) as [[cb t]|] eqn:E.
  2:{ intros [= <- <- <-]. rewrite app_nil_r. destruct Hi as [H1 H2 H3 H4 H5 H6 H7 H8]. split; try done.
      intros r c t Hl. simpl in *. destruct (H3 r c t Hl) as (? & ? & [->|?]); [|by auto].
      destruct Hx as [|[= ->]]; [done|]. congruence. }
  intros [= <- <- <-]. destruct (inv_known x h Hi _ _ _ E) as (Hin & Ht & _).
  set (s1 := with_maps _ _ _). destruct (abort_timer_fields t s1) as (Hp & Hb & Hn & Ha & Hti).
  assert (forall cb', times_called cb' (calls h ++ [CallRequest cb from payload]) =
    times_called cb' (calls h) + if decide (cb = cb') then 1 else 0) as Hcount.
  { intros cb'. rewrite times_called_app. f_equal. unfold times_called. rewrite filter_cons, filter_nil. simpl.
    destruct (decide (cb = cb')) as [->|Hne];
      [rewrite bool_decide_true by done|rewrite bool_decide_false by done]; done. }
  split; simpl; try apply Hi.
  - intros r c t'. rewrite Hp. simpl. intros [Hne Hl]%lookup_delete_Some.
    destruct (inv_known x h Hi _ _ _ Hl) as (? & ? & Htm). rewrite Hn. split_and!; try done.
    right. destruct Htm as [->|Htm]; [by destruct Hx as [|[= ->]]|].
    apply Hti; [|done]. intros ->. by destruct Hne; apply (inv_timers x h Hi _ _ _ _ _ E Hl).
  - intros r1 r2 c1 c2 t'. rewrite Hp. simpl. intros [_ H1]%lookup_delete_Some [_ H2]%lookup_delete_Some.
    by eapply (inv_timers x h Hi).
  - intros t' w' Hw%Ha. rewrite Hn. by eapply (inv_armed x h Hi).
  - intros r c t' r' c'. rewrite Hb, Hp, Hn. simpl. intros Hl. destruct (inv_bcast x h Hi _ _ _ r' c' Hl) as [? Hne].
    split; [done|]. by intros [_ ?]%lookup_delete_Some.
  - intros r c Hrc. rewrite Hp, Hcount. simpl. pose proof (inv_once x h Hi r c Hrc) as Ho.
    destruct (decide (r = req)) as [->|Hne].
    + rewrite lookup_delete_eq. rewrite E in Ho. destruct Ho as [-> ->]. by rewrite decide_True.
    + rewrite lookup_delete_ne by done. rewrite decide_False.
      * destruct (pending_requests_ (tracker h) !! r) as [[c' t']|]; [|lia]. destruct Ho. split; [done|lia].
      * intros ->. destruct Hne. by eapply tracked_inj_cb; [apply (inv_cbs x h Hi)|..].
  - intros c. rewrite Hcount. destruct (decide (cb = c)) as [->|].
    + intros _. apply list_elem_of_fmap. by exists (req, c).
    + intros ?. apply (inv_called x h Hi). lia.
Qed.

(** An operation that leaves the requests alone. *)
Lemma other_inv x h s' cs :
  inv None h -> pending_requests_ s' = pending_requests_ (tracker h) ->
  next_timer (tracker h) <= next_timer s' ->
  (forall t w, armed s' !! t = Some w -> t < next_timer s') ->
  (forall req cb t, broadcasts_ s' !! req = Some (cb, t) -> t < next_timer s' /\
     forall r c, pending_requests_ (tracker h) !! r <> Some (c, t)) ->
  (forall r c t, pending_requests_ (tracker h) !! r = Some (c, t) -> timed (tracker h) t r ->
     x = Some r \/ timed s' t r) ->
  (forall cb, times_called cb cs = 0) ->
  inv x (History s' (tracked h) (calls h ++ cs)).
Proof.
  intros Hi Hp Hn Ha Hb Ht Hc. split; simpl; rewrite ?Hp; try apply Hi.
  - intros r c t Hl. destruct (inv_known None h Hi _ _ _ Hl) as (? & ? & [|?]); [done|].
    split_and!; [done|lia|by eapply Ht].
  - done.
  - intros r c t r' c' Hl. destruct (Hb _ _ _ Hl) as [? ?]. done.
  - intros r c Hrc. rewrite times_called_app, Hc, Nat.add_0_r. by apply (inv_once None h Hi).
  - intros c. rewrite times_called_app, Hc, Nat.add_0_r. apply (inv_called None h Hi).
Qed.

Lemma fulfill_inv h req from (payload : T) b s' cs :
  inv None h -> fulfill_request req from payload (tracker h) = (b, s', cs) ->
  inv None (History s' (tracked h) (calls h ++ cs)).
Proof.
  intros Hi. unfold fulfill_request.
  destruct (pending_requests_ (tracker h) !! req) eqn:E; [intros Hc; by eapply (complete_inv None); [|left|exact Hc]|].
  assert (forall cs, (forall cb, times_called cb cs = 0) ->
    inv None (History (tracker h) (tracked h) (calls h ++ cs))) as Hkeep.
  { intros cs' Hc. apply other_inv; try done.
    - intros. by eapply (inv_armed None h Hi).
    - intros r c t Hl. split; [by eapply (inv_bcast None h Hi r c t [] c)|]. intros. by eapply (inv_bcast None h Hi).
    - intros. by right. }
  destruct (broadcasts_ (tracker h) !! req) as [[cb t]|]; intros [= <- <- <-]; by apply Hkeep.
Qed.

Lemma track_request_inv h req cb :
  inv None h -> req ∉ (tracked h).*1 -> cb ∉ (tracked h).*2 ->
  inv None (History (track_request_callback req cb (tracker h)) (tracked h ++ [(req, cb)]) (calls h)).
Proof.
  intros Hi Hreq Hcb. unfold track_request_callback. simpl.
  assert (forall cb' , (req, cb') ∉ tracked h) as Hnew.
  { intros cb' Hin. apply Hreq, list_elem_of_fmap. by exists (req, cb'). }
  destruct (pending_requests_ (tracker h) !! req) as [[cb' t']|] eqn:E.
  { destruct (inv_known None h Hi _ _ _ E) as [Hin _]. by destruct (Hnew cb'). }
  assert (times_called cb (calls h) = 0) as H0.
  { destruct (times_called cb (calls h)) eqn:Ec; [done|]. destruct Hcb. apply (inv_called None h Hi). lia. }
  split; simpl.
  - rewrite fmap_app. apply NoDup_app. split_and!; [apply Hi| |apply NoDup_singleton].
    by intros x Hx ->%list_elem_of_singleton.
  - rewrite fmap_app. apply NoDup_app. split_and!; [apply Hi| |apply NoDup_singleton].
    by intros x Hx ->%list_elem_of_singleton.
  - intros r c t. destruct (decide (r = req)) as [->|Hne].
    + rewrite lookup_insert_eq. intros [= <- <-]. split_and!; [apply elem_of_app; right; by left|lia|].
      right. left. simpl. apply lookup_insert_eq.
    + rewrite lookup_insert_ne by done. intros Hl. destruct (inv_known None h Hi _ _ _ Hl) as (? & ? & [|Htm]); [done|].
      split_and!; [apply elem_of_app; by left|lia|]. right. destruct Htm as [Htm|Htm]; [left|right; done]. simpl.
      rewrite lookup_insert_ne by lia. done.
  - intros r1 r2 c1 c2 t. destruct (decide (r1 = req)) as [->|H1], (decide (r2 = req)) as [->|H2];
      rewrite ?lookup_insert_eq, ?lookup_insert_ne by done; try done.
    + intros [= <- <-] Hl. apply (inv_known None h Hi) in Hl as (_ & ? & _). lia.
    + intros Hl [= <- <-]. apply (inv_known None h Hi) in Hl as (_ & ? & _). lia.
    + by apply (inv_timers None h Hi).
  - intros t w'. destruct (decide (t = next_timer (tracker h))) as [->|]; [lia|].
    rewrite lookup_insert_ne by done. intros Hl%(inv_armed None h Hi). lia.
  - intros r c t r' c' Hl. destruct (inv_bcast None h Hi _ _ _ r' c' Hl) as [Hlt Hne]. split; [lia|].
    destruct (decide (r' = req)) as [->|]; [rewrite lookup_insert_eq; intros [= <- <-]; lia|].
    by rewrite lookup_insert_ne.
  - intros r c [Hin|Hin%list_elem_of_singleton]%elem_of_app.
    + rewrite lookup_insert_ne by (intros <-; by apply (Hnew c)). by apply (inv_once None h Hi).
    + injection Hin as -> ->. by rewrite lookup_insert_eq.
  - intros c Hc. rewrite fmap_app. apply elem_of_app. left. by apply (inv_called None h Hi).
Qed.

Lemma times_called_nil cb : times_called cb [] = 0.
Proof. done. Qed.

(** A new timer leaves the others alone. *)
Lemma arm_timed w s t req : t < next_timer s -> timed s t req -> timed (arm w s) t req.
Proof. intros ? [Htm|]; [left|by right]. simpl. rewrite lookup_insert_ne by lia. done. Qed.

Lemma arm_bounded w x h t w' :
  inv x h -> armed (arm w (tracker h)) !! t = Some w' -> t < S (next_timer (tracker h)).
Proof.
  intros Hi. simpl. destruct (decide (t = next_timer (tracker h))) as [->|]; [lia|].
  rewrite lookup_insert_ne by done. intros Hw%(inv_armed x h Hi). lia.
Qed.

Lemma bcast_bounded x h req cb t :
  inv x h -> broadcasts_ (tracker h) !! req = Some (cb, t) ->
  t < next_timer (tracker h) /\ forall r c, pending_requests_ (tracker h) !! r <> Some (c, t).
Proof.
  intros Hi Hl. split; [by eapply (inv_bcast x h Hi _ _ _ [] cb)|]. intros. by eapply (inv_bcast x h Hi).
Qed.

Lemma track_broadcast_inv h req k1 k2 :
  inv None h -> inv None (History (track_broadcast req k1 k2 (tracker h)) (tracked h) (calls h)).
Proof.
  intros Hi. rewrite <-(app_nil_r (calls h)). unfold track_broadcast. cbn [arm with_armed broadcasts_ next_timer].
  assert (forall r c t, pending_requests_ (tracker h) !! r = Some (c, t) -> t < next_timer (tracker h)) as Hlt.
  { intros r c t Hl. by destruct (inv_known None h Hi _ _ _ Hl) as (_ & ? & _). }
  destruct (broadcasts_ (tracker h) !! req) as [[k t]|] eqn:E.
  - destruct (abort_timer_fields (next_timer (tracker h)) (arm (WaitBroadcast req k2) (tracker h)))
      as (Hp & Hb & Hn & Ha & Ht). apply other_inv; rewrite ?Hp, ?Hb, ?Hn; simpl; try done; try lia.
    + intros t' w' Hw%Ha. by eapply arm_bounded.
    + intros r c t' Hl. destruct (bcast_bounded None h _ _ _ Hi Hl). split; [lia|done].
    + intros r c t' Hl Htm. right. pose proof (Hlt _ _ _ Hl). apply Ht; [lia|]. by apply arm_timed.
  - apply other_inv; simpl; try done; try lia.
    + intros t' w' Hw. exact (arm_bounded (WaitBroadcast req k2) None h t' w' Hi Hw).
    + intros r c t'. destruct (decide (r = req)) as [->|].
      * rewrite lookup_insert_eq. intros [= <- <-]. split; [lia|]. intros r' c' Hl%Hlt. lia.
      * rewrite lookup_insert_ne by done. intros Hl. destruct (bcast_bounded None h _ _ _ Hi Hl). split; [lia|done].
    + intros r c t' Hl Htm. right. pose proof (Hlt _ _ _ Hl).
      by apply (arm_timed (WaitBroadcast req k2) (tracker h)).
Qed.

Lemma expire_inv h t s' :
  inv None h -> expire t (tracker h) = Some s' -> inv None (History s' (tracked h) (calls h)).
Proof.
  intros Hi H. rewrite <-(app_nil_r (calls h)). unfold expire in H.
  destruct (armed (tracker h) !! t) as [w'|] eqn:E; [|done]. injection H as <-.
  apply other_inv; simpl; try done.
  - intros t' w'' [_ Hl]%lookup_delete_Some. by eapply (inv_armed None h Hi).
  - intros r c t' Hl. by eapply bcast_bounded.
  - intros r c t' Hl Htm. right. destruct Htm as [Htm|Htm]; [|right; apply elem_of_app; by left].
    destruct (decide (t' = t)) as [->|].
    + right. apply elem_of_app. right. rewrite E in Htm. injection Htm as ->. by left.
    + left. simpl. by rewrite lookup_delete_ne.
Qed.

(** The handler that starts is no longer ready: only its own request may have
    lost its timer. *)
Lemma run_handler_inv h t w l1 l2 :
  inv None h -> ready (tracker h) = l1 ++ (t, w) :: l2 ->
  inv (match w with WaitRequest req => Some req | _ => None end)
    (History (with_armed (armed (tracker h)) (l1 ++ l2) (next_timer (tracker h)) (tracker h))
       (tracked h) (calls h)).
Proof.
  intros Hi Hr. rewrite <-(app_nil_r (calls h)). apply other_inv; simpl; try done; try lia.
  - intros. by eapply (inv_armed None h Hi).
  - intros r c t' Hl. by eapply bcast_bounded.
  - intros r c t' Hl [Htm|Htm]; [by right; left|]. rewrite Hr in Htm.
    apply elem_of_app in Htm as [?|[Heq|?]%elem_of_cons].
    + right. right. apply elem_of_app. by left.
    + left. injection Heq as <- <-. done.
    + right. right. apply elem_of_app. by right.
Qed.

Lemma handle_broadcast_inv h req k s' cs :
  inv None h -> handle_wait (WaitBroadcast req k) (tracker h) = (s', cs) ->
  inv None (History s' (tracked h) (calls h ++ cs)).
Proof.
  intros Hi. simpl. destruct (broadcasts_ (tracker h) !! req) as [[k' t']|] eqn:E; intros [= <- <-].
  - set (s1 := with_maps _ _ _). destruct (abort_timer_fields t' s1) as (Hp & Hb & Hn & Ha & Ht).
    apply other_inv; rewrite ?Hp, ?Hb, ?Hn; simpl; try done; try lia.
    + intros t'' w'' Hw%Ha. by eapply (inv_armed None h Hi).
    + intros r c t'' [_ Hl]%lookup_delete_Some. by eapply bcast_bounded.
    + intros r c t'' Hl Htm. right. apply Ht; [|exact Htm]. intros ->. by eapply (bcast_bounded None h).
  - by rewrite app_nil_r; destruct h.
Qed.

Lemma step_inv h h' : inv None h -> step h h' -> inv None h'.
Proof.
  intros Hi Hs.
  destruct Hs as [req cb H1 H2|req k1 k2|req from p b s' cs H|req from p b s' cs H|t s' H|t w' l1 l2 s' cs Hr H].
  - by apply track_request_inv.
  - by apply track_broadcast_inv.
  - by eapply fulfill_inv.
  - by eapply (complete_inv None); [|left|exact H].
  - by eapply expire_inv.
  - pose proof (run_handler_inv h t w' l1 l2 Hi Hr) as H0. set (s0 := with_armed _ _ _ _) in *.
    destruct w' as [req|req k]; [|by apply (handle_broadcast_inv _ _ _ _ _ H0 H)].
    simpl in H. destruct (complete_request _ _ _ _) as [[b s1] cs1] eqn:E. injection H as <- <-.
    eapply (complete_inv (Some req) (History s0 (tracked h) (calls h))) in E; [exact E|done|by right].
Qed.

Lemma start_inv : inv None start.
Proof.
  split; simpl; try done; try constructor; try (intros *; rewrite ?lookup_empty; done).
  - by intros req cb ?%not_elem_of_nil.
  - intros cb. unfold times_called. simpl. lia.
Qed.

Lemma reachable_inv h : rtc step start h -> inv None h.
Proof.
  intros Hr. pose proof start_inv as H0. induction Hr as [|x y z Hxy _ IH]; [done|].
  apply IH. by eapply step_inv.
Qed.
End tracker.

Arguments history : clear implicits.
Arguments AsyncRequestTracker : clear implicits.
Arguments wait : clear implicits.
Arguments call : clear implicits.

(** (C17) Exactly one completion per request: for any interleaving of new
    requests and broadcasts, responses, expiring timers and delayed timer
    handlers, a tracked request either still waits, uncalled, with its timer armed
    or its time-out handler ready to run, or its callback has been called exactly
    once; a response and a time-out never both reach it, and none is lost. *)
Theorem request_completed_once {K T} `{EqDecision K} (h : history K T) (req : bytes) (cb : K)
    (Hreach : rtc step start h) (Htracked : (req, cb) ∈ tracked h) :
  match pending_requests_ (tracker h) !! req with
  | Some (cb', t) => cb' = cb /\ times_called cb (calls h) = 0 /\ timed (tracker h) t req
  | None => times_called cb (calls h) = 1
  end.
Proof.
  pose proof (reachable_inv h Hreach) as Hi. pose proof (inv_once None h Hi req cb Htracked) as Ho.
  destruct (pending_requests_ (tracker h) !! req) as [[cb' t]|] eqn:E; [|done].
  destruct (inv_known None h Hi _ _ _ E) as (_ & _ & [|?]); [done|]. by destruct Ho.
Qed.

Lemma request_completed_once_witness :
  exists h : history nat bytes, rtc step start h /\ tracked h = [([x01], 7)] /\
    pending_requests_ (tracker h) !! [x01] = None /\ times_called 7 (calls h) = 1.
Proof.
  assert (exists h : history nat bytes, rtc step start h /\ tracked h = [([x01], 7)] /\
    pending_requests_ (tracker h) !! [x01] = None) as (h & Hr & Ht & Hp).
  { eexists. split; [|split].
    - eapply rtc_l; [apply (step_request start [x01] 7); simpl; by intros ?%not_elem_of_nil|].
      eapply rtc_l; [apply (step_expire _ 0); reflexivity|].
      eapply rtc_l; [eapply (step_fulfill _ [x01] [x0a] [x2a]); reflexivity|].
      apply rtc_once. eapply (step_handler _ 0 _ [] []); reflexivity.
    - reflexivity.
    - reflexivity. }
  exists h. split_and!; [exact Hr|exact Ht|exact Hp|].
  pose proof (request_completed_once h [x01] 7 Hr) as W. rewrite Hp in W. apply W. rewrite Ht. by left.
Defined.

End Tracker.
