(* ===== verification/Crypto.v ===== *)
(** * Cryptographic helpers

    [CryptoHelpers] (src/src/mesh/crypto/CryptoHelpers.cpp) and [CertHelpers]
    (CertHelpers.cpp) over OpenSSL.  OpenSSL is an interface; what it documents is
    a separate class of laws.  Random bytes are arguments; a thrown
    [runtime_error] is the result [None]. *)

From S2P Require Import Prelude.

Module Crypto.

(** ** OpenSSL *)

(** Each operation is [None] when the call, or one of the calls that set it up
    (context, padding, buffer size), reports failure.  [EVP_*Update] is given the
    buffer and the length argument of type [int]. *)
Class OpenSSL := {
  cipher_ctx : Type;
  pkey : Type;
  x509 : Type;
  EVP_EncryptInit_ex : bytes -> bytes -> option cipher_ctx;                (* key, iv *)
  EVP_EncryptUpdate : cipher_ctx -> bytes -> Z -> option (cipher_ctx * bytes);
  EVP_EncryptFinal_ex : cipher_ctx -> option bytes;
  EVP_DecryptInit_ex : bytes -> bytes -> option cipher_ctx;
  EVP_DecryptUpdate : cipher_ctx -> bytes -> Z -> option (cipher_ctx * bytes);
  EVP_DecryptFinal_ex : cipher_ctx -> option bytes;
  PEM_read_bio_PUBKEY : bytes -> option pkey;
  PEM_read_bio_PrivateKey : bytes -> option pkey;
  EVP_PKEY_encrypt : pkey -> bytes -> bytes -> option bytes;               (* OAEP seed, data *)
  EVP_PKEY_decrypt : pkey -> bytes -> option bytes;
  EVP_DigestSign : pkey -> bytes -> option bytes;                          (* SHA-256 *)
  EVP_DigestVerify : pkey -> bytes -> bytes -> bool;                       (* data, signature *)
  PEM_read_bio_X509 : bytes -> option x509;
  X509_verify_cert : x509 -> x509 -> bool;                                 (* the CA, the certificate *)
  X509_get_pubkey : x509 -> option pkey;
  PEM_write_bio_PUBKEY : pkey -> bytes;
  X509_common_name : x509 -> option bytes
}.

Definition AES_KEY_SIZE : nat := 32.
Definition AES_IV_SIZE : nat := 16.
Definition AES_BLOCK_SIZE : nat := 16.

(** Conversion of a [size_t] to [int]. *)
Definition to_int (z : Z) : Z := ((z + 2 ^ 31) mod 2 ^ 32 - 2 ^ 31)%Z.

(** The C string of a [std::string]: the bytes before the first NUL, which is
    what [BIO_new_mem_buf(s.c_str(), -1)] reads. *)
Fixpoint c_str (s : bytes) : bytes :=
  match s with
  | [] => []
  | c :: s => if bool_decide (c = x00) then [] else c :: c_str s
  end.

Section helpers.
Context {ssl : OpenSSL}.

(** ** CryptoHelpers *)

(** [key]: the contents of the array after [RAND_bytes], whose result is not
    looked at. *)
Definition generate_aes_key (key : bytes) : bytes := take AES_KEY_SIZE key.

(** [iv]: what [RAND_bytes] drew, [None] if it failed. *)
Definition aes_encrypt (key plaintext : bytes) (iv : option bytes) : option bytes :=
  if negb (length key =? AES_KEY_SIZE) then None
  else
    iv ← iv;
    ctx ← EVP_EncryptInit_ex key iv;
    '(ctx, head) ← EVP_EncryptUpdate ctx plaintext (to_int (Z.of_nat (length plaintext)));
    final ← EVP_EncryptFinal_ex ctx;
    Some (take AES_IV_SIZE iv ++ head ++ final).

Definition aes_decrypt (key encrypted_blob : bytes) : option bytes :=
  if negb (length key =? AES_KEY_SIZE) then None
  else if length encrypted_blob <? AES_IV_SIZE then None
  else
    let iv := take AES_IV_SIZE encrypted_blob in
    ctx ← EVP_DecryptInit_ex key iv;
    '(ctx, head) ← EVP_DecryptUpdate ctx (drop AES_IV_SIZE encrypted_blob)
                     (to_int (Z.of_nat (length encrypted_blob - AES_IV_SIZE)));
    final ← EVP_DecryptFinal_ex ctx;
    Some (head ++ final).

Definition rsa_encrypt_key (pub_key_pem aes_key seed : bytes) : option bytes :=
  k ← PEM_read_bio_PUBKEY (c_str pub_key_pem); EVP_PKEY_encrypt k seed aes_key.

Definition rsa_decrypt_key (priv_key_pem encrypted_key : bytes) : option bytes :=
  k ← PEM_read_bio_PrivateKey (c_str priv_key_pem); EVP_PKEY_decrypt k encrypted_key.

Definition sign_message (priv_key_pem plain_text : bytes) : option bytes :=
  k ← PEM_read_bio_PrivateKey (c_str priv_key_pem); EVP_DigestSign k plain_text.

Definition verify_signature (pub_key_pem plain_text sig : bytes) : bool :=
  match PEM_read_bio_PUBKEY (c_str pub_key_pem) with
  | None => false
  | Some k => EVP_DigestVerify k plain_text sig
  end.

(** ** CertHelpers *)

Definition verify_certificate (cert_pem ca_root_pem : bytes) : bool :=
  match PEM_read_bio_X509 (c_str ca_root_pem) with
  | None => false
  | Some ca_cert =>
      match PEM_read_bio_X509 (c_str cert_pem) with
      | None => false
      | Some target_cert => X509_verify_cert ca_cert target_cert
      end
  end.

Definition extract_pubkey_from_cert (cert_pem : bytes) : bytes :=
  match PEM_read_bio_X509 (c_str cert_pem) with
  | None => []
  | Some cert =>
      match X509_get_pubkey cert with
      | None => []
      | Some k => PEM_write_bio_PUBKEY k
      end
  end.

(** [stack]: the uninitialised [buffer] of 256 bytes, which is what is returned
    when the certificate has no common name. *)
Definition extract_common_name (cert_pem stack : bytes) : bytes :=
  match PEM_read_bio_X509 (c_str cert_pem) with
  | None => []
  | Some cert =>
      c_str (match X509_common_name cert with Some name => take 255 name | None => stack end)
  end.

End helpers.

(** ** What OpenSSL documents

    [key_pair pub priv]: the two strings are the PEM texts of one RSA key pair of
    at least 1024 bits. *)
Class OpenSSLLaws {ssl : OpenSSL} (key_pair : bytes -> bytes -> Prop) : Prop := {
  (** AES-256-CBC with padding: whole blocks, one more than the data fills. *)
  cbc_encrypts : forall key iv data,
    length key = AES_KEY_SIZE -> length iv = AES_IV_SIZE -> (Z.of_nat (length data) < 2 ^ 31)%Z ->
    exists ctx ctx' head final,
      EVP_EncryptInit_ex key iv = Some ctx /\
      EVP_EncryptUpdate ctx data (Z.of_nat (length data)) = Some (ctx', head) /\
      EVP_EncryptFinal_ex ctx' = Some final /\
      length (head ++ final) = AES_BLOCK_SIZE * S (length data / AES_BLOCK_SIZE);
  (** Decryption with the same key and IV gives the data back. *)
  cbc_decrypts : forall key iv data ctx ctx' head final,
    EVP_EncryptInit_ex key iv = Some ctx ->
    EVP_EncryptUpdate ctx data (Z.of_nat (length data)) = Some (ctx', head) ->
    EVP_EncryptFinal_ex ctx' = Some final ->
    (Z.of_nat (length (head ++ final)) < 2 ^ 31)%Z ->
    exists dctx dctx' dhead dfinal,
      EVP_DecryptInit_ex key iv = Some dctx /\
      EVP_DecryptUpdate dctx (head ++ final) (Z.of_nat (length (head ++ final))) = Some (dctx', dhead) /\
      EVP_DecryptFinal_ex dctx' = Some dfinal /\
      dhead ++ dfinal = data;
  (** The texts are non-empty C strings that parse. *)
  pem_pair : forall pub priv, key_pair pub priv ->
    pub <> [] /\
    (exists pk, PEM_read_bio_PUBKEY (c_str pub) = Some pk) /\
    (exists sk, PEM_read_bio_PrivateKey (c_str priv) = Some sk);
  (** RSA-OAEP takes a 32-byte key and decrypts what it encrypted. *)
  oaep_encrypts : forall pub priv pk sk seed data, key_pair pub priv ->
    PEM_read_bio_PUBKEY (c_str pub) = Some pk -> PEM_read_bio_PrivateKey (c_str priv) = Some sk ->
    length data = AES_KEY_SIZE ->
    exists c, EVP_PKEY_encrypt pk seed data = Some c /\ EVP_PKEY_decrypt sk c = Some data;
  (** Signing succeeds and the signature verifies. *)
  digest_signs : forall pub priv pk sk data, key_pair pub priv ->
    PEM_read_bio_PUBKEY (c_str pub) = Some pk -> PEM_read_bio_PrivateKey (c_str priv) = Some sk ->
    exists s, EVP_DigestSign sk data = Some s /\ EVP_DigestVerify pk data s = true;
  (** The ideal of a signature: it verifies for the data it was made for only. *)
  digest_binds : forall pub priv pk sk data data' s, key_pair pub priv ->
    PEM_read_bio_PUBKEY (c_str pub) = Some pk -> PEM_read_bio_PrivateKey (c_str priv) = Some sk ->
    EVP_DigestSign sk data = Some s -> EVP_DigestVerify pk data' s = true -> data' = data
}.

Lemma to_int_small z : (0 <= z < 2 ^ 31)%Z -> to_int z = z.
Proof. intros. unfold to_int. rewrite Z.mod_small; lia. Qed.

Section lemmas.
Context {ssl : OpenSSL} {key_pair : bytes -> bytes -> Prop} {laws : OpenSSLLaws key_pair}.

(** The length of a blob: the IV and the padded data. *)
Definition blob_length (n : nat) : nat := AES_IV_SIZE + AES_BLOCK_SIZE * S (n / AES_BLOCK_SIZE).

(** The buffer of [plaintext.size() + AES_BLOCK_SIZE] bytes holds the ciphertext. *)
Lemma ciphertext_fits n : AES_BLOCK_SIZE * S (n / AES_BLOCK_SIZE) <= n + AES_BLOCK_SIZE.
Proof. unfold AES_BLOCK_SIZE. pose proof (Nat.Div0.mul_div_le n 16). lia. Qed.

Lemma aes_roundtrip key iv data :
  length key = AES_KEY_SIZE -> length iv = AES_IV_SIZE ->
  (Z.of_nat (length data) + 16 < 2 ^ 31)%Z ->
  exists blob, aes_encrypt key data (Some iv) = Some blob /\
    length blob = blob_length (length data) /\ aes_decrypt key blob = Some data.
Proof.
  intros Hkey Hiv Hlen.
  destruct (cbc_encrypts key iv data Hkey Hiv ltac:(lia)) as (ctx & ctx' & head & final & E1 & E2 & E3 & El).
  pose proof (ciphertext_fits (length data)) as Hfit. unfold AES_BLOCK_SIZE in *.
  destruct (cbc_decrypts key iv data _ _ _ _ E1 E2 E3) as (d & d' & p1 & p2 & D1 & D2 & D3 & D4); [lia|].
  exists (iv ++ head ++ final). split_and!.
  - unfold aes_encrypt. rewrite Hkey. simpl. rewrite E1. simpl. rewrite to_int_small, E2 by lia. simpl.
    rewrite E3. simpl. by rewrite take_ge by (rewrite Hiv; done).
  - rewrite length_app, Hiv, El. done.
  - unfold aes_decrypt. rewrite Hkey. simpl.
    rewrite take_app_length', drop_app_length', length_app by done.
    rewrite (proj2 (Nat.ltb_ge _ _)) by (rewrite Hiv; unfold AES_IV_SIZE; lia).
    rewrite D1. simpl. rewrite Hiv, to_int_small by (unfold AES_IV_SIZE; lia).
    replace (AES_IV_SIZE + length (head ++ final) - AES_IV_SIZE) with (length (head ++ final)) by lia.
    rewrite D2. simpl. rewrite D3. simpl. by rewrite D4.
Qed.

Lemma rsa_roundtrip pub priv key seed :
  key_pair pub priv -> length key = AES_KEY_SIZE ->
  exists c, rsa_encrypt_key pub key seed = Some c /\ rsa_decrypt_key priv c = Some key.
Proof.
  intros Hp Hk. destruct (pem_pair _ _ Hp) as (_ & [pk Hpk] & [sk Hsk]).
  destruct (oaep_encrypts _ _ pk sk seed key Hp Hpk Hsk Hk) as (c & Hc & Hd).
  exists c. unfold rsa_encrypt_key, rsa_decrypt_key. rewrite Hpk, Hsk. done.
Qed.

Lemma sign_verifies pub priv data :
  key_pair pub priv ->
  exists s, sign_message priv data = Some s /\ verify_signature pub data s = true.
Proof.
  intros Hp. destruct (pem_pair _ _ Hp) as (_ & [pk Hpk] & [sk Hsk]).
  destruct (digest_signs _ _ pk sk data Hp Hpk Hsk) as (s & Hs & Hv).
  exists s. unfold sign_message, verify_signature. rewrite Hpk, Hsk. done.
Qed.

Lemma sign_binds pub priv data data' s :
  key_pair pub priv -> sign_message priv data = Some s -> verify_signature pub data' s = true ->
  data' = data.
Proof.
  intros Hp. destruct (pem_pair _ _ Hp) as (_ & [pk Hpk] & [sk Hsk]).
  unfold sign_message, verify_signature. rewrite Hpk, Hsk. simpl.
  by apply (digest_binds _ _ pk sk data data' s Hp).
Qed.
End lemmas.

(** ** A concrete instance

    Padding without encryption, signatures that repeat the data: enough to
    evaluate the code and to show the laws satisfiable. *)

(** PKCS#7: the number of padding bytes, that many times. *)
Definition pad_block (s : bytes) : bytes :=
  let n := 16 - length s mod 16 in s ++ replicate n (n2b n).

Definition unpad_block (s : bytes) : option bytes :=
  n ← last s; Some (take (length s - b2n n) s).

Definition toy_ssl : OpenSSL := {|
  cipher_ctx := bytes; pkey := bytes; x509 := bytes;
  EVP_EncryptInit_ex _ _ := Some [];
  EVP_EncryptUpdate ctx d n := Some (ctx ++ take (Z.to_nat n) d, []);
  EVP_EncryptFinal_ex ctx := Some (pad_block ctx);
  EVP_DecryptInit_ex _ _ := Some [];
  EVP_DecryptUpdate ctx d n := Some (ctx ++ take (Z.to_nat n) d, []);
  EVP_DecryptFinal_ex ctx := unpad_block ctx;
  PEM_read_bio_PUBKEY s := Some s;
  PEM_read_bio_PrivateKey s := Some s;
  EVP_PKEY_encrypt k _ d := Some d;
  EVP_PKEY_decrypt k d := Some d;
  EVP_DigestSign k d := Some (k ++ d);
  EVP_DigestVerify k d s := bool_decide (s = k ++ d);
  PEM_read_bio_X509 s := Some s;
  X509_verify_cert ca c := true;
  X509_get_pubkey c := Some c;
  PEM_write_bio_PUBKEY k := k;
  X509_common_name c := Some c
|}.

(** In the toy world the two keys of a pair are the same non-empty text. *)
Definition toy_pair (pub priv : bytes) : Prop := pub = priv /\ pub <> [].

Lemma unpad_pad s : unpad_block (pad_block s) = Some s.
Proof.
  pose proof (Nat.mod_upper_bound (length s) 16 ltac:(lia)) as Hm. unfold unpad_block, pad_block.
  set (n := 16 - length s mod 16). assert (1 <= n <= 16) as Hn by (unfold n; lia). clearbody n.
  assert (last (s ++ replicate n (n2b n)) = Some (n2b n)) as ->.
  { destruct n as [|n]; [lia|]. rewrite replicate_S_end, app_assoc. apply last_snoc. }
  simpl. rewrite length_app, length_replicate, b2n_n2b by lia.
  f_equal. rewrite take_app_le by lia. apply take_ge. lia.
Qed.

Lemma toy_laws : @OpenSSLLaws toy_ssl toy_pair.
Proof.
  split.
  - intros key iv data _ _ _. do 4 eexists. split_and!; [done..|].
    cbn [EVP_EncryptInit_ex EVP_EncryptUpdate EVP_EncryptFinal_ex toy_ssl].
    rewrite take_ge by lia. unfold pad_block, AES_BLOCK_SIZE. cbn [app]. rewrite length_app, length_replicate.
    pose proof (Nat.div_mod_eq (length data) 16).
    pose proof (Nat.mod_upper_bound (length data) 16 ltac:(lia)). nia.
  - intros key iv data ctx ctx' head final [= <-] [= <- <-] [= <-] _. simpl in *.
    do 4 eexists. split_and!; [done..| |].
    + rewrite !take_ge by lia. apply unpad_pad.
    + done.
  - intros pub priv [-> Hne]. split_and!; [done|by eexists..].
  - intros pub priv pk sk seed data _ _ _ _. by eexists.
  - intros pub priv pk sk data [-> _] [= <-] [= <-]. eexists. split; [done|]. by apply bool_decide_eq_true.
  - intros pub priv pk sk data data' s [-> _] [= <-] [= <-] [= <-] H%bool_decide_eq_true.
    by apply app_inv_head in H.
Qed.

End Crypto.
