(* ===== verification/Identity.v ===== *)
(** * Identities and packet security

    [IdentityManager] (src/src/mesh/crypto/IdentityManager.{h,cpp}): the node's
    own keys, the keys it trusts and the packets that wait for a key; and
    [PacketSecurity] (PacketSecurity.cpp): hybrid encryption and signature of a
    packet's payload. *)

From S2P Require Import Prelude Utils Packet Crypto.

Module Identity.
Import Utils Packet Crypto.

(** ** IdentityManager *)

Record IdentityManager := {
  my_cert_ : bytes;
  my_private_key_ : bytes;
  ca_root_ : bytes;
  trusted_keys_ : gmap bytes bytes;
  pending_incoming_packets_ : gmap bytes (list RoutedPacket);
  pending_outgoing_packets_ : gmap bytes (list RoutedPacket)
}.

Definition new_manager : IdentityManager := {|
  my_cert_ := []; my_private_key_ := []; ca_root_ := []; trusted_keys_ := ∅;
  pending_incoming_packets_ := ∅; pending_outgoing_packets_ := ∅
|}.

Definition with_files (ca cert key : bytes) (im : IdentityManager) : IdentityManager := {|
  my_cert_ := cert; my_private_key_ := key; ca_root_ := ca; trusted_keys_ := trusted_keys_ im;
  pending_incoming_packets_ := pending_incoming_packets_ im;
  pending_outgoing_packets_ := pending_outgoing_packets_ im
|}.

Definition with_pending (inc out : gmap bytes (list RoutedPacket)) (im : IdentityManager)
    : IdentityManager := {|
  my_cert_ := my_cert_ im; my_private_key_ := my_private_key_ im; ca_root_ := ca_root_ im;
  trusted_keys_ := trusted_keys_ im; pending_incoming_packets_ := inc; pending_outgoing_packets_ := out
|}.

Definition has_key (peer_id : bytes) (im : IdentityManager) : bool :=
  bool_decide (is_Some (trusted_keys_ im !! peer_id)).

Definition get_public_key (peer_id : bytes) (im : IdentityManager) : option bytes :=
  trusted_keys_ im !! peer_id.

Definition add_trusted_peer (peer_id pub_key : bytes) (im : IdentityManager) : IdentityManager := {|
  my_cert_ := my_cert_ im; my_private_key_ := my_private_key_ im; ca_root_ := ca_root_ im;
  trusted_keys_ := <[peer_id := pub_key]> (trusted_keys_ im);
  pending_incoming_packets_ := pending_incoming_packets_ im;
  pending_outgoing_packets_ := pending_outgoing_packets_ im
|}.

(** [m[peer_id].push_back(pkt)] *)
Definition push_packet (peer_id : bytes) (pkt : RoutedPacket) (m : gmap bytes (list RoutedPacket))
    : gmap bytes (list RoutedPacket) :=
  <[peer_id := default [] (m !! peer_id) ++ [pkt]]> m.

Definition buffer_incoming_packet (peer_id : bytes) (pkt : RoutedPacket) (im : IdentityManager)
    : IdentityManager :=
  with_pending (push_packet peer_id pkt (pending_incoming_packets_ im)) (pending_outgoing_packets_ im) im.

Definition buffer_outgoing_packet (peer_id : bytes) (pkt : RoutedPacket) (im : IdentityManager)
    : IdentityManager :=
  with_pending (pending_incoming_packets_ im) (push_packet peer_id pkt (pending_outgoing_packets_ im)) im.

Definition pop_incoming_pending_packets (peer_id : bytes) (im : IdentityManager)
    : list RoutedPacket * IdentityManager :=
  match pending_incoming_packets_ im !! peer_id with
  | None => ([], im)
  | Some vec => (vec, with_pending (delete peer_id (pending_incoming_packets_ im))
                        (pending_outgoing_packets_ im) im)
  end.

Definition pop_outgoing_pending_packets (peer_id : bytes) (im : IdentityManager)
    : list RoutedPacket * IdentityManager :=
  match pending_outgoing_packets_ im !! peer_id with
  | None => ([], im)
  | Some vec => (vec, with_pending (pending_incoming_packets_ im)
                        (delete peer_id (pending_outgoing_packets_ im)) im)
  end.

Definition get_my_cert (im : IdentityManager) : bytes := my_cert_ im.
Definition get_my_private_key (im : IdentityManager) : bytes := my_private_key_ im.
Definition get_ca_root (im : IdentityManager) : bytes := ca_root_ im.

(** [files]: the contents of the files that can be opened. *)
Definition read_file_to_string (files : bytes -> option bytes) (filepath : bytes) : outcome bytes bytes :=
  match files filepath with
  | None => Err ((lit "IdentityManager: Failed to open file: ")%mesh ++ filepath)
  | Some buffer => Ok buffer
  end.

Inductive load_error := CannotRead (what : bytes) | NotSignedByCA.

(** The members assigned before a throw keep their new values. *)
Definition load_identities {ssl : OpenSSL} (files : bytes -> option bytes)
    (stack cert_path key_path ca_path : bytes) (im : IdentityManager)
    : IdentityManager * outcome load_error bytes :=
  match read_file_to_string files ca_path with
  | Err e => (im, Err (CannotRead e))
  | Ok ca =>
      let im := with_files ca (my_cert_ im) (my_private_key_ im) im in
      match read_file_to_string files cert_path with
      | Err e => (im, Err (CannotRead e))
      | Ok cert =>
          let im := with_files ca cert (my_private_key_ im) im in
          match read_file_to_string files key_path with
          | Err e => (im, Err (CannotRead e))
          | Ok key =>
              let im := with_files ca cert key im in
              if negb (verify_certificate cert ca) then (im, Err NotSignedByCA)
              else
                let my_pub_key := extract_pubkey_from_cert cert in
                let my_id := extract_common_name cert stack in
                (add_trusted_peer my_id my_pub_key im, Ok my_id)
          end
      end
  end.

(** Identities load exactly when the three files can be opened and the authority
    has signed the certificate; the node then trusts the key of the certificate
    under its name. *)
Lemma load_identities_ok {ssl : OpenSSL} files stack cert_path key_path ca_path im my_id :
  (load_identities files stack cert_path key_path ca_path im).2 = Ok my_id <->
  exists ca cert key,
    files ca_path = Some ca /\ files cert_path = Some cert /\ files key_path = Some key /\
    verify_certificate cert ca = true /\ my_id = extract_common_name cert stack /\
    (load_identities files stack cert_path key_path ca_path im).1 =
      add_trusted_peer my_id (extract_pubkey_from_cert cert) (with_files ca cert key im).
Proof.
  unfold load_identities, read_file_to_string.
  destruct (files ca_path) as [ca|]; [|by split; [|intros (? & ? & ? & ? & _)]].
  destruct (files cert_path) as [cert|]; [|by split; [|intros (? & ? & ? & _ & ? & _)]].
  destruct (files key_path) as [key|]; [|by split; [|intros (? & ? & ? & _ & _ & ? & _)]].
  destruct (verify_certificate cert ca) eqn:Ev; cbn [negb].
  - split; [intros [= <-]; by exists ca, cert, key|]. by intros (? & ? & ? & [= <-] & [= <-] & [= <-] & _ & -> & _).
  - split; [done|]. intros (? & ? & ? & [= <-] & [= <-] & [= <-] & ? & _). congruence.
Qed.

(** ** PacketSecurity *)

(** What one call draws from the random generator. *)
Record draws := { key_draw : bytes; iv_draw : option bytes; oaep_draw : bytes }.

Definition draws_ok (d : draws) : Prop :=
  length (key_draw d) = AES_KEY_SIZE /\
  exists iv, iv_draw d = Some iv /\ length iv = AES_IV_SIZE.

Section security.
Context {ssl : OpenSSL}.

(** The packet is returned as the caller sees it through the reference. *)
Definition secure_packet (im : IdentityManager) (d : draws) (pkt : RoutedPacket)
    (target_peer_id raw_payload : bytes) : bool * RoutedPacket :=
  match get_public_key target_peer_id im with
  | None => (false, pkt)
  | Some target_pub_key =>
      if bool_decide (target_pub_key = []) then (false, pkt)
      else
        let session_key := generate_aes_key (key_draw d) in
        match aes_encrypt session_key raw_payload (iv_draw d) with
        | None => (false, pkt)
        | Some enc_payload =>
            match rsa_encrypt_key target_pub_key session_key (oaep_draw d) with
            | None => (false, pkt)
            | Some enc_session_key =>
                match sign_message (get_my_private_key im) enc_payload with
                | None => (false, pkt)
                | Some sig =>
                    (true, clear_binary_data
                             (set_security sig enc_session_key
                                (set_payload (encrypted_payload enc_payload) pkt)))
                end
            end
        end
  end.

Inductive decrypt_error := SenderUnknown | InvalidSignature | DecryptionInternalError.

Definition decrypt_packet (im : IdentityManager) (pkt : RoutedPacket) : outcome decrypt_error bytes :=
  match get_public_key (from_peer_id pkt) im with
  | None => Err SenderUnknown
  | Some sender_pub_key =>
      if bool_decide (sender_pub_key = []) then Err SenderUnknown
      else if negb (verify_signature sender_pub_key (get_encrypted_payload pkt) (signature pkt))
      then Err InvalidSignature
      else
        match rsa_decrypt_key (get_my_private_key im) (encrypted_session_key pkt) with
        | None => Err DecryptionInternalError
        | Some session_key =>
            match aes_decrypt session_key (get_encrypted_payload pkt) with
            | None => Err DecryptionInternalError
            | Some plaintext => Ok plaintext
            end
        end
  end.
(** ** The packet helpers of RoutedPacketUtils.cpp that use encryption

    No part of the program calls them.  [MakeEncryptedBinaryRoutedPacket] makes
    the cipher text, the encrypted key and the signature and keeps none of them;
    [None] if one of these steps throws. *)
Definition MakeEncryptedBinaryRoutedPacket (uuid : bytes) (d : draws) (from to : bytes) (ttl : Z) (sub : bytes)
    (tr : TransportProtocol) (dest_public_key src_private_key unencrypted_data : bytes) (expect : bool)
    : option RoutedPacket :=
  let session_key := generate_aes_key (key_draw d) in
  enc_payload ← aes_encrypt session_key unencrypted_data (iv_draw d);
  _ ← rsa_encrypt_key dest_public_key session_key (oaep_draw d);
  _ ← sign_message src_private_key enc_payload;
  Some {|
    id := generate_uuid_bytes uuid DEFAULT_UUID_SIZE;
    from_peer_id := from; to_peer_id := to; ttl := u32 ttl; type := BINARY; transport := tr;
    subtype := sub; expect_response := expect; signature := []; encrypted_session_key := [];
    payload := PAYLOAD_NOT_SET
  |}.

(** A wrong signature gives an empty text, not an error; an exception ([None] of
    the helpers) gives its message. *)
Definition decrypt_packet_data (sender_pub_key dest_priv_key : bytes) (pkt : RoutedPacket) : outcome unit bytes :=
  if negb (verify_signature sender_pub_key (get_encrypted_payload pkt) (signature pkt)) then Ok []
  else
    match (session_key ← rsa_decrypt_key dest_priv_key (encrypted_session_key pkt);
           aes_decrypt session_key (get_encrypted_payload pkt)) with
    | Some plaintext => Ok plaintext
    | None => Err tt
    end.
End security.

(** The packet built for encryption carries nothing of the data: it is the same
    packet whatever the data is. *)
Lemma encrypted_packet_is_empty {ssl : OpenSSL} uuid d from to ttl sub tr pub priv data expect pkt :
  MakeEncryptedBinaryRoutedPacket uuid d from to ttl sub tr pub priv data expect = Some pkt ->
  payload pkt = PAYLOAD_NOT_SET /\ signature pkt = [] /\ encrypted_session_key pkt = [].
Proof.
  unfold MakeEncryptedBinaryRoutedPacket. intros H.
  repeat (apply bind_Some in H as (? & _ & H)). by simplify_eq.
Qed.

(** Where both accept a packet, [decrypt_packet_data] and [decrypt_packet] agree;
    they differ on a packet with a wrong signature, which the first reports as an
    empty message. *)
Lemma decrypt_packet_data_spec {ssl : OpenSSL} im pkt pub :
  trusted_keys_ im !! from_peer_id pkt = Some pub -> pub <> [] ->
  match decrypt_packet im pkt with
  | Ok msg => decrypt_packet_data pub (my_private_key_ im) pkt = Ok msg
  | Err InvalidSignature => decrypt_packet_data pub (my_private_key_ im) pkt = Ok []
  | Err _ => decrypt_packet_data pub (my_private_key_ im) pkt = Err tt
  end.
Proof.
  intros Ht Hp. unfold decrypt_packet, decrypt_packet_data, get_public_key, get_my_private_key.
  rewrite Ht, bool_decide_false by done. destruct (verify_signature _ _ _); simpl; [|done].
  destruct (rsa_decrypt_key _ _); simpl; [|done]. by destruct (aes_decrypt _ _).
Qed.

(** ** Histories of the buffers *)

Inductive op :=
| BufferIncoming (peer : bytes) (pkt : RoutedPacket)
| BufferOutgoing (peer : bytes) (pkt : RoutedPacket)
| PopIncoming (peer : bytes)
| PopOutgoing (peer : bytes)
| Trust (peer key : bytes).

(** The packets a call returns, tagged with their direction ([true]: incoming). *)
Definition do_op (o : op) (im : IdentityManager) : IdentityManager * list (bool * bytes * RoutedPacket) :=
  match o with
  | BufferIncoming p pkt => (buffer_incoming_packet p pkt im, [])
  | BufferOutgoing p pkt => (buffer_outgoing_packet p pkt im, [])
  | PopIncoming p => let '(l, im) := pop_incoming_pending_packets p im in (im, (fun x => (true, p, x)) <$> l)
  | PopOutgoing p => let '(l, im) := pop_outgoing_pending_packets p im in (im, (fun x => (false, p, x)) <$> l)
  | Trust p k => (add_trusted_peer p k im, [])
  end.

Fixpoint run (ops : list op) (im : IdentityManager) : IdentityManager * list (bool * bytes * RoutedPacket) :=
  match ops with
  | [] => (im, [])
  | o :: ops => let '(im, l) := do_op o im in let '(im, l') := run ops im in (im, l ++ l')
  end.

(** The packets of one peer and direction in a list of tagged packets. *)
Definition of_peer (dir : bool) (peer : bytes) (l : list (bool * bytes * RoutedPacket)) : list RoutedPacket :=
  (filter (fun x => x.1 = (dir, peer)) l).*2.

(** What the history put into the buffers, in order. *)
Definition buffered (o : op) : list (bool * bytes * RoutedPacket) :=
  match o with
  | BufferIncoming p pkt => [(true, p, pkt)]
  | BufferOutgoing p pkt => [(false, p, pkt)]
  | _ => []
  end.

Definition waiting (dir : bool) (peer : bytes) (im : IdentityManager) : list RoutedPacket :=
  default [] ((if dir then pending_incoming_packets_ im else pending_outgoing_packets_ im) !! peer).

Lemma of_peer_app (dir : bool) (peer : bytes) l1 l2 : of_peer dir peer (l1 ++ l2) = of_peer dir peer l1 ++ of_peer dir peer l2.
Proof. unfold of_peer. by rewrite filter_app, fmap_app. Qed.

Lemma of_peer_same (dir : bool) (peer : bytes) (l : list RoutedPacket) : of_peer dir peer ((fun x => (dir, peer, x)) <$> l) = l.
Proof.
  induction l as [|x l IH]; [done|]. unfold of_peer in *. cbn [fmap list_fmap].
  rewrite filter_cons_True by done. cbn [fmap list_fmap]. by f_equal.
Qed.

Lemma of_peer_other (dir : bool) (peer : bytes) (dir' : bool) (peer' : bytes) (l : list RoutedPacket) :
  (dir', peer') <> (dir, peer) -> of_peer dir peer ((fun x => (dir', peer', x)) <$> l) = [].
Proof.
  intros Hne. induction l as [|x l IH]; [done|]. unfold of_peer in *. cbn [fmap list_fmap].
  by rewrite filter_cons_False.
Qed.

Lemma waiting_push (peer : bytes) (dir : bool) (peer' : bytes) (pkt : RoutedPacket) (m : gmap bytes (list RoutedPacket)) :
  default [] (push_packet peer' pkt m !! peer) =
  default [] (m !! peer) ++ of_peer dir peer [(dir, peer', pkt)].
Proof.
  unfold push_packet, of_peer. rewrite filter_cons, filter_nil. simpl.
  destruct (decide (peer' = peer)) as [->|Hne].
  - by rewrite lookup_insert_eq, decide_True.
  - rewrite lookup_insert_ne, decide_False by congruence. simpl. by rewrite app_nil_r.
Qed.

(** One call hands out the oldest packets and keeps the rest. *)
Lemma do_op_conserves (o : op) (im : IdentityManager) (dir : bool) (peer : bytes) :
  of_peer dir peer (do_op o im).2 ++ waiting dir peer (do_op o im).1 =
  waiting dir peer im ++ of_peer dir peer (buffered o).
Proof.
  destruct o as [p pkt|p pkt|p|p|p k]; cbn [do_op buffered fst snd]; cycle 4.
  - by rewrite app_nil_r.
  - unfold waiting. destruct dir; cbn [buffer_incoming_packet with_pending pending_incoming_packets_ pending_outgoing_packets_]; [apply (waiting_push peer true)|].
    pose proof (of_peer_other false peer true p [pkt] ltac:(done)) as H. cbn [fmap list_fmap] in H.
    by rewrite H, app_nil_r.
  - unfold waiting. destruct dir; cbn [buffer_outgoing_packet with_pending pending_incoming_packets_ pending_outgoing_packets_]; [|apply (waiting_push peer false)].
    pose proof (of_peer_other true peer false p [pkt] ltac:(done)) as H. cbn [fmap list_fmap] in H.
    by rewrite H, app_nil_r.
  - rewrite app_nil_r. unfold pop_incoming_pending_packets, waiting.
    destruct (pending_incoming_packets_ im !! p) as [l|] eqn:E; [|done]. cbn [fst snd].
    destruct (decide ((true, p) = (dir, peer))) as [[= <- <-]|Hne].
    + rewrite of_peer_same. simpl. rewrite lookup_delete_eq, E. simpl. apply app_nil_r.
    + rewrite of_peer_other by done. destruct dir; simpl; [|done]. by rewrite lookup_delete_ne by congruence.
  - rewrite app_nil_r. unfold pop_outgoing_pending_packets, waiting.
    destruct (pending_outgoing_packets_ im !! p) as [l|] eqn:E; [|done]. cbn [fst snd].
    destruct (decide ((false, p) = (dir, peer))) as [[= <- <-]|Hne].
    + rewrite of_peer_same. simpl. rewrite lookup_delete_eq, E. simpl. apply app_nil_r.
    + rewrite of_peer_other by done. destruct dir; simpl; [done|]. by rewrite lookup_delete_ne by congruence.
Qed.

(** (C33) Buffered packets are handed out exactly once and in order: for any
    history of calls, in each direction and for each peer, the packets popped so
    far followed by those still waiting are those that waited at the start
    followed by those buffered since. *)
Theorem buffers_hand_out_once (ops : list op) (im : IdentityManager) (dir : bool) (peer : bytes) :
  of_peer dir peer (run ops im).2 ++ waiting dir peer (run ops im).1 =
  waiting dir peer im ++ of_peer dir peer (ops ≫= buffered).
Proof.
  revert im. induction ops as [|o ops IH]; intros im; cbn [run mbind list_bind]; [by rewrite app_nil_r|].
  pose proof (do_op_conserves o im dir peer) as H. destruct (do_op o im) as [im' l].
  specialize (IH im'). destruct (run ops im') as [im'' l']. cbn [fst snd] in *.
  by rewrite !of_peer_app, app_assoc, <-H, <-!app_assoc, IH.
Qed.

(** ** Encryption *)

Lemma secured_fields sig key enc p :
  let q := clear_binary_data (set_security sig key (set_payload (encrypted_payload enc) p)) in
  payload q = encrypted_payload enc /\ signature q = sig /\ encrypted_session_key q = key /\
  from_peer_id q = from_peer_id p.
Proof. done. Qed.

Section roundtrip.
Context {ssl : OpenSSL} {key_pair : bytes -> bytes -> Prop} {laws : OpenSSLLaws key_pair}.
Implicit Types (im : IdentityManager) (pkt : RoutedPacket).

(** What [secure_packet] produces when it has a usable key. *)
Lemma secure_packet_ok im d pkt target msg pub mypub :
  trusted_keys_ im !! target = Some pub -> (exists priv, key_pair pub priv) ->
  key_pair mypub (my_private_key_ im) -> draws_ok d -> (Z.of_nat (length msg) + 16 < 2 ^ 31)%Z ->
  exists enc key sig,
    secure_packet im d pkt target msg =
      (true, clear_binary_data (set_security sig key (set_payload (encrypted_payload enc) pkt))) /\
    aes_decrypt (key_draw d) enc = Some msg /\
    sign_message (my_private_key_ im) enc = Some sig /\
    (forall priv, key_pair pub priv -> rsa_decrypt_key priv key = Some (key_draw d)).
Proof.
  intros Ht [priv Hp] Hmy (Hk & iv & Hd & Hiv) Hlen.
  destruct (aes_roundtrip (key_draw d) iv msg Hk Hiv Hlen) as (enc & He & _ & Hdec).
  destruct (rsa_roundtrip pub priv (key_draw d) (oaep_draw d) Hp Hk) as (key & Hkey & _).
  destruct (sign_verifies mypub (my_private_key_ im) enc Hmy) as (sig & Hsig & _).
  destruct (pem_pair _ _ Hp) as [Hne _].
  exists enc, key, sig. split_and!; [|done|done|].
  - unfold secure_packet, get_public_key, generate_aes_key. rewrite Ht, bool_decide_false by done.
    rewrite take_ge by lia. rewrite Hd, He, Hkey. unfold get_my_private_key. by rewrite Hsig.
  - intros priv' Hp'. destruct (rsa_roundtrip pub priv' (key_draw d) (oaep_draw d) Hp' Hk) as (key' & Hk' & Hd').
    congruence.
Qed.

(** ... and what the receiver makes of it. *)
Lemma secure_decrypts (a b : IdentityManager) d pkt target msg apub bpub :
  trusted_keys_ a !! target = Some bpub -> trusted_keys_ b !! from_peer_id pkt = Some apub ->
  key_pair apub (my_private_key_ a) -> key_pair bpub (my_private_key_ b) ->
  draws_ok d -> (Z.of_nat (length msg) + 16 < 2 ^ 31)%Z ->
  exists enc key sig,
    let pkt' := clear_binary_data (set_security sig key (set_payload (encrypted_payload enc) pkt)) in
    secure_packet a d pkt target msg = (true, pkt') /\ decrypt_packet b pkt' = Ok msg.
Proof.
  intros Ha Hb Hka Hkb Hd Hlen.
  destruct (secure_packet_ok a d pkt target msg bpub apub) as (enc & key & sig & He & Hdec & Hsig & Hrsa);
    [done|by eexists|done..|].
  destruct (sign_verifies apub (my_private_key_ a) enc Hka) as (sig' & Hs' & Hv).
  assert (sig' = sig) as -> by congruence. destruct (pem_pair _ _ Hka) as [Hne _].
  exists enc, key, sig. split; [exact He|].
  unfold decrypt_packet, get_public_key. cbn [from_peer_id clear_binary_data set_security set_payload payload].
  rewrite Hb, bool_decide_false by done. unfold get_encrypted_payload. simpl. rewrite Hv. simpl.
  unfold get_my_private_key. rewrite (Hrsa _ Hkb). by rewrite Hdec.
Qed.
End roundtrip.

(** (C14) End-to-end encryption: what one node secures for another, the other
    decrypts to the same bytes, for any payload short of 2 GiB; the packet keeps
    its routing fields and no longer carries the plain payload. *)
Theorem secure_then_decrypt {ssl : OpenSSL} {key_pair : bytes -> bytes -> Prop}
    {laws : OpenSSLLaws key_pair} (a b : IdentityManager) (d : draws) (pkt : RoutedPacket)
    (target msg apub bpub : bytes)
    (Ha : trusted_keys_ a !! target = Some bpub)
    (Hb : trusted_keys_ b !! from_peer_id pkt = Some apub)
    (Hka : key_pair apub (my_private_key_ a)) (Hkb : key_pair bpub (my_private_key_ b))
    (Hd : draws_ok d) (Hlen : (Z.of_nat (length msg) + 16 < 2 ^ 31)%Z) :
  exists pkt', secure_packet a d pkt target msg = (true, pkt') /\
    decrypt_packet b pkt' = Ok msg /\
    (exists enc, payload pkt' = encrypted_payload enc) /\
    set_security (signature pkt) (encrypted_session_key pkt) (set_payload (payload pkt) pkt') = pkt.
Proof.
  destruct (secure_decrypts a b d pkt target msg apub bpub) as (enc & key & sig & He & Hd'); try done.
  eexists. split; [exact He|]. split_and!; [exact Hd'|by eexists|by destruct pkt].
Qed.

(** (C32) A payload altered on the way is refused: whatever the attacker does to
    the other fields, a packet that claims the sender's name and carries its
    signature with a different encrypted payload fails with "invalid signature";
    and a packet whose sender is not trusted fails with "sender identity
    unknown". *)
Theorem altered_payload_refused {ssl : OpenSSL} {key_pair : bytes -> bytes -> Prop}
    {laws : OpenSSLLaws key_pair} (a b : IdentityManager) (d : draws) (pkt pkt' forged : RoutedPacket)
    (target msg apub : bytes)
    (Hb : trusted_keys_ b !! from_peer_id forged = Some apub)
    (Hka : key_pair apub (my_private_key_ a))
    (Hsec : secure_packet a d pkt target msg = (true, pkt'))
    (Hsig : signature forged = signature pkt')
    (Hne : get_encrypted_payload forged <> get_encrypted_payload pkt') :
  decrypt_packet b forged = Err InvalidSignature /\
  forall im, trusted_keys_ im !! from_peer_id forged = None -> decrypt_packet im forged = Err SenderUnknown.
Proof.
  split; [|intros im Him; unfold decrypt_packet, get_public_key; by rewrite Him].
  unfold secure_packet in Hsec. repeat (case_in Hsec; try done). injection Hsec as <-.
  destruct (pem_pair _ _ Hka) as [Hpub _].
  unfold decrypt_packet, get_public_key. rewrite Hb, bool_decide_false by done.
  destruct (verify_signature _ _ _) eqn:E; [|done]. rewrite Hsig in E. simpl in E.
  destruct Hne. by eapply sign_binds.
Qed.

(** ** Concrete identities *)

Definition alice : IdentityManager := {|
  my_cert_ := [x61]; my_private_key_ := [x61]; ca_root_ := [xca];
  trusted_keys_ := {[ [x62] := [x62] ]};
  pending_incoming_packets_ := ∅; pending_outgoing_packets_ := ∅
|}.

Definition bob : IdentityManager := {|
  my_cert_ := [x62]; my_private_key_ := [x62]; ca_root_ := [xca];
  trusted_keys_ := {[ [x61] := [x61] ]};
  pending_incoming_packets_ := ∅; pending_outgoing_packets_ := ∅
|}.

Definition demo_draws : draws := {|
  key_draw := replicate 32 x07; iv_draw := Some (replicate 16 x09); oaep_draw := []
|}.

Definition demo_packet : RoutedPacket :=
  MakeBinaryRoutedPacket (replicate 16 x11) [x61] [x62] 10 (lit "myapp.Note")%mesh TCP [] false.

Lemma secure_then_decrypt_witness :
  exists pkt', @secure_packet toy_ssl alice demo_draws demo_packet [x62] (lit "hi")%mesh = (true, pkt') /\
    @decrypt_packet toy_ssl bob pkt' = Ok (lit "hi")%mesh.
Proof.
  destruct (@secure_then_decrypt toy_ssl toy_pair toy_laws alice bob demo_draws demo_packet [x62]
    (lit "hi")%mesh [x61] [x62]) as (pkt' & H1 & H2 & _).
  - reflexivity.
  - reflexivity.
  - by split.
  - by split.
  - split; [done|]. by eexists.
  - vm_compute. reflexivity.
  - by exists pkt'.
Defined.

Lemma altered_payload_refused_witness :
  exists pkt', @secure_packet toy_ssl alice demo_draws demo_packet [x62] (lit "hi")%mesh = (true, pkt') /\
    @decrypt_packet toy_ssl bob (set_payload (encrypted_payload [x00]) pkt') = Err InvalidSignature.
Proof.
  eexists. split; [reflexivity|].
  eapply (@altered_payload_refused toy_ssl toy_pair toy_laws alice bob demo_draws demo_packet _ _ [x62]
    (lit "hi")%mesh [x61]); [reflexivity|by split|reflexivity|reflexivity|vm_compute; discriminate].
Defined.

End Identity.
