(* ===== verification/Graph.v ===== *)
(** * The topology graph

    [UndirectedGraphManager] of src/src/mesh/graph/GraphManager.{h,cpp}, and the
    loop of [MeshNode::generate_topology_graph] that fills it from the responses
    to a topology request. *)

From S2P Require Import Prelude.

Module Graph.

(** [boost::adjacency_list<vecS, vecS, undirectedS, std::string>]: vertices are
    numbered in the order they are added, and parallel edges are kept. *)
Record UndirectedGraphManager := {
  vertices : list bytes;                  (* graph_[v] *)
  edges : list (nat * nat);
  name_to_vertex_ : gmap bytes nat
}.

Implicit Types (g : UndirectedGraphManager).

Definition new_graph : UndirectedGraphManager := {| vertices := []; edges := []; name_to_vertex_ := ∅ |}.

Definition get_vertex (vertex : bytes) g : option nat := name_to_vertex_ g !! vertex.

Definition get_or_add_vertex (vertex : bytes) g : nat * UndirectedGraphManager :=
  match get_vertex vertex g with
  | Some v => (v, g)
  | None =>
      let v := length (vertices g) in
      (v, {| vertices := vertices g ++ [vertex]; edges := edges g;
             name_to_vertex_ := <[vertex := v]> (name_to_vertex_ g) |})
  end.

Definition add_connection (from to : bytes) g : UndirectedGraphManager :=
  let '(u, g) := get_or_add_vertex from g in
  let '(v, g) := get_or_add_vertex to g in
  {| vertices := vertices g; edges := edges g ++ [(u, v)]; name_to_vertex_ := name_to_vertex_ g |}.

(** [responses]: each responder with the neighbours it reported. *)
Definition topology_graph (responses : list (bytes * list bytes)) : UndirectedGraphManager :=
  foldl (fun g '(sender, neighbors) => foldl (fun g n => add_connection sender n g) g neighbors)
    new_graph responses.

(** The name map and the vertex list agree, and edges join vertices. *)
Definition graph_wf g : Prop :=
  (forall name v, name_to_vertex_ g !! name = Some v <-> vertices g !! v = Some name) /\
  Forall (fun e => e.1 < length (vertices g) /\ e.2 < length (vertices g)) (edges g).

(** The edges by the names of their ends. *)
Definition named_edges g : list (option bytes * option bytes) :=
  (fun e => (vertices g !! e.1, vertices g !! e.2)) <$> edges g.

Lemma get_or_add_vertex_spec name g v g' :
  graph_wf g -> get_or_add_vertex name g = (v, g') ->
  graph_wf g' /\ vertices g' !! v = Some name /\ edges g' = edges g /\
  (exists l, vertices g' = vertices g ++ l) /\
  (forall x, x ∈ vertices g' <-> x = name \/ x ∈ vertices g).
Proof.
  intros [Hm He]. unfold get_or_add_vertex, get_vertex.
  destruct (name_to_vertex_ g !! name) as [w|] eqn:E; intros [= <- <-].
  - apply Hm in E. split_and!; [done|done|done|exists []; by rewrite app_nil_r|].
    intros x. split; [by right|]. intros [->|]; [by eapply list_elem_of_lookup_2|done].
  - simpl. split_and!.
    + split; simpl.
      * intros n u. destruct (decide (n = name)) as [->|Hne].
        -- rewrite lookup_insert_eq. split; [intros [= <-]; by apply list_lookup_middle|].
           intros [H%Hm|[Hu Hl]]%lookup_app_Some; [congruence|].
           apply list_lookup_singleton_Some in Hl as [Hz _]. f_equal. lia.
        -- rewrite lookup_insert_ne by done. rewrite Hm. split; [apply lookup_app_l_Some|].
           intros [?|[? Hl]]%lookup_app_Some; [done|]. apply list_lookup_singleton_Some in Hl as [_ ?]. congruence.
      * eapply Forall_impl; [exact He|]. intros [a b]. simpl. rewrite length_app. simpl. lia.
    + by apply list_lookup_middle.
    + done.
    + by eexists.
    + intros x. rewrite elem_of_app, list_elem_of_singleton. tauto.
Qed.

Lemma named_edges_grow (es : list (nat * nat)) (vs l : list bytes) :
  Forall (fun e => e.1 < length vs /\ e.2 < length vs) es ->
  (fun e : nat * nat => ((vs ++ l) !! e.1, (vs ++ l) !! e.2)) <$> es =
  (fun e => (vs !! e.1, vs !! e.2)) <$> es.
Proof.
  intros He. apply list_fmap_ext. intros i [a b] Hi. rewrite Forall_forall in He.
  destruct (He (a, b)) as [Ha Hb]; [by eapply list_elem_of_lookup_2|]. simpl in *.
  by rewrite !lookup_app_l.
Qed.

Lemma add_connection_spec from to g :
  graph_wf g ->
  graph_wf (add_connection from to g) /\
  named_edges (add_connection from to g) = named_edges g ++ [(Some from, Some to)] /\
  (forall x, x ∈ vertices (add_connection from to g) <-> x = from \/ x = to \/ x ∈ vertices g).
Proof.
  intros Hwf. unfold add_connection.
  destruct (get_or_add_vertex from g) as [u g1] eqn:E1.
  destruct (get_or_add_vertex_spec _ _ _ _ Hwf E1) as (Hwf1 & Hu & He1 & [l1 Hl1] & Hx1).
  destruct (get_or_add_vertex to g1) as [v g2] eqn:E2.
  destruct (get_or_add_vertex_spec _ _ _ _ Hwf1 E2) as ([Hm2 Hf2] & Hv & He2 & [l2 Hl2] & Hx2).
  assert (vertices g2 !! u = Some from) as Hu2 by (rewrite Hl2; by apply lookup_app_l_Some).
  split_and!.
  - split; simpl; [exact Hm2|]. apply Forall_app. split; [exact Hf2|]. apply Forall_singleton. simpl.
    split; by eapply lookup_lt_Some.
  - unfold named_edges. cbn [vertices edges]. rewrite fmap_app. cbn [fmap list_fmap fst snd]. rewrite Hu2, Hv.
    f_equal. rewrite He2, He1, Hl2, Hl1, <-app_assoc. apply named_edges_grow, Hwf.
  - intros x. cbn [vertices]. rewrite Hx2, Hx1. tauto.
Qed.

Lemma graph_wf_new : graph_wf new_graph.
Proof. split; [|constructor]. intros n v. simpl. by rewrite lookup_empty, lookup_nil. Qed.

(** The pairs the responses report, in order. *)
Definition reported (responses : list (bytes * list bytes)) : list (bytes * bytes) :=
  responses ≫= fun '(sender, neighbors) => (fun n => (sender, n)) <$> neighbors.

Lemma topology_loop_flat responses g :
  foldl (fun g '(sender, neighbors) => foldl (fun g n => add_connection sender n g) g neighbors) g responses =
  foldl (fun g e => add_connection e.1 e.2 g) g (reported responses).
Proof.
  revert g. induction responses as [|[s ns] rs IH]; intros g; [done|].
  cbn [foldl reported mbind list_bind]. rewrite IH, foldl_app. f_equal. clear.
  revert g. induction ns as [|n ns IH]; intros g; [done|]. apply IH.
Qed.

Lemma connections_spec (es : list (bytes * bytes)) g :
  graph_wf g ->
  let g' := foldl (fun g e => add_connection e.1 e.2 g) g es in
  graph_wf g' /\ named_edges g' = named_edges g ++ ((fun e => (Some e.1, Some e.2)) <$> es) /\
  (forall x, x ∈ vertices g' <-> (exists e, e ∈ es /\ (x = e.1 \/ x = e.2)) \/ x ∈ vertices g).
Proof.
  revert g. induction es as [|[a b] es IH]; intros g Hwf; simpl.
  - split_and!; [done|by rewrite app_nil_r|]. intros x. split; [by right|].
    intros [(e & []%not_elem_of_nil & _)|]; done.
  - destruct (add_connection_spec a b g Hwf) as (H1 & H2 & H3).
    destruct (IH _ H1) as (I1 & I2 & I3). split_and!; [done|by rewrite I2, H2, <-app_assoc|].
    intros x. rewrite I3, H3. setoid_rewrite elem_of_cons. split.
    + intros [(e & ? & ?)|[->|[->|?]]]; [left; eauto|left; exists (a, b); auto..|by right].
    + intros [(e & [->|?] & He)|?]; [destruct He as [->| ->]; simpl; auto|left; eauto|auto].
Qed.

(** The drawn graph is the reported topology: its edges, by the names of
    their ends, are the reported pairs in order, each peer mentioned has exactly
    one vertex, and no other vertex exists. *)
Theorem topology_graph_faithful (responses : list (bytes * list bytes)) :
  let g := topology_graph responses in
  named_edges g = (fun e => (Some e.1, Some e.2)) <$> reported responses /\
  NoDup (vertices g) /\
  (forall x, x ∈ vertices g <-> exists e, e ∈ reported responses /\ (x = e.1 \/ x = e.2)) /\
  (forall x v, get_vertex x g = Some v <-> vertices g !! v = Some x).
Proof.
  unfold topology_graph. rewrite topology_loop_flat.
  destruct (connections_spec (reported responses) new_graph graph_wf_new) as ([Hm Hf] & He & Hx).
  split_and!.
  - exact He.
  - apply NoDup_alt. intros i j x Hi%Hm Hj%Hm. congruence.
  - intros x. rewrite Hx. simpl. split; [|by left]. by intros [?|[]%not_elem_of_nil].
  - exact Hm.
Qed.

(** ** Saving *)

(** [std::filesystem::path] on POSIX: the operations [save_graph] and
    [generate_topology_graph] use. *)

Definition slash : byte := x2f.
Definition dot : byte := x2e.

(** The part after the last slash. *)
Fixpoint filename_from (acc p : bytes) : bytes :=
  match p with
  | [] => acc
  | c :: p => if bool_decide (c = slash) then filename_from [] p else filename_from (acc ++ [c]) p
  end.

Definition filename (p : bytes) : bytes := filename_from [] p.

(** The suffix from the last dot on, [best] if there is none. *)
Fixpoint from_last_dot (best f : bytes) : bytes :=
  match f with
  | [] => best
  | c :: f => from_last_dot (if bool_decide (c = dot) then c :: f else best) f
  end.

(** A leading dot does not start an extension. *)
Definition extension (p : bytes) : bytes :=
  let f := filename p in
  if bool_decide (f = [dot; dot]) then [] else from_last_dot [] (tail f).

Definition replace_extension (p e : bytes) : bytes := take (length p - length (extension p)) p ++ e.

(** Without the slashes that separate it from the file name; the root is its own
    parent. *)
Fixpoint strip_slashes (p : bytes) : bytes :=
  match p with
  | [] => []
  | c :: p => if bool_decide (c = slash) then strip_slashes p else c :: p
  end.

Definition parent_path (p : bytes) : bytes :=
  let d := take (length p - length (filename p)) p in
  match reverse (strip_slashes (reverse d)), d with
  | [], c :: _ => [c]
  | s, _ => s
  end.

(** [dir / file] *)
Definition append_path (dir file : bytes) : bytes :=
  if bool_decide (head file = Some slash) then file
  else if bool_decide (dir = []) || bool_decide (last dir = Some slash) then dir ++ file
  else dir ++ [slash] ++ file.

Definition dot_extension : bytes := (lit ".dot")%mesh.

(** The label of a vertex: its name is not escaped. *)
Definition vertex_writer (name : bytes) : bytes :=
  (lit "[label=")%mesh ++ [x22] ++ name ++ [x22] ++ (lit "]")%mesh.

(** The path [save_graph] writes to. *)
Definition dot_path (destination_path : bytes) : bytes :=
  if bool_decide (extension destination_path = dot_extension) then destination_path
  else replace_extension destination_path dot_extension.

(** The directories created, the file and its text; [write_graphviz] is Boost's
    printer of vertex labels and edges. *)
Definition save_graph (write_graphviz : list bytes -> list (nat * nat) -> bytes) (destination_path : bytes) g
    : option bytes * bytes * bytes :=
  let path := dot_path destination_path in
  let parent := parent_path path in
  (if bool_decide (parent = []) then None else Some parent, path,
   write_graphviz (vertex_writer <$> vertices g) (edges g)).

Lemma filename_from_app acc p e :
  slash ∉ e -> filename_from acc (p ++ e) = filename_from acc p ++ e.
Proof.
  intros He. revert acc. induction p as [|c p IH]; intros acc; simpl.
  - revert acc. induction e as [|c e IH]; intros acc; simpl; [by rewrite app_nil_r|].
    apply not_elem_of_cons in He as [Hc He]. rewrite bool_decide_false by done. rewrite IH by done. by rewrite <-app_assoc.
  - case_bool_decide; apply IH.
Qed.

Lemma from_last_dot_app best f : from_last_dot best (f ++ dot_extension) = dot_extension.
Proof. revert best. induction f as [|c f IH]; intros best; [done|apply IH]. Qed.

(** Whatever name is asked for, the graph is saved under a name that ends in
    [.dot], and a name that does so already is kept. *)
Theorem saved_as_dot (p : bytes) :
  let stem := take (length p - length (extension p)) p in
  filename stem <> [] ->
  extension (dot_path p) = dot_extension /\ dot_path (dot_path p) = dot_path p.
Proof.
  intros stem Hstem.
  assert (extension (dot_path p) = dot_extension) as H.
  { unfold dot_path. case_bool_decide as Hd; [done|]. unfold replace_extension. fold stem. unfold extension.
    unfold filename. rewrite filename_from_app by (by apply (bool_decide_unpack _); vm_compute).
    fold (filename stem). rewrite bool_decide_false.
    - destruct (filename stem) as [|c f]; [done|]. simpl. apply from_last_dot_app.
    - destruct (filename stem) as [|c1 [|c2 [|c3 f]]]; done. }
  split; [done|]. unfold dot_path at 1. by rewrite bool_decide_true.
Qed.

End Graph.
