(* ===== verification/RpcConnection.v ===== *)
(** * RPC connections

    [RpcConnection] (src/src/mesh/rpc/RpcConnection.{h,cpp}) with the handlers of
    src/src/mesh/rpc/handlers: requests that wait for a response or a time-out,
    and the handshake.  The session is the list of messages given to it; futures
    are numbered, and a timer carries the number of its request.  A handler that
    is ready can no longer be cancelled. *)

From S2P Require Import Prelude Utils Packet UdpTransport.

Module Rpc.
Import Packet.

(** ** Pending requests *)

Inductive rpc_exn := Timeout | Destroyed | BrokenPromise.

(** [pending_requests_] with the futures handed out and the timers. *)
Record requests := Requests {
  pending_requests_ : gmap bytes nat;
  futures : list (option (outcome rpc_exn bytes));
  armed : gmap nat bytes;
  ready : list (nat * bytes)
}.

Implicit Types (q : requests).

Definition no_requests : requests := Requests ∅ [] ∅ [].

(** [set_value] and [set_exception] on a promise that is already satisfied throw,
    which the callers catch. *)
Definition resolve (n : nat) (r : outcome rpc_exn bytes) (fs : list (option (outcome rpc_exn bytes)))
    : list (option (outcome rpc_exn bytes)) :=
  match fs !! n with Some None => <[n := Some r]> fs | _ => fs end.

(** Satisfy the promise of an entry and erase it, which destroys its timer. *)
Definition settle (req_id : bytes) (r : outcome rpc_exn bytes) q : requests :=
  match pending_requests_ q !! req_id with
  | None => q
  | Some n => Requests (delete req_id (pending_requests_ q)) (resolve n r (futures q))
                (delete n (armed q)) (ready q)
  end.

(** The entry of a message that expects a response.  The assignment to an entry
    that exists destroys its promise. *)
Definition open_request (req_id : bytes) q : requests :=
  let q := settle req_id (Err BrokenPromise) q in
  let n := length (futures q) in
  Requests (<[req_id := n]> (pending_requests_ q)) (futures q ++ [None])
    (<[n := req_id]> (armed q)) (ready q).

(** A message that expects none: the future is ready. *)
Definition no_request q : requests :=
  Requests (pending_requests_ q) (futures q ++ [Some (Ok [])]) (armed q) (ready q).

Definition store_response (msg_id response : bytes) q : requests := settle msg_id (Ok response) q.

(** The time of a timer is over: its handler is ready. *)
Definition expire (n : nat) q : option requests :=
  match armed q !! n with
  | None => None
  | Some req_id => Some (Requests (pending_requests_ q) (futures q) (delete n (armed q)) (ready q ++ [(n, req_id)]))
  end.

(** The body of the handler: it looks the request up by its id. *)
Definition timer_handler (req_id : bytes) q : requests := settle req_id (Err Timeout) q.

(** The loop of [shutdown] and the [clear] after it. *)
Definition cancel_all q : requests :=
  let ns := (map_to_list (pending_requests_ q)).*2 in
  Requests ∅ (foldr (fun n fs => resolve n (Err Destroyed) fs) (futures q) ns)
    (foldr delete (armed q) ns) (ready q).

(** ** The connection *)

Inductive session_kind := TcpSession | SslSession (is_server : bool).

Record RpcConnection := {
  local_endpoint_ : Udp.endpoint;
  remote_endpoint_ : Udp.endpoint;
  remote_udp_endpoint_ : Udp.endpoint;
  peer_id_ : bytes;
  my_udp_port_ : Z;
  ssl_ctx_ : bool;
  authenticated_remote_id_ : bytes;
  handshake_promise_ : option (option PeerRecord);   (* the pointer; the value set *)
  requests_ : requests;
  session_ : option session_kind;
  handler_cb_ : bool;
  sent : list (bytes * bytes);                       (* given to [async_send_message] *)
  stopped : bool                                     (* [session_->stop()] was called *)
}.

Implicit Types (c : RpcConnection).

Definition make_connection (local remote : Udp.endpoint) (peer_id : bytes) (udp_port : Z) (ssl : bool)
    : RpcConnection := {|
  local_endpoint_ := local; remote_endpoint_ := remote;
  remote_udp_endpoint_ := Udp.Endpoint (lit "0.0.0.0")%mesh 0;
  peer_id_ := peer_id; my_udp_port_ := udp_port; ssl_ctx_ := ssl; authenticated_remote_id_ := [];
  handshake_promise_ := None; requests_ := no_requests; session_ := None; handler_cb_ := false;
  sent := []; stopped := false
|}.

Definition with_requests q (out : list (bytes * bytes)) c : RpcConnection := {|
  local_endpoint_ := local_endpoint_ c; remote_endpoint_ := remote_endpoint_ c;
  remote_udp_endpoint_ := remote_udp_endpoint_ c; peer_id_ := peer_id_ c; my_udp_port_ := my_udp_port_ c;
  ssl_ctx_ := ssl_ctx_ c; authenticated_remote_id_ := authenticated_remote_id_ c;
  handshake_promise_ := handshake_promise_ c; requests_ := q; session_ := session_ c;
  handler_cb_ := handler_cb_ c; sent := sent c ++ out; stopped := stopped c
|}.

Definition with_identity (udp : Udp.endpoint) (rid : bytes) (p : option (option PeerRecord)) c
    : RpcConnection := {|
  local_endpoint_ := local_endpoint_ c; remote_endpoint_ := remote_endpoint_ c;
  remote_udp_endpoint_ := udp; peer_id_ := peer_id_ c; my_udp_port_ := my_udp_port_ c;
  ssl_ctx_ := ssl_ctx_ c; authenticated_remote_id_ := rid;
  handshake_promise_ := p; requests_ := requests_ c; session_ := session_ c;
  handler_cb_ := handler_cb_ c; sent := sent c; stopped := stopped c
|}.

Definition with_session (s : option session_kind) (cb stop : bool) c : RpcConnection := {|
  local_endpoint_ := local_endpoint_ c; remote_endpoint_ := remote_endpoint_ c;
  remote_udp_endpoint_ := remote_udp_endpoint_ c; peer_id_ := peer_id_ c; my_udp_port_ := my_udp_port_ c;
  ssl_ctx_ := ssl_ctx_ c; authenticated_remote_id_ := authenticated_remote_id_ c;
  handshake_promise_ := handshake_promise_ c; requests_ := requests_ c; session_ := s;
  handler_cb_ := cb; sent := sent c; stopped := stop
|}.

Definition set_on_dispatch c : RpcConnection := with_session (session_ c) true (stopped c) c.

Definition get_local_peer_ip c : PeerIP := {|
  ip := Udp.address (local_endpoint_ c); tcp_port := Udp.port (local_endpoint_ c);
  udp_port := my_udp_port_ c
|}.

Definition get_remote_peer_ip c : PeerIP := {|
  ip := Udp.address (remote_endpoint_ c); tcp_port := Udp.port (remote_endpoint_ c);
  udp_port := Udp.port (remote_udp_endpoint_ c)
|}.

Definition get_self_peer_id c : bytes := peer_id_ c.
Definition get_remote_peer_id c : bytes := authenticated_remote_id_ c.

Definition set_remote_peer_id (peer_id : bytes) c : RpcConnection :=
  with_identity (remote_udp_endpoint_ c) peer_id (handshake_promise_ c) c.

(** [shutdown]: stop the session, fail every request. *)
Definition shutdown c : RpcConnection :=
  let c := match session_ c with Some _ => with_session (session_ c) (handler_cb_ c) true c | None => c end in
  with_requests (cancel_all (requests_ c)) [] c.

Section wire.
Context {we : Wire Envelope} {wh : Wire Handshake}.

(** The envelope leaves with the endpoints of this connection. *)
Definition addressed c (envelope : Envelope) : Envelope := {|
  msg_id := msg_id envelope; env_from := Some (get_local_peer_ip c); env_to := Some (get_remote_peer_ip c);
  env_type := env_type envelope; env_payload := env_payload envelope;
  env_expect_response := env_expect_response envelope
|}.

(** [send_message]: the number of the future is returned. *)
Definition send_message (envelope : Envelope) c : RpcConnection * nat :=
  let envelope := addressed c envelope in
  let message_contents := SerializeAsString envelope in
  let req_id := msg_id envelope in
  let q := if env_expect_response envelope then open_request req_id (requests_ c)
           else no_request (requests_ c) in
  (with_requests q [(req_id, message_contents)] c, length (futures q) - 1).

(** [on_message]: the envelope passed to [handler_cb_], if any. *)
Definition on_message (msg_id payload : bytes) c : RpcConnection * option Envelope :=
  match ParseFromString payload with
  | None => (c, None)
  | Some env =>
      let c := with_requests (store_response msg_id payload (requests_ c)) [] c in
      (c, if handler_cb_ c then Some env else None)
  end.

Definition fulfill_handshake_promise (record : PeerRecord) c : RpcConnection :=
  match handshake_promise_ c with
  | Some None => with_identity (remote_udp_endpoint_ c) (authenticated_remote_id_ c) (Some (Some record)) c
  | _ => c
  end.

(** Reading an unset message field gives the default message. *)
Definition get_peer_record (h : Handshake) : PeerRecord :=
  default {| peer_id := []; peer_ip := None |} (peer_record h).

Definition get_peer_ip (r : PeerRecord) : PeerIP :=
  default {| ip := []; tcp_port := 0; udp_port := 0 |} (peer_ip r).

(** [udp::endpoint(remote_address, port)]: the port is converted to 16 bits. *)
Definition udp_endpoint_of c (r : PeerRecord) : Udp.endpoint :=
  Udp.Endpoint (Udp.address (remote_endpoint_ c)) (u16 (udp_port (get_peer_ip r))).

(** [send_handshake_request] up to the wait ... *)
Definition send_handshake_request (uuid : bytes) c : RpcConnection * nat :=
  send_message (MakeHandshakeRequest uuid (get_local_peer_ip c) (get_remote_peer_ip c) (peer_id_ c)) c.

Inductive handshake_error :=
| BadEnvelope | BadType | BadPayload | HandshakeError (e : rpc_exn) | HandshakeTimedOut.

(** ... and after it, with what the future holds. *)
Definition finish_handshake_request (response : outcome rpc_exn bytes) c
    : RpcConnection * outcome handshake_error PeerRecord :=
  match response with
  | Err e => (c, Err (HandshakeError e))
  | Ok response =>
      match ParseFromString response with
      | None => (c, Err BadEnvelope)
      | Some env =>
          if negb (bool_decide (env_type env = HANDSHAKE)) then (c, Err BadType)
          else
            match ParseFromString (env_payload env) with
            | None => (c, Err BadPayload)
            | Some h =>
                let r := get_peer_record h in
                (with_identity (udp_endpoint_of c r) (authenticated_remote_id_ c) (handshake_promise_ c) c, Ok r)
            end
      end
  end.

(** [start] up to the wait: a new handshake promise and a new session; the
    initiator sends its request.  [initiator] is passed on as [is_server]. *)
Definition start (initiator : bool) (uuid : bytes) c : RpcConnection :=
  let c := with_identity (remote_udp_endpoint_ c) (authenticated_remote_id_ c) (Some None) c in
  let c := with_session (Some (if ssl_ctx_ c then SslSession initiator else TcpSession)) (handler_cb_ c) (stopped c) c in
  if initiator then (send_handshake_request uuid c).1 else c.

(** The wait of the acceptor: the promise, or a time-out that shuts down. *)
Definition finish_accept c : RpcConnection * outcome handshake_error PeerRecord :=
  match handshake_promise_ c with
  | Some (Some r) => (c, Ok r)
  | _ => (shutdown c, Err HandshakeTimedOut)
  end.

(** ** Handlers *)

Definition with_msg_id (i : bytes) (e : Envelope) : Envelope := {|
  msg_id := i; env_from := env_from e; env_to := env_to e; env_type := env_type e;
  env_payload := env_payload e; env_expect_response := env_expect_response e
|}.

Definition get_from (e : Envelope) : PeerIP :=
  default {| ip := []; tcp_port := 0; udp_port := 0 |} (env_from e).

(** [HandshakeHandler::handle] *)
Definition handle_handshake (uuid : bytes) (env : Envelope) c : RpcConnection :=
  if negb (env_expect_response env) then c
  else
    match ParseFromString (env_payload env) with
    | None => c
    | Some req =>
        let c := with_identity (udp_endpoint_of c (get_peer_record req)) (authenticated_remote_id_ c)
                   (handshake_promise_ c) c in
        let response := MakeHandshakeResponse uuid (get_local_peer_ip c) (get_from env) (get_self_peer_id c) in
        let '(c, _) := send_message (with_msg_id (msg_id env) response) c in
        fulfill_handshake_promise (get_peer_record req) c
    end.

(** [HeartbeatHandler::handle] *)
Definition handle_heartbeat (uuid : bytes) (env : Envelope) c : RpcConnection :=
  if negb (env_expect_response env) then c
  else
    let response := MakeHeartbeatResponse uuid (get_local_peer_ip c) (get_from env) in
    (send_message (with_msg_id (msg_id env) response) c).1.

(** What a connection can do between two looks at it. *)
Inductive step c : RpcConnection -> Prop :=
| step_send env : step c (send_message env c).1
| step_message i payload : step c (on_message i payload c).1
| step_handshake uuid env : step c (handle_handshake uuid env c)
| step_heartbeat uuid env : step c (handle_heartbeat uuid env c)
| step_expire n q : expire n (requests_ c) = Some q -> step c (with_requests q [] c)
| step_timer n req_id l1 l2 :
    ready (requests_ c) = l1 ++ (n, req_id) :: l2 ->
    step c (with_requests (timer_handler req_id
              (Requests (pending_requests_ (requests_ c)) (futures (requests_ c)) (armed (requests_ c)) (l1 ++ l2)))
              [] c)
| step_shutdown : step c (shutdown c).
End wire.

End Rpc.
