(* ===== verification/RpcCalls.v ===== *)
(** * RPC connections: every request is answered

    The invariant of the pending requests of an [RpcConnection], and the
    handshake between two of them. *)

From S2P Require Import Prelude Utils Packet UdpTransport RpcConnection.

Module RpcCalls.
Import Packet Rpc.

(** ** The invariant *)

Implicit Types (q : requests) (c : RpcConnection).

(** The timer of request [n] is armed or its handler is ready to run. *)
Definition live q (n : nat) (req : bytes) : Prop :=
  armed q !! n = Some req \/ (n, req) ∈ ready q.

(** [x]: the request whose time-out handler is running. *)
Record inv (x : option bytes) q : Prop := {
  inv_pending : forall req n, pending_requests_ q !! req = Some n ->
    futures q !! n = Some None /\ (x = Some req \/ live q n req);
  inv_waiting : forall n, futures q !! n = Some None -> exists req, pending_requests_ q !! req = Some n;
  inv_inj : forall r1 r2 n, pending_requests_ q !! r1 = Some n -> pending_requests_ q !! r2 = Some n -> r1 = r2
}.

(** Results are final. *)
Definition final q q' : Prop :=
  forall n r, futures q !! n = Some (Some r) -> futures q' !! n = Some (Some r).

Lemma final_refl q : final q q.
Proof. by intros n r. Qed.

Lemma resolve_lookup n (r : outcome rpc_exn bytes) fs m :
  resolve n r fs !! m =
  if decide (m = n) then (match fs !! n with Some None => Some (Some r) | o => o end) else fs !! m.
Proof.
  unfold resolve. destruct (fs !! n) as [[v|]|] eqn:E; case_decide; subst; try done.
  - apply list_lookup_insert_eq. by eapply lookup_lt_Some.
  - by rewrite list_lookup_insert_ne.
Qed.

Lemma inv_no_requests : inv None no_requests.
Proof. by split; intros *; simpl; rewrite ?lookup_empty, ?lookup_nil. Qed.

Lemma settle_spec x req r q :
  inv x q -> x = None \/ x = Some req ->
  inv None (settle req r q) /\ final q (settle req r q) /\
  pending_requests_ (settle req r q) !! req = None /\
  length (futures (settle req r q)) = length (futures q).
Proof.
  intros Hi Hx. unfold settle. destruct (pending_requests_ q !! req) as [n|] eqn:E.
  - destruct (inv_pending x q Hi _ _ E) as [Hn _]. split_and!.
    + split; simpl.
      * intros r' m [Hne Hm]%lookup_delete_Some. destruct (inv_pending x q Hi _ _ Hm) as [Hf Hl].
        assert (m <> n) as Hmn by (intros ->; destruct Hne; by apply (inv_inj x q Hi _ _ n)).
        rewrite resolve_lookup, decide_False by done. split; [done|]. right.
        destruct Hl as [->|[Ha|Ha]]; [by destruct Hx as [|[= ->]]|left|right; done]. simpl.
        by rewrite lookup_delete_ne.
      * intros m. rewrite resolve_lookup, Hn. case_decide; [done|].
        intros (r' & Hr')%(inv_waiting x q Hi). exists r'. rewrite lookup_delete_ne; [done|]. intros ->. congruence.
      * intros r1 r2 m [_ H1]%lookup_delete_Some [_ H2]%lookup_delete_Some. by eapply (inv_inj x q Hi).
    + intros m v. simpl. rewrite resolve_lookup. case_decide as Hm; [subst; by rewrite Hn|done].
    + apply lookup_delete_eq.
    + simpl. unfold resolve. rewrite Hn. apply length_insert.
  - split_and!; [|apply final_refl|done|done]. split; [|apply Hi..].
    intros r' m Hm. destruct (inv_pending x q Hi _ _ Hm) as [Hf [->|Hl]]; [|by auto].
    destruct Hx as [|[= ->]]; [done|]. congruence.
Qed.

Lemma final_app q q' l :
  final q q' -> final q (Requests (pending_requests_ q') (futures q' ++ l) (armed q') (ready q')).
Proof. intros Hf n r H%Hf. simpl. by apply lookup_app_l_Some. Qed.

Lemma open_request_spec req q : inv None q -> inv None (open_request req q) /\ final q (open_request req q).
Proof.
  intros Hi. destruct (settle_spec None req (Err BrokenPromise) q Hi (or_introl eq_refl)) as (Hi' & Hf & Hn & _).
  unfold open_request. set (q' := settle _ _ _) in *. clearbody q'. split.
  - split; simpl.
    + intros r n. destruct (decide (r = req)) as [->|Hne].
      * rewrite lookup_insert_eq. intros [= <-]. split; [by apply list_lookup_middle|].
        right. left. apply lookup_insert_eq.
      * rewrite lookup_insert_ne by done. intros Hr. destruct (inv_pending None q' Hi' _ _ Hr) as [Hl [|Hv]]; [done|].
        split; [by apply lookup_app_l_Some|]. right. destruct Hv as [Ha|Ha]; [left|by right]. simpl.
        apply lookup_lt_Some in Hl. rewrite lookup_insert_ne by lia. done.
    + intros n [H|[Hlen Hl]]%lookup_app_Some.
      * destruct (inv_waiting None q' Hi' n H) as [r Hr]. exists r. rewrite lookup_insert_ne; [done|]. congruence.
      * apply list_lookup_singleton_Some in Hl as [? _]. exists req. rewrite lookup_insert_eq. f_equal. lia.
    + intros r1 r2 n. assert (forall r m, pending_requests_ q' !! r = Some m -> m < length (futures q')) as Hlt.
      { intros r m Hm. by eapply lookup_lt_Some, (inv_pending None q' Hi'). }
      destruct (decide (r1 = req)) as [->|H1], (decide (r2 = req)) as [->|H2];
        rewrite ?lookup_insert_eq, ?lookup_insert_ne by done; try done.
      * intros [= <-] Hm%Hlt. lia.
      * intros Hm%Hlt [= <-]. lia.
      * by apply (inv_inj None q' Hi').
  - intros n r H%Hf. simpl. by apply lookup_app_l_Some.
Qed.

Lemma no_request_spec q : inv None q -> inv None (no_request q) /\ final q (no_request q).
Proof.
  intros Hi. split; [|apply (final_app q q), final_refl]. split; simpl; [| |apply Hi].
  - intros r n Hr. destruct (inv_pending None q Hi _ _ Hr). split; [by apply lookup_app_l_Some|done].
  - intros n [H|[_ Hl]]%lookup_app_Some; [by apply (inv_waiting None q Hi)|].
    by apply list_lookup_singleton_Some in Hl as [_ ?].
Qed.

Lemma expire_spec n q q' : inv None q -> expire n q = Some q' -> inv None q' /\ final q q'.
Proof.
  intros Hi. unfold expire. destruct (armed q !! n) as [req|] eqn:E; [|done]. intros [= <-].
  split; [|by intros m r]. split; simpl; [|apply Hi..].
  intros r m Hr. destruct (inv_pending None q Hi _ _ Hr) as [Hf [|Hl]]; [done|]. split; [done|]. right.
  destruct Hl as [Ha|Ha]; [|right; apply elem_of_app; by left].
  destruct (decide (m = n)) as [->|Hne]; [right|left; simpl; by rewrite lookup_delete_ne].
  apply elem_of_app. right. rewrite E in Ha. injection Ha as ->. by left.
Qed.

(** The handler that starts is no longer ready. *)
Lemma start_handler_inv n req l1 l2 q :
  inv None q -> ready q = l1 ++ (n, req) :: l2 ->
  inv (Some req) (Requests (pending_requests_ q) (futures q) (armed q) (l1 ++ l2)).
Proof.
  intros Hi Hr. split; simpl; [|apply Hi..]. intros r m Hm.
  destruct (inv_pending None q Hi _ _ Hm) as [Hf [|[Ha|Ha]]]; [done| |]; (split; [done|]).
  - right. by left.
  - rewrite Hr in Ha. apply elem_of_app in Ha as [?|[Heq|?]%elem_of_cons].
    + right. right. apply elem_of_app. by left.
    + left. by injection Heq as -> ->.
    + right. right. apply elem_of_app. by right.
Qed.

(** The loop of [shutdown] settles the futures it meets and no others. *)
Lemma cancel_loop_lookup (ns : list nat) fs m :
  foldr (fun n fs => resolve n (Err Destroyed) fs) fs ns !! m =
  if decide (m ∈ ns) then (match fs !! m with Some None => Some (Some (Err Destroyed)) | o => o end)
  else fs !! m.
Proof.
  induction ns as [|n ns IH]; [by rewrite decide_False by apply not_elem_of_nil|].
  cbn [foldr]. rewrite resolve_lookup. destruct (decide (m = n)) as [->|Hne].
  - rewrite decide_True by (by left). rewrite IH. case_decide; [|done].
    by destruct (fs !! n) as [[]|].
  - rewrite IH. destruct (decide (m ∈ ns)); [rewrite decide_True by (by right)|rewrite decide_False]; [done..|].
    by intros [?|?]%elem_of_cons.
Qed.

Lemma cancel_all_spec q :
  inv None q -> inv None (cancel_all q) /\ final q (cancel_all q) /\
  (forall n, futures (cancel_all q) !! n <> Some None).
Proof.
  intros Hi. assert (forall n, futures (cancel_all q) !! n <> Some None) as Hall.
  { intros n. unfold cancel_all. cbn [futures]. rewrite cancel_loop_lookup.
    case_decide as Hn; [by destruct (futures q !! n) as [[]|]|].
    intros (r & Hr)%(inv_waiting None q Hi). destruct Hn. apply list_elem_of_fmap. exists (r, n).
    split; [done|]. by apply elem_of_map_to_list. }
  split_and!; [|intros n r Hr; cbn [cancel_all futures]; rewrite cancel_loop_lookup; rewrite Hr; by case_decide|done].
  split.
  - intros req n. simpl. by rewrite lookup_empty.
  - intros n Hn. by destruct (Hall n).
  - intros r1 r2 n. simpl. by rewrite lookup_empty.
Qed.

Section conn.
Context {we : Wire Envelope} {wh : Wire Handshake}.

Lemma send_message_spec env c :
  inv None (requests_ c) -> inv None (requests_ (send_message env c).1) /\
  final (requests_ c) (requests_ (send_message env c).1).
Proof.
  intros Hi. unfold send_message. cbn [fst requests_ with_requests].
  case_goal; [by apply open_request_spec|by apply no_request_spec].
Qed.

Lemma step_spec c c' :
  inv None (requests_ c) -> step c c' -> inv None (requests_ c') /\ final (requests_ c) (requests_ c').
Proof.
  intros Hi Hs. destruct Hs as [env|i p|uuid env|uuid env|n q H|n req l1 l2 H|].
  - by apply send_message_spec.
  - unfold on_message. destruct (ParseFromString p); [|split; [done|apply final_refl]].
    destruct (settle_spec None i (Ok p) _ Hi) as (H1 & H2 & _); [by left|done].
  - unfold handle_handshake. case_goal; [split; [done|apply final_refl]|].
    destruct (ParseFromString (env_payload env)) as [req|]; [|split; [done|apply final_refl]].
    set (c1 := with_identity _ _ _ _). set (e := with_msg_id _ _).
    pose proof (send_message_spec e c1 Hi) as H. destruct (send_message e c1) as [c2 k]. cbn [fst] in H.
    unfold fulfill_handshake_promise. by destruct (handshake_promise_ c2) as [[]|].
  - unfold handle_heartbeat. case_goal; [split; [done|apply final_refl]|]. by apply send_message_spec.
  - simpl. by eapply expire_spec.
  - destruct (settle_spec (Some req) req (Err Timeout) _ (start_handler_inv n req l1 l2 _ Hi H))
      as (H1 & H2 & _); [by right|]. split; [exact H1|exact H2].
  - unfold shutdown. destruct (session_ c); simpl; split; by apply cancel_all_spec.
Qed.

Lemma steps_spec c c' :
  rtc step c c' -> inv None (requests_ c) -> inv None (requests_ c') /\ final (requests_ c) (requests_ c').
Proof.
  induction 1 as [c|c c1 c' Hs _ IH]; intros Hi; [split; [done|apply final_refl]|].
  destruct (step_spec _ _ Hi Hs) as [Hi1 Hf1]. destruct (IH Hi1) as [Hi2 Hf2].
  split; [done|]. intros n r Hr. by apply Hf2, Hf1.
Qed.
End conn.

(** (C12) No RPC hangs: for any interleaving of sends, responses, handlers,
    expiring and delayed timers and shutdowns, every future [send_message] handed
    out either holds its result, which no later step changes, or its request is
    pending with a timer that is armed or whose handler is ready to run; after
    [shutdown] no future is left waiting. *)
Theorem rpc_futures_resolve {we : Wire Envelope} {wh : Wire Handshake} (local remote : Udp.endpoint)
    (self : bytes) (udp_port : Z) (ssl : bool) (c : RpcConnection) (n : nat)
    (Hreach : rtc step (make_connection local remote self udp_port ssl) c)
    (Hn : n < length (futures (requests_ c))) :
  (match futures (requests_ c) !! n with
   | Some (Some r) => forall c', rtc step c c' -> futures (requests_ c') !! n = Some (Some r)
   | _ => exists req, pending_requests_ (requests_ c) !! req = Some n /\ live (requests_ c) n req
   end) /\
  exists r, futures (requests_ (shutdown c)) !! n = Some (Some r).
Proof.
  destruct (steps_spec _ _ Hreach inv_no_requests) as [Hi _]. split.
  - destruct (lookup_lt_is_Some_2 _ _ Hn) as [[r|] Hr]; rewrite Hr.
    + intros c' Hc. by apply (steps_spec _ _ Hc Hi).
    + destruct (inv_waiting None _ Hi n Hr) as [req Hq]. exists req. split; [done|].
      by destruct (inv_pending None _ Hi _ _ Hq) as [_ [|?]].
  - destruct (cancel_all_spec _ Hi) as (_ & Hf & Hall).
    assert (requests_ (shutdown c) = cancel_all (requests_ c)) as -> by (unfold shutdown; by destruct (session_ c)).
    destruct (lookup_lt_is_Some_2 _ _ Hn) as [[r|] Hr]; [by eauto|].
    destruct (futures (cancel_all (requests_ c)) !! n) as [[r|]|] eqn:E; [by eauto|by destruct (Hall n)|].
    exfalso. unfold cancel_all in E. cbn [futures] in E. rewrite cancel_loop_lookup, Hr in E. by case_decide.
Qed.

Lemma rpc_futures_resolve_witness :
  let e := MakeHeartbeatRequest (replicate 16 x05) (MakePeerIP [] 0 0) (MakePeerIP [] 0 0) in
  let c0 := make_connection (Udp.Endpoint [x31] 1) (Udp.Endpoint [x32] 2) [x61] 9 false in
  let c := (@send_message (code_wire Envelope) e c0).1 in
  futures (requests_ c) = [None] /\
  exists r, futures (requests_ (shutdown c)) !! 0 = Some (Some r).
Proof.
  intros e c0 c. split; [reflexivity|].
  apply (@rpc_futures_resolve (code_wire Envelope) (code_wire Handshake)
    (Udp.Endpoint [x31] 1) (Udp.Endpoint [x32] 2) [x61] 9 false c 0).
  - apply rtc_once. apply step_send.
  - apply Nat.lt_0_1.
Defined.

(** ** The handshake *)

(** A connection given the session's next message, with the manager's dispatch
    of a handshake. *)
Definition receive_handshake {we : Wire Envelope} {wh : Wire Handshake} (uuid : bytes)
    (m : bytes * bytes) c : RpcConnection :=
  match on_message m.1 m.2 c with
  | (c, Some env) => if bool_decide (env_type env = HANDSHAKE) then handle_handshake uuid env c else c
  | (c, None) => c
  end.

(** A connection fresh from its constructor, with its dispatch callback. *)
Definition fresh_connection (local remote : Udp.endpoint) (self : bytes) (udp_port : Z) (ssl : bool)
    : RpcConnection := set_on_dispatch (make_connection local remote self udp_port ssl).

Definition record_of c : PeerRecord := {| peer_id := peer_id_ c; peer_ip := Some (get_local_peer_ip c) |}.

(** Messages the protobuf runtime transports unchanged: the [string] fields are
    UTF-8 and the ports are [int32]. *)
Definition peer_ip_ok (p : PeerIP) : bool :=
  utf8_valid (ip p) && (- 2 ^ 31 <=? tcp_port p)%Z && (tcp_port p <? 2 ^ 31)%Z &&
  (- 2 ^ 31 <=? udp_port p)%Z && (udp_port p <? 2 ^ 31)%Z.

Definition option_ok {A} (f : A -> bool) (o : option A) : bool :=
  match o with Some x => f x | None => true end.

Definition envelope_ok (e : Envelope) : bool := option_ok peer_ip_ok (env_from e) && option_ok peer_ip_ok (env_to e).

Definition record_ok (r : PeerRecord) : bool := utf8_valid (peer_id r) && option_ok peer_ip_ok (peer_ip r).

Definition handshake_ok (h : Handshake) : bool := utf8_valid (proto_version h) && option_ok record_ok (peer_record h).

(** A TCP endpoint and the UDP port announced with it. *)
Definition announced (ep : Udp.endpoint) (udp : Z) : PeerIP :=
  {| ip := Udp.address ep; tcp_port := Udp.port ep; udp_port := udp |}.

Definition node_ok (ep : Udp.endpoint) (pid : bytes) (udp : Z) : Prop :=
  utf8_valid (Udp.address ep) = true /\ (0 <= Udp.port ep < 65536)%Z /\
  utf8_valid pid = true /\ (0 <= udp < 65536)%Z.

Lemma node_peer_ip_ok ep pid udp :
  node_ok ep pid udp -> forall p, (0 <= p < 65536)%Z ->
  peer_ip_ok (announced ep p) = true.
Proof.
  intros (H1 & H2 & _ & _) p Hp. unfold peer_ip_ok. simpl. rewrite H1. simpl.
  rewrite !andb_true_iff, !Z.leb_le, !Z.ltb_lt. lia.
Qed.

Section handshake.
Context {we : Wire Envelope} {wh : Wire Handshake}.
Context {le : WireLaws Envelope (fun e => envelope_ok e = true)}.
Context {lh : WireLaws Handshake (fun h => handshake_ok h = true)}.

Lemma parse_handshake_of ep pid udp :
  node_ok ep pid udp ->
  let h := handshake_of (announced ep udp) pid in
  ParseFromString (SerializeAsString h) = Some h.
Proof.
  intros Hn h. apply parse_serialize. unfold handshake_ok. cbn [h handshake_of proto_version peer_record option_ok].
  unfold record_ok. cbn [Packet.peer_id peer_ip option_ok].
  rewrite (node_peer_ip_ok ep pid udp Hn) by apply Hn. destruct Hn as (_ & _ & -> & _). reflexivity.
Qed.

(** The request reaches the acceptor. *)
Lemma acceptor_answers b_ep a_ep a_id b_id u3 e a_udp b_udp c :
  node_ok a_ep a_id a_udp -> node_ok b_ep b_id b_udp ->
  local_endpoint_ c = b_ep -> remote_endpoint_ c = a_ep -> peer_id_ c = b_id -> my_udp_port_ c = b_udp ->
  handshake_promise_ c = Some None -> handler_cb_ c = true -> sent c = [] ->
  envelope_ok e = true -> env_type e = HANDSHAKE -> env_expect_response e = true ->
  env_payload e = SerializeAsString (handshake_of (announced a_ep a_udp) a_id) ->
  exists answer,
    let c' := receive_handshake u3 (msg_id e, SerializeAsString e) c in
    sent c' = [(msg_id answer, SerializeAsString answer)] /\ msg_id answer = msg_id e /\ envelope_ok answer = true /\
    env_type answer = HANDSHAKE /\ env_expect_response answer = false /\
    env_payload answer = SerializeAsString (handshake_of (announced b_ep b_udp) b_id) /\
    handshake_promise_ c' = Some (Some {| peer_id := a_id; peer_ip := Some (announced a_ep a_udp) |}) /\
    remote_udp_endpoint_ c' = Udp.Endpoint (Udp.address a_ep) a_udp.
Proof.
  intros Ha Hb El Er Ei Ep Eh Ec Es He Et Ex Epl.
  assert (u16 a_udp = a_udp) as Hu by (apply u16_small; apply Ha).
  unfold receive_handshake. cbn [fst snd]. unfold on_message. rewrite parse_serialize by done.
  cbn [handler_cb_ with_requests]. rewrite Ec, Et, bool_decide_true by done.
  unfold handle_handshake. rewrite Ex, Epl, (parse_handshake_of a_ep a_id a_udp Ha). cbn [negb].
  set (c1 := with_identity _ _ _ _).
  assert (local_endpoint_ c1 = b_ep /\ remote_endpoint_ c1 = a_ep /\ my_udp_port_ c1 = b_udp /\ peer_id_ c1 = b_id)
    as (L & R & P & I) by done.
  assert (remote_udp_endpoint_ c1 = Udp.Endpoint (Udp.address a_ep) a_udp) as U.
  { cbn [c1 with_identity remote_udp_endpoint_]. unfold udp_endpoint_of. cbn [remote_endpoint_ with_requests].
    rewrite Er. cbn [get_peer_record peer_record handshake_of default get_peer_ip peer_ip udp_port].
    unfold get_peer_record, get_peer_ip. simpl. by rewrite Hu. }
  assert (get_local_peer_ip c1 = (announced b_ep b_udp)) as G
    by (unfold get_local_peer_ip; by rewrite L, P).
  unfold send_message. set (ans := addressed c1 _). cbn [env_expect_response ans addressed].
  exists ans. unfold fulfill_handshake_promise. cbn [with_requests handshake_promise_ c1 with_identity].
  rewrite Eh. cbn [with_identity with_requests sent handshake_promise_ remote_udp_endpoint_].
  split_and!.
  - cbn [c1 with_identity sent]. cbn [with_requests sent]. by rewrite Es.
  - done.
  - unfold envelope_ok. cbn [ans addressed env_from env_to option_ok]. rewrite G.
    rewrite (node_peer_ip_ok b_ep b_id b_udp Hb) by apply Hb. simpl. unfold get_remote_peer_ip. rewrite R, U.
    apply (node_peer_ip_ok a_ep a_id a_udp Ha). apply Ha.
  - done.
  - done.
  - cbn [ans addressed env_payload with_msg_id MakeHandshakeResponse]. rewrite G.
    unfold get_self_peer_id. by rewrite I.
  - done.
  - exact U.
Qed.

(** The answer comes back: the future of the request holds it. *)
Lemma initiator_finishes b_ep b_id u3 (e : Envelope) (n : nat) b_udp c :
  node_ok b_ep b_id b_udp -> remote_endpoint_ c = b_ep ->
  pending_requests_ (requests_ c) !! msg_id e = Some n -> futures (requests_ c) !! n = Some None ->
  envelope_ok e = true -> env_type e = HANDSHAKE -> env_expect_response e = false ->
  env_payload e = SerializeAsString (handshake_of (announced b_ep b_udp) b_id) ->
  let c' := receive_handshake u3 (msg_id e, SerializeAsString e) c in
  sent c' = sent c /\
  exists r, futures (requests_ c') !! n = Some (Some r) /\
    (finish_handshake_request r c').2 = Ok {| peer_id := b_id; peer_ip := Some (announced b_ep b_udp) |} /\
    remote_udp_endpoint_ (finish_handshake_request r c').1 = Udp.Endpoint (Udp.address b_ep) b_udp.
Proof.
  intros Hb Er Hp Hf He Et Ex Epl. unfold receive_handshake. cbn [fst snd]. unfold on_message.
  rewrite parse_serialize by done. set (c1 := with_requests _ _ _).
  assert ((if handler_cb_ c1 then Some e else None) = Some e /\ handle_handshake u3 e c1 = c1 \/
          (if handler_cb_ c1 then Some e else None) = None) as Hcase.
  { destruct (handler_cb_ c1); [left|by right]. split; [done|]. unfold handle_handshake. by rewrite Ex. }
  assert (forall x : RpcConnection, x = c1 -> sent x = sent c /\
    exists r, futures (requests_ x) !! n = Some (Some r) /\
    (finish_handshake_request r x).2 = Ok {| peer_id := b_id; peer_ip := Some (announced b_ep b_udp) |} /\
    remote_udp_endpoint_ (finish_handshake_request r x).1 = Udp.Endpoint (Udp.address b_ep) b_udp) as Hgoal.
  { intros x ->. split; [apply app_nil_r|]. exists (Ok (SerializeAsString e)). split_and!.
    - cbn [c1 with_requests requests_]. unfold store_response, settle. rewrite Hp. cbn [futures].
      by rewrite resolve_lookup, decide_True, Hf.
    - unfold finish_handshake_request. rewrite parse_serialize, Et, bool_decide_true by done. cbn [negb].
      by rewrite Epl, (parse_handshake_of b_ep b_id b_udp Hb).
    - unfold finish_handshake_request. rewrite parse_serialize, Et, bool_decide_true by done. cbn [negb].
      rewrite Epl, (parse_handshake_of b_ep b_id b_udp Hb). cbn [fst with_identity remote_udp_endpoint_].
      unfold udp_endpoint_of. cbn [c1 with_requests remote_endpoint_]. rewrite Er.
      unfold get_peer_record, get_peer_ip. simpl. by rewrite u16_small by apply Hb. }
  destruct Hcase as [[-> Hh]| ->]; apply Hgoal; [|done]. by case_bool_decide.
Qed.
End handshake.

(** (C13) The handshake agrees: when the initiator's request reaches the
    acceptor and the acceptor's answer comes back, both ends finish successfully,
    each with the other's record, and each knows the UDP endpoint at which the
    other listens; the exchange is exactly these two messages. *)
Theorem handshake_agrees {we : Wire Envelope} {wh : Wire Handshake}
    {le : WireLaws Envelope (fun e => envelope_ok e = true)}
    {lh : WireLaws Handshake (fun h => handshake_ok h = true)}
    (a_ep b_ep : Udp.endpoint) (a_id b_id u1 u2 u3 u4 : bytes) (a_udp b_udp : Z) (ssl : bool)
    (Ha : node_ok a_ep a_id a_udp) (Hb : node_ok b_ep b_id b_udp) :
  let a := start true u1 (fresh_connection a_ep b_ep a_id a_udp ssl) in
  let b := start false u2 (fresh_connection b_ep a_ep b_id b_udp ssl) in
  exists request answer,
    let b' := receive_handshake u3 request b in
    let a' := receive_handshake u4 answer a in
    sent a = [request] /\ sent b' = [answer] /\ sent a' = [request] /\
    finish_accept b' = (b', Ok {| peer_id := a_id; peer_ip := Some (announced a_ep a_udp) |}) /\
    remote_udp_endpoint_ b' = Udp.Endpoint (Udp.address a_ep) a_udp /\
    exists r, futures (requests_ a') !! 0 = Some (Some r) /\
      (finish_handshake_request r a').2 = Ok {| peer_id := b_id; peer_ip := Some (announced b_ep b_udp) |} /\
      remote_udp_endpoint_ (finish_handshake_request r a').1 = Udp.Endpoint (Udp.address b_ep) b_udp.
Proof.
  intros a b.
  pose (c0 := with_session (Some (if ssl then SslSession true else TcpSession)) true false
    (with_identity (Udp.Endpoint (lit "0.0.0.0")%mesh 0) [] (Some None) (fresh_connection a_ep b_ep a_id a_udp ssl))).
  pose (e := addressed c0 (MakeHandshakeRequest u1 (get_local_peer_ip c0) (get_remote_peer_ip c0) a_id)).
  assert (sent a = [(msg_id e, SerializeAsString e)]) as Hs by (by destruct ssl).
  destruct (acceptor_answers b_ep a_ep a_id b_id u3 e a_udp b_udp b) as (ans & A1 & A0 & A2 & A3 & A4 & A5 & A6 & A7);
    try done.
  { unfold envelope_ok. cbn [e addressed env_from env_to option_ok]. apply andb_true_iff. split.
    - apply (node_peer_ip_ok a_ep a_id a_udp Ha). apply Ha.
    - apply (node_peer_ip_ok b_ep b_id b_udp Hb). cbn. lia. }
  destruct (initiator_finishes b_ep b_id u4 ans 0 b_udp a) as [F1 F2]; try done.
  { rewrite A0. apply lookup_insert_eq. }
  exists (msg_id e, SerializeAsString e), (msg_id ans, SerializeAsString ans). 
  cbn zeta. split_and!; [exact Hs|exact A1|by rewrite F1|unfold finish_accept; by rewrite A6|exact A7|exact F2].
Qed.

Definition demo_a : Udp.endpoint := Udp.Endpoint (lit "10.0.0.1")%mesh 4001.
Definition demo_b : Udp.endpoint := Udp.Endpoint (lit "10.0.0.2")%mesh 4002.

Lemma handshake_agrees_witness :
  let ew := code_wire Envelope in let hw := code_wire Handshake in
  let a := start true (replicate 16 x05) (fresh_connection demo_a demo_b [x61] 5001 false) in
  exists request answer, sent a = [request] /\
    (finish_accept (receive_handshake [] request (start false [] (fresh_connection demo_b demo_a [x62] 5002 false)))).2 =
      Ok {| peer_id := [x61]; peer_ip := Some (announced demo_a 5001) |} /\
    exists r, futures (requests_ (receive_handshake [] answer a)) !! 0 = Some (Some r).
Proof.
  intros ew hw a.
  destruct (@handshake_agrees ew hw (code_wire_laws _ _) (code_wire_laws _ _) demo_a demo_b [x61] [x62]
    (replicate 16 x05) [] [] [] 5001 5002 false) as (request & answer & H1 & _ & _ & H4 & _ & r & H6 & _);
    [split_and!; by vm_compute|split_and!; by vm_compute|].
  exists request, answer. split_and!; [exact H1|by rewrite H4|by exists r].
Defined.

End RpcCalls.
