(* ===== verification/RpcManager.v ===== *)
(** * The connection manager

    [RpcManager] of src/src/mesh/rpc/RpcManager.{h,cpp}.  Connections are shared
    objects: they live in a heap, and the maps by peer and by address hold their
    numbers.  What the manager tells its [IMessageSink] is returned as a list of
    sink events.  Sockets, the resolver and the threads are the steps that run
    the code below. *)

From S2P Require Import Prelude Cxx Utils Packet UdpTransport RpcConnection.

Module Manager.
Import Utils Packet Rpc.

Definition MAX_HEARTBEAT_FAILURES : nat := 5.

Inductive sink_event :=
| PushDataBytes (from_peer payload_bytes : bytes)
| OnPeerConnected (peer_id : bytes)
| OnPeerDisconnected (peer_id : bytes).

Inductive SendError := INVALID_PEER.

Inductive connect_error :=
| AlreadyPendingOrActive | ConnectTimedOut | ResolveFailed | TcpConnectFailed | StartupFailed (e : handshake_error).

(** [ConnectAttemptState], with the results its callback has been given. *)
Record attempt := Attempt {
  key : bytes;
  completed : bool;
  conn : option nat;
  results : list (outcome connect_error bytes)
}.

Record RpcManager := {
  peer_id_ : bytes;
  udp_port_ : Z;
  use_ssl : bool;
  sink_ : bool;                                   (* [sink_.lock()] succeeds *)
  udp_transport_ : Udp.UdpTransport;
  heap : list RpcConnection;
  connections_by_peer_ : gmap bytes nat;
  connections_by_ip_ : gmap bytes nat;
  pending_connections_ : gset bytes;
  auto_connections_ : list PeerIP;
  shutting_down_ : bool;
  attempts : list attempt;
  starting : gmap nat (option nat)                (* start-up threads: connection, attempt *)
}.

Implicit Types (m : RpcManager).

(** ** Field updates *)

Definition with_heap (h : list RpcConnection) m : RpcManager := {|
  peer_id_ := peer_id_ m; udp_port_ := udp_port_ m; use_ssl := use_ssl m; sink_ := sink_ m;
  udp_transport_ := udp_transport_ m; heap := h; connections_by_peer_ := connections_by_peer_ m;
  connections_by_ip_ := connections_by_ip_ m; pending_connections_ := pending_connections_ m;
  auto_connections_ := auto_connections_ m; shutting_down_ := shutting_down_ m;
  attempts := attempts m; starting := starting m
|}.

Definition with_maps (by_peer by_ip : gmap bytes nat) m : RpcManager := {|
  peer_id_ := peer_id_ m; udp_port_ := udp_port_ m; use_ssl := use_ssl m; sink_ := sink_ m;
  udp_transport_ := udp_transport_ m; heap := heap m; connections_by_peer_ := by_peer;
  connections_by_ip_ := by_ip; pending_connections_ := pending_connections_ m;
  auto_connections_ := auto_connections_ m; shutting_down_ := shutting_down_ m;
  attempts := attempts m; starting := starting m
|}.

Definition with_attempts (p : gset bytes) (a : list attempt) (s : gmap nat (option nat)) m : RpcManager := {|
  peer_id_ := peer_id_ m; udp_port_ := udp_port_ m; use_ssl := use_ssl m; sink_ := sink_ m;
  udp_transport_ := udp_transport_ m; heap := heap m; connections_by_peer_ := connections_by_peer_ m;
  connections_by_ip_ := connections_by_ip_ m; pending_connections_ := p;
  auto_connections_ := auto_connections_ m; shutting_down_ := shutting_down_ m;
  attempts := a; starting := s
|}.

Definition with_auto (l : list PeerIP) (down : bool) m : RpcManager := {|
  peer_id_ := peer_id_ m; udp_port_ := udp_port_ m; use_ssl := use_ssl m; sink_ := sink_ m;
  udp_transport_ := udp_transport_ m; heap := heap m; connections_by_peer_ := connections_by_peer_ m;
  connections_by_ip_ := connections_by_ip_ m; pending_connections_ := pending_connections_ m;
  auto_connections_ := l; shutting_down_ := down; attempts := attempts m; starting := starting m
|}.

Definition with_udp (t : Udp.UdpTransport) m : RpcManager := {|
  peer_id_ := peer_id_ m; udp_port_ := udp_port_ m; use_ssl := use_ssl m; sink_ := sink_ m;
  udp_transport_ := t; heap := heap m; connections_by_peer_ := connections_by_peer_ m;
  connections_by_ip_ := connections_by_ip_ m; pending_connections_ := pending_connections_ m;
  auto_connections_ := auto_connections_ m; shutting_down_ := shutting_down_ m;
  attempts := attempts m; starting := starting m
|}.

Definition set_sink (alive : bool) m : RpcManager := {|
  peer_id_ := peer_id_ m; udp_port_ := udp_port_ m; use_ssl := use_ssl m; sink_ := alive;
  udp_transport_ := udp_transport_ m; heap := heap m; connections_by_peer_ := connections_by_peer_ m;
  connections_by_ip_ := connections_by_ip_ m; pending_connections_ := pending_connections_ m;
  auto_connections_ := auto_connections_ m; shutting_down_ := shutting_down_ m;
  attempts := attempts m; starting := starting m
|}.

(** An update of one shared connection. *)
Definition update_conn (i : nat) (f : RpcConnection -> RpcConnection) m : RpcManager :=
  with_heap (alter f i (heap m)) m.

(** The constructor; [None] if that of the UDP transport throws. *)
Definition make_manager (udp_bind : Z -> bool) (peer_id : bytes) (udp_port : Z) (sink ssl : bool) (fec : Udp.UdpFecOptions)
    : option RpcManager :=
  match Udp.make_transport udp_bind udp_port fec with
  | Err _ => None
  | Ok t => Some {|
      peer_id_ := peer_id; udp_port_ := udp_port; use_ssl := ssl; sink_ := sink;
      udp_transport_ := Udp.set_on_receive t; heap := []; connections_by_peer_ := ∅; connections_by_ip_ := ∅;
      pending_connections_ := ∅; auto_connections_ := []; shutting_down_ := false; attempts := [];
      starting := ∅ |}
  end.

(** ** Receiving *)

(** The callback given to the UDP transport. *)
Definition on_udp_receive (ep : Udp.endpoint) (data : bytes) m : list sink_event :=
  if sink_ m then
    match connections_by_ip_ m !! Udp.address ep with
    | Some i => match heap m !! i with
                | Some c => [PushDataBytes (get_remote_peer_id c) data]
                | None => []
                end
    | None => []
    end
  else [].

(** [dispatch_message]: [handlers_] holds those for HANDSHAKE and HEARTBEAT. *)
Definition dispatch_message {we : Wire Envelope} {wh : Wire Handshake} (uuid : bytes) (i : nat)
    (envelope : Envelope) m : RpcManager * list sink_event :=
  match env_type envelope with
  | HANDSHAKE => (update_conn i (handle_handshake uuid envelope) m, [])
  | HEARTBEAT => (update_conn i (handle_heartbeat uuid envelope) m, [])
  | DATA =>
      (m, if sink_ m then
            match heap m !! i with
            | Some c => [PushDataBytes (get_remote_peer_id c) (env_payload envelope)]
            | None => []
            end
          else [])
  | EnvelopeType_other _ => (m, [])
  end.

(** A message of the session of connection [i]: [RpcConnection::on_message] and
    the dispatch callback. *)
Definition conn_message {we : Wire Envelope} {wh : Wire Handshake} (uuid : bytes) (i : nat)
    (msg_id payload : bytes) m : RpcManager * list sink_event :=
  match heap m !! i with
  | None => (m, [])
  | Some c =>
      let '(c, env) := on_message msg_id payload c in
      let m := with_heap (<[i := c]> (heap m)) m in
      match env with Some env => dispatch_message uuid i env m | None => (m, []) end
  end.

(** ** Connecting *)

(** [insert] keeps an entry that exists. *)
Definition try_insert (k : bytes) (i : nat) (t : gmap bytes nat) : gmap bytes nat :=
  match t !! k with Some _ => t | None => <[k := i]> t end.

Definition add_connection_internal (peer_id : bytes) (i : nat) m : RpcManager * list sink_event :=
  match heap m !! i with
  | None => (m, [])
  | Some c =>
      (with_maps (try_insert peer_id i (connections_by_peer_ m))
                 (try_insert (ip (get_remote_peer_ip c)) i (connections_by_ip_ m)) m,
       if sink_ m then [OnPeerConnected peer_id] else [])
  end.

(** [handle_connection_startup] once [conn->start] has returned. *)
Definition handle_connection_startup (i : nat) (res : outcome handshake_error PeerRecord) m
    : RpcManager * outcome handshake_error bytes * list sink_event :=
  match res with
  | Err e => (m, Err e, [])
  | Ok r =>
      let remote_peer_id := peer_id r in
      let m := update_conn i (set_remote_peer_id remote_peer_id) m in
      let '(m, evs) := add_connection_internal remote_peer_id i m in
      (m, Ok remote_peer_id, evs)
  end.

(** The lambda [complete] of [connect_async]. *)
Definition complete (a : nat) (result : outcome connect_error bytes) m : RpcManager :=
  match attempts m !! a with
  | None => m
  | Some s =>
      if completed s then m
      else
        let s' := Attempt (key s) true (conn s) (results s ++ [result]) in
        let m' := with_attempts (pending_connections_ m ∖ {[key s]}) (<[a := s']> (attempts m)) (starting m) m in
        match result, conn s with
        | Err _, Some i => update_conn i shutdown m'
        | _, _ => m'
        end
  end.

Definition connect_key (host : bytes) (port : Z) : bytes := host ++ [x3a] ++ to_string port.

(** [connect_async]: the callback's error at once, or the number of the attempt. *)
Definition connect_async (host : bytes) (port : Z) m : RpcManager * outcome connect_error nat :=
  let k := connect_key host port in
  if bool_decide (k ∈ pending_connections_ m) || bool_decide (is_Some (connections_by_ip_ m !! host))
  then (m, Err AlreadyPendingOrActive)
  else (with_attempts ({[k]} ∪ pending_connections_ m) (attempts m ++ [Attempt k false None []]) (starting m) m,
        Ok (length (attempts m))).

(** What the future of the blocking [connect] holds: the promise is set by the
    callback. *)
Definition connect_outcome (started : outcome connect_error nat) m : option (outcome connect_error bytes) :=
  match started with
  | Err e => Some (Err e)
  | Ok a => s ← attempts m !! a; head (results s)
  end.

(** The handlers of the attempt: its timer, the resolver (when it fails), the
    TCP connect. *)
Definition on_connect_timer (a : nat) m : RpcManager := complete a (Err ConnectTimedOut) m.

Definition on_resolve_failed (a : nat) m : RpcManager :=
  match attempts m !! a with
  | Some s => if completed s then m else complete a (Err ResolveFailed) m
  | None => m
  end.

(** A new connection object with its dispatch callback, started by a thread. *)
Definition new_connection {we : Wire Envelope} {wh : Wire Handshake} (uuid : bytes)
    (local remote : Udp.endpoint) (initiator : bool) m : RpcConnection :=
  Rpc.start initiator uuid
    (set_on_dispatch (make_connection local remote (peer_id_ m) (udp_port_ m) (use_ssl m))).

Definition on_tcp_connected {we : Wire Envelope} {wh : Wire Handshake} (a : nat) (ok : bool) (uuid : bytes)
    (local remote : Udp.endpoint) m : RpcManager :=
  match attempts m !! a with
  | None => m
  | Some s =>
      if completed s then m
      else if negb ok then complete a (Err TcpConnectFailed) m
      else
        let i := length (heap m) in
        with_attempts (pending_connections_ m)
          (<[a := Attempt (key s) (completed s) (Some i) (results s)]> (attempts m))
          (<[i := Some a]> (starting m))
          (with_heap (heap m ++ [new_connection uuid local remote true m]) m)
  end.

(** An incoming connection: [handle_new_connection] with [initiator] false. *)
Definition on_accept {we : Wire Envelope} {wh : Wire Handshake} (uuid : bytes) (local remote : Udp.endpoint) m
    : RpcManager :=
  if shutting_down_ m then m
  else
    let i := length (heap m) in
    with_attempts (pending_connections_ m) (attempts m) (<[i := None]> (starting m))
      (with_heap (heap m ++ [new_connection uuid local remote false m]) m).

(** What [async_accept] gives its handler. *)
Inductive accept_result :=
| Accepted (local remote : Udp.endpoint)
| RemoteGone                              (* [remote_endpoint] fails *)
| AcceptAborted
| AcceptFailed.

(** The handler of [do_accept], and whether it accepts again. *)
Definition do_accept {we : Wire Envelope} {wh : Wire Handshake} (uuid : bytes) (res : accept_result) m
    : RpcManager * bool :=
  if shutting_down_ m then (m, false)
  else match res with
       | AcceptAborted => (m, false)
       | Accepted local remote => (on_accept uuid local remote m, true)
       | RemoteGone | AcceptFailed => (m, true)
       end.

(** The thread of connection [i] comes back from [start]; for an attempt, the
    handler that completes it is posted (and returned). *)
Definition startup_done (i : nat) (res : outcome handshake_error PeerRecord) m
    : RpcManager * option (nat * outcome connect_error bytes) * list sink_event :=
  match starting m !! i with
  | None => (m, None, [])
  | Some a =>
      let m := with_attempts (pending_connections_ m) (attempts m) (delete i (starting m)) m in
      let '(m, r, evs) := handle_connection_startup i res m in
      (m, match a with
          | Some a => Some (a, match r with Ok p => Ok p | Err e => Err (StartupFailed e) end)
          | None => None
          end, evs)
  end.

(** ** Connections by peer *)

Definition remove_connection (peer_id : bytes) m : RpcManager * bool * list sink_event :=
  match connections_by_peer_ m !! peer_id with
  | None => (m, false, [])
  | Some i =>
      let by_ip := match heap m !! i with
                   | Some c => delete (ip (get_remote_peer_ip c)) (connections_by_ip_ m)
                   | None => connections_by_ip_ m
                   end in
      (with_maps (delete peer_id (connections_by_peer_ m)) by_ip m, true,
       if sink_ m then [OnPeerDisconnected peer_id] else [])
  end.

(** A [nullptr] inside the optional is [Some None]. *)
Definition get_connection (peer_id : bytes) m : option (option nat) := Some (connections_by_peer_ m !! peer_id).

Definition send_tcp_message {we : Wire Envelope} (peer : bytes) (envelope : Envelope) m
    : RpcManager * outcome SendError nat :=
  match connections_by_peer_ m !! peer with
  | None => (m, Err INVALID_PEER)
  | Some i =>
      match heap m !! i with
      | None => (m, Err INVALID_PEER)
      | Some c => let '(c, f) := send_message envelope c in (with_heap (<[i := c]> (heap m)) m, Ok f)
      end
  end.

(** The datagrams given to the socket are returned. *)
Definition send_udp_message {wp : Wire RoutedPacket} (peer : bytes) (pkt : RoutedPacket) m
    : RpcManager * outcome SendError (list (Udp.endpoint * bytes)) :=
  match connections_by_peer_ m !! peer with
  | None => (m, Err INVALID_PEER)
  | Some i =>
      match heap m !! i with
      | None => (m, Err INVALID_PEER)
      | Some c =>
          let '(t, out) := Udp.send_packet (remote_udp_endpoint_ c) pkt (udp_transport_ m) in
          (with_udp t m, Ok out)
      end
  end.

(** ** Heartbeats *)

(** One peer in the first loop of [send_heartbeats]; [None]: no connection any
    more.  The keepalive packet is the one made before the loop. *)
Definition udp_keepalive_pkt (uuid self peer : bytes) : RoutedPacket :=
  MakeBinaryRoutedPacket uuid self peer 1 (lit "mesh.Heartbeat")%mesh UDP [] false.

Definition send_heartbeat {we : Wire Envelope} {wp : Wire RoutedPacket} (u1 u2 peer : bytes) m
    : RpcManager * option nat * list (Udp.endpoint * bytes) :=
  match connections_by_peer_ m !! peer with
  | None => (m, None, [])
  | Some i =>
      match heap m !! i with
      | None => (m, None, [])
      | Some c =>
          let env := MakeHeartbeatRequest u1 (get_local_peer_ip c) (get_remote_peer_ip c) in
          let '(c', f) := send_message env c in
          let m := with_heap (<[i := c']> (heap m)) m in
          if (Udp.port (remote_udp_endpoint_ c) =? 0)%Z then (m, Some f, [])
          else
            let '(t, out) := Udp.send_packet (remote_udp_endpoint_ c) (udp_keepalive_pkt u2 (peer_id_ m) peer)
                               (udp_transport_ m) in
            (with_udp t m, Some f, out)
      end
  end.

(** One future in the second loop; [failed]: [fut.get()] threw. *)
Definition heartbeat_result (peer : bytes) (failed : bool) (s : RpcManager * gmap bytes nat)
    : RpcManager * gmap bytes nat :=
  let '(m, consecutive_failed) := s in
  if failed then
    let current_failures := S (default 0 (consecutive_failed !! peer)) in
    if MAX_HEARTBEAT_FAILURES <=? current_failures
    then (with_maps (delete peer (connections_by_peer_ m)) (connections_by_ip_ m) m, delete peer consecutive_failed)
    else (m, <[peer := current_failures]> consecutive_failed)
  else (m, try_insert peer 0 consecutive_failed).

(** One round of the loop of [send_heartbeats]: a request to every peer, then the
    futures in the order of their map; [failed] says which of them throw. *)
Definition heartbeat_round {o : IterOrder} {we : Wire Envelope} {wp : Wire RoutedPacket} (u1 u2 : bytes -> bytes)
    (failed : bytes -> bool) (s : RpcManager * gmap bytes nat)
    : RpcManager * gmap bytes nat * list (Udp.endpoint * bytes) :=
  let '(m, consecutive_failed) := s in
  if shutting_down_ m then (m, consecutive_failed, [])
  else
    let peers := (iter (connections_by_peer_ m)).*1 in
    let '(m, futures, out) :=
      foldl (fun '(m, futures, out) peer =>
        match send_heartbeat (u1 peer) (u2 peer) peer m with
        | (m, Some f, out') => (m, <[peer := f]> futures, out ++ out')
        | (m, None, out') => (m, futures, out ++ out')
        end) (m, ∅ : gmap bytes nat, []) peers in
    let '(m, consecutive_failed) :=
      for_each futures (fun peer _ s => heartbeat_result peer (failed peer) s) (m, consecutive_failed) in
    (m, consecutive_failed, out).

(** ** Automatic connections *)

Definition same_target (record r : PeerIP) : bool :=
  bool_decide (ip record = ip r) && (tcp_port record =? tcp_port r)%Z.

Definition add_auto_connection (record : PeerIP) m : RpcManager :=
  if existsb (same_target record) (auto_connections_ m) then m
  else with_auto (auto_connections_ m ++ [record]) (shutting_down_ m) m.

(** [erase(find_if(...))]: the first match. *)
Fixpoint erase_first (record : PeerIP) (l : list PeerIP) : list PeerIP :=
  match l with
  | [] => []
  | r :: l => if same_target record r then l else r :: erase_first record l
  end.

Definition remove_auto_connection (record : PeerIP) m : RpcManager :=
  with_auto (erase_first record (auto_connections_ m)) (shutting_down_ m) m.

(** The targets [check_for_auto_connections_locked] collects under the lock. *)
Definition auto_targets m : list PeerIP :=
  filter (fun t => ~ (is_Some (connections_by_ip_ m !! ip t) \/
                      connect_key (ip t) (tcp_port t) ∈ pending_connections_ m)) (auto_connections_ m).

Definition check_for_auto_connections m : RpcManager :=
  if shutting_down_ m then m
  else foldl (fun m t => (connect_async (ip t) (tcp_port t) m).1) m (auto_targets m).

(** The handler of the maintenance timer; it arms the timer again unless the
    manager is shutting down or the wait was aborted. *)
Definition run_maintenance_cycle (aborted : bool) m : RpcManager * bool :=
  if shutting_down_ m then (m, false)
  else if aborted then (m, false)
  else let m := check_for_auto_connections m in (m, negb (shutting_down_ m)).

(** ** Listening *)

Inductive listen_error := OpenFailed | BindFailed | ListenFailed.

(** [start_listening]: the first error is logged and ends it; otherwise the first
    accept is started.  The error of [set_option] is overwritten. *)
Definition start_listening (open_ok bind_ok listen_ok : bool) : outcome listen_error unit :=
  if negb open_ok then Err OpenFailed
  else if negb bind_ok then Err BindFailed
  else if negb listen_ok then Err ListenFailed
  else Ok tt.

(** ** Shutdown *)

Definition shutdown_manager m : RpcManager :=
  if shutting_down_ m then m
  else
    let conns := (map_to_list (connections_by_peer_ m)).*2 in
    let m := with_udp (Udp.shutdown (udp_transport_ m)) (with_auto [] true m) in
    let m := with_maps ∅ ∅ m in
    foldl (fun m i => update_conn i shutdown m) m conns.

End Manager.
