(* ===== verification/RpcRegistry.v ===== *)
(** * The connection manager: invariants

    Which connections the maps of [RpcManager] hold, that every connection
    attempt is reported exactly once, and what the heartbeat loop does to a
    failing peer. *)

From S2P Require Import Prelude Cxx Utils Packet UdpTransport RpcConnection RpcManager.

Module Registry.
Import Utils Packet Rpc Manager.

Implicit Types (m : RpcManager) (c : RpcConnection).

(** ** What a connection keeps *)

(** The address of the other end and its name do not change. *)
Definition same_peer c c' : Prop :=
  remote_endpoint_ c' = remote_endpoint_ c /\ authenticated_remote_id_ c' = authenticated_remote_id_ c.

Section conn.
Context {we : Wire Envelope} {wh : Wire Handshake}.

Lemma handle_handshake_same_peer uuid env c : same_peer c (handle_handshake uuid env c).
Proof.
  unfold handle_handshake. destruct (negb _); [done|].
  destruct (ParseFromString (env_payload env)); [|done].
  unfold send_message, fulfill_handshake_promise. cbn [with_requests with_identity handshake_promise_].
  by destruct (handshake_promise_ c) as [[]|].
Qed.

Lemma handle_heartbeat_same_peer uuid env c : same_peer c (handle_heartbeat uuid env c).
Proof. unfold handle_heartbeat. by case_goal. Qed.

Lemma on_message_same_peer i p c : same_peer c (on_message i p c).1.
Proof. unfold on_message. by destruct (ParseFromString p). Qed.

Lemma shutdown_same_peer c : same_peer c (shutdown c).
Proof. unfold shutdown. by destruct (session_ c). Qed.

Lemma step_same_peer c c' : step c c' -> same_peer c c'.
Proof.
  intros []; try done; [apply on_message_same_peer|apply handle_handshake_same_peer|
    apply handle_heartbeat_same_peer|apply shutdown_same_peer].
Qed.
End conn.

(** ** Steps of the manager *)

Inductive mstep {we : Wire Envelope} {wh : Wire Handshake} {wp : Wire RoutedPacket} m : RpcManager -> Prop :=
| mstep_conn i c c' : heap m !! i = Some c -> step c c' -> mstep m (with_heap (<[i := c']> (heap m)) m)
| mstep_message uuid i msg_id payload : mstep m (conn_message uuid i msg_id payload m).1
| mstep_connect host port : mstep m (connect_async host port m).1
| mstep_timer a : mstep m (on_connect_timer a m)
| mstep_resolve a : mstep m (on_resolve_failed a m)
| mstep_connected a ok uuid local remote : mstep m (on_tcp_connected a ok uuid local remote m)
| mstep_accept uuid local remote : mstep m (on_accept uuid local remote m)
| mstep_startup i res : mstep m (startup_done i res m).1.1
| mstep_posted a result : mstep m (complete a result m)
| mstep_remove peer : mstep m (remove_connection peer m).1.1
| mstep_send_tcp peer env : mstep m (send_tcp_message peer env m).1
| mstep_send_udp peer pkt : mstep m (send_udp_message peer pkt m).1
| mstep_heartbeat u1 u2 peer : mstep m (send_heartbeat u1 u2 peer m).1.1
| mstep_heartbeat_result peer failed t : mstep m (heartbeat_result peer failed (m, t)).1
| mstep_add_auto r : mstep m (add_auto_connection r m)
| mstep_remove_auto r : mstep m (remove_auto_connection r m)
| mstep_check_auto : mstep m (check_for_auto_connections m)
| mstep_shutdown : mstep m (shutdown_manager m)
| mstep_sink alive : mstep m (set_sink alive m).

(** ** The maps *)

(** A registered connection has finished its start-up; the map by peer knows it
    under its name, the map by address under its address. *)
Record registry m : Prop := {
  reg_peer : forall p i, connections_by_peer_ m !! p = Some i ->
    starting m !! i = None /\ exists c, heap m !! i = Some c /\ authenticated_remote_id_ c = p;
  reg_ip : forall h i, connections_by_ip_ m !! h = Some i ->
    starting m !! i = None /\ exists c, heap m !! i = Some c /\ Udp.address (remote_endpoint_ c) = h;
  reg_starting : forall i a, starting m !! i = Some a -> i < length (heap m)
}.

(** A step that registers nothing. *)
Definition keeps m m' : Prop :=
  (forall i c, heap m !! i = Some c -> exists c', heap m' !! i = Some c' /\ same_peer c c') /\
  connections_by_peer_ m' ⊆ connections_by_peer_ m /\ connections_by_ip_ m' ⊆ connections_by_ip_ m /\
  (forall i a, starting m' !! i = Some a -> i < length (heap m') /\ (is_Some (starting m !! i) \/ length (heap m) <= i)).

Lemma keeps_registry m m' : keeps m m' -> registry m -> registry m'.
Proof.
  intros (Hh & Hp & Hi & Hs) Hr.
  assert (forall i c, starting m !! i = None -> heap m !! i = Some c -> starting m' !! i = None) as Hst.
  { intros i c Hn Hc. destruct (starting m' !! i) as [a|] eqn:E; [|done].
    destruct (Hs _ _ E) as [_ [[? ?]|Hge]]; [congruence|]. apply lookup_lt_Some in Hc. lia. }
  split.
  - intros p i H. eapply lookup_weaken in H; [|exact Hp]. destruct (reg_peer m Hr _ _ H) as (Hn & c & Hc & <-).
    split; [by eapply Hst|]. destruct (Hh _ _ Hc) as (c' & ? & _ & ?). by exists c'.
  - intros h i H. eapply lookup_weaken in H; [|exact Hi]. destruct (reg_ip m Hr _ _ H) as (Hn & c & Hc & <-).
    split; [by eapply Hst|]. destruct (Hh _ _ Hc) as (c' & ? & Hq & _). exists c'. by rewrite Hq.
  - intros i a H. by eapply Hs.
Qed.

Lemma keeps_refl m : registry m -> keeps m m.
Proof.
  intros Hr. split_and!; [|done|done|].
  - intros i c Hc. exists c. by split.
  - intros i a Ha. split; [by eapply (reg_starting m Hr)|by left].
Qed.

(** Steps that leave the heap, the maps and the threads alone, or drop entries. *)
Lemma keeps_fields m m' :
  registry m -> heap m' = heap m -> connections_by_peer_ m' ⊆ connections_by_peer_ m ->
  connections_by_ip_ m' ⊆ connections_by_ip_ m -> starting m' = starting m -> keeps m m'.
Proof.
  intros Hr Hh Hp Hi Hs. split_and!; [|done|done|].
  - intros i c Hc. exists c. rewrite Hh. by split.
  - intros i a Ha. rewrite Hs in Ha. rewrite Hh. split; [by eapply (reg_starting m Hr)|left; by eexists].
Qed.

Lemma keeps_trans m1 m2 m3 : keeps m1 m2 -> keeps m2 m3 -> keeps m1 m3.
Proof.
  intros (H1 & P1 & I1 & S1) (H2 & P2 & I2 & S2). split_and!; [|by etrans..|].
  - intros i c Hc. destruct (H1 _ _ Hc) as (c' & Hc' & E1 & E2). destruct (H2 _ _ Hc') as (c'' & ? & E3 & E4).
    exists c''. split; [done|]. split; congruence.
  - intros i a Ha. destruct (S2 _ _ Ha) as [Hl [[b Hb]|Hge]].
    + split; [done|]. by eapply S1.
    + split; [done|]. right. destruct (decide (length (heap m1) <= i)) as [|Hn]; [done|].
      destruct (lookup_lt_is_Some_2 (heap m1) i) as [c Hc]; [lia|]. destruct (H1 _ _ Hc) as (c' & Hc' & _).
      apply lookup_lt_Some in Hc'. lia.
Qed.

(** An update of one connection that keeps its peer. *)
Lemma keeps_update m i (f : RpcConnection -> RpcConnection) :
  registry m -> (forall c, same_peer c (f c)) -> keeps m (update_conn i f m).
Proof.
  intros Hr Hf. split_and!; [|done|done|]; simpl.
  - intros j c Hc. destruct (decide (j = i)) as [->|Hne].
    + exists (f c). split; [by rewrite list_lookup_alter_eq, Hc|done].
    + exists c. split; [by rewrite list_lookup_alter_ne|done].
  - intros j a Ha. rewrite length_alter. split; [by eapply (reg_starting m Hr)|left; by eexists].
Qed.

Lemma keeps_insert m i c c' :
  registry m -> heap m !! i = Some c -> same_peer c c' -> keeps m (with_heap (<[i := c']> (heap m)) m).
Proof.
  intros Hr Hc Hs. split_and!; [|done|done|]; simpl.
  - intros j c0 Hj. destruct (decide (j = i)) as [->|Hne].
    + exists c'. assert (c0 = c) as -> by congruence. split; [|done].
      apply list_lookup_insert_eq. by eapply lookup_lt_Some.
    + exists c0. split; [by rewrite list_lookup_insert_ne|done].
  - intros j a Ha. rewrite length_insert. split; [by eapply (reg_starting m Hr)|left; by eexists].
Qed.

Lemma keeps_complete a r m : registry m -> keeps m (complete a r m).
Proof.
  intros Hr. unfold complete. destruct (attempts m !! a) as [s|]; [|by apply keeps_refl].
  destruct (completed s); [by apply keeps_refl|].
  set (m' := with_attempts _ _ _ _).
  assert (keeps m m') as Hk by (by apply keeps_fields).
  destruct r as [p|e]; [done|]. destruct (conn s); [|done].
  eapply keeps_trans; [exact Hk|]. apply keeps_update; [by eapply keeps_registry|intros; apply shutdown_same_peer].
Qed.

(** A new connection with its start-up thread. *)
Lemma keeps_new m c (a : option nat) (ats : list attempt) :
  registry m ->
  keeps m (with_attempts (pending_connections_ m) ats (<[length (heap m) := a]> (starting m))
             (with_heap (heap m ++ [c]) m)).
Proof.
  intros Hr. split_and!; [|done|done|]; simpl.
  - intros i c0 Hc. exists c0. split; [by apply lookup_app_l_Some|done].
  - intros i b. rewrite length_app. simpl. destruct (decide (i = length (heap m))) as [->|Hne].
    + intros _. split; [lia|by right].
    + rewrite lookup_insert_ne by done. intros Hb. split; [|left; by eexists].
      pose proof (reg_starting m Hr _ _ Hb). lia.
Qed.

Lemma lookup_try_insert (k k' : bytes) (i j : nat) (t : gmap bytes nat) :
  try_insert k i t !! k' = Some j -> t !! k' = Some j \/ (k' = k /\ j = i).
Proof.
  unfold try_insert. destruct (t !! k) eqn:E; [by left|].
  destruct (decide (k' = k)) as [->|Hne]; [rewrite lookup_insert_eq|rewrite lookup_insert_ne by done]; [|by left].
  intros [= <-]. by right.
Qed.

(** The end of a start-up is the only step that registers a connection. *)
Lemma startup_registry i res m : registry m -> registry (startup_done i res m).1.1.
Proof.
  intros Hr. unfold startup_done. destruct (starting m !! i) as [a|] eqn:E; [|done].
  set (m1 := with_attempts _ _ _ m).
  assert (registry m1) as Hr1.
  { eapply keeps_registry; [|exact Hr]. split_and!; [|done|done|]; simpl.
    - intros j c Hc. exists c. by split.
    - intros j b [_ Hb]%lookup_delete_Some. split; [by eapply (reg_starting m Hr)|left; by eexists]. }
  assert (starting m1 !! i = None) as Hn by apply lookup_delete_eq.
  unfold handle_connection_startup. destruct res as [r|e]; [|done].
  set (m2 := update_conn i _ m1).
  destruct (add_connection_internal (peer_id r) i m2) as [m3 evs] eqn:E3. cbn [fst].
  unfold add_connection_internal in E3. destruct (heap m2 !! i) as [c|] eqn:Ec.
  2:{ injection E3 as <- <-. assert (heap m1 !! i = None) as Hnone.
      { simpl in Ec. by rewrite list_lookup_alter_eq, fmap_None in Ec. }
      pose proof (reg_starting m Hr _ _ E). apply lookup_ge_None in Hnone. simpl in Hnone. lia. }
  assert (authenticated_remote_id_ c = peer_id r) as Hid.
  { simpl in Ec. rewrite list_lookup_alter_eq in Ec. destruct (heap m !! i) as [c0|]; [|done].
    by injection Ec as <-. }
  injection E3 as <- <-.
  assert (forall j c0, heap m1 !! j = Some c0 -> j <> i -> heap m2 !! j = Some c0) as Hother.
  { intros j c0 Hj Hne. simpl. by rewrite list_lookup_alter_ne. }
  assert (forall p j, connections_by_peer_ m !! p = Some j -> j <> i) as Hp.
  { intros p j Hj ->. destruct (reg_peer m Hr _ _ Hj) as [? _]. congruence. }
  assert (forall h j, connections_by_ip_ m !! h = Some j -> j <> i) as Hi.
  { intros h j Hj ->. destruct (reg_ip m Hr _ _ Hj) as [? _]. congruence. }
  split; cbn [with_maps connections_by_peer_ connections_by_ip_ starting heap].
  - intros p j [Hj|[-> ->]]%lookup_try_insert; [|split; [exact Hn|by exists c]].
    destruct (reg_peer m1 Hr1 p j Hj) as (Hs & c0 & Hc0 & Hid0). split; [exact Hs|]. exists c0. split; [|done].
    apply Hother; [done|]. by eapply Hp.
  - intros h j [Hj|[-> ->]]%lookup_try_insert; [|split; [exact Hn|by exists c]].
    destruct (reg_ip m1 Hr1 h j Hj) as (Hs & c0 & Hc0 & Hid0). split; [exact Hs|]. exists c0. split; [|done].
    apply Hother; [done|]. by eapply Hi.
  - intros j b Hb. change (starting m1 !! j = Some b) in Hb. simpl. rewrite length_alter.
    by apply (reg_starting m1 Hr1 j b).
Qed.

(** Running a list of updates that each keep what is registered. *)
Lemma keeps_foldl {A} (f : RpcManager -> A -> RpcManager) (l : list A) m :
  (forall m x, registry m -> keeps m (f m x)) -> registry m -> keeps m (foldl f m l).
Proof.
  intros Hf. revert m. induction l as [|x l IH]; intros m Hr; simpl; [by apply keeps_refl|].
  eapply keeps_trans; [by apply Hf|]. apply IH. by eapply keeps_registry; [apply Hf|].
Qed.

Lemma keeps_connect host port m : registry m -> keeps m (connect_async host port m).1.
Proof. intros Hr. unfold connect_async. destruct (_ || _); [by apply keeps_refl|by apply keeps_fields]. Qed.

Lemma keeps_shutdown m : registry m -> keeps m (shutdown_manager m).
Proof.
  intros Hr. unfold shutdown_manager. destruct (shutting_down_ m); [by apply keeps_refl|].
  set (m1 := with_maps _ _ _).
  assert (keeps m m1) as Hk by (apply keeps_fields; try done; apply map_empty_subseteq).
  eapply keeps_trans; [exact Hk|]. apply keeps_foldl; [|by eapply keeps_registry].
  intros m2 i Hr2. apply keeps_update; [done|intros; apply shutdown_same_peer].
Qed.

Section steps.
Context {we : Wire Envelope} {wh : Wire Handshake} {wp : Wire RoutedPacket}.

Lemma keeps_message uuid i mid p m : registry m -> keeps m (conn_message uuid i mid p m).1.
Proof.
  intros Hr. unfold conn_message. destruct (heap m !! i) as [c|] eqn:E; [|by apply keeps_refl].
  pose proof (on_message_same_peer mid p c) as Hs. destruct (on_message mid p c) as [c' env].
  pose proof (keeps_insert m i c c' Hr E Hs) as Hk. destruct env as [env|]; [|done].
  eapply keeps_trans; [exact Hk|]. pose proof (keeps_registry _ _ Hk Hr) as Hr'. unfold dispatch_message.
  destruct (env_type env); cbn [fst]; [| |by apply keeps_refl..].
  - apply keeps_update; [done|]. intros; apply handle_handshake_same_peer.
  - apply keeps_update; [done|]. intros; apply handle_heartbeat_same_peer.
Qed.

Lemma keeps_send_tcp peer env m : registry m -> keeps m (send_tcp_message peer env m).1.
Proof.
  intros Hr. unfold send_tcp_message. destruct (connections_by_peer_ m !! peer) as [i|]; [|by apply keeps_refl].
  destruct (heap m !! i) as [c|] eqn:E; [|by apply keeps_refl]. by eapply keeps_insert.
Qed.

Lemma keeps_send_udp peer pkt m : registry m -> keeps m (send_udp_message peer pkt m).1.
Proof.
  intros Hr. unfold send_udp_message. destruct (connections_by_peer_ m !! peer) as [i|]; [|by apply keeps_refl].
  destruct (heap m !! i) as [c|] eqn:E; [|by apply keeps_refl].
  destruct (Udp.send_packet _ _ _). by apply keeps_fields.
Qed.

Lemma keeps_heartbeat u1 u2 peer m : registry m -> keeps m (send_heartbeat u1 u2 peer m).1.1.
Proof.
  intros Hr. unfold send_heartbeat. destruct (connections_by_peer_ m !! peer) as [i|]; [|by apply keeps_refl].
  destruct (heap m !! i) as [c|] eqn:E; [|by apply keeps_refl].
  unfold send_message. cbn zeta beta iota. set (m1 := with_heap _ m).
  assert (keeps m m1) as Hk by (by eapply keeps_insert). destruct (_ =? 0)%Z; [exact Hk|].
  destruct (Udp.send_packet _ _ _) as [u out]. cbn [fst].
  eapply keeps_trans; [exact Hk|]. apply keeps_fields; try done. by eapply keeps_registry.
Qed.

Lemma keeps_heartbeat_result (peer : bytes) (failed : bool) (t : gmap bytes nat) m :
  registry m -> keeps m (heartbeat_result peer failed (m, t)).1.
Proof.
  intros Hr. unfold heartbeat_result. destruct failed; [|by apply keeps_refl].
  destruct (_ <=? _); [|by apply keeps_refl]. apply keeps_fields; try done. apply delete_subseteq.
Qed.

Lemma keeps_remove peer m : registry m -> keeps m (remove_connection peer m).1.1.
Proof.
  intros Hr. unfold remove_connection. destruct (connections_by_peer_ m !! peer) as [i|]; [|by apply keeps_refl].
  apply keeps_fields; try done; [apply delete_subseteq|]. cbn [fst connections_by_ip_ with_maps].
  destruct (heap m !! i); [apply delete_subseteq|done].
Qed.

Lemma keeps_connected a ok uuid l r m : registry m -> keeps m (on_tcp_connected a ok uuid l r m).
Proof.
  intros Hr. unfold on_tcp_connected. destruct (attempts m !! a) as [s|]; [|by apply keeps_refl].
  destruct (completed s); [by apply keeps_refl|]. destruct ok; [by apply keeps_new|by apply keeps_complete].
Qed.

Lemma mstep_registry m m' : registry m -> mstep m m' -> registry m'.
Proof.
  intros Hr Hs.
  assert ((exists i res, m' = (startup_done i res m).1.1) \/ keeps m m') as [(i & res & ->)|Hk];
    [|by apply startup_registry|by eapply keeps_registry].
  destruct Hs as [i c c' Hc Hstep|uuid i mid p|host port|a|a|a ok uuid l r|uuid l r|i res|a r|peer|peer env|
    peer pkt|u1 u2 peer|peer failed t|r|r| | |alive]; try (left; by eexists _, _); right.
  - eapply keeps_insert; [done..|]. by apply step_same_peer.
  - by apply keeps_message.
  - by apply keeps_connect.
  - by apply keeps_complete.
  - unfold on_resolve_failed. destruct (attempts m !! a) as [s|]; [|by apply keeps_refl].
    destruct (completed s); [by apply keeps_refl|by apply keeps_complete].
  - by apply keeps_connected.
  - unfold on_accept. destruct (shutting_down_ m); [by apply keeps_refl|by apply keeps_new].
  - by apply keeps_complete.
  - by apply keeps_remove.
  - by apply keeps_send_tcp.
  - by apply keeps_send_udp.
  - by apply keeps_heartbeat.
  - by apply keeps_heartbeat_result.
  - unfold add_auto_connection. destruct (existsb _ _); [by apply keeps_refl|by apply keeps_fields].
  - by apply keeps_fields.
  - unfold check_for_auto_connections. destruct (shutting_down_ m); [by apply keeps_refl|].
    apply keeps_foldl; [|done]. intros. by apply keeps_connect.
  - by apply keeps_shutdown.
  - by apply keeps_fields.
Qed.
End steps.

Lemma initial_registry bind self udp sink ssl fec m : make_manager bind self udp sink ssl fec = Some m -> registry m.
Proof.
  unfold make_manager. destruct (Udp.make_transport bind udp fec); [|done]. intros [= <-].
  by split; intros *; simpl; rewrite lookup_empty.
Qed.

Lemma reachable_registry {we : Wire Envelope} {wh : Wire Handshake} {wp : Wire RoutedPacket}
    bind self udp sink ssl fec m0 m :
  make_manager bind self udp sink ssl fec = Some m0 -> rtc mstep m0 m -> registry m.
Proof.
  intros H0. apply rtc_keeps; [exact mstep_registry|]. by eapply initial_registry.
Qed.

(** (C21) Messages go to, and data is credited to, the right peer: in every
    state the manager reaches, sending to a peer puts the envelope, addressed, on
    a connection that has finished its handshake under that peer's name, or fails
    with INVALID_PEER and changes nothing; and a datagram is either dropped or
    credited to a connection that has finished its handshake from the datagram's
    address. *)
Theorem registry_routes {we : Wire Envelope} {wh : Wire Handshake} {wp : Wire RoutedPacket}
    (bind : Z -> bool) (self : bytes) (udp : Z) (sink ssl : bool) (fec : Udp.UdpFecOptions) (m0 m : RpcManager)
    (H0 : make_manager bind self udp sink ssl fec = Some m0) (Hreach : rtc mstep m0 m) :
  (forall peer env,
     (send_tcp_message peer env m = (m, Err INVALID_PEER) /\ connections_by_peer_ m !! peer = None) \/
     exists i c f, starting m !! i = None /\ heap m !! i = Some c /\ authenticated_remote_id_ c = peer /\
       (send_tcp_message peer env m).2 = Ok f /\
       forall j, heap (send_tcp_message peer env m).1 !! j =
         if decide (j = i) then Some (send_message env c).1 else heap m !! j) /\
  (forall ep data, on_udp_receive ep data m = [] \/
     exists i c, starting m !! i = None /\ heap m !! i = Some c /\
       Udp.address (remote_endpoint_ c) = Udp.address ep /\
       on_udp_receive ep data m = [PushDataBytes (authenticated_remote_id_ c) data]).
Proof.
  pose proof (reachable_registry _ _ _ _ _ _ _ _ H0 Hreach) as Hr. split.
  - intros peer env. unfold send_tcp_message. destruct (connections_by_peer_ m !! peer) as [i|] eqn:E; [|by left].
    destruct (reg_peer m Hr _ _ E) as (Hs & c & Hc & Hid). right. rewrite Hc.
    destruct (send_message env c) as [c' f] eqn:Ec. exists i, c, f. split_and!; [done..|].
    intros j. cbn [fst heap with_heap]. case_decide as Hj.
    + rewrite Hj, Ec. apply list_lookup_insert_eq. by eapply lookup_lt_Some.
    + by apply list_lookup_insert_ne.
  - intros ep data. unfold on_udp_receive. destruct (sink_ m); [|by left].
    destruct (connections_by_ip_ m !! Udp.address ep) as [i|] eqn:E; [|by left].
    destruct (reg_ip m Hr _ _ E) as (Hs & c & Hc & Ha). right. exists i, c. by rewrite Hc.
Qed.

(** ** Connection attempts *)

(** The pending keys are those of the attempts under way, one each; a finished
    attempt has reported once. *)
Record attempts_ok m : Prop := {
  att_pending : forall k, k ∈ pending_connections_ m <->
    exists a s, attempts m !! a = Some s /\ completed s = false /\ key s = k;
  att_unique : forall a b s t, attempts m !! a = Some s -> attempts m !! b = Some t ->
    completed s = false -> completed t = false -> key s = key t -> a = b;
  att_results : forall a s, attempts m !! a = Some s -> length (results s) = if completed s then 1 else 0
}.

Definition same_attempts m m' : Prop :=
  pending_connections_ m' = pending_connections_ m /\ attempts m' = attempts m.

Lemma same_attempts_ok m m' : same_attempts m m' -> attempts_ok m -> attempts_ok m'.
Proof. intros [Hp Ha] Hok. split; rewrite ?Hp, ?Ha; apply Hok. Qed.

(** Replacing the entry of an attempt under way. *)
Lemma update_attempt_ok m (a : nat) (s s' : attempt) (p : gset bytes) (st : gmap nat (option nat)) :
  attempts_ok m -> attempts m !! a = Some s -> completed s = false -> key s' = key s ->
  length (results s') = (if completed s' then 1 else 0) ->
  p = (if completed s' then pending_connections_ m ∖ {[key s]} else pending_connections_ m) ->
  attempts_ok (with_attempts p (<[a := s']> (attempts m)) st m).
Proof.
  intros Hok Ha Hc Hk Hres ->.
  assert (forall b t, <[a := s']> (attempts m) !! b = Some t ->
    (b = a /\ t = s') \/ (b <> a /\ attempts m !! b = Some t)) as Hlook.
  { intros b t. destruct (decide (b = a)) as [->|Hne].
    - rewrite list_lookup_insert_eq by (by eapply lookup_lt_Some). intros [= <-]. by left.
    - rewrite list_lookup_insert_ne by done. by right. }
  split; simpl.
  - intros k. split.
    + intros Hin. assert (k ∈ pending_connections_ m /\ (completed s' = true -> k <> key s)) as [Hp Hne].
      { destruct (completed s'); [|done]. apply elem_of_difference in Hin as [? Hne].
        split; [done|]. intros _ ->. by apply Hne, elem_of_singleton. }
      pose proof (proj1 (att_pending m Hok k) Hp) as (b & t & Hb & Ht & Hkt).
      destruct (decide (b = a)) as [->|Hba].
      * assert (t = s) as -> by congruence. exists a, s'.
        rewrite list_lookup_insert_eq by (by eapply lookup_lt_Some). split_and!; [done| |congruence].
        destruct (completed s'); [|done]. by destruct (Hne eq_refl).
      * exists b, t. rewrite list_lookup_insert_ne by done. done.
    + intros (b & t & [[-> ->]|[Hba Hb]]%Hlook & Ht & Hkt).
      * rewrite Ht. rewrite Hk in Hkt. apply (att_pending m Hok). by exists a, s.
      * assert (k ∈ pending_connections_ m) as Hin by (apply (att_pending m Hok); by exists b, t).
        destruct (completed s'); [|done]. apply elem_of_difference. split; [done|].
        intros ->%elem_of_singleton. destruct Hba. by apply (att_unique m Hok b a t s).
  - intros b1 b2 t1 t2 [[-> ->]|[H1 L1]]%Hlook [[-> ->]|[H2 L2]]%Hlook C1 C2 E; [done| | |].
    + destruct H2. apply (att_unique m Hok _ _ t2 s); congruence.
    + destruct H1. apply (att_unique m Hok _ _ t1 s); congruence.
    + by apply (att_unique m Hok _ _ t1 t2).
  - intros b t [[-> ->]|[_ Hb]]%Hlook; [done|by eapply (att_results m Hok)].
Qed.

Lemma complete_ok a r m : attempts_ok m -> attempts_ok (complete a r m).
Proof.
  intros Hok. unfold complete. destruct (attempts m !! a) as [s|] eqn:E; [|done].
  destruct (completed s) eqn:Ec; [done|]. set (m' := with_attempts _ _ _ _).
  assert (attempts_ok m') as Hm'.
  { eapply update_attempt_ok; [done..| |done]. simpl. rewrite length_app. simpl.
    rewrite (att_results m Hok _ _ E), Ec. done. }
  destruct r as [p|e]; [done|]. destruct (conn s); [|done]. by eapply same_attempts_ok; [|exact Hm'].
Qed.

Lemma connect_ok host port m : attempts_ok m -> attempts_ok (connect_async host port m).1.
Proof.
  intros Hok. unfold connect_async. destruct (_ || _) eqn:Eg; [done|]. bool_to_prop.
  assert (forall b t, (attempts m ++ [Attempt (connect_key host port) false None []]) !! b = Some t ->
    attempts m !! b = Some t \/ (b = length (attempts m) /\ t = Attempt (connect_key host port) false None [])) as Hlook.
  { intros b t [?|[Hb Ht]]%lookup_app_Some; [by left|]. apply list_lookup_singleton_Some in Ht as [? <-].
    right. split; [lia|done]. }
  assert (forall b t, attempts m !! b = Some t -> completed t = false -> key t <> connect_key host port) as Hnew.
  { intros b t Hb Ht Hk. apply H. apply (att_pending m Hok). by exists b, t. }
  split; simpl.
  - intros k. rewrite elem_of_union, elem_of_singleton. split.
    + intros [->|(b & t & Hb & Ht & Hk)%(att_pending m Hok)].
      * exists (length (attempts m)), (Attempt (connect_key host port) false None []).
        split_and!; [by apply list_lookup_middle|done..].
      * exists b, t. split_and!; [by apply lookup_app_l_Some|done..].
    + intros (b & t & [Hb|[-> ->]]%Hlook & Ht & <-); [right|by left]. apply (att_pending m Hok). by exists b, t.
  - intros b1 b2 t1 t2 [L1|[-> ->]]%Hlook [L2|[-> ->]]%Hlook C1 C2 E; [| | |done].
    + by apply (att_unique m Hok _ _ t1 t2).
    + by destruct (Hnew _ _ L1 C1).
    + by destruct (Hnew _ _ L2 C2).
  - intros b t [Hb|[-> ->]]%Hlook; [by eapply (att_results m Hok)|done].
Qed.

Lemma foldl_ok {A} (P : RpcManager -> Prop) (f : RpcManager -> A -> RpcManager) (l : list A) m :
  (forall m x, P m -> P (f m x)) -> P m -> P (foldl f m l).
Proof. intros Hf. revert m. induction l as [|x l IH]; intros m Hp; simpl; [done|]. by apply IH, Hf. Qed.

Section attempt_steps.
Context {we : Wire Envelope} {wh : Wire Handshake} {wp : Wire RoutedPacket}.

Lemma connected_ok a ok uuid l r m : attempts_ok m -> attempts_ok (on_tcp_connected a ok uuid l r m).
Proof.
  intros Hok. unfold on_tcp_connected. destruct (attempts m !! a) as [s|] eqn:E; [|done].
  destruct (completed s) eqn:Ec; [done|]. destruct ok; simpl; [|by apply complete_ok].
  set (m1 := with_heap _ m). assert (attempts_ok m1) as Hm1 by (by eapply same_attempts_ok; [|exact Hok]).
  apply (update_attempt_ok m1 a s); simpl; try done. by rewrite (att_results m Hok _ _ E), Ec.
Qed.

Lemma startup_same i res m : same_attempts m (startup_done i res m).1.1.
Proof.
  unfold startup_done. destruct (starting m !! i); [|done]. destruct res as [r|e]; [|done].
  unfold handle_connection_startup, add_connection_internal.
  destruct (heap (update_conn i _ _) !! i); done.
Qed.

Lemma mstep_attempts m m' : attempts_ok m -> mstep m m' -> attempts_ok m'.
Proof.
  intros Hok Hs. assert (same_attempts m m' \/ attempts_ok m') as [Hsame|]; [|by eapply same_attempts_ok|done].
  destruct Hs as [i c c' Hc Hstep|uuid i mid p|host port|a|a|a ok uuid l r|uuid l r|i res|a r|peer|peer env|
    peer pkt|u1 u2 peer|peer failed t|r|r| | |alive]; try (by left).
  - left. unfold conn_message. destruct (heap m !! i); [|done]. destruct (on_message _ _ _) as [c' [env|]]; [|done].
    unfold dispatch_message. by destruct (env_type env).
  - right. by apply connect_ok.
  - right. by apply complete_ok.
  - right. unfold on_resolve_failed. destruct (attempts m !! a) as [s|]; [|done].
    destruct (completed s); [done|by apply complete_ok].
  - right. by apply connected_ok.
  - left. unfold on_accept. by destruct (shutting_down_ m).
  - left. apply startup_same.
  - right. by apply complete_ok.
  - left. unfold remove_connection. by destruct (connections_by_peer_ m !! peer).
  - left. unfold send_tcp_message. destruct (connections_by_peer_ m !! peer) as [i|]; [|done].
    by destruct (heap m !! i).
  - left. unfold send_udp_message. destruct (connections_by_peer_ m !! peer) as [i|]; [|done].
    destruct (heap m !! i); [|done]. by destruct (Udp.send_packet _ _ _).
  - left. unfold send_heartbeat. destruct (connections_by_peer_ m !! peer) as [i|]; [|done].
    destruct (heap m !! i); [|done]. unfold send_message. cbn zeta beta iota. destruct (_ =? 0)%Z; [done|].
    by destruct (Udp.send_packet _ _ _).
  - left. unfold heartbeat_result. destruct failed; [|done]. by destruct (_ <=? _).
  - left. unfold add_auto_connection. by destruct (existsb _ _).
  - right. unfold check_for_auto_connections. destruct (shutting_down_ m); [done|].
    apply foldl_ok; [|done]. intros. by apply connect_ok.
  - right. unfold shutdown_manager. destruct (shutting_down_ m); [done|]. apply foldl_ok.
    + intros m1 x H. by eapply same_attempts_ok; [|exact H].
    + by eapply same_attempts_ok; [|exact Hok].
Qed.
End attempt_steps.

Lemma initial_attempts bind self udp sink ssl fec m : make_manager bind self udp sink ssl fec = Some m -> attempts_ok m.
Proof.
  unfold make_manager. destruct (Udp.make_transport bind udp fec) as [tr|]; [|done]. intros [= <-]. split; simpl.
  - intros k. split; [set_solver|]. intros (a & s & H & _). by rewrite lookup_nil in H.
  - intros a b s t H. by rewrite lookup_nil in H.
  - intros a s H. by rewrite lookup_nil in H.
Qed.

Lemma reachable_attempts {we : Wire Envelope} {wh : Wire Handshake} {wp : Wire RoutedPacket}
    bind self udp sink ssl fec m0 m :
  make_manager bind self udp sink ssl fec = Some m0 -> rtc mstep m0 m -> attempts_ok m.
Proof.
  intros H0. apply rtc_keeps; [exact mstep_attempts|]. by eapply initial_attempts.
Qed.

(** (C22) Every connection attempt is reported exactly once: whatever
    interleaving of time-outs, failures and start-ups, a finished attempt has
    called its callback once and an attempt under way not at all; its key stays
    pending, so that a second attempt for the same target is refused, until it
    finishes; and its timer alone would finish it. *)
Theorem connect_reported_once {we : Wire Envelope} {wh : Wire Handshake} {wp : Wire RoutedPacket}
    (bind : Z -> bool) (self : bytes) (udp : Z) (sink ssl : bool) (fec : Udp.UdpFecOptions) (m0 m : RpcManager)
    (a : nat) (s : attempt)
    (H0 : make_manager bind self udp sink ssl fec = Some m0) (Hreach : rtc mstep m0 m)
    (Ha : attempts m !! a = Some s) :
  if completed s then exists r, results s = [r]
  else results s = [] /\ key s ∈ pending_connections_ m /\
    (forall host port, connect_key host port = key s ->
       connect_async host port m = (m, Err AlreadyPendingOrActive)) /\
    ~ (key s ∈ pending_connections_ (on_connect_timer a m)) /\
    exists s', attempts (on_connect_timer a m) !! a = Some s' /\ results s' = [Err ConnectTimedOut].
Proof.
  pose proof (reachable_attempts _ _ _ _ _ _ _ _ H0 Hreach) as Hok.
  pose proof (att_results m Hok a s Ha) as Hlen. destruct (completed s) eqn:Ec.
  - destruct (results s) as [|r [|]]; try done. by exists r.
  - assert (results s = []) as Hres by (by destruct (results s)).
    assert (key s ∈ pending_connections_ m) as Hin by (apply (att_pending m Hok); by exists a, s).
    split_and!; [done|done| | |].
    + intros host port Hk. unfold connect_async. rewrite Hk, bool_decide_true by done. done.
    + unfold on_connect_timer, complete. rewrite Ha, Ec.
      destruct (conn s); simpl; intros [_ Hn]%elem_of_difference; by apply Hn, elem_of_singleton.
    + unfold on_connect_timer, complete. rewrite Ha, Ec, Hres.
      destruct (conn s); simpl; eexists; (split; [apply list_lookup_insert_eq; by eapply lookup_lt_Some|done]).
Qed.

Definition demo_fec : Udp.UdpFecOptions := Udp.FecOptions false 0 0.

Definition demo_manager : RpcManager := {|
  peer_id_ := [x61]; udp_port_ := 5001; use_ssl := false; sink_ := true;
  udp_transport_ := Udp.Transport true demo_fec ∅ ∅ true; heap := [];
  connections_by_peer_ := ∅; connections_by_ip_ := ∅; pending_connections_ := ∅;
  auto_connections_ := []; shutting_down_ := false; attempts := []; starting := ∅
|}.

Lemma registry_routes_witness :
  let ew := code_wire Envelope in let hw := code_wire Handshake in let pw := packet_wire in
  make_manager (fun _ => true) [x61] 5001 true false demo_fec = Some demo_manager /\
  (on_udp_receive (Udp.Endpoint [x31] 9) [x00] demo_manager = [] \/
   exists i c, starting demo_manager !! i = None /\ heap demo_manager !! i = Some c /\
     Udp.address (remote_endpoint_ c) = [x31] /\
     on_udp_receive (Udp.Endpoint [x31] 9) [x00] demo_manager = [PushDataBytes (authenticated_remote_id_ c) [x00]]).
Proof.
  intros ew hw pw. split; [reflexivity|].
  destruct (@registry_routes ew hw pw (fun _ => true) [x61] 5001 true false demo_fec demo_manager demo_manager) as [_ W].
  - reflexivity.
  - apply rtc_refl.
  - apply (W (Udp.Endpoint [x31] 9) [x00]).
Defined.

Lemma connect_reported_once_witness :
  let ew := code_wire Envelope in let hw := code_wire Handshake in let pw := packet_wire in
  let m := on_connect_timer 0 (connect_async [x31] 4000 demo_manager).1 in
  exists s r, attempts m !! 0 = Some s /\ results s = [r].
Proof.
  intros ew hw pw m. eexists. 
  destruct (@connect_reported_once ew hw pw (fun _ => true) [x61] 5001 true false demo_fec demo_manager m 0
    (Attempt (connect_key [x31] 4000) true None [Err ConnectTimedOut])) as [r W].
  - reflexivity.
  - eapply rtc_l; [apply (mstep_connect demo_manager [x31] 4000)|].
    apply rtc_once. apply (mstep_timer _ 0).
  - reflexivity.
  - exists r. split; [reflexivity|exact W].
Defined.

(** ** Heartbeats *)

(** The results of the heartbeats of one peer, in order ([true]: it failed). *)
Definition heartbeats (peer : bytes) (rs : list bool) (s : RpcManager * gmap bytes nat)
    : RpcManager * gmap bytes nat :=
  foldl (fun s failed => heartbeat_result peer failed s) s rs.

Definition failures (rs : list bool) : nat := length (filter (fun f => f = true) rs).

Lemma failures_cons (f : bool) (rs : list bool) : failures (f :: rs) = (if f then 1 else 0) + failures rs.
Proof. unfold failures. rewrite filter_cons. by destruct f. Qed.

Lemma heartbeats_below (peer : bytes) (rs : list bool) m (t : gmap bytes nat) :
  default 0 (t !! peer) + failures rs < MAX_HEARTBEAT_FAILURES ->
  exists t', heartbeats peer rs (m, t) = (m, t') /\ default 0 (t' !! peer) = default 0 (t !! peer) + failures rs.
Proof.
  revert t. induction rs as [|f rs IH]; intros t Hlt; [by exists t; rewrite Nat.add_0_r|].
  rewrite failures_cons in Hlt |- *. cbn [heartbeats foldl]. unfold heartbeats in IH. unfold heartbeat_result at 2.
  destruct f.
  - rewrite (proj2 (Nat.leb_gt _ _)) by (unfold MAX_HEARTBEAT_FAILURES in *; lia).
    destruct (IH (<[peer := S (default 0 (t !! peer))]> t)) as (t' & -> & Ht').
    + rewrite lookup_insert_eq. simpl in *. lia.
    + exists t'. split; [done|]. rewrite Ht', lookup_insert_eq. simpl. lia.
  - assert (default 0 (try_insert peer 0 t !! peer) = default 0 (t !! peer)) as Hd.
    { unfold try_insert. destruct (t !! peer) eqn:E; [by rewrite E|by rewrite lookup_insert_eq]. }
    destruct (IH (try_insert peer 0 t)) as (t' & -> & Ht'); [rewrite Hd; simpl in *; lia|].
    exists t'. split; [done|]. rewrite Ht', Hd. simpl. lia.
Qed.

(** Heartbeat failures add up whatever lies between them: a peer is kept
    while fewer than five of its heartbeats have failed, and dropped at the fifth
    failure even if successes came in between.  It is dropped from the map by
    peer only: its address stays registered, so every later attempt to connect to
    that host is refused as already active, and automatic reconnection skips it. *)
Theorem heartbeat_failures_add_up (peer host : bytes) (rs : list bool) (m : RpcManager)
    (t : gmap bytes nat) (i : nat)
    (Hfresh : t !! peer = None) (Hip : connections_by_ip_ m !! host = Some i) :
  (failures rs < 5 -> exists t', heartbeats peer rs (m, t) = (m, t')) /\
  (failures rs = 4 -> exists m' t', heartbeats peer (rs ++ [true]) (m, t) = (m', t') /\
     connections_by_peer_ m' = delete peer (connections_by_peer_ m) /\
     connections_by_ip_ m' = connections_by_ip_ m /\ t' !! peer = None /\
     (forall port, connect_async host port m' = (m', Err AlreadyPendingOrActive)) /\
     (forall p, p ∈ auto_targets m' -> ip p <> host)).
Proof.
  split.
  - intros Hf. destruct (heartbeats_below peer rs m t) as (t' & H & _); [by rewrite Hfresh|]. by exists t'.
  - intros Hf. destruct (heartbeats_below peer rs m t) as (t' & H & Ht'); [rewrite Hfresh, Hf; simpl; unfold MAX_HEARTBEAT_FAILURES; lia|].
    rewrite Hfresh, Hf in Ht'. unfold heartbeats in *. rewrite foldl_app, H. cbn [foldl].
    unfold heartbeat_result. simpl in Ht'. rewrite Ht'. cbn [Nat.leb MAX_HEARTBEAT_FAILURES].
    eexists _, _. split; [reflexivity|]. split_and!; [done|done|apply lookup_delete_eq| |].
    + intros port. unfold connect_async. cbn [connections_by_ip_ with_maps]. rewrite Hip.
      rewrite (bool_decide_true (is_Some _)) by (by eexists). by rewrite orb_true_r.
    + intros p [Hn _]%list_elem_of_filter Hp. destruct Hn. left. simpl. rewrite Hp, Hip. by eexists.
Qed.

Lemma heartbeat_failures_add_up_witness :
  let m := with_maps {[ [x62] := 0 ]} {[ [x31] := 0 ]} demo_manager in
  exists m' t', heartbeats [x62] [true; true; false; true; true; false; true] (m, ∅) = (m', t') /\
    connections_by_peer_ m' = ∅ /\ connect_async [x31] 4000 m' = (m', Err AlreadyPendingOrActive).
Proof.
  intros m. destruct (heartbeat_failures_add_up [x62] [x31] [true; true; false; true; true; false] m ∅ 0)
    as [_ W]; [reflexivity|reflexivity|].
  destruct W as (m' & t' & H1 & H2 & _ & _ & H3 & _); [reflexivity|].
  exists m', t'. split_and!; [exact H1| |apply H3]. rewrite H2. reflexivity.
Defined.

(** ** Whole rounds *)

Section rounds.
Context {o : IterOrder} {we : Wire Envelope} {wh : Wire Handshake} {wp : Wire RoutedPacket}.

(** A round of the heartbeat loop and a maintenance cycle are made of steps of the
    manager, so every invariant of [mstep] holds after them. *)
Lemma heartbeat_round_steps (u1 u2 : bytes -> bytes) (failed : bytes -> bool) m (t : gmap bytes nat) :
  rtc mstep m (heartbeat_round u1 u2 failed (m, t)).1.1.
Proof.
  unfold heartbeat_round. destruct (shutting_down_ m); [done|].
  generalize (iter (connections_by_peer_ m)).*1 as peers. intros peers.
  set (f := fun '(m, futures, out) peer => _).
  assert (forall (x : RpcManager * gmap bytes nat * list (Udp.endpoint * bytes)),
    rtc mstep x.1.1 (foldl f x peers).1.1) as Hsend.
  { induction peers as [|p peers IH]; intros [[m1 fs] out]; [done|]. cbn [foldl].
    etrans; [|apply IH]. apply rtc_once. unfold f.
    pose proof (mstep_heartbeat m1 (u1 p) (u2 p) p) as Hs. cbn [fst snd].
    destruct (send_heartbeat (u1 p) (u2 p) p m1) as [[m2 [n|]] out']; exact Hs. }
  specialize (Hsend (m, ∅, [])). destruct (foldl f _ peers) as [[m1 fs] out]. cbn [fst] in Hsend.
  etrans; [exact Hsend|]. unfold for_each. generalize (iter fs) as l. clear. intros l. revert m1 t.
  induction l as [|[p n] l IH]; intros m1 t; [done|]. cbn [foldl fst].
  pose proof (mstep_heartbeat_result m1 p (failed p) t) as Hs.
  destruct (heartbeat_result p (failed p) (m1, t)) as [m2 t']. eapply rtc_l; [exact Hs|exact (IH m2 t')].
Qed.

Lemma do_accept_steps uuid (res : accept_result) m : rtc mstep m (do_accept uuid res m).1.
Proof.
  unfold do_accept. destruct (shutting_down_ m); [done|]. destruct res; [|done..].
  apply rtc_once, mstep_accept.
Qed.

Lemma maintenance_cycle_steps (aborted : bool) m : rtc mstep m (run_maintenance_cycle aborted m).1.
Proof.
  unfold run_maintenance_cycle. destruct (shutting_down_ m); [done|]. destruct aborted; [done|].
  apply rtc_once, mstep_check_auto.
Qed.
End rounds.

End Registry.
