(* ===== verification/MeshNode.v ===== *)
(** * The node

    [MeshNode] of src/src/mesh/node/MeshNode.{h,cpp}: sending messages and
    requests, encryption on demand with the exchange of identities, and the
    handling of packets that are for this node.  The effects of a call on the node
    are threaded through a state monad that also collects what the node does to
    the outside.  A template's message type is its full name and its serialised
    bytes; the handlers the node registers itself are modelled, those of the
    application are names. *)

From S2P Require Import Prelude Cxx Utils Packet MeshRouter RequestTracker Crypto Identity.

Module Node.
Import Utils Packet Router Crypto Identity.

(** ** The messages of proto/crypto.proto, ping.proto, topology.proto, heartbeat.proto *)

Record IdentityRequest := { request_certificate_pem : bytes }.
Record IdentityResponse := { response_certificate_pem : bytes }.
Record PingRequest := { ping_message : bytes }.
Record PingResponse := { pong_message : bytes }.
Record TopologyRequest := {}.
Record TopologyResponse := { directly_connected_peers : list bytes }.
Record Heartbeat := {}.

Definition identity_request_subtype : bytes := (lit "mesh.IdentityRequest")%mesh.
Definition identity_response_subtype : bytes := (lit "mesh.IdentityResponse")%mesh.

(** ** State *)

Inductive RequestError := RequestTimeout | EncryptionError | MalformedResponse.

(** The closures the node gives to the request tracker. *)
Inductive callback :=
| CbIdentity (dest : bytes)        (* of [send_identity_request] *)
| CbUser (k : nat)                 (* a request of the application *)
| CbBroadcast (k : nat).           (* a broadcast request of the application *)

#[export] Instance callback_eq_dec : EqDecision callback.
Proof. solve_decision. Defined.

Inductive packet_handler := HTopology | HPing | HIdentity | HHeartbeat | HUser (k : nat).

Record HandlerInfo := { ResponseSubtype : option bytes; handler : packet_handler }.

(** What the closure [reply_cb] has captured. *)
Record reply_ctx := {
  reply_to : bytes; reply_id : bytes; reply_transport : TransportProtocol;
  reply_expected : bool; reply_subtype : option bytes
}.

(** [ticks] and [crypto_draws] count the readings of the clock and the calls of
    the random generator. *)
Record MeshNode := {
  peer_id_ : bytes;
  encrypt_messages_ : bool;
  ignore_all_incoming_messages_ : bool;
  id_request_cooldowns_ : gmap bytes Z;
  router_ : MeshRouter;
  identity_ : IdentityManager;
  request_tracker_ : Tracker.AsyncRequestTracker callback;
  handlers_ : gmap bytes HandlerInfo;
  ticks : nat;
  crypto_draws : nat
}.

Inductive node_action :=
| Route (a : Router.action)
| UserHandler (k : nat) (from raw_bytes : bytes) (reply : reply_ctx)
| UserResponse (k : nat) (sender : bytes) (r : outcome RequestError bytes)
| BroadcastResponse (k : nat) (sender raw_bytes : bytes)
| BroadcastComplete (k : nat)
| LogText (from s : bytes)
| OutOfFuel.

(** ** The monad *)

Definition M (A : Type) : Type := MeshNode -> A * MeshNode * list node_action.

#[export] Instance M_ret : MRet M := fun A a n => (a, n, []).
#[export] Instance M_bind : MBind M := fun A B f m n =>
  let '(a, n, l) := m n in let '(b, n, l') := f a n in (b, n, l ++ l').

Definition gets {A} (f : MeshNode -> A) : M A := fun n => (f n, n, []).
Definition modify (f : MeshNode -> MeshNode) : M unit := fun n => (tt, f n, []).
Definition emit (a : node_action) : M unit := fun n => (tt, n, [a]).

(** [for (auto &x : l)] *)
Fixpoint for_all {A} (f : A -> M unit) (l : list A) : M unit :=
  match l with
  | [] => mret tt
  | x :: l => _ ← f x; for_all f l
  end.

(** Running a sequence whose first part is known. *)
Lemma run_bind {A B} (m : M A) (f : A -> M B) n a n1 l1 :
  m n = (a, n1, l1) -> (m ≫= f) n = let '(b, n2, l2) := f a n1 in (b, n2, l1 ++ l2).
Proof. intros H. unfold mbind, M_bind. by rewrite H. Qed.

Lemma run_silent {A B} (m : M A) (f : A -> M B) n a n1 :
  m n = (a, n1, []) -> (m ≫= f) n = f a n1.
Proof. intros H. rewrite (run_bind _ _ _ _ _ _ H). by destruct (f a n1) as [[b n2] l2]. Qed.

Lemma run_gets {A B} (g : MeshNode -> A) (f : A -> M B) n : (gets g ≫= f) n = f (g n) n.
Proof. by apply run_silent. Qed.

Lemma run_modify {B} (g : MeshNode -> MeshNode) (f : unit -> M B) n : (modify g ≫= f) n = f tt (g n).
Proof. by apply run_silent. Qed.

Lemma run_ret {A B} (a : A) (f : A -> M B) n : (mret a ≫= f) n = f a n.
Proof. by apply run_silent. Qed.

(** ** Field updates *)

Definition with_router (r : MeshRouter) (t : nat) (n : MeshNode) : MeshNode := {|
  peer_id_ := peer_id_ n; encrypt_messages_ := encrypt_messages_ n;
  ignore_all_incoming_messages_ := ignore_all_incoming_messages_ n;
  id_request_cooldowns_ := id_request_cooldowns_ n; router_ := r; identity_ := identity_ n;
  request_tracker_ := request_tracker_ n; handlers_ := handlers_ n; ticks := t; crypto_draws := crypto_draws n
|}.

Definition with_identity (im : IdentityManager) (d : nat) (n : MeshNode) : MeshNode := {|
  peer_id_ := peer_id_ n; encrypt_messages_ := encrypt_messages_ n;
  ignore_all_incoming_messages_ := ignore_all_incoming_messages_ n;
  id_request_cooldowns_ := id_request_cooldowns_ n; router_ := router_ n; identity_ := im;
  request_tracker_ := request_tracker_ n; handlers_ := handlers_ n; ticks := ticks n; crypto_draws := d
|}.

Definition with_cooldowns (t : gmap bytes Z) (n : MeshNode) : MeshNode := {|
  peer_id_ := peer_id_ n; encrypt_messages_ := encrypt_messages_ n;
  ignore_all_incoming_messages_ := ignore_all_incoming_messages_ n;
  id_request_cooldowns_ := t; router_ := router_ n; identity_ := identity_ n;
  request_tracker_ := request_tracker_ n; handlers_ := handlers_ n; ticks := ticks n;
  crypto_draws := crypto_draws n
|}.

Definition with_tracker (t : Tracker.AsyncRequestTracker callback) (n : MeshNode) : MeshNode := {|
  peer_id_ := peer_id_ n; encrypt_messages_ := encrypt_messages_ n;
  ignore_all_incoming_messages_ := ignore_all_incoming_messages_ n;
  id_request_cooldowns_ := id_request_cooldowns_ n; router_ := router_ n; identity_ := identity_ n;
  request_tracker_ := t; handlers_ := handlers_ n; ticks := ticks n; crypto_draws := crypto_draws n
|}.

Definition with_handlers (h : gmap bytes HandlerInfo) (n : MeshNode) : MeshNode := {|
  peer_id_ := peer_id_ n; encrypt_messages_ := encrypt_messages_ n;
  ignore_all_incoming_messages_ := ignore_all_incoming_messages_ n;
  id_request_cooldowns_ := id_request_cooldowns_ n; router_ := router_ n; identity_ := identity_ n;
  request_tracker_ := request_tracker_ n; handlers_ := h; ticks := ticks n; crypto_draws := crypto_draws n
|}.

Definition set_block_all_messages (block : bool) (n : MeshNode) : MeshNode := {|
  peer_id_ := peer_id_ n; encrypt_messages_ := encrypt_messages_ n;
  ignore_all_incoming_messages_ := block;
  id_request_cooldowns_ := id_request_cooldowns_ n; router_ := router_ n; identity_ := identity_ n;
  request_tracker_ := request_tracker_ n; handlers_ := handlers_ n; ticks := ticks n;
  crypto_draws := crypto_draws n
|}.

(** [on<RequestT, ResponseT>] enters the handler of a subtype. *)
Definition on (subtype response : bytes) (h : packet_handler) (n : MeshNode) : MeshNode :=
  with_handlers (<[subtype := {| ResponseSubtype := Some response; handler := h |}]> (handlers_ n)) n.

(** [on<RequestT>]: a handler without a response. *)
Definition on_without_response (subtype : bytes) (h : packet_handler) (n : MeshNode) : MeshNode :=
  with_handlers (<[subtype := {| ResponseSubtype := None; handler := h |}]> (handlers_ n)) n.

Definition setup_builtin_handlers (n : MeshNode) : MeshNode :=
  on_without_response (lit "mesh.Heartbeat")%mesh HHeartbeat
    (on identity_request_subtype identity_response_subtype HIdentity
      (on (lit "mesh.PingRequest")%mesh (lit "mesh.PingResponse")%mesh HPing
        (on (lit "mesh.TopologyRequest")%mesh (lit "mesh.TopologyResponse")%mesh HTopology n))).

(** The constructor wires the router to the transport and to itself. *)
Definition make_node (peer_id : bytes) (im : IdentityManager) (encrypt : bool) (now : Z) : MeshNode := {|
  peer_id_ := peer_id; encrypt_messages_ := encrypt; ignore_all_incoming_messages_ := false;
  id_request_cooldowns_ := ∅; router_ := set_on_packet_for_me (set_transport true (make_router peer_id false now));
  identity_ := im; request_tracker_ := Tracker.new_tracker; handlers_ := ∅; ticks := 0; crypto_draws := 0
|}.

Definition start (n : MeshNode) : MeshNode :=
  let n := setup_builtin_handlers n in with_router (Router.start (router_ n)) (ticks n) n.

Section node.
Context {o : IterOrder} {wp : Wire RoutedPacket} {ssl : OpenSSL}.
Context {w1 : Wire IdentityRequest} {w2 : Wire IdentityResponse} {w3 : Wire PingRequest}
  {w4 : Wire PingResponse} {w5 : Wire TopologyRequest} {w6 : Wire TopologyResponse} {w7 : Wire Heartbeat}.

(** The UUIDs, the clock and the random generator; whether the message type of
    the application's callback [k] parses given bytes. *)
Context (uuid : nat -> bytes) (clock : nat -> Z) (rand : nat -> Identity.draws) (parses : nat -> bytes -> bool).

Definition draw_uuid : M bytes := fun n =>
  (uuid (Router.draws (router_ n)), with_router (with_draws (S (Router.draws (router_ n))) (router_ n)) (ticks n) n, []).

Definition read_clock : M Z := fun n => (clock (ticks n), with_router (router_ n) (S (ticks n)) n, []).

(** The callback of [router_->send_packet]: it is not called for a packet that
    this node sends, since its origin is the node itself. *)
Definition no_callback (r : MeshRouter) (p : RoutedPacket) : MeshRouter * RoutedPacket * list Router.action :=
  (r, p, []).

Definition router_send (pkt : RoutedPacket) : M unit := fun n =>
  let '(r, acts) := Router.send_packet uuid no_callback (fun i => clock (ticks n + i)) pkt (router_ n) in
  (tt, with_router r (S (ticks n)) n, Route <$> acts).

Definition secure (pkt : RoutedPacket) (target raw : bytes) : M (bool * RoutedPacket) := fun n =>
  (secure_packet (identity_ n) (rand (crypto_draws n)) pkt target raw,
   with_identity (identity_ n) (S (crypto_draws n)) n, []).

Definition update_identity (f : IdentityManager -> IdentityManager) : M unit :=
  modify (fun n => with_identity (f (identity_ n)) (crypto_draws n) n).

Definition make_binary (to : bytes) (ttl : Z) (sub : bytes) (tr : TransportProtocol) (raw : bytes)
    (expect : bool) : M RoutedPacket :=
  u ← draw_uuid; self ← gets peer_id_; mret (MakeBinaryRoutedPacket u self to ttl sub tr raw expect).

(** The node after a UUID has been drawn. *)
Definition drawn (n : MeshNode) : MeshNode :=
  with_router (with_draws (S (Router.draws (router_ n))) (router_ n)) (ticks n) n.

Lemma run_make_binary {B} to ttl sub tr raw expect (f : RoutedPacket -> M B) n :
  (make_binary to ttl sub tr raw expect ≫= f) n =
  f (MakeBinaryRoutedPacket (uuid (Router.draws (router_ n))) (peer_id_ n) to ttl sub tr raw expect) (drawn n).
Proof. by apply run_silent. Qed.

(** ** Sending *)

Definition send_text (remote_id s : bytes) : M unit :=
  u ← draw_uuid; self ← gets peer_id_;
  router_send (MakeTextRoutedPacket u self remote_id DEFAULT_TTL s false).

Definition should_send_identity_request (peer_id : bytes) : M bool :=
  now ← read_clock;
  cooldowns ← gets id_request_cooldowns_;
  if (match cooldowns !! peer_id with
      | Some last_request_time => count_seconds (now - last_request_time) <? 5
      | None => false
      end)%Z
  then mret false
  else _ ← modify (with_cooldowns (<[peer_id := now]> cooldowns)); mret true.

(** The callback of a request, called with an error. *)
Definition fail_request (cb : callback) (dest : bytes) (e : RequestError) : M unit :=
  match cb with CbUser k => emit (UserResponse k dest (Err e)) | _ => mret tt end.

(** [send_request_async]; [send_identity] is [send_identity_request], which is
    this function again for a subtype that does not take that branch. *)
Definition send_request_with (send_identity : bytes -> M unit) (subtype serialized dest_id : bytes)
    (cb : callback) (protocol : TransportProtocol) : M unit :=
  encrypt ← gets encrypt_messages_;
  let is_identity_msg := bool_decide (subtype = identity_request_subtype) in
  let finish (pkt : RoutedPacket) : M unit :=
    _ ← modify (fun n => with_tracker (Tracker.track_request_callback (to_hex (id pkt)) cb (request_tracker_ n)) n);
    router_send pkt in
  if encrypt && negb is_identity_msg then
    pkt ← make_binary dest_id DEFAULT_TTL subtype protocol [] true;
    known ← gets (fun n => has_key dest_id (identity_ n));
    if negb known then
      _ ← modify (fun n => with_tracker (Tracker.track_request_callback (to_hex (id pkt)) cb (request_tracker_ n)) n);
      _ ← update_identity (buffer_outgoing_packet dest_id pkt);
      should ← should_send_identity_request dest_id;
      (if should : bool then send_identity dest_id else mret tt)
    else
      '(ok, pkt) ← secure pkt dest_id serialized;
      (if negb ok then fail_request cb dest_id EncryptionError else finish pkt)
  else
    pkt ← make_binary dest_id DEFAULT_TTL subtype protocol serialized true;
    finish pkt.

Definition send_identity_request (dest : bytes) : M unit :=
  cert ← gets (fun n => get_my_cert (identity_ n));
  send_request_with (fun _ => mret tt) identity_request_subtype
    (SerializeAsString {| request_certificate_pem := cert |}) dest (CbIdentity dest) TCP.

Definition send_request_async (subtype serialized dest_id : bytes) (cb : callback)
    (protocol : TransportProtocol) : M unit :=
  send_request_with send_identity_request subtype serialized dest_id cb protocol.

(** [send_request] does not pass its [protocol] on. *)
Definition send_request (subtype serialized dest_id : bytes) (k : nat) (protocol : TransportProtocol) : M unit :=
  send_request_async subtype serialized dest_id (CbUser k) TCP.

Definition send_message (subtype serialized dest_id : bytes) (protocol : TransportProtocol) : M unit :=
  encrypt ← gets encrypt_messages_;
  if encrypt && negb (bool_decide (subtype = identity_request_subtype)) then
    pkt ← make_binary dest_id DEFAULT_TTL subtype protocol [] false;
    known ← gets (fun n => has_key dest_id (identity_ n));
    if negb known then
      _ ← update_identity (buffer_outgoing_packet dest_id pkt);
      should ← should_send_identity_request dest_id;
      (if should : bool then send_identity_request dest_id else mret tt)
    else
      '(ok, pkt) ← secure pkt dest_id serialized;
      (if negb ok then mret tt else router_send pkt)
  else
    pkt ← make_binary dest_id DEFAULT_TTL subtype protocol serialized false;
    router_send pkt.

Definition broadcast_message (subtype serialized : bytes) (protocol : TransportProtocol) : M unit :=
  pkt ← make_binary [] DEFAULT_TTL subtype protocol serialized false; router_send pkt.

Definition broadcast_request (subtype serialized : bytes) (k : nat) (protocol : TransportProtocol) : M unit :=
  pkt ← make_binary [] 15 subtype protocol serialized true;
  _ ← modify (fun n => with_tracker (Tracker.track_broadcast (to_hex (id pkt)) (CbBroadcast k) (CbBroadcast k)
                                       (request_tracker_ n)) n);
  router_send pkt.

(** ** Replying *)

(** A call of [reply_cb]. *)
Definition reply (x : reply_ctx) (response_payload : bytes) : M unit :=
  if negb (reply_expected x) then mret tt
  else
    let subtype := default [] (reply_subtype x) in
    resp ← make_binary (reply_to x) 15 subtype (reply_transport x) response_payload false;
    let resp := set_id (reply_id x) resp in
    encrypt ← gets encrypt_messages_;
    let is_identity_exchange := bool_decide (subtype = identity_request_subtype) ||
                                bool_decide (subtype = identity_response_subtype) in
    if encrypt && negb is_identity_exchange then
      '(ok, resp) ← secure resp (reply_to x) response_payload;
      (if negb ok then mret tt else router_send resp)
    else router_send (set_payload (binary_data response_payload) resp).

(** ** Receiving *)

Definition handle_pending_outgoing_packets (dest : bytes) : M unit :=
  packets ← gets (fun n => (pop_outgoing_pending_packets dest (identity_ n)).1);
  _ ← update_identity (fun im => (pop_outgoing_pending_packets dest im).2);
  for_all (fun pkt =>
    '(ok, pkt) ← secure pkt (to_peer_id pkt) (get_binary_data pkt);
    if negb ok then mret tt else router_send pkt) packets.

Section handlers.
(** [handle_pending_incoming_packets], which handles packets again. *)
Context (handle_pending_incoming : bytes -> M unit).

(** A certificate has arrived from [peer]. *)
Definition learn_key (peer certificate_pem : bytes) : M unit :=
  _ ← update_identity (add_trusted_peer peer (extract_pubkey_from_cert certificate_pem));
  _ ← handle_pending_incoming peer;
  handle_pending_outgoing_packets peer.

(** The [internal_cb] of a request: what its callback is given. *)
Definition internal_cb {A} (parse : bytes -> option A) (maybe_raw_bytes : option bytes) : outcome RequestError A :=
  match maybe_raw_bytes with
  | None => Err RequestTimeout
  | Some raw_bytes => match parse raw_bytes with Some resp => Ok resp | None => Err MalformedResponse end
  end.

(** The callback of [send_identity_request]. *)
Definition on_identity_response (peer : bytes) (resp : outcome RequestError IdentityResponse) : M unit :=
  match resp with
  | Err _ => mret tt
  | Ok resp => learn_key peer (response_certificate_pem resp)
  end.

(** The callbacks the tracker calls. *)
Definition run_call (c : Tracker.call callback bytes) : M unit :=
  match c with
  | Tracker.CallRequest (CbIdentity _) from raw => on_identity_response from (internal_cb ParseFromString raw)
  | Tracker.CallRequest (CbUser k) from raw =>
      emit (UserResponse k from (internal_cb (fun raw => if parses k raw then Some raw else None) raw))
  | Tracker.CallResponse (CbBroadcast k) from raw =>
      if parses k raw then emit (BroadcastResponse k from raw) else mret tt
  | Tracker.CallComplete (CbBroadcast k) => emit (BroadcastComplete k)
  | _ => mret tt
  end.

(** The registered handlers, with the parsing [on] wraps around them. *)
Definition run_handler (h : packet_handler) (from raw_bytes : bytes) (x : reply_ctx) : M unit :=
  match h with
  | HTopology =>
      match ParseFromString (A := TopologyRequest) raw_bytes with
      | None => mret tt
      | Some _ =>
          neighbors ← gets (fun n => get_direct_neighbors (router_ n));
          reply x (SerializeAsString {| directly_connected_peers := neighbors |})
      end
  | HPing =>
      match ParseFromString (A := PingRequest) raw_bytes with
      | None => mret tt
      | Some _ =>
          self ← gets peer_id_;
          reply x (SerializeAsString {| pong_message := (lit "hello from")%mesh ++ self |})
      end
  | HIdentity =>
      match ParseFromString raw_bytes with
      | None => mret tt
      | Some req =>
          _ ← learn_key from (request_certificate_pem req);
          cert ← gets (fun n => get_my_cert (identity_ n));
          reply x (SerializeAsString {| response_certificate_pem := cert |})
      end
  | HHeartbeat => mret tt
  | HUser k => if parses k raw_bytes then emit (UserHandler k from raw_bytes x) else mret tt
  end.

(** The part of [handle_incoming_packet] after decryption. *)
Definition handle_plain_packet (pkt : RoutedPacket) : M unit :=
  t ← gets request_tracker_;
  let '(fulfilled, t, calls) := Tracker.fulfill_request (to_hex (id pkt)) (from_peer_id pkt) (get_binary_data pkt) t in
  _ ← modify (with_tracker t);
  _ ← for_all run_call calls;
  if fulfilled : bool then mret tt
  else
    match type pkt with
    | BINARY =>
        hs ← gets handlers_;
        match hs !! subtype pkt with
        | None => mret tt
        | Some info =>
            run_handler (handler info) (from_peer_id pkt) (get_binary_data pkt)
              {| reply_to := from_peer_id pkt; reply_id := id pkt; reply_transport := transport pkt;
                 reply_expected := expect_response pkt; reply_subtype := ResponseSubtype info |}
        end
    | TEXT => emit (LogText (from_peer_id pkt) (get_text pkt))
    | _ => mret tt
    end.

(** The packet is returned as the caller sees it through the reference. *)
Definition handle_packet_body (pkt : RoutedPacket) : M RoutedPacket :=
  ignore ← gets ignore_all_incoming_messages_;
  if ignore : bool then mret pkt
  else if has_encrypted_payload pkt then
    let from := from_peer_id pkt in
    known ← gets (fun n => has_key from (identity_ n));
    if negb known then
      _ ← update_identity (buffer_incoming_packet from pkt);
      should ← should_send_identity_request from;
      _ ← (if should : bool then send_identity_request from else mret tt);
      mret pkt
    else
      plain ← gets (fun n => decrypt_packet (identity_ n) pkt);
      match plain with
      | Err _ => mret pkt
      | Ok plaintext =>
          let pkt := set_payload (binary_data plaintext) (set_security [] [] (clear_encrypted_payload pkt)) in
          _ ← handle_plain_packet pkt; mret pkt
      end
  else _ ← handle_plain_packet pkt; mret pkt.
End handlers.

(** The recursion through the packets that waited for a key. *)
Fixpoint handle_incoming_packet (fuel : nat) (pkt : RoutedPacket) : M RoutedPacket :=
  match fuel with
  | 0 => _ ← emit OutOfFuel; mret pkt
  | S fuel =>
      handle_packet_body (fun src =>
        packets ← gets (fun n => (pop_incoming_pending_packets src (identity_ n)).1);
        _ ← update_identity (fun im => (pop_incoming_pending_packets src im).2);
        for_all (fun pkt => _ ← handle_incoming_packet fuel pkt; mret tt) packets) pkt
  end.

Definition handle_pending_incoming_packets (fuel : nat) (src : bytes) : M unit :=
  packets ← gets (fun n => (pop_incoming_pending_packets src (identity_ n)).1);
  _ ← update_identity (fun im => (pop_incoming_pending_packets src im).2);
  for_all (fun pkt => _ ← handle_incoming_packet fuel pkt; mret tt) packets.

(** The handler of a timer of the tracker runs. *)
Definition on_timer (fuel : nat) (h : Tracker.wait callback) : M unit :=
  t ← gets request_tracker_;
  let '(t, calls) := Tracker.handle_wait h t in
  _ ← modify (with_tracker t);
  for_all (run_call (handle_pending_incoming_packets fuel)) calls.

End node.

End Node.
