(* ===== verification/NodeCorrect.v ===== *)
(** * The node: identities and waiting packets

    The guard before identity requests, and what happens to a message whose key is
    missing. *)

From S2P Require Import Prelude Cxx Utils Packet MeshRouter RequestTracker Crypto Identity MeshNode.

Module NodeCorrect.
Import Utils Packet Router Crypto Identity Node.

Implicit Types (n : MeshNode).

(** ** Packets of its own never come back through the callback *)

Lemma send_own_packet {o : IterOrder} {wp : Wire RoutedPacket} uuid cb1 cb2 clk pkt r :
  from_peer_id pkt = self_id_ r ->
  Router.send_packet uuid cb1 clk pkt r = Router.send_packet uuid cb2 clk pkt r.
Proof.
  intros Hself. unfold Router.send_packet, route_data_packet.
  rewrite (bool_decide_true (from_peer_id pkt = self_id_ r)) by done. by rewrite !andb_false_r.
Qed.

Section guard.
Context (clock : nat -> Z).

(** ** The guard before identity requests *)

Lemma should_send_spec (p : bytes) n :
  let now := clock (ticks n) in
  let b := match id_request_cooldowns_ n !! p with
           | Some last => negb (count_seconds (now - last) <? 5)%Z | None => true end in
  exists n', should_send_identity_request clock p n = (b, n', []) /\ ticks n' = S (ticks n) /\
    id_request_cooldowns_ n' = if b then <[p := now]> (id_request_cooldowns_ n) else id_request_cooldowns_ n.
Proof.
  cbn zeta. unfold should_send_identity_request.
  rewrite (run_silent (read_clock clock) _ n (clock (ticks n)) (with_router (router_ n) (S (ticks n)) n)) by done.
  rewrite run_gets. cbn [id_request_cooldowns_ with_router].
  destruct (id_request_cooldowns_ n !! p) as [last|];
    [destruct (_ <? 5)%Z; [by eexists|]|]; (rewrite run_modify; eexists; split; [reflexivity|done]).
Qed.

Lemma count_seconds_ge (d : Z) : (0 <= d -> 5 <= count_seconds d -> seconds 5 <= d)%Z.
Proof. unfold count_seconds, seconds. intros Hd H. pose proof (Z.mul_quot_le d 1000000000 Hd ltac:(lia)). lia. Qed.

End guard.

(** Concrete wire formats of the node's own messages: the one field, or nothing. *)
Definition identity_request_wire : Wire IdentityRequest := {|
  SerializeAsString r := request_certificate_pem r; ParseFromString s := Some {| request_certificate_pem := s |} |}.
Definition identity_response_wire : Wire IdentityResponse := {|
  SerializeAsString r := response_certificate_pem r; ParseFromString s := Some {| response_certificate_pem := s |} |}.
Definition ping_request_wire : Wire PingRequest := {|
  SerializeAsString r := ping_message r; ParseFromString s := Some {| ping_message := s |} |}.
Definition ping_response_wire : Wire PingResponse := {|
  SerializeAsString r := pong_message r; ParseFromString s := Some {| pong_message := s |} |}.
Definition topology_request_wire : Wire TopologyRequest := {|
  SerializeAsString r := []; ParseFromString s := Some Build_TopologyRequest |}.
Definition topology_response_wire : Wire TopologyResponse := {|
  SerializeAsString r := concat (directly_connected_peers r);
  ParseFromString s := Some {| directly_connected_peers := [s] |} |}.

(** A node with the toy cryptography. *)
Definition demo_node (self : bytes) (im : IdentityManager) : MeshNode := make_node self im true 0.

(** Operations that leave the packets waiting to be sent alone. *)
Definition keeps_outgoing {A} (m : M A) : Prop :=
  forall n, pending_outgoing_packets_ (identity_ (m n).1.2) = pending_outgoing_packets_ (identity_ n).

Lemma keeps_outgoing_bind {A B} (m : M A) (f : A -> M B) :
  keeps_outgoing m -> (forall a, keeps_outgoing (f a)) -> keeps_outgoing (m ≫= f).
Proof.
  intros Hm Hf n. specialize (Hm n). unfold mbind, M_bind. destruct (m n) as [[a n1] l1]. simpl in *.
  specialize (Hf a n1). destruct (f a n1) as [[b n2] l2]. simpl in *. congruence.
Qed.

Section outgoing.
Context {o : IterOrder} {wp : Wire RoutedPacket} {w1 : Wire IdentityRequest} {ssl : OpenSSL}.
Context (uuid : nat -> bytes) (clock : nat -> Z) (rand : nat -> Identity.draws).

Lemma router_send_keeps pkt : keeps_outgoing (router_send uuid clock pkt).
Proof. intros n. unfold router_send. by destruct (Router.send_packet _ _ _ _ _). Qed.

Lemma should_send_keeps p : keeps_outgoing (should_send_identity_request clock p).
Proof. repeat (apply keeps_outgoing_bind; [done|intros]). case_goal; [done|]. by apply keeps_outgoing_bind. Qed.

(** An identity request is never encrypted, so it never waits. *)
Lemma send_identity_keeps dest : keeps_outgoing (send_identity_request uuid clock rand dest).
Proof.
  apply keeps_outgoing_bind; [done|]. intros cert. unfold send_request_with.
  apply keeps_outgoing_bind; [done|]. intros encrypt. rewrite bool_decide_true by done. rewrite andb_false_r.
  apply keeps_outgoing_bind; [done|]. intros pkt. apply keeps_outgoing_bind; [done|]. intros _.
  apply router_send_keeps.
Qed.
End outgoing.

(** The content of a message that has to wait for a key is lost: when
    messages are encrypted and the key of the destination is not known,
    [send_message] and [send_request_async] behave the same for any two contents,
    in the state they leave and in all they send; the packet kept for later has
    an empty payload. *)
Theorem postponed_content_lost {o : IterOrder} {wp : Wire RoutedPacket} {w1 : Wire IdentityRequest}
    {ssl : OpenSSL} (uuid : nat -> bytes) (clock : nat -> Z) (rand : nat -> Identity.draws)
    (n : MeshNode) (subtype dest msg1 msg2 : bytes) (cb : callback) (protocol : TransportProtocol)
    (Hencrypt : encrypt_messages_ n = true) (Hkey : trusted_keys_ (identity_ n) !! dest = None)
    (Hsub : subtype <> identity_request_subtype) :
  send_message uuid clock rand subtype msg1 dest protocol n =
    send_message uuid clock rand subtype msg2 dest protocol n /\
  send_request_async uuid clock rand subtype msg1 dest cb protocol n =
    send_request_async uuid clock rand subtype msg2 dest cb protocol n /\
  exists pkt, payload pkt = binary_data [] /\
    pending_outgoing_packets_ (identity_ (send_message uuid clock rand subtype msg1 dest protocol n).1.2) =
      push_packet dest pkt (pending_outgoing_packets_ (identity_ n)).
Proof.
  assert (has_key dest (identity_ (drawn n)) = false) as Hno.
  { unfold has_key. simpl. rewrite Hkey. by apply bool_decide_eq_false, is_Some_None. }
  unfold send_message, send_request_async, send_request_with.
  rewrite !run_gets, Hencrypt, (bool_decide_false (subtype = _)) by done. cbn [andb negb].
  rewrite !run_make_binary, !run_gets, Hno. cbn [negb]. split; [done|]. split; [done|].
  unfold update_identity. rewrite run_modify. set (pkt := MakeBinaryRoutedPacket _ _ _ _ _ _ _ _).
  exists pkt. split; [done|]. apply keeps_outgoing_bind; [apply should_send_keeps|].
  intros [|]; [apply send_identity_keeps|done].
Qed.

Lemma postponed_content_lost_witness :
  let n := demo_node [x61] new_manager in
  let send m := @send_message map_order packet_wire toy_ssl identity_request_wire (fun _ => replicate 16 x01)
    (fun _ => 0%Z) (fun _ => demo_draws) (lit "app.Note")%mesh m [x62] TCP n in
  send (lit "first")%mesh = send (lit "second")%mesh.
Proof.
  intros n send. unfold send.
  refine (proj1 (@postponed_content_lost map_order packet_wire identity_request_wire toy_ssl _ _ _ n
    (lit "app.Note")%mesh [x62] (lit "first")%mesh (lit "second")%mesh (CbUser 0) TCP _ _ _)).
  - reflexivity.
  - reflexivity.
  - vm_compute. discriminate.
Defined.

End NodeCorrect.
