(* ===== verification/NodeLogic.v ===== *)
(** * A program logic for the node

    Triples for the node's state monad (MeshNode.v): what holds before and after
    a computation, and a property of every action it emits.  The rules follow the
    structure of the code. *)

From S2P Require Import Prelude Packet MeshRouter MeshNode.

Module NodeLogic.
Import Node.

Implicit Types (n : MeshNode).

(** From a state in [P] the computation ends in [Q], and all its actions are
    [ok]. *)
Definition triple {A} (ok : node_action -> Prop) (P : MeshNode -> Prop) (m : M A) (Q : A -> MeshNode -> Prop) : Prop :=
  forall n, P n -> Q (m n).1.1 (m n).1.2 /\ Forall ok (m n).2.

Section rules.
Context {ok : node_action -> Prop}.

Lemma triple_ret {A} P (a : A) : triple ok P (mret a) (fun _ => P).
Proof. intros n H. by split. Qed.

Lemma triple_gets {A} P (f : MeshNode -> A) : triple ok P (gets f) (fun a n => P n /\ a = f n).
Proof. intros n H. by split. Qed.

Lemma triple_modify (P : MeshNode -> Prop) (Q : MeshNode -> Prop) f :
  (forall n, P n -> Q (f n)) -> triple ok P (modify f) (fun _ => Q).
Proof. intros H n Hp. split; [by apply H|done]. Qed.

Lemma triple_emit P a : ok a -> triple ok P (emit a) (fun _ => P).
Proof. intros Ha n H. split; [done|]. by apply Forall_singleton. Qed.

Lemma triple_bind {A B} P (m : M A) R (f : A -> M B) Q :
  triple ok P m R -> (forall a, triple ok (R a) (f a) Q) -> triple ok P (m ≫= f) Q.
Proof.
  intros Hm Hf n Hp. destruct (Hm n Hp) as [Hr Hl]. unfold mbind, M_bind.
  destruct (m n) as [[a n1] l1]. simpl in *. destruct (Hf a n1 Hr) as [Hq Hl2].
  destruct (f a n1) as [[b n2] l2]. simpl in *. split; [done|]. by apply Forall_app.
Qed.

Lemma triple_pre {A} (P P' : MeshNode -> Prop) (m : M A) Q :
  (forall n, P n -> P' n) -> triple ok P' m Q -> triple ok P m Q.
Proof. intros H Ht n Hp. by apply Ht, H. Qed.

Lemma triple_post {A} P (m : M A) (Q Q' : A -> MeshNode -> Prop) :
  (forall a n, Q a n -> Q' a n) -> triple ok P m Q -> triple ok P m Q'.
Proof. intros H Ht n Hp. destruct (Ht n Hp). split; [by apply H|done]. Qed.

Lemma triple_for_all {A} P (f : A -> M unit) (l : list A) :
  (forall x, x ∈ l -> triple ok P (f x) (fun _ => P)) -> triple ok P (for_all f l) (fun _ => P).
Proof.
  induction l as [|x l IH]; intros Hf; cbn [for_all]; [apply triple_ret|].
  eapply triple_bind; [apply Hf; by left|]. intros u. apply IH. intros y Hy. apply Hf. by right.
Qed.
End rules.

(** ** Invariants *)

(** [J] holds throughout: before and after, with all actions [ok]. *)
Definition keeps {A} (ok : node_action -> Prop) (J : MeshNode -> Prop) (m : M A) : Prop :=
  triple ok J m (fun _ => J).

Section keeps.
Context {ok : node_action -> Prop} {J : MeshNode -> Prop}.

Lemma keeps_ret {A} (a : A) : keeps ok J (mret a).
Proof. apply triple_ret. Qed.

Lemma keeps_gets {A} (f : MeshNode -> A) : keeps ok J (gets f).
Proof. eapply triple_post; [|apply triple_gets]. by intros a n [? _]. Qed.

Lemma keeps_modify f : (forall n, J n -> J (f n)) -> keeps ok J (modify f).
Proof. apply triple_modify. Qed.

Lemma keeps_emit a : ok a -> keeps ok J (emit a).
Proof. apply triple_emit. Qed.

Lemma keeps_bind {A B} (m : M A) (f : A -> M B) :
  keeps ok J m -> (forall a, keeps ok J (f a)) -> keeps ok J (m ≫= f).
Proof. apply triple_bind. Qed.

Lemma keeps_if {A} (b : bool) (m1 m2 : M A) :
  (b = true -> keeps ok J m1) -> (b = false -> keeps ok J m2) -> keeps ok J (if b then m1 else m2).
Proof. destruct b; auto. Qed.

Lemma keeps_for_all {A} (f : A -> M unit) (l : list A) :
  (forall x, x ∈ l -> keeps ok J (f x)) -> keeps ok J (for_all f l).
Proof. apply triple_for_all. Qed.

(** Reading a field whose value the invariant knows. *)
Lemma keeps_gets_known {A B} (f : MeshNode -> A) (R : A -> Prop) (k : A -> M B) :
  (forall n, J n -> R (f n)) -> (forall a, R a -> keeps ok J (k a)) -> keeps ok J (gets f ≫= k).
Proof. intros Hf Hk n Hn. rewrite run_gets. apply Hk; [by apply Hf|done]. Qed.
End keeps.

Create HintDb node_logic.
#[export] Hint Resolve keeps_ret keeps_gets : node_logic.
End NodeLogic.
