(* ===== verification/NodeRecursion.v ===== *)
(** * The node: the recursion through waiting packets ends

    With the program logic of NodeLogic.v, the termination of
    [handle_incoming_packet]: learning a key handles the packets that waited for
    it, which may learn the key again, but then no packet waits any more. *)

From S2P Require Import Prelude Cxx Utils Packet MeshRouter RequestTracker Crypto Identity MeshNode NodeCorrect NodeLogic.

Module Recursion.
Import Utils Packet Router Crypto Identity Node NodeCorrect NodeLogic.

Implicit Types (n : MeshNode).

(** The recursion has not run out of fuel. *)
Definition in_fuel (a : node_action) : Prop := a <> OutOfFuel.

Lemma in_fuel_all (l : list node_action) : Forall in_fuel l -> OutOfFuel ∉ l.
Proof. rewrite Forall_forall. intros H Hin. by apply (H _ Hin). Qed.

(** A computation that keeps every property of the waiting packets and of the
    set of known peers, except that peers may become known. *)
Definition stable (P : MeshNode -> Prop) : Prop :=
  forall n n', pending_incoming_packets_ (identity_ n') = pending_incoming_packets_ (identity_ n) ->
    (forall p, is_Some (trusted_keys_ (identity_ n) !! p) -> is_Some (trusted_keys_ (identity_ n') !! p)) ->
    P n -> P n'.

Definition framed {A} (m : M A) : Prop := forall P, stable P -> triple in_fuel P m (fun _ => P).

Lemma framed_ret {A} (a : A) : framed (mret a).
Proof. intros P _. apply triple_ret. Qed.

Lemma framed_gets {A} (f : MeshNode -> A) : framed (gets f).
Proof. intros P _. eapply triple_post; [|apply triple_gets]. by intros a n [? _]. Qed.

Lemma framed_modify f :
  (forall n, pending_incoming_packets_ (identity_ (f n)) = pending_incoming_packets_ (identity_ n) /\
     forall p, is_Some (trusted_keys_ (identity_ n) !! p) -> is_Some (trusted_keys_ (identity_ (f n)) !! p)) ->
  framed (modify f).
Proof. intros Hf P HP. apply triple_modify. intros n Hn. destruct (Hf n). by eapply HP. Qed.

Lemma framed_emit a : in_fuel a -> framed (emit a).
Proof. intros Ha P _. by apply triple_emit. Qed.

Lemma framed_bind {A B} (m : M A) (f : A -> M B) : framed m -> (forall a, framed (f a)) -> framed (m ≫= f).
Proof. intros Hm Hf P HP. eapply triple_bind; [by apply Hm|]. intros a. by apply Hf. Qed.

Lemma framed_for_all {A} (f : A -> M unit) (l : list A) : (forall x, framed (f x)) -> framed (for_all f l).
Proof. intros Hf P HP. apply triple_for_all. intros x _. by apply Hf. Qed.

Lemma framed_if {A} (b : bool) (m1 m2 : M A) : framed m1 -> framed m2 -> framed (if b then m1 else m2).
Proof. by destruct b. Qed.

Create HintDb frame.
#[local] Hint Resolve framed_ret framed_gets framed_for_all framed_if : frame.

(** Take a computation apart along its structure. *)
Ltac framed_tac :=
  repeat first
    [ solve [auto with frame]
    | apply framed_bind; [|intros]
    | apply framed_if
    | apply framed_emit; discriminate
    | apply framed_modify; intros; split; [reflexivity|done]
    | apply framed_for_all; intros
    | progress cbn beta
    | case_goal ].

Section node.
Context {o : IterOrder} {wp : Wire RoutedPacket} {ssl : OpenSSL}.
Context {w1 : Wire IdentityRequest} {w2 : Wire IdentityResponse} {w3 : Wire PingRequest}
  {w4 : Wire PingResponse} {w5 : Wire TopologyRequest} {w6 : Wire TopologyResponse}.
Context (uuid : nat -> bytes) (clock : nat -> Z) (rand : nat -> Identity.draws) (parses : nat -> bytes -> bool).

Lemma framed_router_send pkt : framed (router_send uuid clock pkt).
Proof.
  intros P HP n Hn. unfold router_send. destruct (Router.send_packet _ _ _ _ _) as [r acts]. simpl. split.
  - by eapply HP; [| |exact Hn].
  - by apply Forall_fmap, Forall_true.
Qed.

Lemma framed_make_binary to ttl sub tr raw e : framed (make_binary uuid to ttl sub tr raw e).
Proof.
  unfold make_binary. framed_tac.
Qed.

Lemma framed_secure pkt target raw : framed (secure rand pkt target raw).
Proof. intros P HP n Hn. split; [|done]. by eapply HP; [| |exact Hn]. Qed.

Lemma framed_read_clock : framed (read_clock clock).
Proof. intros P HP n Hn. split; [|done]. by eapply HP; [| |exact Hn]. Qed.

#[local] Hint Resolve framed_router_send framed_make_binary framed_secure framed_read_clock : frame.

Lemma framed_should_send p : framed (should_send_identity_request clock p).
Proof. unfold should_send_identity_request. framed_tac. Qed.

#[local] Hint Resolve framed_should_send : frame.

Lemma framed_send_request si subtype ser dest cb tr :
  (forall d, framed (si d)) -> framed (send_request_with uuid clock rand si subtype ser dest cb tr).
Proof. intros Hsi. unfold send_request_with, fail_request, update_identity. framed_tac. Qed.

Lemma framed_send_identity dest : framed (send_identity_request uuid clock rand dest).
Proof. unfold send_identity_request, send_request_with. framed_tac. Qed.

#[local] Hint Resolve framed_send_identity : frame.

Lemma framed_send_request_async subtype ser dest cb tr :
  framed (send_request_async uuid clock rand subtype ser dest cb tr).
Proof. apply framed_send_request. framed_tac. Qed.

Lemma framed_send_message subtype ser dest tr : framed (send_message uuid clock rand subtype ser dest tr).
Proof. unfold send_message, update_identity. framed_tac. Qed.

Lemma framed_reply x s : framed (reply uuid clock rand x s).
Proof. unfold reply. framed_tac. Qed.

Lemma framed_pending_outgoing dest : framed (handle_pending_outgoing_packets uuid clock rand dest).
Proof.
  unfold handle_pending_outgoing_packets, update_identity. framed_tac.
  apply framed_modify. intros n. unfold pop_outgoing_pending_packets. simpl.
  by destruct (pending_outgoing_packets_ (identity_ n) !! dest).
Qed.

#[local] Hint Resolve framed_reply framed_pending_outgoing : frame.

(** ** The recursion *)

(** Packets wait under the name of their sender. *)
Definition filed n : Prop :=
  forall p l q, pending_incoming_packets_ (identity_ n) !! p = Some l -> q ∈ l -> from_peer_id q = p.

Definition known (p : bytes) n : Prop := is_Some (trusted_keys_ (identity_ n) !! p).

(** Nothing waits for the key of [p], which is known. *)
Definition settled (p : bytes) n : Prop :=
  pending_incoming_packets_ (identity_ n) !! p = None /\ known p n.

Lemma stable_filed : stable filed.
Proof. intros n n' Hp _ H p l q. rewrite Hp. apply H. Qed.

Lemma stable_settled p : stable (settled p).
Proof. intros n n' Hp Hk [H1 H2]. split; [by rewrite Hp|by apply Hk]. Qed.

Lemma stable_and (P Q : MeshNode -> Prop) : stable P -> stable Q -> stable (fun n => P n /\ Q n).
Proof. intros HP HQ n n' H1 H2 [? ?]. split; [by eapply HP|by eapply HQ]. Qed.

(** The calls of the tracker carry the sender they were made with. *)
Definition call_from (p : bytes) (c : Tracker.call callback bytes) : Prop :=
  match c with
  | Tracker.CallRequest _ from _ => from = p
  | Tracker.CallResponse _ from _ => from = p
  | Tracker.CallComplete _ => True
  end.

Lemma fulfill_calls_from req (p raw : bytes) (t : Tracker.AsyncRequestTracker callback) c :
  c ∈ (Tracker.fulfill_request req p raw t).2 -> call_from p c.
Proof.
  unfold Tracker.fulfill_request, Tracker.complete_request.
  destruct (Tracker.pending_requests_ t !! req) as [[cb tm]|].
  - by intros ->%list_elem_of_singleton.
  - destruct (Tracker.broadcasts_ t !! req) as [[cb tm]|]; [by intros ->%list_elem_of_singleton|].
    by intros ?%not_elem_of_nil.
Qed.

Section body.
Context (rec : bytes -> M unit) (P : MeshNode -> Prop) (p : bytes).
Hypothesis HP : stable P.
Hypothesis Hrec : triple in_fuel (fun n => P n /\ known p n) (rec p) (fun _ => P).

Lemma learn_key_keeps cert : triple in_fuel P (learn_key uuid clock rand rec p cert) (fun _ => P).
Proof.
  unfold learn_key, update_identity. eapply triple_bind.
  - apply (triple_modify P (fun n => P n /\ known p n)). intros n Hn. split.
    + eapply HP; [| |exact Hn]; [done|]. intros q Hq. simpl.
      destruct (decide (q = p)) as [->|]; [by rewrite lookup_insert_eq|by rewrite lookup_insert_ne].
    + unfold known. simpl. by rewrite lookup_insert_eq.
  - intros u. eapply triple_bind; [exact Hrec|]. intros u'. by apply framed_pending_outgoing.
Qed.

Lemma run_call_keeps c : call_from p c -> triple in_fuel P (run_call uuid clock rand parses rec c) (fun _ => P).
Proof.
  assert (framed (A := unit) (mret tt)) as Hret by apply framed_ret.
  destruct c as [[dest|k|k] from [raw|]|[dest|k|k] from raw|[dest|k|k]]; cbn [call_from run_call on_identity_response internal_cb];
    intros ?; subst; try (by apply Hret); try (by apply triple_emit).
  - destruct (ParseFromString raw); [apply learn_key_keeps|by apply Hret].
  - destruct (parses k raw); [by apply triple_emit|by apply Hret].
Qed.

Lemma run_handler_keeps h raw x : triple in_fuel P (run_handler uuid clock rand parses rec h p raw x) (fun _ => P).
Proof.
  assert (framed (A := unit) (mret tt)) as Hret by apply framed_ret.
  destruct h as [| | | |k]; cbn [run_handler].
  - destruct (ParseFromString raw); [|by apply Hret]. eapply triple_bind; [by apply framed_gets|].
    intros l. by apply framed_reply.
  - destruct (ParseFromString raw); [|by apply Hret]. eapply triple_bind; [by apply framed_gets|].
    intros l. by apply framed_reply.
  - destruct (ParseFromString raw); [|by apply Hret]. eapply triple_bind; [apply learn_key_keeps|].
    intros u. eapply triple_bind; [by apply framed_gets|]. intros cert. by apply framed_reply.
  - by apply Hret.
  - destruct (parses k raw); [by apply triple_emit|by apply Hret].
Qed.

Lemma plain_keeps pkt :
  from_peer_id pkt = p -> triple in_fuel P (handle_plain_packet uuid clock rand parses rec pkt) (fun _ => P).
Proof.
  intros Hfrom. unfold handle_plain_packet.
  eapply triple_bind; [by apply (framed_gets request_tracker_)|]. intros t. cbn beta.
  pose proof (fulfill_calls_from (to_hex (id pkt)) (from_peer_id pkt) (get_binary_data pkt) t) as Hc.
  destruct (Tracker.fulfill_request _ _ _ t) as [[b t'] calls]. cbn [snd] in Hc.
  eapply triple_bind; [apply (framed_modify (with_tracker t')); [done|exact HP]|]. intros u. cbn beta.
  eapply triple_bind.
  { apply triple_for_all. intros c Hin. apply run_call_keeps. rewrite <-Hfrom. by apply Hc. }
  intros u'. cbn beta. destruct b; [by apply framed_ret|].
  destruct (type pkt); [by apply framed_ret|by apply triple_emit| |by apply framed_ret].
  eapply triple_bind; [by apply (framed_gets handlers_)|]. intros hs. cbn beta.
  destruct (hs !! subtype pkt); [|by apply framed_ret]. rewrite Hfrom. apply run_handler_keeps.
Qed.

(** With its key known, a packet is handled without being filed again. *)
Lemma body_keeps pkt :
  from_peer_id pkt = p -> (forall n, P n -> known p n) ->
  triple in_fuel P (handle_packet_body uuid clock rand parses rec pkt) (fun _ => P).
Proof.
  intros Hfrom Hknown. unfold handle_packet_body.
  eapply triple_bind; [by apply (framed_gets ignore_all_incoming_messages_)|]. intros ign. cbn beta.
  destruct ign; [by apply framed_ret|].
  assert (forall q, from_peer_id q = p ->
    triple in_fuel P (handle_plain_packet uuid clock rand parses rec q ≫= fun _ => mret q) (fun _ => P)) as Hplain.
  { intros q Hq. eapply triple_bind; [by apply plain_keeps|]. intros u. by apply framed_ret. }
  destruct (has_encrypted_payload pkt); [|by apply Hplain].
  eapply triple_bind; [apply triple_gets|]. intros k. cbn beta.
  intros n [Hn ->]. rewrite Hfrom. unfold has_key. rewrite bool_decide_true by (by apply Hknown). cbn [negb].
  rewrite run_gets. destruct (decrypt_packet (identity_ n) pkt); [|by apply framed_ret].
  apply Hplain; [|done]. by destruct pkt as [? ? ? ? ? ? ? ? ? ? []].
Qed.
End body.

(** The loop over the packets that wait for [src], with the handler of one. *)
Definition pending_loop (handle : RoutedPacket -> M RoutedPacket) (src : bytes) : M unit :=
  packets ← gets (fun n => (pop_incoming_pending_packets src (identity_ n)).1);
  _ ← update_identity (fun im => (pop_incoming_pending_packets src im).2);
  for_all (fun pkt => _ ← handle pkt; mret tt) packets.

Lemma pop_incoming_settles src n :
  filed n -> known src n ->
  let n' := with_identity (pop_incoming_pending_packets src (identity_ n)).2 (crypto_draws n) n in
  filed n' /\ settled src n' /\
  (forall q, q ∈ (pop_incoming_pending_packets src (identity_ n)).1 -> from_peer_id q = src).
Proof.
  intros Hf Hk. unfold pop_incoming_pending_packets, settled, filed, known in *. simpl.
  destruct (pending_incoming_packets_ (identity_ n) !! src) as [l|] eqn:E; simpl; split_and!; try done.
  - intros p l' q [_ Hl]%lookup_delete_Some. by apply Hf.
  - apply lookup_delete_eq.
  - intros q Hq. by eapply Hf.
  - by intros q ?%not_elem_of_nil.
Qed.

Lemma pending_loop_spec handle src :
  (forall pkt, from_peer_id pkt = src ->
     triple in_fuel (fun n => filed n /\ settled src n) (handle pkt) (fun _ n => filed n /\ settled src n)) ->
  triple in_fuel (fun n => filed n /\ known src n) (pending_loop handle src) (fun _ n => filed n /\ settled src n).
Proof.
  intros Hh n [Hf Hk]. unfold pending_loop, update_identity. rewrite run_gets, run_modify.
  destruct (pop_incoming_settles src n Hf Hk) as (Hf' & Hs' & Hq).
  apply (triple_for_all (fun n => filed n /\ settled src n)); [|done].
  intros q Hin. eapply triple_bind; [by apply Hh, Hq|]. intros u. by apply triple_ret.
Qed.

(** Nothing waits: the loop does nothing. *)
Lemma pending_loop_settled handle src :
  triple in_fuel (fun n => filed n /\ settled src n) (pending_loop handle src) (fun _ n => filed n /\ settled src n).
Proof.
  intros n (Hf & Hs & Hk). unfold pending_loop, update_identity. rewrite run_gets, run_modify.
  unfold pop_incoming_pending_packets. rewrite Hs. cbn [fst snd for_all].
  apply (triple_ret (fun n => filed n /\ settled src n)). by repeat split.
Qed.

Lemma handle_incoming_S (fuel : nat) pkt :
  handle_incoming_packet uuid clock rand parses (S fuel) pkt =
  handle_packet_body uuid clock rand parses
    (pending_loop (handle_incoming_packet uuid clock rand parses fuel)) pkt.
Proof. done. Qed.

Lemma handle_waiting_packet (fuel : nat) pkt p :
  from_peer_id pkt = p ->
  triple in_fuel (fun n => filed n /\ settled p n) (handle_incoming_packet uuid clock rand parses (S fuel) pkt)
    (fun _ n => filed n /\ settled p n).
Proof.
  intros Hp. rewrite handle_incoming_S. apply (body_keeps _ _ p).
  - apply stable_and; [apply stable_filed|apply stable_settled].
  - eapply triple_pre; [|apply pending_loop_settled]. by intros n [? _].
  - done.
  - by intros n (_ & _ & ?).
Qed.

Lemma buffer_filed pkt n :
  filed n -> filed (with_identity (buffer_incoming_packet (from_peer_id pkt) pkt (identity_ n)) (crypto_draws n) n).
Proof.
  intros Hn q l x. simpl. unfold push_packet. destruct (decide (q = from_peer_id pkt)) as [->|Hne].
  - rewrite lookup_insert_eq. intros [= <-] [Hx| ->%list_elem_of_singleton]%elem_of_app; [|done].
    destruct (pending_incoming_packets_ (identity_ n) !! from_peer_id pkt) as [l'|] eqn:El;
      [by eapply Hn|by apply not_elem_of_nil in Hx].
  - rewrite lookup_insert_ne by done. apply Hn.
Qed.

(** A packet from anyone: it is filed, or it is handled and so may those be that
    waited for the key of its sender. *)
Lemma handle_any_packet (fuel : nat) pkt :
  triple in_fuel filed (handle_incoming_packet uuid clock rand parses (S (S fuel)) pkt) (fun _ => filed).
Proof.
  set (p := from_peer_id pkt). rewrite handle_incoming_S.
  assert (triple in_fuel (fun n => filed n /\ known p n)
    (pending_loop (handle_incoming_packet uuid clock rand parses (S fuel)) p) (fun _ => filed)) as Hrec.
  { eapply triple_post; [|apply pending_loop_spec; intros; by apply handle_waiting_packet].
    by intros a n [? _]. }
  unfold handle_packet_body.
  eapply triple_bind; [apply (framed_gets ignore_all_incoming_messages_), stable_filed|]. intros ign. cbn beta.
  destruct ign; [apply triple_ret|].
  destruct (has_encrypted_payload pkt).
  2:{ eapply triple_bind; [eapply (plain_keeps _ filed p); [apply stable_filed|exact Hrec|done]|].
      intros u. apply triple_ret. }
  eapply triple_bind; [apply (framed_gets (fun n => has_key (from_peer_id pkt) (identity_ n))), stable_filed|].
  intros [|]; cbn beta iota.
  - eapply triple_bind; [apply (framed_gets (fun n => decrypt_packet (identity_ n) pkt)), stable_filed|].
    intros [s|e]; cbn beta iota; [|apply triple_ret].
    eapply triple_bind; [eapply (plain_keeps _ filed p); [apply stable_filed|exact Hrec|]|].
    + by destruct pkt as [? ? ? ? ? ? ? ? ? ? []].
    + intros u. apply triple_ret.
  - eapply triple_bind; [apply (triple_modify filed filed); apply buffer_filed|]. intros u. cbn beta.
    eapply triple_bind; [apply framed_should_send, stable_filed|]. intros b. cbn beta.
    eapply triple_bind; [|intros u'; apply triple_ret]. destruct b; [apply framed_send_identity, stable_filed|].
    apply triple_ret.
Qed.

(** ** Reachable states *)

Lemma framed_send_text dest s : framed (send_text uuid clock dest s).
Proof. unfold send_text. framed_tac. Qed.

Lemma framed_broadcast_message subtype ser tr : framed (broadcast_message uuid clock subtype ser tr).
Proof. unfold broadcast_message. framed_tac. Qed.

Lemma framed_broadcast_request subtype ser k tr : framed (broadcast_request uuid clock subtype ser k tr).
Proof. unfold broadcast_request. framed_tac. Qed.

(** A time-out never brings a certificate. *)
Lemma framed_on_timer (fuel : nat) h : framed (on_timer uuid clock rand parses fuel h).
Proof.
  unfold on_timer. apply framed_bind; [apply framed_gets|]. intros t. cbn beta.
  assert (forall c, c ∈ (Tracker.handle_wait (T := bytes) h t).2 ->
    (exists cb, c = Tracker.CallRequest cb [] None) \/ exists cb, c = Tracker.CallComplete cb) as Hc.
  { destruct h as [req|req cb]; simpl; unfold Tracker.complete_request.
    - destruct (Tracker.pending_requests_ t !! req) as [[cb tm]|]; simpl; [|by intros ? ?%not_elem_of_nil].
      intros c ->%list_elem_of_singleton. left. by eexists.
    - destruct (Tracker.broadcasts_ t !! req) as [[k tm]|]; simpl; [|by intros ? ?%not_elem_of_nil].
      intros c ->%list_elem_of_singleton. right. by eexists. }
  destruct (Tracker.handle_wait h t) as [t' calls]. cbn [snd] in Hc.
  apply framed_bind; [by apply framed_modify|]. intros u P HP. apply triple_for_all.
  intros c [[[d|k|k] ->]|[[d|k|k] ->]]%Hc; cbn [run_call on_identity_response internal_cb]; by (apply triple_ret || apply triple_emit).
Qed.

(** Everything the node does, with the router free to change in between. *)
Inductive node_step n : MeshNode -> Prop :=
| node_text dest s : node_step n (send_text uuid clock dest s n).1.2
| node_message subtype ser dest tr : node_step n (send_message uuid clock rand subtype ser dest tr n).1.2
| node_request subtype ser dest cb tr :
    node_step n (send_request_async uuid clock rand subtype ser dest cb tr n).1.2
| node_broadcast subtype ser tr : node_step n (broadcast_message uuid clock subtype ser tr n).1.2
| node_broadcast_request subtype ser k tr : node_step n (broadcast_request uuid clock subtype ser k tr n).1.2
| node_reply x s : node_step n (reply uuid clock rand x s n).1.2
| node_incoming pkt : node_step n (handle_incoming_packet uuid clock rand parses 2 pkt n).1.2
| node_timer h : node_step n (on_timer uuid clock rand parses 2 h n).1.2
| node_on subtype resp h : node_step n (on subtype resp h n)
| node_on_without_response subtype h : node_step n (on_without_response subtype h n)
| node_block b : node_step n (set_block_all_messages b n)
| node_router r : node_step n (with_router r (ticks n) n).

Lemma node_step_filed n n' : filed n -> node_step n n' -> filed n'.
Proof.
  intros Hf Hs. destruct Hs; try done.
  - by apply (framed_send_text _ _ filed stable_filed).
  - by apply (framed_send_message _ _ _ _ filed stable_filed).
  - by apply (framed_send_request_async _ _ _ _ _ filed stable_filed).
  - by apply (framed_broadcast_message _ _ _ filed stable_filed).
  - by apply (framed_broadcast_request _ _ _ _ filed stable_filed).
  - by apply (framed_reply _ _ filed stable_filed).
  - by apply (handle_any_packet 0).
  - by apply (framed_on_timer 2 h filed stable_filed).
Qed.

Lemma reachable_filed n0 n : filed n0 -> rtc node_step n0 n -> filed n.
Proof. apply rtc_keeps. exact node_step_filed. Qed.

Lemma learn_key_settles (fuel : nat) (p cert : bytes) n :
  filed n -> settled p (learn_key uuid clock rand (pending_loop (handle_incoming_packet uuid clock rand parses (S fuel))) p cert n).1.2.
Proof.
  intros Hn. assert (triple in_fuel filed
    (learn_key uuid clock rand (pending_loop (handle_incoming_packet uuid clock rand parses (S fuel))) p cert)
    (fun _ n => filed n /\ settled p n)) as Ht.
  { unfold learn_key, update_identity. eapply triple_bind.
    - apply (triple_modify filed (fun n => filed n /\ known p n)). intros n' Hn'. split; [exact Hn'|].
      unfold known. simpl. by rewrite lookup_insert_eq.
    - intros u. eapply triple_bind; [apply pending_loop_spec; intros; by apply handle_waiting_packet|].
      intros u'. apply framed_pending_outgoing. apply stable_and; [apply stable_filed|apply stable_settled]. }
  by destruct (Ht n Hn) as [[_ ?] _].
Qed.
End node.

(** (C38) Handling an incoming packet ends: in every state the node reaches, two
    levels of recursion are enough for any packet, even though handling one may
    learn a key and handle the packets that waited for it, which may learn keys
    again; and once a key has been learned no packet of that peer waits any
    more. *)
Theorem incoming_recursion_ends {o : IterOrder} {wp : Wire RoutedPacket} {ssl : OpenSSL}
    {w1 : Wire IdentityRequest} {w2 : Wire IdentityResponse} {w3 : Wire PingRequest}
    {w4 : Wire PingResponse} {w5 : Wire TopologyRequest} {w6 : Wire TopologyResponse}
    (uuid : nat -> bytes) (clock : nat -> Z) (rand : nat -> Identity.draws) (parses : nat -> bytes -> bool)
    (self : bytes) (im : IdentityManager) (encrypt : bool) (now : Z) (n : MeshNode)
    (Him : pending_incoming_packets_ im = ∅)
    (Hreach : rtc (node_step uuid clock rand parses) (start (make_node self im encrypt now)) n) :
  (forall fuel pkt, OutOfFuel ∉ (handle_incoming_packet uuid clock rand parses (2 + fuel) pkt n).2) /\
  (forall p cert, settled p
     (learn_key uuid clock rand (handle_pending_incoming_packets uuid clock rand parses 1) p cert n).1.2).
Proof.
  assert (filed n) as Hf.
  { eapply reachable_filed; [|exact Hreach]. intros p l q. simpl. by rewrite Him, lookup_empty. }
  split.
  - intros fuel pkt. by apply in_fuel_all, handle_any_packet.
  - intros p cert. by apply (learn_key_settles uuid clock rand parses 0).
Qed.

Lemma incoming_recursion_ends_witness :
  let step := @node_step map_order packet_wire toy_ssl identity_request_wire identity_response_wire ping_request_wire
    ping_response_wire topology_request_wire topology_response_wire (fun _ => replicate 16 x01) (fun _ => 0%Z)
    (fun _ => demo_draws) (fun _ _ => true) in
  let pkt := set_payload (encrypted_payload [x00]) demo_packet in
  let run := @handle_incoming_packet map_order packet_wire toy_ssl identity_request_wire identity_response_wire
    ping_request_wire ping_response_wire topology_request_wire topology_response_wire (fun _ => replicate 16 x01)
    (fun _ => 0%Z) (fun _ => demo_draws) (fun _ _ => true) in
  let n := (run 2 pkt (start (demo_node [x62] new_manager))).1.2 in
  length (waiting true [x61] (identity_ n)) = 1 /\ OutOfFuel ∉ (run 2 pkt n).2.
Proof.
  intros step pkt run n. split; [vm_compute; reflexivity|].
  apply (proj1 (@incoming_recursion_ends map_order packet_wire toy_ssl identity_request_wire identity_response_wire
    ping_request_wire ping_response_wire topology_request_wire topology_response_wire (fun _ => replicate 16 x01)
    (fun _ => 0%Z) (fun _ => demo_draws) (fun _ _ => true) [x62] new_manager true 0%Z n eq_refl
    (rtc_once _ _ (node_incoming _ _ _ _ _ pkt)))).
Defined.

End Recursion.
