(* ===== verification/NodeOutput.v ===== *)
(** * What a node puts on the network

    Every packet a node sends on its own behalf is well-typed, and when
    encryption is on, messages, requests and replies leave sealed: with an
    encrypted payload, unless they belong to the exchange of identities
    (src/src/mesh/node/MeshNode.{h,cpp}). *)

From S2P Require Import Prelude Cxx Utils Packet MeshRouter RouterForward RequestTracker Crypto Identity MeshNode.
From S2P Require Import NodeCorrect NodeLogic NodeRecursion.

Module NodeOutput.
Import Utils Packet Router Forward Crypto Identity Node NodeLogic.

Implicit Types (n : MeshNode) (q pkt : RoutedPacket).

(** The type of a packet agrees with its payload. *)
Definition typed q : Prop :=
  match type q with
  | TEXT => exists s, payload q = text s
  | BINARY => exists s, payload q = binary_data s \/ payload q = encrypted_payload s
  | _ => False
  end.

(** A packet the node [self] originates: its time to live is that of the
    constructors less the first hop. *)
Definition originated (self : bytes) q : Prop := from_peer_id q = self /\ (1 <= ttl q <= 14)%Z /\ typed q.

Definition identity_exchange q : Prop :=
  subtype q = identity_request_subtype \/ subtype q = identity_response_subtype.

Definition sealed q : Prop := (exists s, payload q = encrypted_payload s) \/ identity_exchange q.

(** The packets among the actions that go to the transport layer. *)
Definition outgoing {wp : Wire RoutedPacket} (ok : RoutedPacket -> Prop) (a : node_action) : Prop :=
  match a with
  | Route (SendTcp _ e) => exists q, env_payload e = SerializeAsString q /\ ok q
  | Route (SendUdp _ q) => ok q
  | _ => True
  end.

Lemma outgoing_impl {wp : Wire RoutedPacket} (ok ok' : RoutedPacket -> Prop) a :
  (forall q, ok q -> ok' q) -> outgoing ok a -> outgoing ok' a.
Proof. intros H. destruct a as [[]| | | | | |]; simpl; naive_solver. Qed.

(** Packets that wait for a key have no content and are addressed to the peer
    they wait for. *)
Definition outbox_ok (self : bytes) n : Prop :=
  forall d l q, pending_outgoing_packets_ (identity_ n) !! d = Some l -> q ∈ l ->
    from_peer_id q = self /\ type q = BINARY /\ ttl q = DEFAULT_TTL.

Record inv (self : bytes) (encrypt : bool) n : Prop := {
  inv_name : peer_id_ n = self;
  inv_encrypt : encrypt_messages_ n = encrypt;
  inv_outbox : outbox_ok self n
}.

(** The invariant does not look at the rest of the node. *)
Lemma inv_same self encrypt n n' :
  peer_id_ n' = peer_id_ n -> encrypt_messages_ n' = encrypt_messages_ n ->
  pending_outgoing_packets_ (identity_ n') = pending_outgoing_packets_ (identity_ n) ->
  inv self encrypt n -> inv self encrypt n'.
Proof. intros H1 H2 H3 [I1 I2 I3]. split; [congruence..|]. intros d l q. rewrite H3. apply I3. Qed.

Section node.
Context {o : IterOrder} {laws : IterOrderLaws o} {wp : Wire RoutedPacket} {ssl : OpenSSL}.
Context {w1 : Wire IdentityRequest} {w2 : Wire IdentityResponse} {w3 : Wire PingRequest}
  {w4 : Wire PingResponse} {w5 : Wire TopologyRequest} {w6 : Wire TopologyResponse}.
Context (uuid : nat -> bytes) (clock : nat -> Z) (rand : nat -> Identity.draws) (parses : nat -> bytes -> bool).
Context (self : bytes) (encrypt : bool).

(** What leaves the node, and what leaves it when it answers or sends to one
    peer. *)
Definition fine q : Prop := originated self q /\ (encrypt = true -> sealed q).

(** A packet handed to the router leaves with its time to live lowered. *)
Definition good (ok : RoutedPacket -> Prop) pkt : Prop := ok (hop_packet pkt).

Lemma keeps_router_send ok pkt : good ok pkt -> keeps (outgoing ok) (inv self encrypt) (router_send uuid clock pkt).
Proof using laws.
  intros Hok n Hn. unfold router_send, send_packet, route_data_packet.
  set (x := if (bool_decide (to_peer_id pkt = []) || _) && _ && _ then _ else _).
  assert (x.1.2 = pkt /\ Forall (fun a => outgoing ok (Route a)) x.2) as [E1 E2].
  { unfold x. destruct (_ && _); simpl; [|done]. split; [done|]. by constructor. }
  destruct x as [[r1 p1] acts1]. simpl in E1, E2. subst p1.
  assert (forall acts : list Router.action, Forall (fun a => outgoing ok (Route a)) acts -> forall r,
    inv self encrypt (with_router r (S (ticks n)) n) /\ Forall (outgoing ok) (Route <$> acts)) as Hend.
  { intros acts Ha r. split; [by eapply inv_same; [..|exact Hn]|]. by apply Forall_fmap. }
  case_bool_decide; [by apply Hend|]. destruct (_ && _); [by apply Hend|].
  set (r2 := with_seen _ r1). pose proof (forward_elem uuid (self_id_ (router_ n)) pkt r2) as Hf.
  destruct (forward _ _ pkt r2) as [r3 sent]. simpl in Hf. apply Hend. apply Forall_app. split; [done|].
  apply Forall_forall. intros a Ha. destruct (Hf a Ha) as (u & m & Hs & _). unfold send_action in Hs.
  destruct (transport _) in Hs; simplify_eq; [|done]. simpl. by eexists.
Qed.

(** A fresh binary packet, and what is done with it. *)
Lemma keeps_binary {B} ok to ttl sub tr raw e (k : RoutedPacket -> M B) :
  (forall u, keeps (outgoing ok) (inv self encrypt) (k (MakeBinaryRoutedPacket u self to ttl sub tr raw e))) ->
  keeps (outgoing ok) (inv self encrypt) (make_binary uuid to ttl sub tr raw e ≫= k).
Proof.
  intros Hk n Hn. rewrite run_make_binary, (inv_name _ _ n Hn). apply Hk. by eapply inv_same; [..|exact Hn].
Qed.

(** Encryption either fails or gives a sealed packet. *)
Lemma secure_packet_seals im d pkt target raw pkt' :
  secure_packet im d pkt target raw = (true, pkt') ->
  exists s sig key, pkt' = set_security sig key (set_payload (encrypted_payload s) pkt).
Proof. unfold secure_packet. intros H. repeat (case_in H; try done). injection H as <-. by eexists _, _, _. Qed.

Lemma keeps_secure {B} ok pkt target raw (k : bool * RoutedPacket -> M B) :
  (forall s sig key, keeps (outgoing ok) (inv self encrypt)
     (k (true, set_security sig key (set_payload (encrypted_payload s) pkt)))) ->
  (forall pkt', keeps (outgoing ok) (inv self encrypt) (k (false, pkt'))) ->
  keeps (outgoing ok) (inv self encrypt) (secure rand pkt target raw ≫= k).
Proof.
  intros Ht Hf n Hn. unfold secure. rewrite (run_silent _ _ _ _ _ eq_refl).
  assert (inv self encrypt (with_identity (identity_ n) (S (crypto_draws n)) n)) as Hn'
    by (by eapply inv_same; [..|exact Hn]).
  destruct (secure_packet _ _ _ _ _) as [[] pkt'] eqn:E; [|by apply Hf].
  apply secure_packet_seals in E as (s & sig & key & ->). by apply Ht.
Qed.
(** ** The packets of the constructors *)

(** Packets ready for the router. *)
Definition ready q : Prop := from_peer_id q = self /\ type q = BINARY /\ (2 <= ttl q <= 15)%Z.

Lemma good_ready q ok :
  ready q -> (exists s, payload q = binary_data s \/ payload q = encrypted_payload s) ->
  (forall q', originated self q' -> payload q' = payload q -> subtype q' = subtype q -> ok q') -> good ok q.
Proof.
  intros (Hf & Ht & Hl) Hp Hok. apply Hok; [|done..]. split; [exact Hf|]. split; [rewrite hop_ttl; lia|].
  unfold typed. simpl. by rewrite Ht.
Qed.

Lemma good_sealed q (x sig key : bytes) :
  ready q -> good fine (set_security sig key (set_payload (encrypted_payload x) q)).
Proof.
  intros Hr. apply good_ready; [done|by exists x; right|]. intros q' Ho Hp _. split; [done|]. intros _.
  left. by exists x.
Qed.

Lemma good_plain q x :
  ready q -> payload q = binary_data x -> (encrypt = true -> identity_exchange q) -> good fine q.
Proof.
  intros Hr Hp He. apply good_ready; [done|by exists x; left|]. intros q' Ho _ Hs. split; [done|].
  intros Henc. right. unfold identity_exchange. rewrite Hs. by apply He.
Qed.

Lemma ready_binary u to ttl sub tr raw e :
  (2 <= ttl <= 15)%Z -> ready (MakeBinaryRoutedPacket u self to ttl sub tr raw e).
Proof. intros H. split; [done|]. split; [done|]. simpl. rewrite u32_small; lia. Qed.

Abbreviation kept m := (keeps (outgoing fine) (inv self encrypt) m).

Lemma keeps_silent f :
  (forall n, peer_id_ (f n) = peer_id_ n /\ encrypt_messages_ (f n) = encrypt_messages_ n /\
     pending_outgoing_packets_ (identity_ (f n)) = pending_outgoing_packets_ (identity_ n)) ->
  kept (modify f).
Proof. intros H. apply keeps_modify. intros n Hn. destruct (H n) as (? & ? & ?). by eapply inv_same. Qed.

(** ** The operations *)

Lemma keeps_should p : kept (should_send_identity_request clock p).
Proof.
  unfold should_send_identity_request. apply keeps_bind.
  { intros n Hn. split; [|done]. by eapply inv_same; [..|exact Hn]. }
  intros now. apply keeps_bind; [apply keeps_gets|]. intros cs. case_goal; [apply keeps_ret|].
  apply keeps_bind; [by apply keeps_silent|]. intros u. apply keeps_ret.
Qed.

Lemma keeps_buffer d u sub tr e :
  kept (update_identity (buffer_outgoing_packet d (MakeBinaryRoutedPacket u self d DEFAULT_TTL sub tr [] e))).
Proof.
  apply keeps_modify. intros n [I1 I2 I3]. split; [done..|]. intros d' l q. simpl. unfold push_packet.
  destruct (decide (d' = d)) as [->|Hne]; [|rewrite lookup_insert_ne by done; by apply I3].
  rewrite lookup_insert_eq. intros [= <-] [Hq| ->%list_elem_of_singleton]%elem_of_app; [|done].
  destruct (pending_outgoing_packets_ (identity_ n) !! d) as [l|] eqn:E; [by eapply I3|by apply not_elem_of_nil in Hq].
Qed.

Lemma keeps_request si subtype ser dest cb tr :
  (forall d, kept (si d)) -> kept (send_request_with uuid clock rand si subtype ser dest cb tr).
Proof using laws.
  intros Hsi. unfold send_request_with.
  apply (keeps_gets_known encrypt_messages_ (fun b => b = encrypt)); [intros n Hn; apply (inv_encrypt _ _ n Hn)|].
  intros b ->. apply keeps_if; intros Hb; apply keeps_binary; intros u.
  - apply keeps_bind; [apply keeps_gets|]. intros [|]; cbn [negb].
    + apply keeps_secure; [intros s sig key|intros pkt']; cbn [negb].
      * apply keeps_bind; [by apply keeps_silent|]. intros _. apply keeps_router_send, good_sealed, ready_binary.
        unfold DEFAULT_TTL. lia.
      * unfold fail_request. destruct cb; [apply keeps_ret|by apply keeps_emit|apply keeps_ret].
    + apply keeps_bind; [by apply keeps_silent|]. intros _. apply keeps_bind; [apply keeps_buffer|]. intros _.
      apply keeps_bind; [apply keeps_should|]. intros [|]; [apply Hsi|apply keeps_ret].
  - apply keeps_bind; [by apply keeps_silent|]. intros _.
    apply keeps_router_send, (good_plain _ ser); [apply ready_binary; unfold DEFAULT_TTL; lia|done|].
    intros ->. apply negb_false_iff, bool_decide_eq_true in Hb as ->. by left.
Qed.

Lemma keeps_identity_request dest : kept (send_identity_request uuid clock rand dest).
Proof using laws.
  apply keeps_bind; [apply keeps_gets|]. intros cert. apply keeps_request. intros d. apply keeps_ret.
Qed.

Lemma keeps_request_async subtype ser dest cb tr : kept (send_request_async uuid clock rand subtype ser dest cb tr).
Proof using laws. apply keeps_request. apply keeps_identity_request. Qed.

Lemma keeps_send_message subtype ser dest tr : kept (send_message uuid clock rand subtype ser dest tr).
Proof using laws.
  unfold send_message.
  apply (keeps_gets_known encrypt_messages_ (fun b => b = encrypt)); [intros n Hn; apply (inv_encrypt _ _ n Hn)|].
  intros b ->. apply keeps_if; intros Hb; apply keeps_binary; intros u.
  - apply keeps_bind; [apply keeps_gets|]. intros [|]; cbn [negb].
    + apply keeps_secure; [intros s sig key|intros pkt']; cbn [negb]; [|apply keeps_ret].
      apply keeps_router_send, good_sealed, ready_binary. unfold DEFAULT_TTL. lia.
    + apply keeps_bind; [apply keeps_buffer|]. intros _.
      apply keeps_bind; [apply keeps_should|]. intros [|]; [apply keeps_identity_request|apply keeps_ret].
  - apply keeps_router_send, (good_plain _ ser); [apply ready_binary; unfold DEFAULT_TTL; lia|done|].
    intros ->. apply negb_false_iff, bool_decide_eq_true in Hb as ->. by left.
Qed.

Lemma keeps_reply x s : kept (reply uuid clock rand x s).
Proof using laws.
  unfold reply. apply keeps_if; intros _; [apply keeps_ret|]. apply keeps_binary. intros u.
  apply (keeps_gets_known encrypt_messages_ (fun b => b = encrypt)); [intros n Hn; apply (inv_encrypt _ _ n Hn)|].
  intros b ->. assert (ready (set_id (reply_id x) (MakeBinaryRoutedPacket u self (reply_to x) 15
    (default [] (reply_subtype x)) (reply_transport x) s false))) as Hr by (by apply ready_binary).
  apply keeps_if; intros Hb.
  - apply keeps_secure; [intros s' sig key|intros pkt']; cbn [negb]; [|apply keeps_ret].
    by apply keeps_router_send, good_sealed.
  - apply keeps_router_send, (good_plain _ s); [done..|]. intros ->. apply negb_false_iff, orb_true_iff in Hb.
    rewrite !bool_decide_eq_true in Hb. destruct Hb as [Hb|Hb]; [left|right]; exact Hb.
Qed.

Lemma keeps_pending_outgoing dest : kept (handle_pending_outgoing_packets uuid clock rand dest).
Proof using laws.
  unfold handle_pending_outgoing_packets.
  apply (keeps_gets_known _ (fun l => forall q, q ∈ l -> ready q)).
  { intros n [_ _ Ho] q. unfold pop_outgoing_pending_packets.
    destruct (pending_outgoing_packets_ (identity_ n) !! dest) as [l|] eqn:E; simpl; [|by intros ?%not_elem_of_nil].
    intros Hq. destruct (Ho dest l q E Hq) as (? & ? & Ht). split; [done|]. split; [done|]. rewrite Ht. unfold DEFAULT_TTL. lia. }
  intros l Hl. apply keeps_bind.
  { apply keeps_modify. intros n [I1 I2 I3]. split; [done..|]. intros d l' q. simpl. unfold pop_outgoing_pending_packets.
    destruct (pending_outgoing_packets_ (identity_ n) !! dest); simpl; [|by apply I3].
    intros [_ H]%lookup_delete_Some. exact (I3 d l' q H). }
  intros _. apply keeps_for_all. intros q Hq.
  apply keeps_secure; [intros s sig key|intros pkt']; cbn [negb]; [|apply keeps_ret].
  apply keeps_router_send, good_sealed. by apply Hl.
Qed.
#[local] Hint Resolve keeps_reply keeps_pending_outgoing keeps_should keeps_identity_request : node_logic.

Section body.
Context (rec : bytes -> M unit).
Hypothesis Hrec : forall p, kept (rec p).

Lemma keeps_learn_key p cert : kept (learn_key uuid clock rand rec p cert).
Proof using Hrec laws.
  apply keeps_bind; [by apply keeps_silent|]. intros _. apply keeps_bind; [apply Hrec|]. auto with node_logic.
Qed.

Lemma keeps_run_call c : kept (run_call uuid clock rand parses rec c).
Proof using Hrec laws.
  destruct c as [[dest|k|k] from [raw|]|[dest|k|k] from raw|[dest|k|k]]; cbn [run_call on_identity_response internal_cb];
    try case_goal; by (apply keeps_ret || apply keeps_emit || apply keeps_learn_key).
Qed.

Lemma keeps_run_handler h from raw x : kept (run_handler uuid clock rand parses rec h from raw x).
Proof using Hrec laws.
  destruct h as [| | | |k]; cbn [run_handler]; try case_goal; try apply keeps_ret.
  - apply keeps_bind; auto with node_logic.
  - apply keeps_bind; auto with node_logic.
  - apply keeps_bind; [apply keeps_learn_key|]. intros _. apply keeps_bind; auto with node_logic.
  - by apply keeps_emit.
Qed.

Lemma keeps_plain pkt : kept (handle_plain_packet uuid clock rand parses rec pkt).
Proof using Hrec laws.
  apply keeps_bind; [apply keeps_gets|]. intros t.
  destruct (Tracker.fulfill_request _ _ _ t) as [[b t'] calls].
  apply keeps_bind; [by apply keeps_silent|]. intros _.
  apply keeps_bind; [apply keeps_for_all; intros; apply keeps_run_call|]. intros _.
  destruct b; [apply keeps_ret|]. destruct (type pkt); [apply keeps_ret|by apply keeps_emit| |apply keeps_ret].
  apply keeps_bind; [apply keeps_gets|]. intros hs. destruct (hs !! subtype pkt); [|apply keeps_ret].
  apply keeps_run_handler.
Qed.

Lemma keeps_body pkt : kept (handle_packet_body uuid clock rand parses rec pkt).
Proof using Hrec laws.
  assert (forall q, kept (handle_plain_packet uuid clock rand parses rec q ≫= fun _ => mret q)) as Hplain
    by (intros q; apply keeps_bind; [apply keeps_plain|]; auto with node_logic).
  apply keeps_bind; [apply keeps_gets|]. intros [|]; [apply keeps_ret|].
  destruct (has_encrypted_payload pkt); [|apply Hplain].
  apply keeps_bind; [apply keeps_gets|]. intros [|]; cbn [negb].
  - apply keeps_bind; [apply keeps_gets|]. intros [s|e]; [apply Hplain|apply keeps_ret].
  - apply keeps_bind; [by apply keeps_silent|]. intros _. apply keeps_bind; [apply keeps_should|]. intros b.
    apply keeps_bind; [destruct b|]; auto with node_logic.
Qed.
End body.

Lemma keeps_pending_incoming (handle : RoutedPacket -> M RoutedPacket) src :
  (forall q, kept (handle q)) -> kept (Recursion.pending_loop handle src).
Proof.
  intros Hh. apply keeps_bind; [apply keeps_gets|]. intros l. apply keeps_bind.
  - apply keeps_silent. intros n. simpl. unfold pop_incoming_pending_packets.
    by destruct (pending_incoming_packets_ (identity_ n) !! src).
  - intros _. apply keeps_for_all. intros q _. apply keeps_bind; [apply Hh|]. intros _. apply keeps_ret.
Qed.

Lemma keeps_incoming (fuel : nat) pkt : kept (handle_incoming_packet uuid clock rand parses fuel pkt).
Proof using laws.
  revert pkt. induction fuel as [|fuel IH]; intros pkt.
  - cbn [handle_incoming_packet]. apply keeps_bind; [by apply keeps_emit|]. intros _. apply keeps_ret.
  - rewrite Recursion.handle_incoming_S. apply keeps_body. intros p. by apply keeps_pending_incoming.
Qed.

Lemma keeps_on_timer (fuel : nat) h : kept (on_timer uuid clock rand parses fuel h).
Proof using laws.
  apply keeps_bind; [apply keeps_gets|]. intros t. destruct (Tracker.handle_wait h t) as [t' calls].
  apply keeps_bind; [by apply keeps_silent|]. intros _. apply keeps_for_all. intros c _. apply keeps_run_call.
  intros p. apply keeps_pending_incoming, keeps_incoming.
Qed.

(** Texts and broadcasts are never encrypted. *)
Abbreviation typed_only m := (keeps (outgoing (originated self)) (inv self encrypt) m).

Lemma keeps_text dest s : typed_only (send_text uuid clock dest s).
Proof using laws.
  intros n Hn. unfold send_text, draw_uuid. rewrite (run_silent _ _ _ _ _ eq_refl), run_gets.
  apply keeps_router_send; [|by eapply inv_same; [..|exact Hn]]. simpl. rewrite (inv_name _ _ n Hn).
  split; [done|]. split; [vm_compute; by split|]. by exists s.
Qed.

Lemma good_broadcast u ttl sub tr raw e :
  (2 <= ttl <= 15)%Z -> good (originated self) (MakeBinaryRoutedPacket u self [] ttl sub tr raw e).
Proof. intros H. apply good_ready; [by apply ready_binary|by exists raw; left|done]. Qed.

Lemma keeps_broadcast_message subtype ser tr : typed_only (broadcast_message uuid clock subtype ser tr).
Proof using laws.
  apply keeps_binary. intros u. apply keeps_router_send, good_broadcast. unfold DEFAULT_TTL. lia.
Qed.

Lemma keeps_broadcast_request subtype ser k tr : typed_only (broadcast_request uuid clock subtype ser k tr).
Proof using laws.
  apply keeps_binary. intros u. apply keeps_bind.
  - apply keeps_modify. intros n. by apply inv_same.
  - intros _. apply keeps_router_send, good_broadcast. lia.
Qed.

Lemma keeps_weaken {A} (m : M A) : kept m -> typed_only m.
Proof.
  intros H n Hn. destruct (H n Hn) as [? Ha]. split; [done|]. eapply Forall_impl; [exact Ha|].
  intros a. apply outgoing_impl. by intros q [? _].
Qed.

Lemma node_step_inv n n' : inv self encrypt n -> Recursion.node_step uuid clock rand parses n n' -> inv self encrypt n'.
Proof using laws.
  intros Hn Hs. destruct Hs; try (by eapply inv_same; [..|exact Hn]).
  - by apply keeps_text.
  - by apply keeps_send_message.
  - by apply keeps_request_async.
  - by apply keeps_broadcast_message.
  - by apply keeps_broadcast_request.
  - by apply keeps_reply.
  - by apply keeps_incoming.
  - by apply keeps_on_timer.
Qed.

Lemma node_reachable_inv im now n :
  pending_outgoing_packets_ im = ∅ ->
  rtc (Recursion.node_step uuid clock rand parses) (start (make_node self im encrypt now)) n -> inv self encrypt n.
Proof using laws.
  intros Him. apply rtc_keeps; [exact node_step_inv|]. split; [done..|]. intros d l q. simpl. by rewrite Him, lookup_empty.
Qed.

(** ** Everything a node emits *)

(** The actions of one call, with whether it sends to single peers only. *)
Inductive emission n : bool -> list node_action -> Prop :=
| emit_message subtype ser dest tr : emission n true (send_message uuid clock rand subtype ser dest tr n).2
| emit_request subtype ser dest cb tr : emission n true (send_request_async uuid clock rand subtype ser dest cb tr n).2
| emit_reply x s : emission n true (reply uuid clock rand x s n).2
| emit_incoming fuel pkt : emission n true (handle_incoming_packet uuid clock rand parses fuel pkt n).2
| emit_timer fuel h : emission n true (on_timer uuid clock rand parses fuel h n).2
| emit_text dest s : emission n false (send_text uuid clock dest s n).2
| emit_broadcast subtype ser tr : emission n false (broadcast_message uuid clock subtype ser tr n).2
| emit_broadcast_request subtype ser k tr : emission n false (broadcast_request uuid clock subtype ser k tr n).2.

Lemma emission_fine n acts : inv self encrypt n -> emission n true acts -> Forall (outgoing fine) acts.
Proof using laws.
  intros Hn He. remember true as b eqn:Hb. destruct He; try done.
  - by apply keeps_send_message.
  - by apply keeps_request_async.
  - by apply keeps_reply.
  - by apply keeps_incoming.
  - by apply keeps_on_timer.
Qed.

Lemma emission_typed n b acts : inv self encrypt n -> emission n b acts -> Forall (outgoing (originated self)) acts.
Proof using laws.
  intros Hn He. destruct b.
  - eapply Forall_impl; [by eapply emission_fine|]. intros a. apply outgoing_impl. by intros q [? _].
  - remember false as b eqn:Hb. destruct He; try done.
    + by apply keeps_text.
    + by apply keeps_broadcast_message.
    + by apply keeps_broadcast_request.
Qed.
End node.

(** (C16) What a node sends is well-typed.  In every state it reaches, whatever it
    does (messages, requests, replies, texts, broadcasts, handling a packet or a
    time-out), every packet it hands to the transport layer on its own behalf
    carries its own name, a time to live from 1 to 14, and a payload that fits
    its type: a text packet a text, a binary packet plain or encrypted bytes, and
    no other type. *)
Theorem node_output_typed {o : IterOrder} {laws : IterOrderLaws o} {wp : Wire RoutedPacket} {ssl : OpenSSL}
    {w1 : Wire IdentityRequest} {w2 : Wire IdentityResponse} {w3 : Wire PingRequest}
    {w4 : Wire PingResponse} {w5 : Wire TopologyRequest} {w6 : Wire TopologyResponse}
    (uuid : nat -> bytes) (clock : nat -> Z) (rand : nat -> Identity.draws) (parses : nat -> bytes -> bool)
    (self : bytes) (im : IdentityManager) (encrypt : bool) (now : Z) (n : MeshNode)
    (directed : bool) (acts : list node_action)
    (Him : pending_outgoing_packets_ im = ∅)
    (Hreach : rtc (Recursion.node_step uuid clock rand parses) (start (make_node self im encrypt now)) n)
    (Hemit : emission uuid clock rand parses n directed acts) :
  Forall (outgoing (originated self)) acts.
Proof. eapply emission_typed; [|exact Hemit]. by eapply node_reachable_inv. Qed.

(** (C15) No plain text.  When encryption is on, in every state the node reaches,
    every packet that a message or request to a peer, a reply, the handling of
    any incoming packet or a time-out hands to the transport layer has an
    encrypted payload, unless it belongs to the exchange of identities. *)
Theorem encrypted_node_seals {o : IterOrder} {laws : IterOrderLaws o} {wp : Wire RoutedPacket} {ssl : OpenSSL}
    {w1 : Wire IdentityRequest} {w2 : Wire IdentityResponse} {w3 : Wire PingRequest}
    {w4 : Wire PingResponse} {w5 : Wire TopologyRequest} {w6 : Wire TopologyResponse}
    (uuid : nat -> bytes) (clock : nat -> Z) (rand : nat -> Identity.draws) (parses : nat -> bytes -> bool)
    (self : bytes) (im : IdentityManager) (now : Z) (n : MeshNode) (acts : list node_action)
    (Him : pending_outgoing_packets_ im = ∅)
    (Hreach : rtc (Recursion.node_step uuid clock rand parses) (start (make_node self im true now)) n)
    (Hemit : emission uuid clock rand parses n true acts) :
  Forall (outgoing sealed) acts.
Proof.
  eapply Forall_impl; [eapply emission_fine; [by eapply node_reachable_inv|exact Hemit]|].
  intros a. apply outgoing_impl. intros q [_ Hq]. by apply Hq.
Qed.

(** ** A concrete node: Alice with a route to Bob *)

Definition demo_node : MeshNode :=
  let n := start (make_node [x61] alice true 0) in
  with_router (with_tables {[ [x62] := Router.Route [x62] 1 false 0 ]} ∅ (router_ n)) (ticks n) n.

Definition demo_step : MeshNode -> MeshNode -> Prop :=
  @Recursion.node_step map_order packet_wire toy_ssl NodeCorrect.identity_request_wire
    NodeCorrect.identity_response_wire NodeCorrect.ping_request_wire NodeCorrect.ping_response_wire
    NodeCorrect.topology_request_wire NodeCorrect.topology_response_wire
    (fun _ => replicate 16 x11) (fun _ => 0%Z) (fun _ => demo_draws) (fun _ _ => true).

Lemma demo_node_reached : rtc demo_step (start (make_node [x61] alice true 0)) demo_node.
Proof. apply rtc_once. constructor. Qed.

Lemma node_output_typed_witness :
  let acts := (@send_text map_order packet_wire (fun _ => replicate 16 x11) (fun _ => 0%Z) [x62] (lit "hi")%mesh demo_node).2 in
  length acts = 1 /\ Forall (@outgoing packet_wire (originated [x61])) acts.
Proof.
  intros acts. split; [vm_compute; reflexivity|].
  apply (@node_output_typed map_order map_order_laws packet_wire toy_ssl NodeCorrect.identity_request_wire
    NodeCorrect.identity_response_wire NodeCorrect.ping_request_wire NodeCorrect.ping_response_wire
    NodeCorrect.topology_request_wire NodeCorrect.topology_response_wire
    (fun _ => replicate 16 x11) (fun _ => 0%Z) (fun _ => demo_draws) (fun _ _ => true) [x61] alice true 0 demo_node
    false acts).
  - reflexivity.
  - exact demo_node_reached.
  - constructor.
Defined.

Lemma encrypted_node_seals_witness :
  let acts := (@send_message map_order packet_wire toy_ssl NodeCorrect.identity_request_wire
    (fun _ => replicate 16 x11) (fun _ => 0%Z) (fun _ => demo_draws) (lit "myapp.Note")%mesh (lit "hi")%mesh [x62] TCP
    demo_node).2 in
  length acts = 1 /\ Forall (@outgoing packet_wire sealed) acts.
Proof.
  intros acts. split; [vm_compute; reflexivity|].
  apply (@encrypted_node_seals map_order map_order_laws packet_wire toy_ssl NodeCorrect.identity_request_wire
    NodeCorrect.identity_response_wire NodeCorrect.ping_request_wire NodeCorrect.ping_response_wire
    NodeCorrect.topology_request_wire NodeCorrect.topology_response_wire
    (fun _ => replicate 16 x11) (fun _ => 0%Z) (fun _ => demo_draws) (fun _ _ => true) [x61] alice 0 demo_node acts).
  - reflexivity.
  - exact demo_node_reached.
  - constructor.
Defined.

End NodeOutput.
