(* ===== verification/NodeRate.v ===== *)
(** * How often a node asks for an identity

    Whatever a node is told to send and whatever it receives, it sends a peer at
    most one request for its identity in five seconds: the guard
    [should_send_identity_request] stands before every call of
    [send_identity_request] (src/src/mesh/node/MeshNode.{h,cpp}).  The proof counts
    the requests among the packets a computation hands to the transport layer
    against the time at which the next one will be allowed. *)

From S2P Require Import Prelude Cxx Utils Packet MeshRouter RouterForward RequestTracker Crypto Identity MeshNode.
From S2P Require Import NodeCorrect NodeLogic NodeRecursion NodeOutput.

Module NodeRate.
Import Utils Packet Router Forward Crypto Identity Node NodeCorrect NodeOutput.

Implicit Types (n : MeshNode) (q pkt : RoutedPacket).

(** What protobuf parses from a serialised message is that message. *)
Class PacketExact {w : Wire RoutedPacket} : Prop :=
  packet_exact : forall q q', packet_u32 q = true -> ParseFromString (SerializeAsString q) = Some q' -> q' = q.

(** A request for the identity of [p]. *)
Definition asks (p : bytes) q : bool :=
  bool_decide (to_peer_id q = p) && bool_decide (subtype q = identity_request_subtype) && expect_response q.

Definition is_request {w : Wire RoutedPacket} (p : bytes) (a : node_action) : bool :=
  match a with
  | Route (SendTcp _ e) => match decodeRoutedPacket (env_payload e) with Some q => asks p q | None => false end
  | Route (SendUdp _ q) => asks p q
  | _ => false
  end.

(** The number of requests for the identity of [p] that leave the node. *)
Definition request_count {w : Wire RoutedPacket} (p : bytes) (acts : list node_action) : nat :=
  length (filter (fun a => is_request p a = true) acts).

Lemma request_count_app {w : Wire RoutedPacket} p l1 l2 : request_count p (l1 ++ l2) = request_count p l1 + request_count p l2.
Proof. unfold request_count. by rewrite filter_app, length_app. Qed.

Lemma request_count_none {w : Wire RoutedPacket} p l : Forall (fun a => is_request p a = false) l -> request_count p l = 0.
Proof.
  unfold request_count. induction 1 as [|a l Ha _ IH]; [done|]. by rewrite filter_cons, Ha.
Qed.

Lemma request_count_le {w : Wire RoutedPacket} p l : request_count p l <= length l.
Proof. apply length_filter. Qed.

Section rate.
Context {o : IterOrder} {laws : IterOrderLaws o} {wp : Wire RoutedPacket} {exact : PacketExact} {ssl : OpenSSL}.
Context {w1 : Wire IdentityRequest} {w2 : Wire IdentityResponse} {w3 : Wire PingRequest}
  {w4 : Wire PingResponse} {w5 : Wire TopologyRequest} {w6 : Wire TopologyResponse}.
Context (uuid : nat -> bytes) (clock : nat -> Z) (rand : nat -> Identity.draws) (parses : nat -> bytes -> bool).
Context (Hclock : forall i j : nat, i <= j -> (clock i <= clock j)%Z).
Context (p : bytes) (Hp : p <> []).

(** A packet that is not such a request. *)
Definition harmless q : Prop := get_route_table q = ∅ /\ asks p q = false.

(** ** Sending *)

Lemma sent_request q u m a :
  get_route_table q = ∅ -> send_action u (hop_packet q) m = Some a -> is_request p (Route a) = true -> asks p q = true.
Proof using exact.
  intros Ht. unfold send_action. destruct (transport _); [..|done]; intros [= <-]; simpl; [|done].
  unfold decodeRoutedPacket. destruct (ParseFromString _) as [q'|] eqn:E; [|done].
  apply packet_exact in E as ->; [done|]. unfold packet_u32, is_u32.
  change (get_route_table (hop_packet q)) with (get_route_table q). rewrite Ht. simpl. unfold u32.
  pose proof (Z.mod_pos_bound (ttl q - 1) (2 ^ 32) ltac:(lia)).
  rewrite (proj2 (Z.leb_le _ _)), (proj2 (Z.ltb_lt _ _)) by lia. done.
Qed.

Lemma forward_requests src q r :
  get_route_table q = ∅ ->
  request_count p (Route <$> (forward uuid src q r).2) <= if asks p q then 1 else 0.
Proof using exact laws Hp.
  intros Ht. destruct (asks p q) eqn:Ea.
  - etrans; [apply request_count_le|]. rewrite length_fmap, forward_actions.
    destruct (_ || _); [simpl; lia|].
    assert (length (targets src q r) <= 1) as Hl.
    { etrans; [apply length_filter|]. unfold determine_next_hop.
      assert (to_peer_id q = p) as -> by (unfold asks in Ea; rewrite !andb_true_iff, !bool_decide_eq_true in Ea; tauto).
      rewrite bool_decide_false by done. destruct (forwarding_table_ r !! p); [|simpl; lia].
      destruct (_ <=? _)%Z; simpl; lia. }
    destruct (transport q); [by rewrite length_imap|by rewrite length_map|simpl; lia].
  - rewrite request_count_none; [done|]. apply Forall_fmap, Forall_forall. intros a Ha. simpl.
    destruct (forward_elem uuid src q r a Ha) as (u & m & Hs & _).
    destruct (is_request p (Route a)) eqn:E; [|done]. by rewrite (sent_request q u m a Ht Hs E) in Ea.
Qed.

Lemma router_send_requests q n :
  get_route_table q = ∅ -> request_count p (router_send uuid clock q n).2 <= if asks p q then 1 else 0.
Proof using exact laws Hp.
  intros Ht. unfold router_send, send_packet, route_data_packet.
  set (x := if (bool_decide (to_peer_id q = []) || _) && _ && _ then _ else _).
  assert (x.1.2 = q /\ request_count p (Route <$> x.2) = 0) as [E1 E2] by (unfold x; by destruct (_ && _)).
  destruct x as [[r1 q1] acts]. simpl in E1, E2. subst q1. case_bool_decide; [simpl; lia|].
  destruct (_ && _); [simpl; lia|]. set (r2 := with_seen _ r1).
  pose proof (forward_requests (self_id_ (router_ n)) q r2 Ht) as Hf.
  destruct (forward _ _ q r2) as [r3 sent]. simpl in *. rewrite fmap_app, request_count_app. lia.
Qed.

(** ** The account *)

Context (T0 : Z).

(** From when on the next request is allowed, counted from [T0]. *)
Definition allowed n : Z :=
  match id_request_cooldowns_ n !! p with Some last => Z.max (last + seconds 5) T0 | None => T0 end.

(** Time has passed [T0], and no request waits for a key. *)
Definition fit n : Prop :=
  (T0 <= clock (ticks n))%Z /\
  forall d l q, pending_outgoing_packets_ (identity_ n) !! d = Some l -> q ∈ l -> harmless q.

(** A computation that may send [before] requests that have been allowed, and
    leaves [after]: each further one moves the time of the next by five seconds. *)
Definition metered {A} (before : nat) (m : M A) (after : A -> nat) : Prop :=
  forall n, fit n -> let '(a, n', acts) := m n in
    fit n' /\ ticks n <= ticks n' /\ (allowed n' <= Z.max (allowed n) (clock (ticks n') + seconds 5))%Z /\
    (allowed n + seconds 5 * Z.of_nat (request_count p acts + after a) <= allowed n' + seconds 5 * Z.of_nat before)%Z.

Abbreviation paced m := (metered 0 m (fun _ => 0)).

(** What only looks at or changes other parts of the node. *)
Definition same_account n n' : Prop :=
  ticks n' = ticks n /\ id_request_cooldowns_ n' = id_request_cooldowns_ n /\
  pending_outgoing_packets_ (identity_ n') = pending_outgoing_packets_ (identity_ n).

Lemma fit_later n n' :
  fit n -> ticks n <= ticks n' -> pending_outgoing_packets_ (identity_ n') = pending_outgoing_packets_ (identity_ n) ->
  fit n'.
Proof using Hclock.
  intros [Ht Hq] Hle E. split; [pose proof (Hclock _ _ Hle); lia|]. by rewrite E.
Qed.

(** A computation that sends at most what was allowed and asks nothing. *)
Lemma metered_quiet {A} (before : nat) (m : M A) :
  (forall n, fit n -> let '(a, n', acts) := m n in
     fit n' /\ ticks n <= ticks n' /\ id_request_cooldowns_ n' = id_request_cooldowns_ n /\ request_count p acts <= before) ->
  metered before m (fun _ => 0).
Proof.
  intros H n Hn. specialize (H n Hn). destruct (m n) as [[a n'] acts]. destruct H as (? & ? & E & ?).
  assert (allowed n' = allowed n) as -> by (unfold allowed; by rewrite E). split_and!; [done..|lia|].
  unfold seconds. lia.
Qed.

Lemma metered_ret {A} (before : nat) (a : A) : metered before (mret a) (fun _ => 0).
Proof. apply metered_quiet. intros n Hn. split_and!; try done. unfold request_count. simpl. lia. Qed.

Lemma paced_gets {A} (f : MeshNode -> A) : paced (gets f).
Proof. by apply metered_quiet. Qed.

Lemma paced_modify f : (forall n, same_account n (f n)) -> paced (modify f).
Proof using Hclock.
  intros Hf. apply metered_quiet. intros n Hn. destruct (Hf n) as (E1 & E2 & E3). simpl.
  split_and!; [eapply fit_later; [done|by rewrite E1|done]|by rewrite E1|done|done].
Qed.

Lemma paced_emit a : is_request p a = false -> paced (emit a).
Proof. intros Ha. apply metered_quiet. intros n Hn. simpl. by rewrite request_count_none by (by constructor). Qed.

Lemma metered_bind {A B} (c : nat) (m : M A) (c1 : A -> nat) (f : A -> M B) (c2 : B -> nat) :
  metered c m c1 -> (forall a, metered (c1 a) (f a) c2) -> metered c (m ≫= f) c2.
Proof using Hclock.
  intros Hm Hf n Hn. specialize (Hm n Hn). unfold mbind, M_bind. destruct (m n) as [[a n1] l1].
  destruct Hm as (Hn1 & Ht1 & Hb1 & Hc1). specialize (Hf a n1 Hn1). destruct (f a n1) as [[b n2] l2].
  destruct Hf as (Hn2 & Ht2 & Hb2 & Hc2). pose proof (Hclock _ _ Ht2). split_and!; [done|lia|lia|].
  rewrite request_count_app. unfold seconds in *. lia.
Qed.

(** What has been allowed and not yet used stays so. *)
Lemma paced_frame {A} (c : nat) (m : M A) : paced m -> metered c m (fun _ => c).
Proof.
  intros Hm n Hn. specialize (Hm n Hn). destruct (m n) as [[a n'] acts]. destruct Hm as (? & ? & ? & ?).
  split_and!; [done..|]. unfold seconds in *. lia.
Qed.

Lemma paced_if {A} (b : bool) (m1 m2 : M A) : paced m1 -> paced m2 -> paced (if b then m1 else m2).
Proof. by destruct b. Qed.

Lemma paced_for_all {A} (f : A -> M unit) (l : list A) : (forall x, x ∈ l -> paced (f x)) -> paced (for_all f l).
Proof using Hclock.
  induction l as [|x l IH]; intros Hf; cbn [for_all]; [apply metered_ret|].
  eapply metered_bind; [apply Hf; by left|]. intros u. apply IH. intros y Hy. apply Hf. by right.
Qed.

(** Reading a value of which [fit] knows something. *)
Lemma paced_gets_known {A B} (f : MeshNode -> A) (R : A -> Prop) (k : A -> M B) :
  (forall n, fit n -> R (f n)) -> (forall a, R a -> paced (k a)) -> paced (gets f ≫= k).
Proof. intros Hf Hk n Hn. rewrite run_gets. by apply Hk; [apply Hf|]. Qed.

(** ** The building blocks *)

Lemma metered_router_send q (c : nat) :
  get_route_table q = ∅ -> (asks p q = true -> 1 <= c) -> metered c (router_send uuid clock q) (fun _ => 0).
Proof using exact laws Hp Hclock.
  intros Ht Hc. apply metered_quiet. intros n Hn. pose proof (router_send_requests q n Ht) as Hr.
  unfold router_send in *. destruct (Router.send_packet _ _ _ _ _) as [r acts]. simpl in *.
  split_and!; [eapply fit_later; [done|simpl; lia|done]|lia|done|]. destruct (asks p q); [specialize (Hc eq_refl)|]; lia.
Qed.

Lemma paced_router_send q : harmless q -> paced (router_send uuid clock q).
Proof using exact laws Hp Hclock. intros [Ht Ha]. apply metered_router_send; [done|]. by rewrite Ha. Qed.

Lemma metered_binary {B} (c : nat) to ttl sub tr raw e (k : RoutedPacket -> M B) (c' : B -> nat) :
  (forall u self, metered c (k (MakeBinaryRoutedPacket u self to ttl sub tr raw e)) c') ->
  metered c (make_binary uuid to ttl sub tr raw e ≫= k) c'.
Proof.
  intros Hk n Hn. rewrite run_make_binary. exact (Hk _ _ (drawn n) Hn).
Qed.

Lemma paced_secure {B} q target raw (k : bool * RoutedPacket -> M B) :
  (forall s sig key, paced (k (true, set_security sig key (set_payload (encrypted_payload s) q)))) ->
  (forall q', paced (k (false, q'))) -> paced (secure rand q target raw ≫= k).
Proof.
  intros Ht Hf n Hn. unfold secure. rewrite (run_silent _ _ _ _ _ eq_refl).
  set (n1 := with_identity _ _ n). assert (fit n1) as Hn1 by exact Hn. change (allowed n) with (allowed n1).
  change (ticks n) with (ticks n1).
  destruct (secure_packet _ _ _ _ _) as [[] q'] eqn:E; [|by apply Hf].
  apply secure_packet_seals in E as (s & sig & key & ->). by apply Ht.
Qed.

(** What the guard grants. *)
Definition due (d : bytes) : nat := if bool_decide (d = p) then 1 else 0.

Lemma metered_should d : metered 0 (should_send_identity_request clock d) (fun b : bool => if b then due d else 0).
Proof using Hclock.
  intros n Hn. pose proof (should_send_keeps clock d n) as Hk. destruct (should_send_spec clock d n) as (n' & E & Ht & Hcd).
  set (b := match id_request_cooldowns_ n !! d with Some _ => _ | None => _ end) in *. rewrite E in Hk |- *. simpl in Hk.
  assert (clock (ticks n) <= clock (ticks n'))%Z as Hle by (apply Hclock; lia).
  split; [eapply fit_later; [done|lia|done]|]. split; [lia|]. destruct Hn as [HT0 _]. unfold request_count. simpl length.
  unfold allowed, due. rewrite Hcd. destruct b eqn:Eb; [|unfold seconds; lia].
  case_bool_decide as Hd; [subst d|rewrite lookup_insert_ne by done; unfold seconds; lia].
  rewrite lookup_insert_eq. unfold b in Eb. destruct (id_request_cooldowns_ n !! p) as [last|]; [|unfold seconds; lia].
  apply negb_true_iff, Z.ltb_ge in Eb.
  assert (0 <= clock (ticks n) - last)%Z as H0.
  { destruct (Z.le_gt_cases 0 (clock (ticks n) - last)) as [|Hneg]; [done|]. unfold count_seconds in Eb.
    pose proof (Z.quot_opp_l (last - clock (ticks n)) 1000000000 ltac:(lia)) as Hq.
    replace (- (last - clock (ticks n)))%Z with (clock (ticks n) - last)%Z in Hq by lia.
    pose proof (Z.quot_pos (last - clock (ticks n)) 1000000000 ltac:(lia) ltac:(lia)). lia. }
  pose proof (count_seconds_ge _ H0 Eb). unfold seconds in *. lia.
Qed.

Lemma harmless_binary u self to ttl sub tr raw (e : bool) :
  sub <> identity_request_subtype \/ e = false \/ to = [] ->
  harmless (MakeBinaryRoutedPacket u self to ttl sub tr raw e).
Proof using Hp.
  intros H. split; [done|]. unfold asks. simpl. destruct H as [H|[->| ->]];
    [by rewrite (bool_decide_false (sub = _)), andb_false_r|by rewrite andb_false_r|].
  by rewrite bool_decide_false.
Qed.

Lemma harmless_sealed q s sig key : harmless q -> harmless (set_security sig key (set_payload (encrypted_payload s) q)).
Proof. by intros [_ ?]. Qed.

(** ** The operations *)

Lemma paced_buffer d q : harmless q -> paced (update_identity (buffer_outgoing_packet d q)).
Proof.
  intros Hq. apply metered_quiet. intros n [Ht Hw]. simpl. split; [|done]. split; [done|].
  intros d' l q'. simpl. unfold push_packet. destruct (decide (d' = d)) as [->|]; [|rewrite lookup_insert_ne by done; apply Hw].
  rewrite lookup_insert_eq. intros [= <-] [Hin| ->%list_elem_of_singleton]%elem_of_app; [|done].
  destruct (pending_outgoing_packets_ (identity_ n) !! d) as [l|] eqn:E; [by eapply Hw|by apply not_elem_of_nil in Hin].
Qed.

Lemma metered_identity d : metered (due d) (send_identity_request uuid clock rand d) (fun _ => 0).
Proof using exact laws Hp Hclock.
  unfold send_identity_request, send_request_with.
  eapply metered_bind; [apply paced_frame, paced_gets|]. intros cert.
  eapply metered_bind; [apply paced_frame, paced_gets|]. intros encrypt. rewrite bool_decide_true, andb_false_r by done.
  apply metered_binary. intros u self. eapply metered_bind; [by apply paced_frame, paced_modify|]. intros v.
  apply metered_router_send; [done|].
  unfold asks, due. simpl. rewrite !andb_true_iff, bool_decide_eq_true. intros [[-> _] _]. by rewrite bool_decide_true.
Qed.

Lemma paced_ask {A} d (rest : unit -> M A) :
  (forall u, paced (rest u)) ->
  paced (should_send_identity_request clock d ≫= fun b : bool =>
    (if b then send_identity_request uuid clock rand d else mret tt) ≫= rest).
Proof using exact laws Hp Hclock.
  intros Hr. eapply metered_bind; [apply metered_should|]. intros b. eapply metered_bind; [|exact Hr].
  destruct b; [apply metered_identity|apply metered_ret].
Qed.

Lemma paced_ask_last si d :
  (forall d, metered (due d) (si d) (fun _ => 0)) ->
  paced (should_send_identity_request clock d ≫= fun b : bool => if b then si d else mret tt).
Proof using Hclock.
  intros Hsi. eapply metered_bind; [apply metered_should|]. intros b. destruct b; [apply Hsi|apply metered_ret].
Qed.

Lemma paced_request si subtype ser dest cb tr :
  subtype <> identity_request_subtype -> (forall d, metered (due d) (si d) (fun _ => 0)) ->
  paced (send_request_with uuid clock rand si subtype ser dest cb tr).
Proof using exact laws Hp Hclock.
  intros Hsub Hsi. unfold send_request_with. eapply metered_bind; [apply paced_gets|]. intros encrypt.
  apply paced_if; apply metered_binary; intros u self.
  - eapply metered_bind; [apply paced_gets|]. intros [|]; cbn [negb].
    + apply paced_secure; [intros s sig key|intros q']; cbn [negb].
      * eapply metered_bind; [by apply paced_modify|]. intros v.
        by apply paced_router_send, harmless_sealed, harmless_binary; left.
      * unfold fail_request. destruct cb; [apply metered_ret|by apply paced_emit|apply metered_ret].
    + eapply metered_bind; [by apply paced_modify|]. intros v.
      eapply metered_bind; [apply paced_buffer, harmless_binary; by left|]. intros v'. by apply paced_ask_last.
  - eapply metered_bind; [by apply paced_modify|]. intros v. by apply paced_router_send, harmless_binary; left.
Qed.

Lemma paced_message subtype ser dest tr : paced (send_message uuid clock rand subtype ser dest tr).
Proof using exact laws Hp Hclock.
  unfold send_message. eapply metered_bind; [apply paced_gets|]. intros encrypt.
  apply paced_if; apply metered_binary; intros u self.
  - eapply metered_bind; [apply paced_gets|]. intros [|]; cbn [negb].
    + apply paced_secure; [intros s sig key|intros q']; cbn [negb]; [|apply metered_ret].
      by apply paced_router_send, harmless_sealed, harmless_binary; right; left.
    + eapply metered_bind; [apply paced_buffer, harmless_binary; by right; left|]. intros v.
      apply paced_ask_last, metered_identity.
  - by apply paced_router_send, harmless_binary; right; left.
Qed.

Lemma paced_reply x s : paced (reply uuid clock rand x s).
Proof using exact laws Hp Hclock.
  unfold reply. apply paced_if; [apply metered_ret|]. apply metered_binary. intros u self.
  eapply metered_bind; [apply paced_gets|]. intros encrypt.
  assert (forall pay, get_route_table (set_payload pay (MakeBinaryRoutedPacket u self [] 0 [] TCP [] false)) = ∅ ->
    harmless (set_payload pay (set_id (reply_id x) (MakeBinaryRoutedPacket u self (reply_to x) 15
      (default [] (reply_subtype x)) (reply_transport x) s false)))) as Hh.
  { intros pay Ht. split; [exact Ht|]. unfold asks. simpl. by rewrite andb_false_r. }
  apply paced_if.
  - apply paced_secure; [intros s' sig key|intros q']; cbn [negb]; [|apply metered_ret].
    apply paced_router_send. exact (Hh (encrypted_payload s') eq_refl).
  - apply paced_router_send. by apply Hh.
Qed.

Lemma paced_text dest s : paced (send_text uuid clock dest s).
Proof using exact laws Hp Hclock.
  intros n Hn. unfold send_text, draw_uuid. rewrite (run_silent _ _ _ _ _ eq_refl), run_gets.
  set (n1 := with_router _ _ n). change (allowed n) with (allowed n1). change (ticks n) with (ticks n1).
  apply paced_router_send; [|exact Hn]. split; [done|]. unfold asks. simpl. by rewrite andb_false_r.
Qed.

Lemma paced_broadcast_message subtype ser tr : paced (broadcast_message uuid clock subtype ser tr).
Proof using exact laws Hp Hclock. apply metered_binary. intros u self. by apply paced_router_send, harmless_binary; right; right. Qed.

Lemma paced_broadcast_request subtype ser k tr : paced (broadcast_request uuid clock subtype ser k tr).
Proof using exact laws Hp Hclock.
  apply metered_binary. intros u self. eapply metered_bind; [by apply paced_modify|]. intros v.
  by apply paced_router_send, harmless_binary; right; right.
Qed.

Lemma paced_pending_outgoing dest : paced (handle_pending_outgoing_packets uuid clock rand dest).
Proof using exact laws Hp Hclock.
  unfold handle_pending_outgoing_packets. apply (paced_gets_known _ (fun l => forall q, q ∈ l -> harmless q)).
  { intros n [_ Hw] q. unfold pop_outgoing_pending_packets.
    destruct (pending_outgoing_packets_ (identity_ n) !! dest) as [l|] eqn:E; simpl; [by apply (Hw dest)|by intros ?%not_elem_of_nil]. }
  intros l Hl. eapply metered_bind.
  { apply metered_quiet. intros n [Ht Hw]. simpl. split; [|done]. split; [done|]. intros d l' q. simpl.
    unfold pop_outgoing_pending_packets. destruct (pending_outgoing_packets_ (identity_ n) !! dest); simpl; [|by apply Hw].
    intros [_ H]%lookup_delete_Some. by apply (Hw d). }
  intros v. apply paced_for_all. intros q Hq. apply paced_secure; [intros s sig key|intros q']; cbn [negb]; [|apply metered_ret].
  by apply paced_router_send, harmless_sealed, Hl.
Qed.

Section body.
Context (rec : bytes -> M unit) (Hrec : forall d, paced (rec d)).

Lemma paced_learn_key d cert : paced (learn_key uuid clock rand rec d cert).
Proof using exact laws Hp Hclock Hrec.
  eapply metered_bind; [by apply paced_modify|]. intros u. eapply metered_bind; [apply Hrec|]. intros v.
  apply paced_pending_outgoing.
Qed.

Lemma paced_run_call c : paced (run_call uuid clock rand parses rec c).
Proof using exact laws Hp Hclock Hrec.
  destruct c as [[dest|k|k] from [raw|]|[dest|k|k] from raw|[dest|k|k]]; cbn [run_call on_identity_response internal_cb];
    try case_goal; by (apply metered_ret || apply paced_emit || apply paced_learn_key).
Qed.

Lemma paced_run_handler h from raw x : paced (run_handler uuid clock rand parses rec h from raw x).
Proof using exact laws Hp Hclock Hrec.
  destruct h as [| | | |k]; cbn [run_handler]; try case_goal; try solve [apply metered_ret|by apply paced_emit].
  - eapply metered_bind; [apply paced_gets|]. intros l. apply paced_reply.
  - eapply metered_bind; [apply paced_gets|]. intros l. apply paced_reply.
  - eapply metered_bind; [apply paced_learn_key|]. intros u. eapply metered_bind; [apply paced_gets|]. intros l.
    apply paced_reply.
Qed.

Lemma paced_plain pkt : paced (handle_plain_packet uuid clock rand parses rec pkt).
Proof using exact laws Hp Hclock Hrec.
  eapply metered_bind; [apply paced_gets|]. intros t.
  destruct (Tracker.fulfill_request _ _ _ t) as [[b t'] calls].
  eapply metered_bind; [by apply paced_modify|]. intros u.
  eapply metered_bind; [apply paced_for_all; intros; apply paced_run_call|]. intros v.
  destruct b; [apply metered_ret|]. destruct (type pkt); [apply metered_ret|by apply paced_emit| |apply metered_ret].
  eapply metered_bind; [apply paced_gets|]. intros hs. destruct (hs !! subtype pkt); [|apply metered_ret].
  apply paced_run_handler.
Qed.

Lemma paced_body pkt : paced (handle_packet_body uuid clock rand parses rec pkt).
Proof using exact laws Hp Hclock Hrec.
  assert (forall q, paced (handle_plain_packet uuid clock rand parses rec q ≫= fun _ => mret q)) as Hplain
    by (intros q; eapply metered_bind; [apply paced_plain|]; intros u; apply metered_ret).
  eapply metered_bind; [apply paced_gets|]. intros [|]; [apply metered_ret|].
  destruct (has_encrypted_payload pkt); [|apply Hplain].
  eapply metered_bind; [apply paced_gets|]. intros [|]; cbn [negb].
  - eapply metered_bind; [apply paced_gets|]. intros [s|e]; [apply Hplain|apply metered_ret].
  - eapply metered_bind; [by apply paced_modify|]. intros u. apply paced_ask. intros v. apply metered_ret.
Qed.
End body.

Lemma paced_pending_incoming (handle : RoutedPacket -> M RoutedPacket) src :
  (forall q, paced (handle q)) -> paced (Recursion.pending_loop handle src).
Proof using Hclock.
  intros Hh. eapply metered_bind; [apply paced_gets|]. intros l. eapply metered_bind.
  - apply paced_modify. intros n. unfold same_account. simpl. unfold pop_incoming_pending_packets.
    by destruct (pending_incoming_packets_ (identity_ n) !! src).
  - intros u. apply paced_for_all. intros q _. eapply metered_bind; [apply Hh|]. intros v. apply metered_ret.
Qed.

Lemma paced_incoming (fuel : nat) pkt : paced (handle_incoming_packet uuid clock rand parses fuel pkt).
Proof using exact laws Hp Hclock.
  revert pkt. induction fuel as [|fuel IH]; intros pkt.
  - cbn [handle_incoming_packet]. eapply metered_bind; [by apply paced_emit|]. intros u. apply metered_ret.
  - rewrite Recursion.handle_incoming_S. apply paced_body. intros d. by apply paced_pending_incoming.
Qed.

Lemma paced_on_timer (fuel : nat) h : paced (on_timer uuid clock rand parses fuel h).
Proof using exact laws Hp Hclock.
  eapply metered_bind; [apply paced_gets|]. intros t. destruct (Tracker.handle_wait h t) as [t' calls].
  eapply metered_bind; [by apply paced_modify|]. intros u. apply paced_for_all. intros c _. apply paced_run_call.
  intros d. apply paced_pending_incoming, paced_incoming.
Qed.
End rate.

(** ** Runs *)

Section run.
Context {o : IterOrder} {wp : Wire RoutedPacket} {ssl : OpenSSL}.
Context {w1 : Wire IdentityRequest} {w2 : Wire IdentityResponse} {w3 : Wire PingRequest}
  {w4 : Wire PingResponse} {w5 : Wire TopologyRequest} {w6 : Wire TopologyResponse}.
Context (uuid : nat -> bytes) (clock : nat -> Z) (rand : nat -> Identity.draws) (parses : nat -> bytes -> bool).

(** What can happen at a node: the calls of the application, which leaves identity
    requests to the node; any packet for it; time-outs; anything its router does,
    and time that passes. *)
Inductive operation : M unit -> Prop :=
| op_text dest s : operation (send_text uuid clock dest s)
| op_message subtype ser dest tr : operation (send_message uuid clock rand subtype ser dest tr)
| op_request subtype ser dest cb tr :
    subtype <> identity_request_subtype -> operation (send_request_async uuid clock rand subtype ser dest cb tr)
| op_broadcast subtype ser tr : operation (broadcast_message uuid clock subtype ser tr)
| op_broadcast_request subtype ser k tr : operation (broadcast_request uuid clock subtype ser k tr)
| op_reply x s : operation (reply uuid clock rand x s)
| op_incoming pkt : operation (handle_incoming_packet uuid clock rand parses 2 pkt ≫= fun _ => mret tt)
| op_timer h : operation (on_timer uuid clock rand parses 2 h)
| op_on subtype resp h : operation (modify (on subtype resp h))
| op_on_without_response subtype h : operation (modify (on_without_response subtype h))
| op_block b : operation (modify (set_block_all_messages b))
| op_router f k : operation (fun n => (tt, with_router (f (router_ n)) (k + ticks n) n, [])).

(** A sequence of operations with all that they emit. *)
Inductive run : MeshNode -> list node_action -> MeshNode -> Prop :=
| run_nil n : run n [] n
| run_cons n m acts n' : operation m -> run (m n).1.2 acts n' -> run n ((m n).2 ++ acts) n'.

Lemma operation_paced {laws : IterOrderLaws o} {exact : PacketExact}
    (Hclock : forall i j : nat, i <= j -> (clock i <= clock j)%Z) (p : bytes) (Hp : p <> []) (T0 : Z) m :
  operation m -> metered clock p T0 0 m (fun _ => 0).
Proof.
  intros [].
  - by apply paced_text.
  - by apply paced_message.
  - apply paced_request; [done..|]. intros d. by apply metered_identity.
  - by apply paced_broadcast_message.
  - by apply paced_broadcast_request.
  - by apply paced_reply.
  - eapply metered_bind; [done|by apply paced_incoming|]. intros q. apply metered_ret.
  - by apply paced_on_timer.
  - by apply paced_modify.
  - by apply paced_modify.
  - by apply paced_modify.
  - apply metered_quiet. intros n Hn. simpl. split_and!; [|lia|done|done]. eapply fit_later; [done..|simpl; lia|done].
Qed.

Lemma run_paced {laws : IterOrderLaws o} {exact : PacketExact}
    (Hclock : forall i j : nat, i <= j -> (clock i <= clock j)%Z) (p : bytes) (Hp : p <> []) (T0 : Z) n acts n' :
  run n acts n' -> fit clock p T0 n ->
  fit clock p T0 n' /\ ticks n <= ticks n' /\
  (allowed p T0 n' <= Z.max (allowed p T0 n) (clock (ticks n') + seconds 5))%Z /\
  (allowed p T0 n + seconds 5 * Z.of_nat (request_count p acts) <= allowed p T0 n')%Z.
Proof.
  induction 1 as [n|n m acts n' Hm _ IH]; intros Hn.
  - split_and!; [done..|lia|]. unfold request_count. simpl. lia.
  - pose proof (operation_paced Hclock p Hp T0 m Hm n Hn) as H. destruct (m n) as [[u n1] acts1].
    destruct H as (Hn1 & Ht & Hb & Hc). destruct (IH Hn1) as (Hn' & Ht' & Hb' & Hc'). simpl in *.
    pose proof (Hclock _ _ Ht'). split_and!; [done|lia|lia|]. rewrite request_count_app. unfold seconds in *. lia.
Qed.
End run.


(** ** Alice writes to a stranger *)

Lemma packet_wire_exact : @PacketExact packet_wire.
Proof.
  intros q q' _. simpl. rewrite bits_code_bits, decode_encode. simpl. destruct (packet_ok q); [by intros [= <-]|done].
Qed.

Definition note : M unit :=
  @send_message map_order packet_wire toy_ssl identity_request_wire (fun _ => replicate 16 x11)
    (fun i => seconds (Z.of_nat i)) (fun _ => demo_draws) (lit "myapp.Note")%mesh (lit "hi")%mesh [x63] TCP.

(** Alice, who has a route to [x63] but not its key. *)
Definition with_route (r : MeshRouter) : MeshRouter := with_tables {[ [x63] := Router.Route [x63] 1 false 0 ]} ∅ r.

Definition routed : M unit := fun n => (tt, with_router (with_route (router_ n)) (0 + ticks n) n, []).

(** Several notes, with all that they emit. *)
Fixpoint notes (k : nat) n : list node_action * MeshNode :=
  match k with
  | 0 => ([], n)
  | S k => ((note n).2 ++ (notes k (note n).1.2).1, (notes k (note n).1.2).2)
  end.

Definition demo_run : MeshNode -> list node_action -> MeshNode -> Prop :=
  @run map_order packet_wire toy_ssl identity_request_wire identity_response_wire ping_request_wire ping_response_wire
    topology_request_wire topology_response_wire (fun _ => replicate 16 x11) (fun i => seconds (Z.of_nat i))
    (fun _ => demo_draws) (fun _ _ => true).

Lemma notes_run k n : demo_run n (notes k n).1 (notes k n).2.
Proof.
  revert n. induction k as [|k IH]; intros n; [constructor|]. cbn [notes fst snd].
  apply (run_cons _ _ _ _ n note); [apply op_message|apply IH].
Qed.

Definition knows_route : MeshNode := (routed (start (make_node [x61] alice true 0))).1.2.

Lemma knows_route_run : demo_run (start (make_node [x61] alice true 0)) [] knows_route.
Proof. apply (run_cons _ _ _ _ _ routed []); [apply (op_router _ _ _ _ with_route 0)|apply run_nil]. Qed.

End NodeRate.
