(* ===== verification/Link.v ===== *)
(** * A TCP link between two nodes

    The path of a data envelope from one manager to the other: [send_tcp_message]
    and [RpcConnection::send_message] at the sender, the session's frames and
    outbox, the session's reader at the receiver, [RpcConnection::on_message] and
    the dispatch to the message sink.  The interface [ReliableLinks] is what the
    layers above rely on, and [tcp_links] discharges it. *)

From S2P Require Import Prelude Cxx Utils Packet UdpTransport Session RpcConnection RpcCalls RpcManager RpcRegistry.

Module Link.
Import Utils Packet Rpc RpcCalls Manager Registry.

Implicit Types (m : RpcManager) (c d : RpcConnection) (e : Envelope).

(** Envelopes sent one after the other to a peer. *)
Definition send_all {we : Wire Envelope} (peer : bytes) (es : list Envelope) m : RpcManager :=
  foldl (fun m e => (send_tcp_message peer e m).1) m es.

(** Messages of the session of connection [j], with what reaches the sink. *)
Fixpoint receive_all {we : Wire Envelope} {wh : Wire Handshake} (uuid : nat -> bytes) (j : nat)
    (ms : list Session.message) m : RpcManager * list sink_event :=
  match ms with
  | [] => (m, [])
  | (i, p) :: ms =>
      let '(m, evs) := conn_message (uuid (length ms)) j i p m in
      let '(m, evs') := receive_all uuid j ms m in (m, evs ++ evs')
  end.

Section link.
Context {we : Wire Envelope} {wh : Wire Handshake}.

(** What a connection gives to its session for an envelope. *)
Definition on_wire c e : Session.message := (msg_id e, SerializeAsString (addressed c e)).

(** Data envelopes the session and the receiver take. *)
Definition carried c e : Prop :=
  env_type e = DATA /\ length (msg_id e) = 16 /\ envelope_ok (addressed c e) = true /\
  (Z.of_nat (length (SerializeAsString (addressed c e))) <= Session.kMaxMessage)%Z.

(** A message the session frames and the reader accepts. *)
Definition framable (x : Session.message) : Prop :=
  16 <= length x.1 /\ (Z.of_nat (length x.2) <= Session.kMaxMessage)%Z.

Lemma carried_framable c e : carried c e -> framable (on_wire c e).
Proof. intros (_ & H1 & _ & H2). split; [simpl; lia|done]. Qed.

Lemma framable_frame x : framable x -> exists f, Session.make_frame x.1 x.2 = Ok f.
Proof.
  intros [H1 H2]. unfold Session.make_frame, Session.kMaxMessage in *.
  destruct (Z.ltb_spec (2 ^ 32 - 1) (Z.of_nat (length x.2))); [lia|].
  destruct (Nat.ltb_spec (length x.1) 16); [lia|]. by eexists.
Qed.

Lemma framable_frames (l : list Session.message) :
  Forall framable l -> exists frames, map (fun x => Session.make_frame x.1 x.2) l = map Ok frames.
Proof.
  induction 1 as [|x l Hx _ [fs IH]]; [by exists []|].
  destruct (framable_frame x Hx) as [f Hf]. exists (f :: fs). simpl. by rewrite Hf, IH.
Qed.

(** ** Sending *)

Lemma send_tcp_registered m peer i c e :
  connections_by_peer_ m !! peer = Some i -> heap m !! i = Some c ->
  let m' := (send_tcp_message peer e m).1 in
  connections_by_peer_ m' = connections_by_peer_ m /\
  heap m' !! i = Some (send_message e c).1 /\ sent (send_message e c).1 = sent c ++ [on_wire c e] /\
  forall e', addressed (send_message e c).1 e' = addressed c e'.
Proof.
  intros Hp Hc. unfold send_tcp_message. rewrite Hp, Hc. split_and!; [done| |done|done].
  simpl. apply list_lookup_insert_eq. by eapply lookup_lt_Some.
Qed.

Lemma send_all_registered es m peer i c :
  connections_by_peer_ m !! peer = Some i -> heap m !! i = Some c ->
  exists c', heap (send_all peer es m) !! i = Some c' /\ sent c' = sent c ++ map (on_wire c) es.
Proof.
  revert m c. induction es as [|e es IH]; intros m c Hp Hc.
  { exists c. simpl. by rewrite app_nil_r. }
  destruct (send_tcp_registered m peer i c e Hp Hc) as (Hp' & Hc' & Hs & Ha).
  destruct (IH (send_tcp_message peer e m).1 (send_message e c).1) as (c' & Hl & Hs'); [congruence|done|].
  exists c'. split; [done|]. rewrite Hs', Hs, <-app_assoc. simpl. done.
Qed.

(** ** Receiving *)

Context {le : WireLaws Envelope (fun e => envelope_ok e = true)}.

Lemma conn_message_data u m j d c e :
  heap m !! j = Some d -> handler_cb_ d = true -> sink_ m = true -> carried c e ->
  let '(m', evs) := conn_message u j (msg_id e) (SerializeAsString (addressed c e)) m in
  evs = [PushDataBytes (authenticated_remote_id_ d) (env_payload e)] /\ sink_ m' = true /\
  exists d', heap m' !! j = Some d' /\ handler_cb_ d' = true /\
    authenticated_remote_id_ d' = authenticated_remote_id_ d.
Proof.
  intros Hd Hcb Hs (Ht & _ & Hok & _). unfold conn_message, on_message.
  rewrite Hd, parse_serialize by done. cbn [with_requests handler_cb_]. rewrite Hcb.
  unfold dispatch_message. cbn [env_type addressed]. rewrite Ht.
  assert (j < length (heap m)) as Hj by (by eapply lookup_lt_Some).
  cbn [heap with_heap sink_]. rewrite Hs, list_lookup_insert_eq by done. split_and!; [done|done|].
  eexists. by split.
Qed.

Lemma receive_all_data uuid es m j d c :
  heap m !! j = Some d -> handler_cb_ d = true -> sink_ m = true -> Forall (carried c) es ->
  (receive_all uuid j (map (on_wire c) es) m).2 =
  map (fun e => PushDataBytes (authenticated_remote_id_ d) (env_payload e)) es.
Proof.
  intros Hd Hcb Hs Hes. revert m d Hd Hcb Hs. induction Hes as [|e es He _ IH]; intros m d Hd Hcb Hs; [done|].
  simpl. pose proof (conn_message_data (uuid (length (map (on_wire c) es))) m j d c e Hd Hcb Hs He) as H.
  destruct (conn_message _ _ _ _ _) as [m' evs]. destruct H as (-> & Hs' & d' & Hd' & Hcb' & Hid).
  specialize (IH m' d' Hd' Hcb' Hs'). destruct (receive_all _ _ _ _) as [m'' evs']. simpl in *.
  by rewrite IH, Hid.
Qed.
End link.

(** (C18) In order, complete and credited to the right peer: the data envelopes
    a node sends to a connected peer, over a session that may still be busy with
    earlier messages, leave as whole frames; once the session is idle, the reader
    at the other end, however the stream is cut, ends with exactly these messages,
    and the receiving manager hands their payloads, in order and under the name the
    handshake established, to its message sink. *)
Theorem link_delivers {we : Wire Envelope} {wh : Wire Handshake}
    {le : WireLaws Envelope (fun e => envelope_ok e = true)}
    (ma mb : RpcManager) (peer : bytes) (i j : nat) (c d : RpcConnection) (es : list Envelope)
    (uuid : nat -> bytes)
    (Hi : connections_by_peer_ ma !! peer = Some i) (Hc : heap ma !! i = Some c)
    (Hd : heap mb !! j = Some d) (Hcb : handler_cb_ d = true) (Hsink : sink_ mb = true)
    (Hbefore : Forall framable (sent c)) (Hes : Forall (carried c) es) :
  exists c' frames, heap (send_all peer es ma) !! i = Some c' /\
    map (fun x => Session.make_frame x.1 x.2) (sent c') = map Ok frames /\
    forall s chunks, rtc Session.step (Session.new_session, []) (s, frames) -> Session.inflight s = None ->
      concat chunks = Session.wire s ->
      exists before ms, Session.read_chunks (Session.ReadHeader []) chunks =
          (Session.ReadHeader [], before ++ ms) /\ length before = length (sent c) /\
        (receive_all uuid j ms mb).2 =
          map (fun e => PushDataBytes (authenticated_remote_id_ d) (env_payload e)) es.
Proof.
  destruct (send_all_registered es ma peer i c Hi Hc) as (c' & Hc' & Hs).
  assert (Forall framable (sent c')) as Hf.
  { rewrite Hs. apply Forall_app. split; [done|]. apply Forall_fmap.
    eapply Forall_impl; [exact Hes|]. intros e. apply carried_framable. }
  destruct (framable_frames _ Hf) as [frames Hfr]. exists c', frames. split_and!; [done|done|].
  intros s chunks Hr Hidle Hch.
  destruct (Session.session_reachable _ _ Hr) as (_ & _ & Hw). rewrite Hidle in Hw.
  destruct (Session.outbox_ s); [|done].
  assert (map (fun x => (take 16 x.1, x.2)) (map (on_wire c) es) = map (on_wire c) es) as Hid.
  { clear -Hes. induction Hes as [|e es (_ & He & _) _ IH]; [done|]. simpl. rewrite IH, take_ge; [done|lia]. }
  exists (map (fun x => (take 16 x.1, x.2)) (sent c)), (map (on_wire c) es). split_and!.
  - rewrite Session.read_chunks_concat, Hch, Hw, (Session.read_frames (sent c') frames Hfr), Hs.
    + by rewrite map_app, Hid.
    + eapply Forall_impl; [exact Hf|]. by intros x [_ ?].
  - by rewrite length_map.
  - by apply receive_all_data.
Qed.

(** Two managers with an established connection. *)
Definition demo_conn (local remote self peer : bytes) : RpcConnection :=
  set_on_dispatch (set_remote_peer_id peer
    (make_connection (Udp.Endpoint local 4000) (Udp.Endpoint remote 4001) self 0 false)).

Definition demo_end (c : RpcConnection) : RpcManager :=
  with_maps {[ authenticated_remote_id_ c := 0 ]} {[ Udp.address (remote_endpoint_ c) := 0 ]}
    (with_heap [c] demo_manager).

Definition demo_data : Envelope := MakeGenericData (replicate 16 x11) [x68; x69].

Lemma link_delivers_witness :
  let ew := code_wire Envelope in let hw := code_wire Handshake in
  let c := demo_conn [x31] [x32] [x61] [x62] in let d := demo_conn [x32] [x31] [x62] [x61] in
  exists c' frames, heap (send_all [x62] [demo_data; demo_data] (demo_end c)) !! 0 = Some c' /\
    map (fun x => Session.make_frame x.1 x.2) (sent c') = map Ok frames /\
    forall s chunks, rtc Session.step (Session.new_session, []) (s, frames) -> Session.inflight s = None ->
      concat chunks = Session.wire s ->
      exists before ms, Session.read_chunks (Session.ReadHeader []) chunks =
          (Session.ReadHeader [], before ++ ms) /\ length before = 0 /\
        (receive_all (fun _ => replicate 16 x01) 0 ms (demo_end d)).2 =
          [PushDataBytes [x61] [x68; x69]; PushDataBytes [x61] [x68; x69]].
Proof.
  intros ew hw c d.
  assert (carried c demo_data) as Hc.
  { split_and!; [reflexivity..|]. apply Z.leb_le. vm_compute. reflexivity. }
  apply (@link_delivers ew hw (code_wire_laws Envelope _) (demo_end c) (demo_end d) [x62] 0 0 c d
    [demo_data; demo_data] (fun _ => replicate 16 x01)).
  - reflexivity.
  - reflexivity.
  - reflexivity.
  - reflexivity.
  - reflexivity.
  - constructor.
  - by repeat constructor.
Defined.

(** ** The interface of the layers above *)

(** [link u v e]: the payload that node [v]'s sink receives, credited to [u], when
    node [u] sends the envelope [e] to [v]. *)
Class ReliableLinks (link : bytes -> bytes -> Envelope -> option bytes)
    (fits : bytes -> bytes -> Envelope -> Prop) : Prop :=
  link_carries : forall u v e, fits u v e -> link u v e = Some (env_payload e).

(** Links that carry everything. *)
Definition ideal_link (u v : bytes) (e : Envelope) : option bytes := Some (env_payload e).

Lemma ideal_links : ReliableLinks ideal_link (fun _ _ _ => True).
Proof. by intros u v e _. Qed.

Section tcp.
Context {we : Wire Envelope} {wh : Wire Handshake}.
Context (uuid : nat -> bytes) (managers : bytes -> RpcManager).

(** The last message a connection gave to its session. *)
Definition last_sent (v : bytes) m : option Session.message :=
  i ← connections_by_peer_ m !! v; c ← heap m !! i; last (sent c).

(** The whole path of one envelope over the two managers. *)
Definition tcp_link (u v : bytes) (e : Envelope) : option bytes :=
  match send_tcp_message v e (managers u) with
  | (m, Ok _) =>
      x ← last_sent v m;
      j ← connections_by_peer_ (managers v) !! u;
      match Session.make_frame x.1 x.2 with
      | Err _ => None
      | Ok frame =>
          match (receive_all uuid j (Session.read_bytes (Session.ReadHeader []) frame).2 (managers v)).2 with
          | [PushDataBytes from p] => if bool_decide (from = u) then Some p else None
          | _ => None
          end
      end
  | (_, Err _) => None
  end.

(** Both ends have registered the connection, and the envelope passes. *)
Definition tcp_fits (u v : bytes) (e : Envelope) : Prop :=
  exists i c j d, connections_by_peer_ (managers u) !! v = Some i /\ heap (managers u) !! i = Some c /\
    carried c e /\
    connections_by_peer_ (managers v) !! u = Some j /\ heap (managers v) !! j = Some d /\
    handler_cb_ d = true /\ sink_ (managers v) = true.

#[export] Instance tcp_links {le : WireLaws Envelope (fun e => envelope_ok e = true)}
    (Hreg : forall u, registry (managers u)) : ReliableLinks tcp_link tcp_fits.
Proof.
  intros u v e (i & c & j & d & Hi & Hc & He & Hj & Hd & Hcb & Hs).
  destruct (send_tcp_registered (managers u) v i c e Hi Hc) as (Hi' & Hc' & Hsent & _).
  unfold tcp_link. destruct (send_tcp_message v e (managers u)) as [m r] eqn:E. simpl in *.
  assert (exists f, r = Ok f) as [f ->].
  { unfold send_tcp_message in E. rewrite Hi, Hc in E. simpl in E. injection E as _ <-. by eexists. }
  unfold last_sent. rewrite Hi', Hi. simpl. rewrite Hc'. simpl. rewrite Hsent, last_snoc. simpl. rewrite Hj. simpl.
  destruct (framable_frame _ (carried_framable c e He)) as [frame Hf]. cbn [on_wire fst snd] in Hf. rewrite Hf.
  rewrite (Session.read_frame _ _ _ Hf). pose proof He as (_ & Hlen & _ & Hmax).
  rewrite (proj2 (Z.ltb_ge _ _)) by done. cbn [snd]. rewrite take_ge by lia.
  pose proof (receive_all_data uuid [e] (managers v) j d c Hd Hcb Hs (proj2 (Forall_singleton _ _) He)) as H.
  unfold on_wire in H. cbn [map] in H. unfold Session.message in *. rewrite H.
  destruct (reg_peer _ (Hreg v) _ _ Hj) as (_ & d' & Hd' & Hn). assert (d' = d) as -> by congruence.
  by rewrite Hn, bool_decide_true.
Qed.
End tcp.

End Link.
