(* ===== verification/Relay.v ===== *)
(** * A chain of routers

    How a data packet crosses the mesh: each router of a path receives the
    payload of an envelope from its predecessor, routes the packet
    ([MeshRouter::handle_packet]) and sends it on.  The links between the routers
    are an interface ([ReliableLinks] of Link.v). *)

From S2P Require Import Prelude Cxx DedupSet ThreadSafeQueue Utils Packet MeshRouter RouterTable.
From S2P Require Import RouterInvariants RouterForward Link.

Module Relay.
Import Utils Packet Router Forward Link.

Implicit Types (r : MeshRouter) (p : RoutedPacket).

(** The router has a usable route to [d] through [next]. *)
Definition routes_via r (d next : bytes) : Prop :=
  exists e, forwarding_table_ r !! d = Some e /\ next_hop e = next /\ (cost e < INF_COST)%Z.

(** The router has routed a packet with key [k]: nothing else that routing looks
    at has changed. *)
Definition after_packet (k : bytes * bool) r r' : Prop :=
  self_id_ r' = self_id_ r /\ forwarding_table_ r' = forwarding_table_ r /\
  transport_ r' = transport_ r /\ on_packet_for_me_cb_ r' = on_packet_for_me_cb_ r /\
  forall k', k' <> k -> Dedup.contains k' (seen_packet_ids_ r') = Dedup.contains k' (seen_packet_ids_ r).

(** Hops on a packet with a given time to live. *)
Lemma hop_set_ttl (t : Z) p : hop_packet (set_ttl t p) = set_ttl (t - 1) p.
Proof. unfold hop_packet. destruct p. unfold set_ttl. simpl. f_equal. unfold u32. by rewrite Zminus_mod_idemp_l. Qed.

Section hop.
Context {o : IterOrder} {laws : IterOrderLaws o} {w : Wire RoutedPacket}.
Context (uuid : nat -> bytes) (cb : MeshRouter -> RoutedPacket -> MeshRouter * RoutedPacket * list action).

Lemma insert_contains_ne (now : Z) (k k' : bytes * bool) (s : Dedup.TimedDedupSet (bytes * bool)) :
  k' <> k -> Dedup.contains k' (Dedup.insert now k s).2 = Dedup.contains k' s.
Proof.
  intros Hne. unfold Dedup.contains, Dedup.insert. destruct (bool_decide (k ∈ _)); simpl; [done|].
  apply bool_decide_ext. set_solver.
Qed.

(** The forwarding loop on a packet that has one next hop. *)
Lemma forward_next src next p r :
  to_peer_id p <> [] -> transport p = TCP -> (2 <= ttl p < 2 ^ 32)%Z -> transport_ r = true ->
  routes_via r (to_peer_id p) next -> next <> src -> next <> self_id_ r ->
  exists k : nat, forward uuid src p r =
    (with_draws k r, [SendTcp next (MakeGenericData (uuid (draws r)) (SerializeAsString (hop_packet p)))]).
Proof.
  intros Hto Htr Httl Hup (e & He & Hnext & Hcost) Hne1 Hne2.
  pose proof (forward_actions uuid src p r) as Ha. destruct (forward_state uuid src p r) as [k Hk].
  destruct (forward uuid src p r) as [r' acts]. cbn [fst snd] in *. subst r' acts. exists k. f_equal.
  rewrite (hop_ttl p) by lia. rewrite (proj2 (Z.leb_gt _ _)) by lia. cbn [orb]. rewrite Hup. cbn [negb].
  rewrite Htr. unfold targets, determine_next_hop. rewrite bool_decide_false by done. rewrite He.
  rewrite (proj2 (Z.leb_gt _ _)) by done. rewrite filter_cons_True by (split; congruence).
  simpl. by rewrite Nat.add_0_r, Hnext.
Qed.

(** A data packet from another node is routed, after the time its sender was
    heard is noted. *)
Lemma handle_data clk prev p r :
  type p <> ROUTING_UPDATE -> prev <> self_id_ r -> from_peer_id p <> self_id_ r ->
  exists r1, handle_packet uuid cb clk prev p r =
      route_data_packet uuid cb (fun i => clk (S i)) prev (to_hex (id p)) p r1 /\
    self_id_ r1 = self_id_ r /\ forwarding_table_ r1 = forwarding_table_ r /\ transport_ r1 = transport_ r /\
    on_packet_for_me_cb_ r1 = on_packet_for_me_cb_ r /\ seen_packet_ids_ r1 = seen_packet_ids_ r /\
    draws r1 = draws r /\ forall n, is_Some (neighbor_views_ r1 !! n) <-> is_Some (neighbor_views_ r !! n).
Proof.
  intros Hty Hprev Hfrom. unfold handle_packet. rewrite !bool_decide_false by done. cbn [orb].
  set (r1 := match neighbor_views_ r !! prev with Some v => _ | None => r end). exists r1.
  split; [by destruct (type p)|]. unfold r1. destruct (neighbor_views_ r !! prev) as [v|] eqn:Ev; [|done].
  split_and!; try done. intros n. simpl. destruct (decide (n = prev)) as [->|];
    [rewrite lookup_insert_eq, Ev|rewrite lookup_insert_ne]; by eauto.
Qed.

(** One router forwards a packet in transit. *)
Lemma transit_hop clk prev next p r :
  transit p r -> type p <> ROUTING_UPDATE -> transport p = TCP -> (2 <= ttl p < 2 ^ 32)%Z ->
  prev <> self_id_ r -> from_peer_id p <> self_id_ r -> transport_ r = true ->
  Dedup.contains (dedup_key p) (seen_packet_ids_ r) = false ->
  routes_via r (to_peer_id p) next -> next <> prev -> next <> self_id_ r ->
  exists r', handle_packet uuid cb clk prev p r =
      (r', [SendTcp next (MakeGenericData (uuid (draws r)) (SerializeAsString (hop_packet p)))]) /\
    after_packet (dedup_key p) r r'.
Proof.
  intros Ht Hty Htr Httl Hprev Hfrom Hup Hseen Hroute Hne1 Hne2.
  destruct (handle_data clk prev p r Hty Hprev Hfrom) as (r1 & -> & E1 & E2 & E3 & E4 & E5 & E6 & _).
  rewrite route_transit by (unfold transit in *; by rewrite E1).
  unfold is_duplicate. rewrite E1, E5, bool_decide_false, Hseen by done. cbn [negb andb].
  set (r2 := with_seen _ r1). destruct (forward_next prev next p r2) as [k ->];
    [apply Ht|done|done|simpl; congruence|unfold routes_via; simpl; by rewrite E2|done|simpl; congruence|].
  eexists. split; [simpl; by rewrite E6|].
  split_and!; try done. intros k' Hk'. simpl. by rewrite insert_contains_ne.
Qed.

(** The router of the sending node: no duplicate check, no callback. *)
Lemma send_hop clk next p r :
  transit p r -> from_peer_id p = self_id_ r -> transport p = TCP -> (2 <= ttl p < 2 ^ 32)%Z ->
  transport_ r = true -> routes_via r (to_peer_id p) next -> next <> self_id_ r ->
  exists r', send_packet uuid cb clk p r =
      (r', [SendTcp next (MakeGenericData (uuid (draws r)) (SerializeAsString (hop_packet p)))]) /\
    after_packet (dedup_key p) r r'.
Proof.
  intros Ht Hfrom Htr Httl Hup Hroute Hne. unfold send_packet.
  rewrite route_transit by done. unfold is_duplicate. rewrite bool_decide_true by done. cbn [negb andb].
  set (r2 := with_seen _ r). destruct (forward_next (self_id_ r) next p r2) as [k ->]; [apply Ht|done..|].
  eexists. split; [done|]. split_and!; try done. intros k' Hk'. simpl. by rewrite insert_contains_ne.
Qed.
End hop.

(** ** Paths *)

(** The node after the routers [rs] on the way to [dest]. *)
Definition first_hop (rs : list MeshRouter) (dest : bytes) : bytes :=
  match rs with [] => dest | r :: _ => self_id_ r end.

(** Every router of the path can forward packets with key [k] from [from] to
    [dest] to the next one. *)
Fixpoint path_ok (k : bytes * bool) (from prev : bytes) (rs : list MeshRouter) (dest : bytes) : Prop :=
  match rs with
  | [] => True
  | r :: rs =>
      dest <> self_id_ r /\ prev <> self_id_ r /\ from <> self_id_ r /\ transport_ r = true /\
      Dedup.contains k (seen_packet_ids_ r) = false /\ routes_via r dest (first_hop rs dest) /\
      first_hop rs dest <> prev /\ first_hop rs dest <> self_id_ r /\ path_ok k from (self_id_ r) rs dest
  end.

(** Packets with another key leave a path as it was. *)
Lemma path_ok_after k k' from prev rs rs' dest :
  k <> k' -> Forall2 (after_packet k') rs rs' -> path_ok k from prev rs dest -> path_ok k from prev rs' dest.
Proof.
  intros Hk H. revert prev. induction H as [|r r' rs rs' (E1 & E2 & E3 & _ & E5) Hall IH]; intros prev; [done|].
  assert (first_hop rs' dest = first_hop rs dest) as Hf.
  { destruct Hall as [|r1 r1' ? ? (E & _) _]; [done|]. exact E. }
  cbn [path_ok]. unfold routes_via. rewrite Hf, E1, E2, E3, E5 by done. naive_solver.
Qed.

Section relay.
Context {o : IterOrder} {laws : IterOrderLaws o} {w : Wire RoutedPacket} {pw : PacketWire}.
Context {link : bytes -> bytes -> Envelope -> option bytes} {fits : bytes -> bytes -> Envelope -> Prop}.
Context {reliable : ReliableLinks link fits}.
Context (uuids : bytes -> nat -> bytes) (clocks : bytes -> nat -> Z).
Context (cb : MeshRouter -> RoutedPacket -> MeshRouter * RoutedPacket * list action).

(** An envelope travels from [prev] through the routers [rs] to the node [dest]:
    the routers afterwards, the last hop and the payload that arrives. *)
Fixpoint relay (prev : bytes) (e : Envelope) (rs : list MeshRouter) (dest : bytes)
    : option (list MeshRouter * bytes * bytes) :=
  match rs with
  | [] => s ← link prev dest e; Some ([], prev, s)
  | r :: rs =>
      s ← link prev (self_id_ r) e;
      p ← decodeRoutedPacket s;
      match handle_packet (uuids (self_id_ r)) cb (clocks (self_id_ r)) prev p r with
      | (r', [SendTcp next e']) =>
          if bool_decide (next = first_hop rs dest) then
            '(rs', last, s') ← relay (self_id_ r) e' rs dest; Some (r' :: rs', last, s')
          else None
      | _ => None
      end
  end.

(** The packet as it arrives after [n] routers. *)
Definition travelled (n : nat) p : RoutedPacket := set_ttl (ttl p - Z.of_nat n) p.

(** Every copy of the packet fits every link of the path. *)
Fixpoint path_fits p (prev : bytes) (rs : list MeshRouter) (dest : bytes) : Prop :=
  (forall u t, length u = 16 -> fits prev (first_hop rs dest) (MakeGenericData u (SerializeAsString (set_ttl t p)))) /\
  match rs with [] => True | r :: rs => path_fits p (self_id_ r) rs dest end.

Definition last_hop (prev : bytes) (rs : list MeshRouter) : bytes :=
  match last rs with Some r => self_id_ r | None => prev end.

Lemma last_hop_cons prev r rs : last_hop prev (r :: rs) = last_hop (self_id_ r) rs.
Proof. unfold last_hop. destruct rs as [|r' rs]; [done|]. simpl. destruct (last _) eqn:E; [done|].
  by apply last_None in E. Qed.

Lemma set_ttl_self p : is_u32 (ttl p) = true -> set_ttl (ttl p) p = p.
Proof.
  intros [H1%Z.leb_le H2%Z.ltb_lt]%andb_true_iff. destruct p. unfold set_ttl. simpl in *. by rewrite u32_small.
Qed.

Lemma packet_ok_ttl p t : packet_ok p = true -> packet_ok (set_ttl t p) = true.
Proof.
  intros H. unfold packet_ok, packet_u32 in *. cbn [ttl set_ttl from_peer_id to_peer_id subtype] in *.
  change (get_text (set_ttl t p)) with (get_text p).
  change (get_route_table (set_ttl t p)) with (get_route_table p).
  rewrite !andb_true_iff in *. destruct H as ((((([_ ?] & ?) & ?) & ?) & ?) & ?). split_and!; try done.
  unfold is_u32. pose proof (u32_range t). rewrite andb_true_iff, Z.leb_le, Z.ltb_lt. lia.
Qed.

Lemma travelled_S n p : travelled n (hop_packet p) = travelled (S n) p.
Proof.
  unfold travelled, hop_packet. destruct p. unfold set_ttl. simpl. f_equal.
  unfold u32. rewrite Zminus_mod_idemp_l. f_equal. lia.
Qed.

Lemma path_fits_hop p t prev rs dest : path_fits p prev rs dest -> path_fits (set_ttl t p) prev rs dest.
Proof. revert prev. induction rs as [|r rs IH]; intros prev; simpl; naive_solver. Qed.

(** A packet crosses a path shorter than its time to live: it arrives with its
    time to live lowered by the number of routers, and only its key is new to
    them. *)
Lemma relay_delivers (u : bytes) p (prev : bytes) (rs : list MeshRouter) (dest : bytes) :
  (forall a n, length (uuids a n) = 16) -> length u = 16 ->
  packet_ok p = true -> type p = BINARY -> transport p = TCP ->
  (Z.of_nat (length rs) < ttl p < 2 ^ 32)%Z ->
  to_peer_id p = dest -> dest <> [] ->
  path_ok (dedup_key p) (from_peer_id p) prev rs dest -> path_fits p prev rs dest ->
  exists rs' : list MeshRouter, relay prev (MakeGenericData u (SerializeAsString p)) rs dest =
      Some (rs', last_hop prev rs, SerializeAsString (travelled (length rs) p)) /\
    Forall2 (after_packet (dedup_key p)) rs rs'.
Proof.
  intros Huuids Hu Hok Hty Htr. revert u Hu p prev Hok Hty Htr.
  induction rs as [|r rs IH]; 
    intros u Hu p prev Hok Hty Htr Httl Hto Hdest Hpath [Hfit Hfits]; cbn [relay].
  - exists []. split; [|constructor]. cbn [first_hop] in Hfit.
    specialize (Hfit u (ttl p) Hu). rewrite set_ttl_self in Hfit
      by (unfold is_u32; simpl in *; rewrite andb_true_iff, Z.leb_le, Z.ltb_lt; lia).
    rewrite (link_carries _ _ _ Hfit). simpl. unfold travelled, last_hop. simpl.
    rewrite Z.sub_0_r, set_ttl_self; [done|]. simpl in *. unfold is_u32.
    rewrite andb_true_iff, Z.leb_le, Z.ltb_lt. lia.
  - cbn [length path_ok first_hop] in *.
    destruct Hpath as (Ht & Hp1 & Hfrom & Hup & Hseen & Hroute & Hn1 & Hn2 & Hrest).
    specialize (Hfit u (ttl p) Hu). rewrite set_ttl_self in Hfit
      by (unfold is_u32; rewrite andb_true_iff, Z.leb_le, Z.ltb_lt; lia).
    rewrite (link_carries _ _ _ Hfit). cbn [mbind option_bind env_payload MakeGenericData].
    unfold decodeRoutedPacket. rewrite (parse_serialize p Hok). cbn [mbind option_bind].
    destruct (transit_hop (uuids (self_id_ r)) cb (clocks (self_id_ r)) prev (first_hop rs dest) p r)
      as (r' & Hr' & Ha); try done; [by split; congruence|by rewrite Hty|lia|congruence|].
    rewrite Hr', bool_decide_true by done.
    destruct (IH (uuids (self_id_ r) (draws r)) (Huuids _ _) (hop_packet p) (self_id_ r)) as (rs' & Hrel & Hall);
      try done.
    + by apply packet_ok_ttl.
    + rewrite hop_ttl; lia.
    + by apply path_fits_hop.
    + exists (r' :: rs'). rewrite Hrel. cbn [mbind option_bind]. split; [|by constructor].
      by rewrite last_hop_cons, travelled_S.
Qed.
End relay.

Arguments relay {o w} link uuids clocks cb prev e rs dest.
Arguments path_fits {w} fits p prev rs dest.

End Relay.
