(* ===== verification/Mesh.v ===== *)
(** * A network of routers

    Routers joined by links, with the messages under way between them: a step is
    the arrival of any one message.  Over routing tables that have converged, a
    packet injected at one node is delivered at its destination, whatever the
    order of arrivals. *)

From S2P Require Import Prelude Cxx DedupSet ThreadSafeQueue Utils Packet MeshRouter RouterTable.
From S2P Require Import RouterInvariants RouterForward RouterNetwork Link Relay.

Module Mesh.
Import Utils Packet Router Table RouterInv Forward Network Link Relay.

Implicit Types (r : MeshRouter) (p q : RoutedPacket) (u v a b d : bytes).

(** The routers, the messages under way (sender, receiver, envelope) and the
    packets handed to the applications. *)
Record mesh := MeshState {
  routers : bytes -> MeshRouter;
  flying : list (bytes * bytes * Envelope);
  delivered : list (bytes * RoutedPacket)
}.

(** What a router's actions put on the links and hand to its application. *)
Definition sends u (acts : list action) : list (bytes * bytes * Envelope) :=
  omap (fun x => match x with SendTcp v e => Some (u, v, e) | _ => None end) acts.

Definition deliveries u (acts : list action) : list (bytes * RoutedPacket) :=
  omap (fun x => match x with Deliver p => Some (u, p) | _ => None end) acts.

Definition set_router v r (net : bytes -> MeshRouter) : bytes -> MeshRouter :=
  fun u => if bool_decide (u = v) then r else net u.

Lemma set_router_eq v r net : set_router v r net v = r.
Proof. unfold set_router. by rewrite bool_decide_true. Qed.

Lemma set_router_ne u v r net : u <> v -> set_router v r net u = net u.
Proof. intros. unfold set_router. by rewrite bool_decide_false. Qed.

Section mesh.
Context {o : IterOrder} {w : Wire RoutedPacket}.
Context (link : bytes -> bytes -> Envelope -> option bytes) (uuids : bytes -> nat -> bytes).

(** The router of [v] has taken the actions [x.2]. *)
Definition acted v (x : MeshRouter * list action) (rest : list (bytes * bytes * Envelope)) (m : mesh) : mesh :=
  MeshState (set_router v x.1 (routers m)) (rest ++ sends v x.2) (delivered m ++ deliveries v x.2).

(** The node [u] sends a packet. *)
Definition inject (clk : nat -> Z) u p (m : mesh) : mesh :=
  acted u (send_packet (uuids u) ignore_packet clk p (routers m u)) (flying m) m.

(** The message [e] from [u] reaches [v]; what the link loses or the router
    cannot decode is gone. *)
Definition arrive (clk : nat -> Z) u v (e : Envelope) (rest : list (bytes * bytes * Envelope)) (m : mesh) : mesh :=
  match link u v e ≫= decodeRoutedPacket with
  | Some p => acted v (handle_packet (uuids v) ignore_packet clk u p (routers m v)) rest m
  | None => MeshState (routers m) rest (delivered m)
  end.

(** Any message may be the next to arrive. *)
Inductive step (m : mesh) : mesh -> Prop :=
| step_arrive l1 u v e l2 clk :
    flying m = l1 ++ (u, v, e) :: l2 -> step m (arrive clk u v e (l1 ++ l2) m).

(** The network can move on as long as a message is under way. *)
Lemma step_enabled m : flying m <> [] -> exists m', step m m'.
Proof.
  destruct (flying m) as [|[[u v] e] l] eqn:E; [done|]. intros _.
  exists (arrive (fun _ => 0%Z) u v e l m). by apply (step_arrive m [] u v e l).
Qed.
End mesh.

(** Every run ends: an invariant whose index goes down at each step. *)
Lemma runs_end {A} (R : A -> A -> Prop) (I : nat -> A -> Prop) n x :
  I n x -> (forall n y z, I n y -> R y z -> exists n', n' < n /\ I n' z) ->
  sn R x /\ forall y, rtc R x y -> exists n', I n' y.
Proof.
  intros Hx Hstep. split.
  - revert x Hx. induction (lt_wf n) as [n _ IH]. intros x Hx.
    constructor. intros y Hy. destruct (Hstep n x y Hx Hy) as (n' & Hlt & Hi). by apply (IH n').
  - intros y. apply (rtc_keeps (fun y => exists n', I n' y)); [|by eauto].
    intros y' z [n' Hy] Hz. destruct (Hstep n' y' z Hy Hz) as (n'' & _ & Hi). by eauto.
Qed.

(** ** A packet for one node *)

(** The parts of a router that data packets never change. *)
Definition same_routes r r' : Prop :=
  self_id_ r' = self_id_ r /\ forwarding_table_ r' = forwarding_table_ r /\ transport_ r' = transport_ r /\
  on_packet_for_me_cb_ r' = on_packet_for_me_cb_ r.

Section unicast.
Context {o : IterOrder} {laws : IterOrderLaws o} {w : Wire RoutedPacket} {pw : PacketWire}.
Context {link : bytes -> bytes -> Envelope -> option bytes} {fits : bytes -> bytes -> Envelope -> Prop}.
Context {reliable : ReliableLinks link fits}.
Context (uuids : bytes -> nat -> bytes) (Huuids : forall a n, length (uuids a n) = 16).
Context (adj : bytes -> list bytes) {topo : Topology adj} (net : bytes -> MeshRouter).
Context (Hnet : forall n, node_inv adj n (net n)) (Hknown : known adj 15 net).

(** The packet, its source, its destination. *)
Context (p : RoutedPacket) (u d : bytes).
Context (Hok : packet_ok p = true) (Hty : type p <> ROUTING_UPDATE) (Htr : transport p = TCP).
Context (Hfrom : from_peer_id p = u) (Hto : to_peer_id p = d) (Hd : d <> []).

(** The routers before the packet leaves: they have the routes of the network and
    have not seen the packet. *)
Context (base : bytes -> MeshRouter).
Context (Hbase : forall v, same_routes (net v) (base v) /\
  Dedup.contains (dedup_key p) (seen_packet_ids_ (base v)) = false).

Definition distance v : Z := table_cost (net v) d.

(** An envelope that carries the packet with time to live [t]. *)
Definition carries (t : Z) (e : Envelope) : Prop :=
  exists i, length i = 16 /\ e = MakeGenericData i (SerializeAsString (set_ttl t p)).

(** The routers that have seen the packet are farther than [h] from the
    destination, and nothing else has happened to them. *)
Definition passed (h : Z) (rs : bytes -> MeshRouter) : Prop :=
  forall v, same_routes (net v) (rs v) /\
    (Dedup.contains (dedup_key p) (seen_packet_ids_ (rs v)) = true -> (h < distance v)%Z) /\
    forall k, k <> dedup_key p ->
      Dedup.contains k (seen_packet_ids_ (rs v)) = Dedup.contains k (seen_packet_ids_ (base v)).

(** The packet is under way to [b], at distance [h] from the destination. *)
Definition under_way (h t : Z) (m : mesh) : Prop :=
  exists a b e, flying m = [(a, b, e)] /\ carries t e /\ b ∈ adj a /\ distance b = h /\ distance a = (h + 1)%Z /\
    delivered m = [] /\ (h < distance u)%Z /\ passed h (routers m).

Definition arrived (t : Z) (m : mesh) : Prop := flying m = [] /\ delivered m = [(d, set_ttl t p)].

Lemma distance_dest v : (distance v = 0)%Z -> v = d.
Proof using Hnet topo.
  unfold distance. intros H. pose proof (table_sound adj v (net v) d (Hnet v)) as Hw. rewrite H in Hw.
  apply (walk_0 adj). by apply Hw.
Qed.

Lemma distance_at_dest : distance d = 0%Z.
Proof using Hnet topo. unfold distance. by apply (table_cost_self adj). Qed.

Lemma decode_carried a b t e :
  fits a b e -> carries t e -> link a b e ≫= decodeRoutedPacket = Some (set_ttl t p).
Proof using Hok reliable pw.
  intros Hf (i & Hi & ->). rewrite (link_carries a b _ Hf). simpl.
  unfold decodeRoutedPacket. apply parse_serialize. by apply packet_ok_ttl.
Qed.

(** The routes of the network, in a router that has kept them. *)
Lemma routes_kept v r :
  same_routes (net v) r -> v <> d -> (distance v < INF_COST)%Z ->
  exists n, routes_via r d n /\ n ∈ adj v /\ distance n = (distance v - 1)%Z.
Proof using Hnet topo Hknown.
  intros (_ & Hft & _) Hv Hlt.
  destruct (next_hop_route adj net v d Hnet Hknown) as (e & He & Hc & Hn & Hd'); [done..|].
  exists (next_hop e). split_and!; [|done|done]. exists e. rewrite Hft, Hc. done.
Qed.

Lemma passed_weaken h h' rs : (h' <= h)%Z -> passed h rs -> passed h' rs.
Proof. intros Hh H v. destruct (H v) as (? & Hs & ?). split_and!; [done| |done]. intros Hc. specialize (Hs Hc). lia. Qed.

Lemma passed_ext h rs rs' : (forall v, rs' v = rs v) -> passed h rs -> passed h rs'.
Proof. intros E H v. rewrite E. apply H. Qed.

(** What one hop does to the network. *)
Lemma hop_passed v r (rs : bytes -> MeshRouter) h :
  after_packet (dedup_key p) (rs v) r -> (h < distance v)%Z -> passed h rs -> passed h (set_router v r rs).
Proof.
  intros (E1 & E2 & E3 & E4 & E5) Hv Hall v'. destruct (decide (v' = v)) as [->|Hne].
  - rewrite set_router_eq. destruct (Hall v) as ((H1 & H2 & H3 & H4) & _ & H5). split_and!; [|done|].
    + unfold same_routes. rewrite E1, E2, E3, E4. done.
    + intros k Hk. by rewrite E5, H5.
  - rewrite set_router_ne by done. apply Hall.
Qed.

Lemma under_way_step h t (m m' : mesh) :
  (0 <= h < t)%Z -> (h < INF_COST)%Z -> (t < 2 ^ 32)%Z -> under_way h t m ->
  (forall a b e, (a, b, e) ∈ flying m -> fits a b e) -> step link uuids m m' ->
  if (h =? 0)%Z then arrived t m' else under_way (h - 1) (t - 1) m'.
Proof using Hok Huuids Hty Htr Hto Hfrom Hd Hnet topo Hknown reliable pw laws.
  intros Hh Hinf Ht (a & b & e & Hfl & Hcar & Hab & Hb & Ha & Hdel & Hu & Hall) Hfits Hstep.
  destruct Hstep as [l1 a' b' e' l2 clk Hfl']. rewrite Hfl in Hfl'.
  destruct l1 as [|x l1]; [|by destruct l1]. injection Hfl' as <- <- <- <-. cbn [app].
  unfold arrive. rewrite (decode_carried a b t e); [|apply Hfits; rewrite Hfl; by left|done].
  destruct (Hall b) as (Hsame & Hseen & _). destruct Hsame as (E1 & E2 & E3 & E4).
  assert (self_id_ (routers m b) = b) as Hself by (rewrite E1; apply (inv_self adj b _ (Hnet b))).
  assert (a <> b) as Hne by (intros ->; lia).
  assert (u <> b) as Hub by (intros ->; lia).
  destruct (Z.eqb_spec h 0) as [->|Hh0].
  - apply distance_dest in Hb as ->. destruct (handle_data (uuids d) ignore_packet clk a (set_ttl t p) (routers m d))
      as (r1 & -> & F1 & _ & _ & F4 & _); [done|by rewrite Hself|simpl; congruence|].
    rewrite route_to_me by (simpl; congruence). rewrite F4, E4, (proj1 (inv_idle adj d _ (Hnet d))), F1, Hself.
    rewrite bool_decide_false by (simpl; congruence). split; simpl; [done|]. by rewrite Hdel.
  - assert (b <> d) as Hbd by (intros ->; rewrite distance_at_dest in Hb; lia).
    destruct (routes_kept b (routers m b)) as (n & Hvia & Hn & Hdn); [done|done|lia|].
    destruct (transit_hop (uuids b) ignore_packet clk a n (set_ttl t p) (routers m b)) as (r' & -> & Hafter);
      rewrite ?Hself; try done.
    + split; simpl; congruence.
    + simpl. rewrite u32_small by lia. lia.
    + simpl; congruence.
    + rewrite E3. apply (inv_up adj b _ (Hnet b)).
    + apply not_true_is_false. intros Hc. specialize (Hseen Hc). lia.
    + simpl. by rewrite Hto.
    + intros ->. lia.
    + intros ->. lia.
    + exists b, n, (MakeGenericData (uuids b (draws (routers m b))) (SerializeAsString (hop_packet (set_ttl t p)))).
      split_and!; try done; [|lia|lia|simpl; by rewrite Hdel|lia|].
      * exists (uuids b (draws (routers m b))). split; [done|]. by rewrite hop_set_ttl.
      * simpl. apply hop_passed; [exact Hafter|lia|]. eapply passed_weaken; [|exact Hall]. lia.
Qed.

Lemma base_passed h : passed h base.
Proof using Hbase. intros v. destruct (Hbase v) as [? ->]. done. Qed.

Lemma inject_under_way clk (m : mesh) :
  routers m = base -> flying m = [] -> delivered m = [] -> u <> d ->
  (distance u < INF_COST)%Z -> (distance u < ttl p < 2 ^ 32)%Z ->
  under_way (distance u - 1) (ttl p - 1) (inject uuids clk u p m) /\ (0 < distance u)%Z.
Proof using Huuids Hty Htr Hto Hfrom Hd Hnet topo Hknown Hbase laws.
  intros Hm Hfl Hdel Hud Hinf Ht.
  assert (0 < distance u)%Z as Hpos.
  { pose proof (table_sound adj u (net u) d (Hnet u) Hinf) as Hw%walk_nonneg. fold (distance u) in Hw.
    destruct (Z.eq_dec (distance u) 0) as [Hz%distance_dest|]; [done|lia]. }
  split; [|done].
  destruct (Hbase u) as [Hsame _]. destruct (routes_kept u (base u)) as (n & Hvia & Hn & Hdn); [done..|].
  destruct Hsame as (E1 & _ & E3 & _).
  assert (self_id_ (base u) = u) as Hself by (rewrite E1; apply (inv_self adj u _ (Hnet u))).
  assert (n <> u) as Hnu by (intros ->; lia).
  unfold inject. rewrite Hm, Hfl.
  destruct (send_hop (uuids u) ignore_packet clk n p (base u)) as (r' & -> & Hafter); rewrite ?Hself; try done.
  - by split; rewrite ?Hto, ?Hself.
  - lia.
  - rewrite E3. apply (inv_up adj u _ (Hnet u)).
  - by rewrite Hto.
  - exists u, n, (MakeGenericData (uuids u (draws (base u))) (SerializeAsString (hop_packet p))).
    split_and!; try done; [|lia|simpl; by rewrite Hdel|lia|].
    + by exists (uuids u (draws (base u))).
    + simpl. rewrite Hm. apply hop_passed; [exact Hafter|lia|apply base_passed].
Qed.

(** Where the message under way is going. *)
Definition remaining (m : mesh) : nat :=
  match flying m with [] => 0 | (_, b, _) :: _ => S (Z.to_nat (distance b)) end.

Definition on_route (m : mesh) : Prop :=
  (exists h t, (0 <= h < t)%Z /\ (h < INF_COST)%Z /\ (t < 2 ^ 32)%Z /\ (t - h = ttl p - distance u)%Z /\
     under_way h t m) \/
  arrived (ttl p - distance u) m.

Lemma on_route_step (m m' : mesh) :
  (forall a b t i, b ∈ adj a -> length i = 16 -> fits a b (MakeGenericData i (SerializeAsString (set_ttl t p)))) ->
  on_route m -> step link uuids m m' -> on_route m' /\ remaining m' < remaining m.
Proof using Hok Huuids Hty Htr Hto Hfrom Hd Hnet topo Hknown reliable pw laws.
  intros Hfits [(h & t & Hh & Hinf & Ht & Hsum & Hw)|[Hfl _]] Hs.
  - assert (forall a b e, (a, b, e) ∈ flying m -> fits a b e) as Hf.
    { destruct Hw as (a & b & e & -> & (i & Hi & ->) & Hab & _). intros ? ? ? [= -> -> ->]%list_elem_of_singleton.
      by apply Hfits. }
    pose proof (under_way_step h t m m' Hh Hinf Ht Hw Hf Hs) as Hn.
    destruct Hw as (a & b & e & Hfl & _ & _ & Hb & _). unfold remaining at 2. rewrite Hfl, Hb.
    destruct (Z.eqb_spec h 0) as [->|Hh0].
    + split; [right; by rewrite <-Hsum, Z.sub_0_r|]. destruct Hn as [Hfl' _]. unfold remaining. rewrite Hfl'. lia.
    + split; [left; exists (h - 1)%Z, (t - 1)%Z; split_and!; [lia..|done]|].
      destruct Hn as (a' & b' & e' & Hfl' & _ & _ & Hb' & _). unfold remaining. rewrite Hfl', Hb'. lia.
  - destruct Hs as [l1 ? ? ? l2 ? Hc]. rewrite Hfl in Hc. by destruct l1.
Qed.
End unicast.

Lemma hop_distance_unique adj u d h h' : hop_distance adj u d h -> hop_distance adj u d h' -> h = h'.
Proof.
  intros [(? & Hw & Hm)|[-> Hm]] [(? & Hw' & Hm')|[-> Hm']]; [|pose proof (Hm' _ Hw); lia|pose proof (Hm _ Hw'); lia|done].
  pose proof (Hm _ Hw'). pose proof (Hm' _ Hw). lia.
Qed.

(** (C4) End-to-end delivery in the mesh.  On any topology, booted nodes exchange
    their tables for 14 or more rounds; then a node [u] sends a packet to a node
    [d] fewer hops away than its time to live, over reliable links.  Whatever
    message arrives next at each step, the network comes to rest, and it comes to
    rest with the packet handed to the application of [d], exactly once, its time
    to live lowered by the hop distance, and to no other application. *)
Theorem mesh_delivers {o : IterOrder} {laws : IterOrderLaws o} {w : Wire RoutedPacket} {pw : PacketWire}
    {link : bytes -> bytes -> Envelope -> option bytes} {fits : bytes -> bytes -> Envelope -> Prop}
    {reliable : ReliableLinks link fits}
    (uuids : bytes -> nat -> bytes) (Huuids : forall a n, length (uuids a n) = 16)
    (adj : bytes -> list bytes) {topo : Topology adj} (now : Z) (clk : bytes -> bytes -> nat -> Z) (k : nat)
    (net : bytes -> MeshRouter)
    (Hrun : rounds uuids ignore_packet adj k (fun u => boot adj now (clk u) u) net) (Hk : 14 <= k)
    (p : RoutedPacket) (u d : bytes) (h : Z) (sent_at : nat -> Z)
    (Hok : packet_ok p = true) (Hty : type p <> ROUTING_UPDATE) (Htr : transport p = TCP)
    (Hfrom : from_peer_id p = u) (Hto : to_peer_id p = d) (Hd : d <> []) (Hud : u <> d)
    (Hfits : forall a b t i, b ∈ adj a -> length i = 16 ->
      fits a b (MakeGenericData i (SerializeAsString (set_ttl t p))))
    (Hdist : hop_distance adj u d h) (Hinf : (h < INF_COST)%Z) (Httl : (h < ttl p)%Z) :
  let m := inject uuids sent_at u p (MeshState net [] []) in
  sn (step link uuids) m /\
  forall m', rtc (step link uuids) m m' ->
    (flying m' <> [] /\ delivered m' = []) \/ (flying m' = [] /\ delivered m' = [(d, set_ttl (ttl p - h) p)]).
Proof.
  destruct (rounds_converge uuids ignore_packet adj now clk k net Hrun Hk) as [Hnet Hkn].
  assert (distance net d u = h) as Hh
    by (apply (hop_distance_unique adj u d); [by apply table_exact|done]).
  assert (ttl p < 2 ^ 32)%Z as Hu32.
  { unfold packet_ok, packet_u32, is_u32 in Hok. rewrite !andb_true_iff, Z.ltb_lt in Hok. lia. }
  assert (forall v, same_routes (net v) (net v) /\ Dedup.contains (dedup_key p) (seen_packet_ids_ (net v)) = false) as Hbase.
  { intros v. by rewrite (proj2 (inv_idle adj v _ (Hnet v))). }
  destruct (inject_under_way uuids Huuids adj net Hnet Hkn p u d Hty Htr Hfrom Hto Hd net Hbase sent_at
    (MeshState net [] [])) as [Hw Hpos]; [done..|lia|lia|]. intros m. fold m in Hw.
  destruct (runs_end (step link uuids) (fun n m => on_route adj net p u d net m /\ remaining net d m = n)
    (remaining net d m) m) as [Hsn Hall].
  - split; [left|done]. exists (h - 1)%Z, (ttl p - 1)%Z. rewrite Hh in *. split_and!; [lia..|done].
  - intros n y z [Hy <-] Hz. destruct (on_route_step uuids Huuids adj net Hnet Hkn p u d Hok Hty Htr Hfrom Hto Hd
      net y z Hfits Hy Hz) as [Hi Hlt]. by exists (remaining net d z).
  - split; [done|]. intros m' Hm'. destruct (Hall m' Hm') as (_ & [(? & ? & _ & _ & _ & _ & (? & ? & ? & -> & _ & _ & _ & _ & -> & _))|[-> ->]] & _).
    + by left.
    + right. by rewrite Hh.
Qed.

(** A text from one end of the line to the other. *)
Definition demo_text : RoutedPacket := MakeTextRoutedPacket (replicate 16 x2a) nA nC DEFAULT_TTL (lit "hi")%mesh false.

Lemma line_distance : hop_distance line nA nC 2.
Proof.
  left. split_and!; [done| |].
  - apply (walk_step line nA nB nC 1); [by left|]. apply (walk_step line nB nC nC 0); [by right; left|].
    constructor.
  - intros j Hw. inversion Hw as [|? n ? c Hn Hw1]; subst. apply list_elem_of_singleton in Hn as ->.
    inversion Hw1 as [|? ? ? c1 _ Hw2%walk_nonneg]; subst. lia.
Qed.

Lemma mesh_delivers_witness :
  let uuids := fun (_ : bytes) (_ : nat) => replicate 16 x11 in
  let run := @round map_order packet_wire uuids ignore_packet (fun u => line u) (fun _ _ => Z.of_nat) in
  let net := Nat.iter 14 run (fun u => @boot map_order line 0 (fun _ => Z.of_nat) u) in
  let m := @inject map_order packet_wire uuids Z.of_nat nA demo_text (MeshState net [] []) in
  sn (@step map_order packet_wire ideal_link uuids) m /\
  forall m', rtc (@step map_order packet_wire ideal_link uuids) m m' -> flying m' = [] ->
    delivered m' = [(nC, set_ttl 8 demo_text)].
Proof.
  intros uuids run net m.
  pose proof (fun k => @iter_rounds map_order packet_wire uuids ignore_packet line k (fun _ _ => Z.of_nat)
    (fun u => @boot map_order line 0 (fun _ => Z.of_nat) u)) as Hr.
  destruct (@mesh_delivers map_order map_order_laws packet_wire packet_wire_laws ideal_link _ ideal_links uuids
    (fun _ _ => eq_refl) line line_topology 0 (fun _ _ => Z.of_nat) 14 net (Hr 14) ltac:(lia) demo_text nA nC 2
    Z.of_nat) as [W1 W2];
    [vm_compute; reflexivity|discriminate|reflexivity|reflexivity|reflexivity|discriminate|discriminate|done
    |exact line_distance|done|done|].
  split; [exact W1|]. intros m' Hm Hfl. destruct (W2 m' Hm) as [[Hne _]|[_ Hdel]]; [done|exact Hdel].
Defined.

End Mesh.
