(* ===== verification/Flood.v ===== *)
(** * Broadcasts

    A broadcast packet in a network of routers (Mesh.v): every router hands it to
    its application and forwards the first copy to its other neighbours
    (src/src/mesh/routing/MeshRouter.cpp, [route_data_packet]).  In a connected
    network with no more nodes than the time to live of the packet, it reaches
    every node, whatever the order in which the copies arrive. *)

From S2P Require Import Prelude Cxx DedupSet ThreadSafeQueue Utils Packet MeshRouter RouterTable.
From S2P Require Import RouterInvariants RouterForward RouterNetwork Link Relay Mesh.

Module Flood.
Import Utils Packet Router Table RouterInv Forward Network Link Relay Mesh.

Implicit Types (r : MeshRouter) (p q : RoutedPacket) (u v a b c : bytes) (m : mesh).

(** A router that runs at node [v] and knows its neighbours. *)
Definition wired (adj : bytes -> list bytes) v r : Prop :=
  self_id_ r = v /\ transport_ r = true /\ on_packet_for_me_cb_ r = true /\
  forall n, is_Some (neighbor_views_ r !! n) <-> n ∈ adj v.

Section flood.
Context {o : IterOrder} {laws : IterOrderLaws o} {w : Wire RoutedPacket} {pw : PacketWire}.
Context {link : bytes -> bytes -> Envelope -> option bytes} {fits : bytes -> bytes -> Envelope -> Prop}.
Context {reliable : ReliableLinks link fits}.
Context (uuids : bytes -> nat -> bytes) (Huuids : forall a n, length (uuids a n) = 16).
Context (adj : bytes -> list bytes) {topo : Topology adj}.

(** The nodes of the network. *)
Context (nodes : list bytes) (Hnodup : NoDup nodes) (Hnames : [] ∉ nodes).
Context (Hclosed : forall a b, a ∈ nodes -> b ∈ adj a -> b ∈ nodes).

(** The packet and its source. *)
Context (p : RoutedPacket) (u : bytes).
Context (Hok : packet_ok p = true) (Hty : type p <> ROUTING_UPDATE) (Htr : transport p = TCP).
Context (Hfrom : from_peer_id p = u) (Hto : to_peer_id p = []).
Context (Hu : u ∈ nodes) (Hsmall : (Z.of_nat (length nodes) <= ttl p)%Z) (Httl : (2 <= ttl p < 2 ^ 32)%Z).
Context (Hfits : forall a b t i, b ∈ adj a -> length i = 16 ->
  fits a b (MakeGenericData i (SerializeAsString (set_ttl t p)))).

Definition seen r : bool := Dedup.contains (dedup_key p) (seen_packet_ids_ r).

(** ** One router *)

(** A broadcast goes to the neighbours. *)
Lemma broadcast_targets src v q r c :
  wired adj v r -> to_peer_id q = [] -> c ∈ targets src q r <-> c ∈ adj v /\ c <> src.
Proof using laws topo.
  intros (Hs & _ & _ & Hn) Hq. unfold targets, determine_next_hop, get_direct_neighbors.
  rewrite Hq, bool_decide_true by done. rewrite !list_elem_of_filter, iter_perm, <-Hn, Hs.
  split.
  - intros ([Hsrc Hne] & _ & ([c' x] & -> & Hx%elem_of_map_to_list)%list_elem_of_fmap). split; [by eexists|done].
  - intros [[x Hx] Hsrc].
    assert (c <> v) by (intros ->; apply (adj_irrefl (adj := adj) v), Hn; by eexists).
    split_and!; [done..|]. apply list_elem_of_fmap. exists (c, x). by rewrite elem_of_map_to_list.
Qed.

Lemma broadcast_targets_length src v q r :
  wired adj v r -> v ∈ nodes -> to_peer_id q = [] -> length (targets src q r) <= length nodes.
Proof using laws topo Hclosed.
  intros Hw Hv Hq. apply submseteq_length, NoDup_submseteq.
  - unfold targets, determine_next_hop, get_direct_neighbors. rewrite Hq, bool_decide_true by done.
    do 2 apply NoDup_filter. rewrite iter_perm. apply NoDup_fst_map_to_list.
  - intros c Hc. apply (Hclosed v); [done|]. by apply (broadcast_targets src v q r c) in Hc as [? _].
Qed.

(** The copies a router sends. *)
Lemma flood_sends src v q r :
  wired adj v r -> v ∈ nodes -> to_peer_id q = [] -> transport q = TCP -> (1 <= ttl q < 2 ^ 32)%Z ->
  let acts := (forward (uuids v) src q r).2 in
  deliveries v acts = [] /\ length (sends v acts) <= length nodes /\
  (forall a b e, (a, b, e) ∈ sends v acts -> a = v /\ b ∈ adj v /\ (2 <= ttl q)%Z /\
     exists i, length i = 16 /\ e = MakeGenericData i (SerializeAsString (hop_packet q))) /\
  (forall b, (2 <= ttl q)%Z -> b ∈ adj v -> b <> src -> exists e, (v, b, e) ∈ sends v acts).
Proof using laws topo Hclosed Huuids.
  intros Hw Hv Hq Hqt Hqttl acts. unfold acts. rewrite forward_actions, hop_ttl by lia.
  pose proof Hw as (_ & Hup & _). rewrite Hup, Hqt. cbn [negb]. rewrite orb_false_r.
  destruct (Z.leb_spec (ttl q - 1) 0) as [Hle|Hgt].
  { split_and!; [done|simpl; lia| |lia]. by intros a b e ?%not_elem_of_nil. }
  pose proof (broadcast_targets_length src v q r Hw Hv Hq) as Hlen.
  set (f := fun i n => _).
  assert (forall l : list bytes, deliveries v (imap f l) = [] /\
    sends v (imap f l) = imap (fun i n => (v, n, MakeGenericData (uuids v (draws r + i)) (SerializeAsString (hop_packet q)))) l)
    as Hl.
  { clear Hlen. unfold f. intros l. clear f. generalize (draws r). induction l as [|n l IH]; intros k; [done|].
    rewrite !imap_cons. cbn [deliveries sends omap list_omap].
    specialize (IH (S k)). destruct IH as [I1 I2]. split.
    - etrans; [|exact I1]. unfold deliveries. f_equal. apply imap_ext. intros i x _. simpl. by rewrite Nat.add_succ_r.
    - f_equal. etrans; [etrans; [|exact I2]|].
      + unfold sends. f_equal. apply imap_ext. intros i x _. simpl. by rewrite Nat.add_succ_r.
      + apply imap_ext. intros i x _. simpl. by rewrite Nat.add_succ_r. }
  destruct (Hl (targets src q r)) as [-> ->]. rewrite length_imap. split_and!; [done|done| |].
  - intros a b e (i & n & [= -> -> ->] & Hi)%elem_of_lookup_imap_1.
    apply list_elem_of_lookup_2, (broadcast_targets src v q r) in Hi as [? _]; [|done..].
    split_and!; [done..|lia|]. eexists. by split; [apply Huuids|].
  - intros b _ Hb Hsrc. assert (b ∈ targets src q r) as [i Hi]%list_elem_of_lookup by (by apply broadcast_targets with v).
    eexists. apply elem_of_lookup_imap. by exists i, b.
Qed.
(** A router that takes a copy from a neighbour: the application gets it, and
    the first copy is sent on. *)
Lemma handle_broadcast clk a v t r :
  wired adj v r -> v ∈ nodes -> a <> v -> v <> u -> (1 <= t < 2 ^ 32)%Z ->
  let q := set_ttl t p in
  exists r' acts, handle_packet (uuids v) ignore_packet clk a q r = (r', Deliver q :: acts) /\
    wired adj v r' /\ seen r' = true /\ deliveries v acts = [] /\ length (sends v acts) <= length nodes /\
    (seen r = true -> acts = []) /\
    (forall x b e, (x, b, e) ∈ sends v acts -> x = v /\ b ∈ adj v /\ (2 <= t)%Z /\ carries p (t - 1) e) /\
    (seen r = false -> forall b, (2 <= t)%Z -> b ∈ adj v -> b <> a -> exists e, (v, b, e) ∈ sends v acts).
Proof using laws topo Hclosed Huuids Hty Htr Hfrom Hto Hnames.
  intros Hw Hv Hav Hvu Ht q. pose proof Hw as (Hs & Hup & Hcb & Hn).
  assert (v <> []) as Hv0 by (intros ->; done).
  assert (ttl q = t) as Hqt by (simpl; rewrite u32_small; lia).
  destruct (handle_data (uuids v) ignore_packet clk a q r) as (r1 & -> & F1 & F2 & F3 & F4 & F5 & F6 & F7);
    [done|congruence|simpl; congruence|].
  assert (wired adj v r1) as Hw1 by (split_and!; [congruence..|intros n; by rewrite F7]).
  unfold route_data_packet. rewrite F4, Hcb, F1, Hs. change (to_peer_id q) with (to_peer_id p).
  change (from_peer_id q) with (from_peer_id p). rewrite Hto, Hfrom.
  rewrite (bool_decide_true ([] = [])) by done. rewrite (bool_decide_false ([] = v)) by done.
  rewrite (bool_decide_false (u = v)) by done. cbn [orb andb negb ignore_packet]. rewrite F1, Hs.
  rewrite (bool_decide_false (a = v)) by done. cbn [negb andb].
  change (to_hex (id q), expect_response q) with (dedup_key p). rewrite F5. fold (seen r).
  destruct (seen r) eqn:Hseen.
  { exists r1, []. split_and!; try done; [unfold seen; by rewrite F5|simpl; lia|]. by intros x b e ?%not_elem_of_nil. }
  set (r2 := with_seen _ r1). assert (wired adj v r2) as Hw2 by done.
  destruct (flood_sends a v q r2 Hw2 Hv) as (G1 & G2 & G3 & G4); [done..|lia|].
  destruct (forward_state (uuids v) a q r2) as [k Hk].
  destruct (forward (uuids v) a q r2) as [r3 acts]. cbn [fst snd] in *. subst r3.
  exists (with_draws k r2), acts. rewrite Hqt in *. split_and!; try done.
  - apply insert_contains.
  - intros x b e Hx. destruct (G3 x b e Hx) as (-> & Hb & Ht2 & i & Hi & ->). split_and!; try done.
    exists i. split; [done|]. by rewrite <-hop_set_ttl.
Qed.

(** ** The network *)

(** Who has the packet. *)
Definition reached m v : Prop := v = u \/ v ∈ (delivered m).*1.

(** [done]: the nodes whose router has seen the packet.  A copy has lost at most
    one hop of its life for each of them. *)
Record flooding (done : list bytes) m : Prop := {
  fl_done : NoDup done /\ (forall v, v ∈ done -> v ∈ nodes /\ reached m v);
  fl_origin : u ∈ done;
  fl_routers : forall v, v ∈ nodes -> wired adj v (routers m v) /\ (seen (routers m v) = true <-> v ∈ done);
  fl_flying : forall a b e, (a, b, e) ∈ flying m -> a ∈ done /\ b ∈ adj a /\
    exists t, carries p t e /\ (1 <= t <= ttl p)%Z /\ (ttl p - t <= Z.of_nat (length done))%Z;
  fl_delivered : forall v q, (v, q) ∈ delivered m -> v ∈ done /\ v <> u /\ exists t, (0 < t <= ttl p)%Z /\ q = set_ttl t p;
  fl_next : forall a b, a ∈ done -> b ∈ adj a -> reached m b \/ exists e, (a, b, e) ∈ flying m
}.

(** Steps that are still possible. *)
Definition budget (done : list bytes) m : nat :=
  length (flying m) + (length nodes - length done) * S (length nodes).

Lemma done_length done m : flooding done m -> length done <= length nodes.
Proof using. intros [[Hnd Hd] _ _ _ _ _]. apply submseteq_length, NoDup_submseteq; [done|]. intros v Hv. by apply Hd. Qed.

(** A list that counts every node. *)
Lemma all_counted (l : list bytes) v :
  NoDup l -> (forall x, x ∈ l -> x ∈ nodes) -> length nodes <= length l -> v ∈ nodes -> v ∈ l.
Proof using Hnodup.
  intros Hnd Hl Hlen Hv. assert (l ⊆+ nodes) as Hsub by (by apply NoDup_submseteq).
  by rewrite (submseteq_length_Permutation _ _ Hsub Hlen).
Qed.

Lemma reached_mono m m' v : (exists l, delivered m' = delivered m ++ l) -> reached m v -> reached m' v.
Proof. intros [l Hl] [->|H]; [by left|]. right. rewrite Hl, fmap_app, elem_of_app. by left. Qed.
(** A message from [a] to [b] has arrived: [b] is now among the nodes that have
    seen the packet, and [new] is what it sends. *)
Lemma flooding_arrival done done' m l1 a b e l2 r' new dels :
  flooding done m -> flying m = l1 ++ (a, b, e) :: l2 -> b ∈ nodes ->
  NoDup done' -> (forall v, v ∈ done' <-> v = b \/ v ∈ done) ->
  wired adj b r' -> seen r' = true ->
  (forall v q, (v, q) ∈ dels -> v = b /\ b <> u /\ exists t, (0 < t <= ttl p)%Z /\ q = set_ttl t p) ->
  (forall x y f, (x, y, f) ∈ new -> x = b /\ y ∈ adj b /\
     exists t, carries p t f /\ (1 <= t <= ttl p)%Z /\ (ttl p - t <= Z.of_nat (length done'))%Z) ->
  let m' := MeshState (set_router b r' (routers m)) ((l1 ++ l2) ++ new) (delivered m ++ dels) in
  reached m' b ->
  (b ∉ done -> forall c, c ∈ adj b -> reached m' c \/ exists f, (b, c, f) ∈ new) ->
  flooding done' m'.
Proof using Httl.
  intros Hf Hfl Hb Hnd Hin Hw Hs Hdel Hnew m' Hreach Hnext.
  destruct Hf as [[Hnd0 Hd0] Ho Hr Hfly Hdl Hnx].
  assert (length done <= length done') as Hlen.
  { apply submseteq_length, NoDup_submseteq; [done|]. intros v Hv. apply Hin. by right. }
  assert (forall v, reached m v -> reached m' v) as Hmono by (intros v; apply reached_mono; by eexists).
  assert (forall x y f, (x, y, f) ∈ l1 ++ l2 -> (x, y, f) ∈ flying m) as Hsub.
  { intros x y f. rewrite Hfl, !elem_of_app, elem_of_cons. tauto. }
  split.
  - split; [done|]. intros v [->|Hv]%Hin; [done|]. destruct (Hd0 v Hv). auto.
  - apply Hin. by right.
  - intros v Hv. cbn [routers m']. destruct (decide (v = b)) as [->|Hne].
    + rewrite set_router_eq. split; [done|]. split; [|done]. intros _. apply Hin. by left.
    + rewrite set_router_ne by done. destruct (Hr v Hv) as [? Hsv]. split; [done|]. rewrite Hsv, Hin. tauto.
  - intros x y f. cbn [flying m']. rewrite elem_of_app. intros [Hx|Hx].
    + destruct (Hfly x y f (Hsub _ _ _ Hx)) as (? & ? & t & ? & ? & ?). split_and!; [apply Hin; by right|done|].
      exists t. split_and!; [done|lia..].
    + destruct (Hnew x y f Hx) as (-> & ? & ?). split_and!; [apply Hin; by left|done|done].
  - intros v q. cbn [delivered m']. rewrite elem_of_app. intros [Hq|Hq].
    + destruct (Hdl v q Hq) as (? & ? & ?). split_and!; [apply Hin; by right|done|done].
    + destruct (Hdel v q Hq) as (-> & ? & ?). split_and!; [apply Hin; by left|done|done].
  - intros x y Hx Hy. cbn [flying m']. destruct (decide (x ∈ done)) as [Hx'|Hx'].
    + destruct (Hnx x y Hx' Hy) as [?|[f Hf]]; [by auto|].
      destruct (decide ((x, y, f) = (a, b, e))) as [[= -> -> ->]|Hne]; [by left|].
      right. exists f. rewrite Hfl, elem_of_app, elem_of_cons in Hf. rewrite !elem_of_app. tauto.
    + apply Hin in Hx as [->|]; [|done]. destruct (Hnext Hx' y Hy) as [?|[f Hf]]; [by left|].
      right. exists f. rewrite elem_of_app. by right.
Qed.

(** A node that had the packet gets it again, and nothing is sent on. *)
Lemma flooding_again done m l1 a b e l2 r' dels :
  flooding done m -> flying m = l1 ++ (a, b, e) :: l2 -> b ∈ nodes -> b ∈ done ->
  wired adj b r' -> seen r' = true ->
  (forall v q, (v, q) ∈ dels -> v = b /\ b <> u /\ exists t, (0 < t <= ttl p)%Z /\ q = set_ttl t p) ->
  let m' := MeshState (set_router b r' (routers m)) ((l1 ++ l2) ++ []) (delivered m ++ dels) in
  flooding done m' /\ budget done m' < budget done m.
Proof using Httl.
  intros Hf Hfl Hb Hbd Hw Hs Hdel m'. destruct (fl_done done m Hf) as [Hnd Hd]. split.
  - eapply flooding_arrival; try done.
    + intros v. split; [by right|]. by intros [->|].
    + by intros x y f ?%not_elem_of_nil.
    + eapply reached_mono; [by eexists|]. by apply Hd.
  - unfold budget, m'. cbn [flying]. rewrite Hfl, app_nil_r, !length_app. simpl. lia.
Qed.

(** The first copy for a node.  If its time to live is used up, every other node
    has had the packet before. *)
Lemma flooding_first done m l1 a b e l2 r' t new :
  flooding done m -> flying m = l1 ++ (a, b, e) :: l2 -> b ∈ nodes -> b <> u -> b ∉ done -> a ∈ done ->
  wired adj b r' -> seen r' = true -> (1 <= t <= ttl p)%Z -> (ttl p - t <= Z.of_nat (length done))%Z ->
  length new <= length nodes ->
  (forall x c f, (x, c, f) ∈ new -> x = b /\ c ∈ adj b /\ (2 <= t)%Z /\ carries p (t - 1) f) ->
  (forall c, (2 <= t)%Z -> c ∈ adj b -> c <> a -> exists f, (b, c, f) ∈ new) ->
  let m' := MeshState (set_router b r' (routers m)) ((l1 ++ l2) ++ new) (delivered m ++ [(b, set_ttl t p)]) in
  flooding (b :: done) m' /\ budget (b :: done) m' < budget done m.
Proof using topo Hclosed Hnodup Hsmall Httl.
  intros Hf Hfl Hb Hbu Hbd Ha Hw Hs Ht Hlife Hlen Hnew Hall m'. destruct (fl_done done m Hf) as [Hnd Hd].
  assert (NoDup (b :: done)) as Hnd' by (by constructor).
  assert (forall x, x ∈ b :: done -> x ∈ nodes) as Hsub by (intros x [->|Hx]%elem_of_cons; [done|by apply Hd]).
  split.
  - eapply flooding_arrival; try done.
    + intros v. by rewrite elem_of_cons.
    + intros v q [= -> ->]%list_elem_of_singleton. split_and!; [done..|]. exists t. split; [lia|done].
    + intros x y f Hx. destruct (Hnew x y f Hx) as (-> & ? & ? & ?). split_and!; [done..|].
      exists (t - 1)%Z. split_and!; [done|lia|lia|]. cbn [length]. lia.
    + right. cbn [delivered]. rewrite fmap_app, elem_of_app. right. by left.
    + intros _ c Hc. destruct (decide (c = a)) as [->|Hca].
      { left. eapply reached_mono; [by eexists|]. by apply Hd. }
      destruct (Z.le_gt_cases 2 t) as [Ht2|Ht1]; [right; by apply Hall|].
      left. eapply reached_mono; [by eexists|]. apply Hd.
      assert (c ∈ b :: done) as [->|]%elem_of_cons; [|by destruct (adj_irrefl (adj := adj) b)|done].
      apply all_counted; [done..|simpl; lia|]. by apply (Hclosed b).
  - pose proof (submseteq_length _ _ (NoDup_submseteq _ _ Hnd' Hsub)) as Hcount. cbn [length] in Hcount.
    unfold budget, m'. cbn [flying length]. rewrite Hfl, !length_app. simpl.
    assert (length nodes - length done = S (length nodes - S (length done))) as -> by lia. nia.
Qed.

Lemma flooding_step done m m' :
  flooding done m -> step link uuids m m' ->
  exists done', flooding done' m' /\ budget done' m' < budget done m.
Proof using laws topo Hclosed Huuids Hok Hty Htr Hfrom Hto Hnames Hnodup Hsmall Httl Hfits reliable pw.
  intros Hf Hstep. destruct Hstep as [l1 a b e l2 clk Hfl].
  destruct (fl_flying done m Hf a b e) as (Ha & Hab & t & Hc & Ht & Hlife).
  { rewrite Hfl, elem_of_app, elem_of_cons. tauto. }
  assert (b ∈ nodes) as Hb by (apply (Hclosed a); [by apply (fl_done done m Hf)|done]).
  assert (a <> b) as Hne by (intros ->; by apply (adj_irrefl (adj := adj) b)).
  destruct (fl_routers done m Hf b Hb) as [Hw Hseen].
  assert (fits a b e) as Hfe by (destruct Hc as (i & Hi & ->); by apply Hfits).
  unfold arrive. rewrite (decode_carried p Hok a b t e Hfe Hc).
  destruct (decide (b = u)) as [->|Hbu].
  - unfold handle_packet. rewrite (proj1 Hw). change (from_peer_id (set_ttl t p)) with (from_peer_id p).
    rewrite Hfrom, (bool_decide_true (u = u)), orb_true_r by done. exists done.
    pose proof (fl_origin done m Hf) as Ho. eapply flooding_again; try done; [by apply Hseen|].
    by intros v q ?%not_elem_of_nil.
  - destruct (handle_broadcast clk a b t (routers m b))
      as (r' & acts & -> & Hw' & Hs' & Hdel & Hlen & Hdup & Hnew & Hall); [done..|lia|].
    unfold acted. cbn [fst snd sends deliveries omap list_omap]. fold (sends b acts). fold (deliveries b acts).
    rewrite Hdel. destruct (seen (routers m b)) eqn:Es.
    + rewrite (Hdup eq_refl) in *. exists done. eapply flooding_again; try done; [by apply Hseen|].
      intros v q [= -> ->]%list_elem_of_singleton. split_and!; [done..|]. exists t. split; [lia|done].
    + exists (b :: done). eapply flooding_first; try done; [|by apply Hall].
      intros Hin%Hseen. done.
Qed.

(** The source sends its copies. *)
Lemma inject_flooding clk (net : bytes -> MeshRouter) :
  (forall v, v ∈ nodes -> wired adj v (net v) /\ seen (net v) = false) ->
  flooding [u] (inject uuids clk u p (MeshState net [] [])).
Proof using laws topo Hclosed Huuids Htr Hfrom Hto Hnames Hu Httl.
  intros Hnet. destruct (Hnet u Hu) as [Hw Hs]. pose proof Hw as (Hself & _).
  assert (u <> []) as Hu0 by (intros ->; done).
  unfold inject, send_packet, route_data_packet. cbn [routers flying]. rewrite Hself, Hto, Hfrom.
  rewrite (bool_decide_true ([] = [])), (bool_decide_false ([] = u)), !(bool_decide_true (u = u)) by done.
  cbn [orb negb]. rewrite andb_false_r. cbn [andb]. rewrite Hself, bool_decide_true by done. cbn [negb andb].
  change (to_hex (id p), expect_response p) with (dedup_key p).
  set (r2 := with_seen _ (net u)). assert (wired adj u r2) as Hw2 by done.
  destruct (flood_sends u u p r2 Hw2 Hu Hto Htr) as (G1 & G2 & G3 & G4); [lia|].
  destruct (forward_state (uuids u) u p r2) as [k Hk].
  destruct (forward (uuids u) u p r2) as [r3 acts]. cbn [fst snd] in *. subst r3.
  unfold acted. cbn [fst snd app]. rewrite G1. split; cbn [routers flying delivered app].
  - split; [apply NoDup_singleton|]. intros v ->%list_elem_of_singleton. split; [done|by left].
  - by left.
  - intros v Hv. destruct (decide (v = u)) as [->|Hne].
    + rewrite set_router_eq. split; [done|]. split; [by left|]. intros _. apply insert_contains.
    + rewrite set_router_ne by done. destruct (Hnet v Hv) as [? ->]. split; [done|].
      rewrite list_elem_of_singleton. by split.
  - intros a b e Hin. destruct (G3 a b e Hin) as (-> & Hb & _ & i & Hi & ->). split_and!; [by left|done|].
    exists (ttl p - 1)%Z. split_and!; [by exists i|lia|lia|simpl; lia].
  - by intros v q ?%not_elem_of_nil.
  - intros a b ->%list_elem_of_singleton Hb. destruct (decide (b = u)) as [->|Hbu]; [left; by left|].
    right. apply G4; [lia|done|done].
Qed.

(** At rest, every node a walk leads to has seen the packet. *)
Lemma flooding_rest done m a b h :
  flooding done m -> flying m = [] -> a ∈ done -> walk adj a b h -> b ∈ done.
Proof using.
  intros Hf Hfl Ha Hw. induction Hw as [a|a n b h Hn _ IH]; [done|]. apply IH.
  destruct (fl_next done m Hf a n Ha Hn) as [[->|Hr]|[e He]].
  - apply (fl_origin done m Hf).
  - apply list_elem_of_fmap in Hr as ([n' q] & -> & Hq). by apply (fl_delivered done m Hf n' q).
  - rewrite Hfl in He. by apply not_elem_of_nil in He.
Qed.
End flood.

(** (C5) A broadcast reaches everyone.  In a connected network with at most as
    many nodes as the packet's time to live (10 for what a node sends), over
    reliable links, a node broadcasts a packet with a fresh id.  Whatever copy
    arrives next at each step, the network comes to rest, and at rest every other
    node's application has been handed the packet, unchanged but for its time to
    live; nothing else is handed to an application, and the sender never gets its
    own packet back. *)
Theorem broadcast_reaches_all {o : IterOrder} {laws : IterOrderLaws o} {w : Wire RoutedPacket} {pw : PacketWire}
    {link : bytes -> bytes -> Envelope -> option bytes} {fits : bytes -> bytes -> Envelope -> Prop}
    {reliable : ReliableLinks link fits}
    (uuids : bytes -> nat -> bytes) (Huuids : forall a n, length (uuids a n) = 16)
    (adj : bytes -> list bytes) {topo : Topology adj}
    (nodes : list bytes) (Hnodup : NoDup nodes) (Hnames : [] ∉ nodes)
    (Hclosed : forall a b, a ∈ nodes -> b ∈ adj a -> b ∈ nodes)
    (p : RoutedPacket) (u : bytes) (net : bytes -> MeshRouter) (sent_at : nat -> Z)
    (Hok : packet_ok p = true) (Hty : type p <> ROUTING_UPDATE) (Htr : transport p = TCP)
    (Hfrom : from_peer_id p = u) (Hto : to_peer_id p = [])
    (Hu : u ∈ nodes) (Hconn : forall v, v ∈ nodes -> exists h, walk adj u v h)
    (Hsmall : (Z.of_nat (length nodes) <= ttl p)%Z) (Httl : (2 <= ttl p)%Z)
    (Hfits : forall a b t i, b ∈ adj a -> length i = 16 ->
      fits a b (MakeGenericData i (SerializeAsString (set_ttl t p))))
    (Hnet : forall v, v ∈ nodes -> wired adj v (net v) /\ seen p (net v) = false) :
  let m := inject uuids sent_at u p (MeshState net [] []) in
  sn (step link uuids) m /\
  forall m', rtc (step link uuids) m m' ->
    (forall v q, (v, q) ∈ delivered m' -> v ∈ nodes /\ v <> u /\ exists t, (0 < t <= ttl p)%Z /\ q = set_ttl t p) /\
    (flying m' = [] -> forall v, v ∈ nodes -> v <> u -> exists t, (v, set_ttl t p) ∈ delivered m').
Proof.
  assert (2 <= ttl p < 2 ^ 32)%Z as Ht.
  { unfold packet_ok, packet_u32, is_u32 in Hok. rewrite !andb_true_iff, Z.ltb_lt in Hok. lia. }
  pose proof (inject_flooding uuids Huuids adj nodes Hnames Hclosed p u Htr Hfrom Hto Hu Ht sent_at net Hnet) as Hf.
  intros m. fold m in Hf.
  destruct (runs_end (step link uuids) (fun n m => exists done, flooding adj nodes p u done m /\ budget nodes done m = n)
    (budget nodes [u] m) m) as [Hsn Hall]; [by exists [u]| |].
  { intros n y z (done & Hy & <-) Hz.
    destruct (flooding_step uuids Huuids adj nodes Hnodup Hnames Hclosed p u Hok Hty Htr Hfrom Hto Hsmall Ht Hfits
      done y z Hy Hz) as (done' & Hz' & Hlt). eauto. }
  split; [done|]. intros m' Hm'. destruct (Hall m' Hm') as (_ & done & Hd & _). split.
  - intros v q Hq. destruct (fl_delivered adj nodes p u done m' Hd v q Hq) as (Hv & ? & ?).
    split_and!; [|done..]. by apply (fl_done adj nodes p u done m' Hd).
  - intros Hfl v Hv Hvu. destruct (Hconn v Hv) as [h Hw].
    pose proof (flooding_rest adj nodes p u done m' u v h Hd Hfl (fl_origin _ _ _ _ _ _ Hd) Hw) as Hin.
    destruct (proj2 (fl_done adj nodes p u done m' Hd) v Hin) as [_ [|Hr]]; [done|].
    apply list_elem_of_fmap in Hr as ([v' q] & -> & Hq).
    destruct (fl_delivered adj nodes p u done m' Hd v' q Hq) as (_ & _ & t & _ & ->). by exists t.
Qed.

(** Booted nodes are wired. *)
Lemma node_inv_wired adj v r (q : RoutedPacket) :
  node_inv adj v r -> wired adj v r /\ seen q r = false.
Proof.
  intros Hi. destruct (inv_idle adj v r Hi) as [Hcb Hs]. split.
  - split_and!; [apply Hi|apply (inv_up adj v r Hi)|done|apply (inv_neighbors adj v r Hi)].
  - unfold seen. by rewrite Hs.
Qed.

(** A text for everyone, from the middle of the line. *)
Definition demo_news : RoutedPacket := MakeTextRoutedPacket (replicate 16 x2a) nB [] DEFAULT_TTL (lit "hi")%mesh false.

Lemma broadcast_reaches_all_witness :
  let uuids := fun (_ : bytes) (_ : nat) => replicate 16 x11 in
  let net := fun u => @boot map_order line 0 (fun _ => Z.of_nat) u in
  let m := @inject map_order packet_wire uuids Z.of_nat nB demo_news (MeshState net [] []) in
  sn (@step map_order packet_wire ideal_link uuids) m /\
  forall m', rtc (@step map_order packet_wire ideal_link uuids) m m' -> flying m' = [] ->
    exists t t', (nA, set_ttl t demo_news) ∈ delivered m' /\ (nC, set_ttl t' demo_news) ∈ delivered m'.
Proof.
  intros uuids net m.
  destruct (@broadcast_reaches_all map_order map_order_laws packet_wire packet_wire_laws ideal_link _ ideal_links uuids
    (fun _ _ => eq_refl) line line_topology [nA; nB; nC]) with (p := demo_news) (u := nB) (net := net)
    (sent_at := Z.of_nat) as [W1 W2].
  - apply (bool_decide_unpack _). vm_compute. exact I.
  - apply (bool_decide_unpack _). vm_compute. exact I.
  - intros a b _ Hb. unfold line in Hb. repeat case_bool_decide; rewrite ?elem_of_cons, ?elem_of_nil in *; intuition.
  - vm_compute. reflexivity.
  - discriminate.
  - reflexivity.
  - reflexivity.
  - reflexivity.
  - apply (bool_decide_unpack _). vm_compute. exact I.
  - assert (forall v, v ∈ line nB -> walk line nB v 1) as Hnb
      by (intros v Hv; apply (walk_step line nB v v 0); [exact Hv|constructor]).
    intros v Hv. rewrite !elem_of_cons in Hv. destruct Hv as [->|[->|[->|Hv]]].
    + exists 1%Z. apply Hnb. by left.
    + exists 0%Z. constructor.
    + exists 1%Z. apply Hnb. by right; left.
    + by apply not_elem_of_nil in Hv.
  - vm_compute. discriminate.
  - vm_compute. discriminate.
  - done.
  - intros v _. apply node_inv_wired.
    apply (@boot_inv map_order map_order_laws uuids ignore_packet line line_topology).
  - split; [exact W1|]. intros m' Hm Hfl. destruct (W2 m' Hm) as [_ W3].
    destruct (W3 Hfl nA) as [t Ht]; [by left|discriminate|]. destruct (W3 Hfl nC) as [t' Ht']; [by right; right; left|discriminate|].
    by exists t, t'.
Defined.

End Flood.
