(* ===== verification/NodeRequest.v ===== *)
(** * A request across the mesh

    The node on top of its router: what happens when bytes arrive for it, and the
    round trip of a request through a chain of routers to the application of
    another node and back, with or without encryption. *)

From S2P Require Import Prelude Cxx DedupSet ThreadSafeQueue Utils Packet MeshRouter RouterTable.
From S2P Require Import RouterInvariants RouterForward RequestTracker Crypto Identity MeshNode NodeCorrect NodeRecursion.
From S2P Require Import Link Relay.

Module Request.
Import Utils Packet Router RouterInv Forward Crypto Identity Node Link Relay.

Implicit Types (n : MeshNode) (r : MeshRouter) (p q : RoutedPacket).

(** ** Packets that arrive at the node *)

(** The calls of the transport among the actions of the node. *)
Definition routes (l : list node_action) : list Router.action :=
  omap (fun a => match a with Route x => Some x | _ => None end) l.

Definition delivers (acts : list Router.action) : bool :=
  match acts with Deliver _ :: _ => true | _ => false end.

Section receive.
Context {o : IterOrder} {wp : Wire RoutedPacket} {ssl : OpenSSL}.
Context {w1 : Wire IdentityRequest} {w2 : Wire IdentityResponse} {w3 : Wire PingRequest}
  {w4 : Wire PingResponse} {w5 : Wire TopologyRequest} {w6 : Wire TopologyResponse}.
Context (uuid : nat -> bytes) (clock : nat -> Z) (rand : nat -> Identity.draws) (parses : nat -> bytes -> bool).

(** The event loop of the router on a packet from the neighbour [src], with the
    callback the node has set: it is called at most once, first of all, on the
    router that has heard of [src]. *)
Definition receive_packet (src : bytes) (pkt : RoutedPacket) : M unit := fun n =>
  let clk i := clock (ticks n + i) in
  if delivers (handle_packet uuid no_callback clk src pkt (router_ n)).2 then
    let '(pkt', n2, acts) := handle_incoming_packet uuid clock rand parses 2 pkt
                               (with_router (hear (clk 0) src (router_ n)) (S (ticks n)) n) in
    let '(r, racts) := handle_packet uuid (fun _ _ => (router_ n2, pkt', routes acts))
                         (fun i => match i with 0 => clk 0 | S i => clock (ticks n2 + i) end) src pkt (router_ n) in
    (tt, with_router r (S (ticks n2)) n2, acts ++ (Route <$> drop (S (length (routes acts))) racts))
  else
    let '(r, racts) := handle_packet uuid no_callback clk src pkt (router_ n) in
    (tt, with_router r (2 + ticks n) n, Route <$> racts).

(** Bytes for the sink: they pass through the event queue as a packet. *)
Definition receive_bytes (src payload_bytes : bytes) : M unit :=
  match decodeRoutedPacket payload_bytes with
  | None => mret tt
  | Some pkt => receive_packet src pkt
  end.

(** The queue between the sink and the loop hands the packet over unchanged. *)
Lemma event_through_queue src payload_bytes pkt cb expired clk now clkm next r :
  event_queue_ r = Queue.new_queue -> decodeRoutedPacket payload_bytes = Some pkt -> (now < next)%Z ->
  loop_iteration uuid cb expired clk now clkm next (push_data_bytes src payload_bytes r) =
  let '(r', acts) := handle_packet uuid cb clk src pkt r in Some (r', next, acts).
Proof.
  intros Hq Hd Hn. unfold loop_iteration, push_data_bytes. rewrite Hd. unfold push_event. cbn [event_queue_ with_queue].
  rewrite Hq. cbn. rewrite (proj2 (Z.leb_gt _ _)) by done.
  assert (with_queue (Queue.TSQueue [] false) (with_queue (Queue.push (PACKET_RECEIVED src pkt) Queue.new_queue) r) = r)
    as -> by (destruct r; cbn in *; by rewrite Hq). done.
Qed.

(** A packet for this node alone goes to [handle_incoming_packet]. *)
Lemma receive_for_me src pkt n :
  to_peer_id pkt = self_id_ (router_ n) -> from_peer_id pkt <> self_id_ (router_ n) ->
  src <> self_id_ (router_ n) -> type pkt = BINARY -> on_packet_for_me_cb_ (router_ n) = true ->
  receive_packet src pkt n =
  let '(_, n2, acts) := handle_incoming_packet uuid clock rand parses 2 pkt
    (with_router (hear (clock (ticks n)) src (router_ n)) (S (ticks n)) n) in
  (tt, with_router (router_ n2) (S (ticks n2)) n2, acts).
Proof.
  intros Hto Hfrom Hsrc Hty Hcb. unfold receive_packet.
  assert (forall cb clk, handle_packet uuid cb clk src pkt (router_ n) =
    let '(r', _, acts) := cb (hear (clk 0) src (router_ n)) pkt in (r', Deliver pkt :: acts)) as Hh.
  { intros cb clk. unfold handle_packet. rewrite !bool_decide_false by done. cbn [orb]. rewrite Hty.
    fold (hear (clk 0) src (router_ n)).
    destruct (hear_keeps (clk 0) src (router_ n)) as (E1 & _ & _ & E2).
    rewrite route_to_me by congruence. rewrite E1, E2, Hcb, bool_decide_false by done. done. }
  rewrite !Hh. cbn [no_callback delivers snd]. rewrite Nat.add_0_r.
  destruct (handle_incoming_packet _ _ _ _ _ _ _) as [[pkt' n2] acts]. rewrite Hh.
  cbn [drop]. rewrite drop_ge by done. by rewrite app_nil_r.
Qed.

(** ** Packets whose content the receiver can read *)

(** [q] has the routing fields of the request or response [i]. *)
Definition header q (i from to : bytes) (t : Z) (sub : bytes) (expect : bool) : Prop :=
  id q = i /\ from_peer_id q = from /\ to_peer_id q = to /\ ttl q = t /\ type q = BINARY /\
  transport q = TCP /\ subtype q = sub /\ expect_response q = expect.

Definition opens (im : IdentityManager) q (msg : bytes) : Prop :=
  payload q = binary_data msg \/
  (has_encrypted_payload q = true /\ is_Some (trusted_keys_ im !! from_peer_id q) /\ decrypt_packet im q = Ok msg).

Lemma opens_ttl im q msg t : opens im q msg -> opens im (set_ttl t q) msg.
Proof. done. Qed.

(** [handle_incoming_packet] on such a packet. *)
Lemma incoming_opens (fuel : nat) q i from to t sub expect msg n :
  header q i from to t sub expect -> opens (identity_ n) q msg -> ignore_all_incoming_messages_ n = false ->
  exists q' rec, header q' i from to t sub expect /\ get_binary_data q' = msg /\
    handle_incoming_packet uuid clock rand parses (S fuel) q n =
      (_ ← handle_plain_packet uuid clock rand parses rec q'; mret q') n.
Proof.
  intros Hh Ho Hi. rewrite Recursion.handle_incoming_S. set (rec := Recursion.pending_loop _). unfold handle_packet_body. rewrite run_gets, Hi.
  destruct Ho as [Hp|(He & Hk & Hd)].
  - exists q, rec. split_and!; [done| |]; [unfold get_binary_data; by rewrite Hp|].
    unfold has_encrypted_payload. by rewrite Hp.
  - rewrite He, run_gets. unfold has_key. rewrite bool_decide_true by done. cbn [negb].
    rewrite run_gets, Hd. eexists _, rec. split; [|split; [|reflexivity]]; [|done].
    destruct q as [? ? ? ? ? ? ? ? ? ? []]; done.
Qed.

(** The packet goes through the router to [handle_plain_packet]. *)
Lemma receive_opens src q i from t sub expect msg n :
  header q i from (self_id_ (router_ n)) t sub expect -> opens (identity_ n) q msg ->
  ignore_all_incoming_messages_ n = false -> from <> self_id_ (router_ n) -> src <> self_id_ (router_ n) ->
  on_packet_for_me_cb_ (router_ n) = true ->
  exists q' rec, header q' i from (self_id_ (router_ n)) t sub expect /\ get_binary_data q' = msg /\
    receive_packet src q n =
      let '(_, n2, acts) := handle_plain_packet uuid clock rand parses rec q'
        (with_router (hear (clock (ticks n)) src (router_ n)) (S (ticks n)) n) in
      (tt, with_router (router_ n2) (S (ticks n2)) n2, acts).
Proof.
  intros Hh Ho Hign Hfrom Hsrc Hcb. set (n1 := with_router _ _ n).
  destruct (incoming_opens 1 q i from (self_id_ (router_ n)) t sub expect msg n1) as (q' & rec & Hq' & Hmsg & Hrun); [done..|].
  exists q', rec. split_and!; [done..|]. pose proof Hh as (_ & Hf & Ht & _ & Hy & _).
  rewrite receive_for_me by congruence. fold n1. rewrite Hrun. unfold mbind, M_bind.
  destruct (handle_plain_packet _ _ _ _ _ _ n1) as [[u' n2] acts]. unfold mret, M_ret. by rewrite app_nil_r.
Qed.

(** A request for a handler of the application. *)
Lemma plain_request rec q i from to t sub rsub k msg n :
  header q i from to t sub true -> get_binary_data q = msg ->
  Tracker.pending_requests_ (request_tracker_ n) !! to_hex i = None ->
  Tracker.broadcasts_ (request_tracker_ n) !! to_hex i = None ->
  handlers_ n !! sub = Some {| ResponseSubtype := rsub; handler := HUser k |} -> parses k msg = true ->
  handle_plain_packet uuid clock rand parses rec q n =
  (tt, n, [UserHandler k from msg {| reply_to := from; reply_id := i; reply_transport := TCP;
     reply_expected := true; reply_subtype := rsub |}]).
Proof.
  intros (<- & <- & _ & _ & Hty & Htr & <- & Hex) <- Hp Hb Hh Hparse. unfold handle_plain_packet.
  rewrite run_gets. unfold Tracker.fulfill_request. rewrite Hp, Hb, run_modify. cbn [for_all]. rewrite run_ret, Hty.
  assert (with_tracker (request_tracker_ n) n = n) as -> by (by destruct n).
  rewrite run_gets, Hh. cbn [run_handler handler ResponseSubtype]. rewrite Hparse, Htr, Hex. done.
Qed.

(** The response to a request of the application. *)
Lemma plain_response rec q i from to t sub k tm msg n :
  header q i from to t sub false -> get_binary_data q = msg ->
  Tracker.pending_requests_ (request_tracker_ n) !! to_hex i = Some (CbUser k, tm) -> parses k msg = true ->
  exists tr, handle_plain_packet uuid clock rand parses rec q n =
      (tt, with_tracker tr n, [UserResponse k from (Ok msg)]) /\
    Tracker.pending_requests_ tr = delete (to_hex i) (Tracker.pending_requests_ (request_tracker_ n)).
Proof.
  intros (<- & <- & _) <- Hp Hparse. unfold handle_plain_packet. rewrite run_gets.
  unfold Tracker.fulfill_request, Tracker.complete_request. rewrite !Hp, run_modify. cbn [for_all run_call internal_cb].
  rewrite Hparse. eexists. split; [reflexivity|]. unfold Tracker.abort_timer.
  by destruct (Tracker.armed _ !! tm) as [[]|].
Qed.

(** ** Packets that leave the node *)

Context {key_pair : bytes -> bytes -> Prop} {laws : OpenSSLLaws key_pair}.

(** With encryption on, two nodes hold each other's keys. *)
Definition can_secure (enc : bool) (ia ib : IdentityManager) (a b : bytes) : Prop :=
  enc = true -> exists apub bpub, trusted_keys_ ia !! b = Some bpub /\ trusted_keys_ ib !! a = Some apub /\
    key_pair apub (my_private_key_ ia) /\ key_pair bpub (my_private_key_ ib).

Lemma can_secure_sym enc ia ib a b : can_secure enc ia ib a b -> can_secure enc ib ia b a.
Proof. intros H He. destruct (H He) as (apub & bpub & ? & ? & ? & ?). by exists bpub, apub. Qed.

(** Names and types the protobuf runtime takes. *)
Definition names_ok (a b sub : bytes) : Prop :=
  utf8_valid a = true /\ utf8_valid b = true /\ utf8_valid sub = true.

Lemma header_packet_ok q i from to t sub expect :
  header q i from to t sub expect -> (0 <= t < 2 ^ 32)%Z -> names_ok from to sub ->
  get_text q = [] -> get_route_table q = ∅ -> packet_ok q = true.
Proof.
  intros (_ & <- & <- & <- & _ & _ & <- & _) Ht (H1 & H2 & H3) Htext Hrt. unfold packet_ok, packet_u32.
  rewrite Htext, Hrt, H1, H2, H3. unfold is_u32. rewrite !andb_true_iff, Z.leb_le, Z.ltb_lt, !bool_decide_eq_true.
  split_and!; try done; try lia; apply map_Forall_empty.
Qed.

Definition fits_aes (msg : bytes) : Prop := (Z.of_nat (length msg) + 16 < 2 ^ 31)%Z.

Lemma secure_opens ia ib d p i a b t sub expect msg :
  can_secure true ia ib a b -> header p i a b t sub expect -> draws_ok d -> fits_aes msg ->
  (0 <= t < 2 ^ 32)%Z -> names_ok a b sub ->
  exists q, secure_packet ia d p b msg = (true, q) /\ header q i a b t sub expect /\ opens ib q msg /\
    packet_ok q = true.
Proof.
  intros Hs Hh Hd Hm Ht Hn. destruct (Hs eq_refl) as (apub & bpub & Ha & Hb & Hka & Hkb).
  destruct (secure_decrypts ia ib d p b msg apub bpub) as (enc & key & sig & He & Hdec); try done.
  { by destruct Hh as (_ & -> & _). }
  eexists. split; [exact He|]. split; [exact Hh|]. split.
  - right. split_and!; [done| |exact Hdec]. simpl. destruct Hh as (_ & -> & _). by eexists.
  - by eapply header_packet_ok.
Qed.

Definition same_rest n n' : Prop :=
  router_ n' = with_draws (S (Router.draws (router_ n))) (router_ n) /\ identity_ n' = identity_ n /\
  ignore_all_incoming_messages_ n' = ignore_all_incoming_messages_ n /\
  encrypt_messages_ n' = encrypt_messages_ n /\ peer_id_ n' = peer_id_ n.

Lemma fresh_id (u : bytes) : length u = 16 -> generate_uuid_bytes u DEFAULT_UUID_SIZE = u.
Proof.
  intros H. unfold generate_uuid_bytes. rewrite H. apply take_ge. rewrite H. vm_compute. lia.
Qed.

Lemma binary_header u (a b : bytes) t sub raw expect :
  length u = 16 -> (0 <= t < 2 ^ 32)%Z ->
  header (MakeBinaryRoutedPacket u a b t sub TCP raw expect) u a b t sub expect.
Proof. intros Hu Ht. unfold header. simpl. by rewrite fresh_id, u32_small. Qed.

Lemma run_secure {B} p (target raw : bytes) (f : bool * RoutedPacket -> M B) n :
  (secure rand p target raw ≫= f) n =
  f (secure_packet (identity_ n) (rand (crypto_draws n)) p target raw)
    (with_identity (identity_ n) (S (crypto_draws n)) n).
Proof. by apply run_silent. Qed.

(** The packet of a request, and the node that is about to send it. *)
Lemma request_packet n ib (a b sub ser : bytes) (k : nat) :
  (forall j, length (uuid j) = 16) -> (forall j, draws_ok (rand j)) ->
  peer_id_ n = a -> sub <> identity_request_subtype -> names_ok a b sub -> fits_aes ser ->
  can_secure (encrypt_messages_ n) (identity_ n) ib a b ->
  let i := uuid (Router.draws (router_ n)) in
  exists q n1, header q i a b DEFAULT_TTL sub true /\ opens ib q ser /\ packet_ok q = true /\
    send_request_async uuid clock rand sub ser b (CbUser k) TCP n = router_send uuid clock q n1 /\
    same_rest n n1 /\ exists tm, Tracker.pending_requests_ (request_tracker_ n1) !! to_hex i = Some (CbUser k, tm).
Proof.
  intros Hu Hd Hself Hsub Hn Hlen Hsec i.
  assert (forall t : Tracker.AsyncRequestTracker callback, exists tm,
    Tracker.pending_requests_ (Tracker.track_request_callback (to_hex i) (CbUser k) t) !! to_hex i = Some (CbUser k, tm))
    as Htrack.
  { intros t. exists (Tracker.next_timer t). unfold Tracker.track_request_callback.
    destruct (Tracker.pending_requests_ (Tracker.arm _ t) !! to_hex i) as [[? t']|]; [|apply lookup_insert_eq].
    unfold Tracker.abort_timer. destruct (Tracker.armed _ !! t') as [[]|]; apply lookup_insert_eq. }
  unfold send_request_async, send_request_with. rewrite run_gets, (bool_decide_false (sub = _)) by done.
  destruct (encrypt_messages_ n) eqn:Henc; cbn [andb negb].
  - pose proof (Hsec eq_refl) as (apub & bpub & Ha & _).
    rewrite run_make_binary, run_gets. fold i. unfold has_key.
    rewrite bool_decide_true by (by exists bpub). cbn [negb].
    destruct (secure_opens (identity_ n) ib (rand (crypto_draws n))
      (MakeBinaryRoutedPacket i (peer_id_ n) b DEFAULT_TTL sub TCP [] true) i a b DEFAULT_TTL sub true ser)
      as (q & Hq & Hh & Ho & Hok); try done; [rewrite Hself; apply binary_header; [apply Hu|done]|].
    rewrite run_secure. change (identity_ (drawn n)) with (identity_ n).
    change (crypto_draws (drawn n)) with (crypto_draws n). rewrite Hq. cbn [negb].
    rewrite run_modify. eexists q, _. split_and!; [done..|reflexivity|done| ].
    destruct Hh as (-> & _). apply Htrack.
  - rewrite run_make_binary, run_modify. fold i.
    assert (header (MakeBinaryRoutedPacket i (peer_id_ n) b DEFAULT_TTL sub TCP ser true) i a b DEFAULT_TTL sub true)
      as Hh by (rewrite Hself; apply binary_header; [apply Hu|done]).
    eexists (MakeBinaryRoutedPacket i (peer_id_ n) b DEFAULT_TTL sub TCP ser true), _.
    split_and!; [done|by left|by eapply header_packet_ok|reflexivity|done|].
    destruct Hh as (-> & _). apply Htrack.
Qed.

(** The packet of a response. *)
Lemma reply_packet n ia (i a b sub resp : bytes) x :
  (forall j, length (uuid j) = 16) -> (forall j, draws_ok (rand j)) ->
  peer_id_ n = b -> reply_expected x = true -> reply_to x = a -> reply_id x = i -> reply_transport x = TCP ->
  default [] (reply_subtype x) = sub -> sub <> identity_request_subtype -> sub <> identity_response_subtype ->
  names_ok b a sub -> fits_aes resp -> can_secure (encrypt_messages_ n) (identity_ n) ia b a ->
  exists q n1, header q i b a 15 sub false /\ opens ia q resp /\ packet_ok q = true /\
    reply uuid clock rand x resp n = router_send uuid clock q n1 /\ same_rest n n1.
Proof.
  intros Hu Hd Hself Hex Hto Hid Htr Hsub Hs1 Hs2 Hn Hlen Hsec. unfold reply.
  rewrite Hex, Hsub, Hto, Hid, Htr, !(bool_decide_false (sub = _)) by done. cbn [negb].
  rewrite run_make_binary, run_gets. change (encrypt_messages_ (drawn n)) with (encrypt_messages_ n).
  set (p := set_id i _). assert (header p i b a 15 sub false) as Hh.
  { destruct (binary_header (uuid (Router.draws (router_ n))) b a 15 sub resp false) as (_ & ? & ? & ? & ? & ? & ? & ?);
      [done|done|]. rewrite <-Hself in *. by repeat split. }
  destruct (encrypt_messages_ n) eqn:Henc; cbn [andb orb negb].
  - destruct (secure_opens (identity_ n) ia (rand (crypto_draws n)) p i b a 15 sub false resp)
      as (q & Hq & Hhq & Ho & Hok); try done.
    rewrite run_secure. change (identity_ (drawn n)) with (identity_ n).
    change (crypto_draws (drawn n)) with (crypto_draws n). rewrite Hq. cbn [negb].
    eexists q, _. split_and!; [done..|reflexivity|done].
  - eexists (set_payload (binary_data resp) p), _. split_and!; [done|by left| |reflexivity|done].
    by eapply header_packet_ok.
Qed.

Lemma router_send_hop {ol : IterOrderLaws o} q i a b t sub expect next n :
  header q i a b t sub expect -> self_id_ (router_ n) = a -> b <> [] -> b <> a -> (2 <= t < 2 ^ 32)%Z ->
  transport_ (router_ n) = true -> routes_via (router_ n) b next -> next <> a ->
  exists r', router_send uuid clock q n =
      (tt, with_router r' (S (ticks n)) n,
       [Route (SendTcp next (MakeGenericData (uuid (Router.draws (router_ n))) (SerializeAsString (hop_packet q))))]) /\
    after_packet (dedup_key q) (router_ n) r'.
Proof.
  intros (_ & Hfrom & Hto & Ht & _ & Htr & _) Hself Hb Hab Httl Hup Hroute Hne. unfold router_send.
  destruct (send_hop uuid no_callback (fun j => clock (ticks n + j)) next q (router_ n)) as (r' & Hr' & Ha); try congruence.
  - split; congruence.
  - exists r'. by rewrite Hr'.
Qed.

Lemma hop_header q i a b t sub expect :
  header q i a b t sub expect -> (1 <= t < 2 ^ 32)%Z -> header (hop_packet q) i a b (t - 1) sub expect.
Proof.
  intros (? & ? & ? & Ht & ? & ? & ? & ?) Hr. unfold header. rewrite hop_ttl by lia. by rewrite Ht.
Qed.

Lemma travelled_header q i a b t sub expect k :
  header q i a b t sub expect -> (Z.of_nat k <= t < 2 ^ 32)%Z ->
  header (travelled k q) i a b (t - Z.of_nat k) sub expect.
Proof.
  intros (? & ? & ? & Ht & ? & ? & ? & ?) Hr. unfold header, travelled. simpl. rewrite u32_small by lia. by rewrite Ht.
Qed.

Context {ol : IterOrderLaws o} {pw : PacketWire}.
Context {link : bytes -> bytes -> Envelope -> option bytes} {fits : bytes -> bytes -> Envelope -> Prop}.
Context {reliable : ReliableLinks link fits}.

(** A sealed packet crosses a path and reaches [handle_incoming_packet] of the
    node at its end, which can read it. *)
Lemma packet_arrives uuids clocks cb u q i a b t sub expect msg rs n :
  (forall x j, length (uuids x j) = 16) -> length u = 16 -> header q i a b t sub expect ->
  (Z.of_nat (length rs) < t < 2 ^ 32)%Z -> packet_ok q = true -> b <> [] ->
  path_ok (to_hex i, expect) a a rs b -> path_fits fits q a rs b ->
  opens (identity_ n) q msg -> ignore_all_incoming_messages_ n = false ->
  self_id_ (router_ n) = b -> a <> b -> last_hop a rs <> b -> on_packet_for_me_cb_ (router_ n) = true ->
  exists rs1 s q' rec t', relay link uuids clocks cb a (MakeGenericData u (SerializeAsString q)) rs b =
      Some (rs1, last_hop a rs, s) /\
    Forall2 (after_packet (to_hex i, expect)) rs rs1 /\ header q' i a b t' sub expect /\ get_binary_data q' = msg /\
    receive_bytes (last_hop a rs) s n =
      let '(_, n2, acts) := handle_plain_packet uuid clock rand parses rec q'
        (with_router (hear (clock (ticks n)) (last_hop a rs) (router_ n)) (S (ticks n)) n) in
      (tt, with_router (router_ n2) (S (ticks n2)) n2, acts).
Proof.
  intros Huuids Hu Hh Ht Hok Hb Hpath Hfits Hopen Hign Hself Hab Hlast Hcb.
  pose proof Hh as (Hid & Hfrom & Hto & Httl & Hty & Htr & _ & Hex).
  assert (dedup_key q = (to_hex i, expect)) as Hkey by (unfold dedup_key; congruence).
  destruct (relay_delivers uuids clocks cb u q a rs b) as (rs1 & Hrel & Hall); try done; try congruence; try lia.
  set (q1 := travelled (length rs) q) in *.
  assert (header q1 i a b (t - Z.of_nat (length rs)) sub expect) as Hh1 by (apply travelled_header; [done|lia]).
  rewrite <-Hself in Hh1. destruct (receive_opens (last_hop a rs) q1 i a (t - Z.of_nat (length rs)) sub expect msg n)
    as (q' & rec & Hq' & Hmsg & Hrun); [done|done|done|congruence|congruence|done|].
  eexists rs1, _, q', rec, _. split; [exact Hrel|]. split; [by rewrite <-Hkey|]. split; [by rewrite Hself in Hq'|]. split; [done|].
  unfold receive_bytes, decodeRoutedPacket. by rewrite parse_serialize by (by apply packet_ok_ttl).
Qed.
End receive.

Arguments can_secure key_pair enc ia ib a b : clear implicits.

(** ** The round trip *)

Lemma hear_fields now src r :
  self_id_ (hear now src r) = self_id_ r /\ transport_ (hear now src r) = transport_ r /\
  forwarding_table_ (hear now src r) = forwarding_table_ r.
Proof. unfold hear. by destruct (neighbor_views_ r !! src). Qed.

Lemma last_hop_first prev rs : last_hop prev rs = first_hop (reverse rs) prev.
Proof.
  unfold last_hop. induction rs as [|r rs _] using rev_ind; [done|]. by rewrite last_snoc, reverse_snoc.
Qed.

Lemma first_hop_after k rs rs1 (d : bytes) :
  Forall2 (after_packet k) rs rs1 -> first_hop rs1 d = first_hop rs d.
Proof. intros [|r r1 ? ? (E & _) _]; [done|exact E]. Qed.

(** Two nodes and the routers between them, with the routes both ways; [i]: the
    id of a request that none of the routers has seen. *)
Record mesh_path (na nb : MeshNode) (rs : list MeshRouter) (i : bytes) : Prop := {
  path_names : peer_id_ na <> [] /\ peer_id_ nb <> [] /\ peer_id_ na <> peer_id_ nb;
  path_a : self_id_ (router_ na) = peer_id_ na /\ transport_ (router_ na) = true /\
    on_packet_for_me_cb_ (router_ na) = true /\ ignore_all_incoming_messages_ na = false;
  path_b : self_id_ (router_ nb) = peer_id_ nb /\ transport_ (router_ nb) = true /\
    on_packet_for_me_cb_ (router_ nb) = true /\ ignore_all_incoming_messages_ nb = false;
  path_forth : routes_via (router_ na) (peer_id_ nb) (first_hop rs (peer_id_ nb)) /\
    first_hop rs (peer_id_ nb) <> peer_id_ na /\
    path_ok (to_hex i, true) (peer_id_ na) (peer_id_ na) rs (peer_id_ nb);
  path_back : routes_via (router_ nb) (peer_id_ na) (first_hop (reverse rs) (peer_id_ na)) /\
    first_hop (reverse rs) (peer_id_ na) <> peer_id_ nb /\
    path_ok (to_hex i, false) (peer_id_ nb) (peer_id_ nb) (reverse rs) (peer_id_ na);
  path_short : length rs < 9
}.

(** The second half of the exchange, from the reply on: the nodes as the request
    has left them. *)
Lemma response_returns {o : IterOrder} {ol : IterOrderLaws o} {wp : Wire RoutedPacket} {pw : PacketWire}
    {ssl : OpenSSL} {key_pair : bytes -> bytes -> Prop} {laws : OpenSSLLaws key_pair}
    {w1 : Wire IdentityRequest} {w2 : Wire IdentityResponse} {w3 : Wire PingRequest}
    {w4 : Wire PingResponse} {w5 : Wire TopologyRequest} {w6 : Wire TopologyResponse}
    {link : bytes -> bytes -> Envelope -> option bytes} {fits : bytes -> bytes -> Envelope -> Prop}
    {reliable : ReliableLinks link fits} uuids clocks rands parses cb na nb rs a b i rsub ka tm resp x :
  (forall x j, length (uuids x j) = 16) -> (forall x j, draws_ok (rands x j)) ->
  peer_id_ nb = b -> a <> [] -> a <> b -> length rs < 14 ->
  x = {| reply_to := a; reply_id := i; reply_transport := TCP; reply_expected := true; reply_subtype := Some rsub |} ->
  names_ok b a rsub -> rsub <> identity_request_subtype -> rsub <> identity_response_subtype ->
  can_secure key_pair (encrypt_messages_ nb) (identity_ nb) (identity_ na) b a ->
  self_id_ (router_ nb) = b -> transport_ (router_ nb) = true ->
  routes_via (router_ nb) a (first_hop rs a) -> first_hop rs a <> b ->
  path_ok (to_hex i, false) b b rs a ->
  self_id_ (router_ na) = a -> on_packet_for_me_cb_ (router_ na) = true -> ignore_all_incoming_messages_ na = false ->
  last_hop b rs <> a -> parses a ka resp = true -> fits_aes resp ->
  Tracker.pending_requests_ (request_tracker_ na) !! to_hex i = Some (CbUser ka, tm) ->
  exists q u nb2,
    reply (uuids b) (clocks b) (rands b) x resp nb =
      (tt, nb2, [Route (SendTcp (first_hop rs a) (MakeGenericData u (SerializeAsString q)))]) /\
    (path_fits fits q b rs a ->
     exists rs2 s na2,
       relay link uuids clocks cb b (MakeGenericData u (SerializeAsString q)) rs a = Some (rs2, last_hop b rs, s) /\
       receive_bytes (uuids a) (clocks a) (rands a) (parses a) (last_hop b rs) s na =
         (tt, na2, [UserResponse ka b (Ok resp)]) /\
       Tracker.pending_requests_ (request_tracker_ na2) !! to_hex i = None).
Proof.
  intros Huuids Hrands Hb Hne Hab Hlen -> Hn Hs1 Hs2 Hsec Sb Ub Rb Fb Pb Sa Ca Ia Hl Hp Haes Htm.
  set (x := {| reply_to := a |}).
  destruct (reply_packet (uuids b) (clocks b) (rands b) nb (identity_ na) i a b rsub resp x)
    as (q & nb0 & Hh & Ho & Hok & Hrep & (Qr & _ & _)); try done.
  destruct (router_send_hop (uuids b) (clocks b) q i b a 15 rsub false (first_hop rs a) nb0)
    as (rb & Hrb & _); try done; try (rewrite Qr; done).
  rewrite Hrep, Hrb. eexists (hop_packet q), _, _. split; [reflexivity|]. intros Hfit.
  assert (header (hop_packet q) i b a 14 rsub false) as Hh' by (by apply (hop_header _ _ _ _ 15)).
  edestruct (packet_arrives (uuids a) (clocks a) (rands a) (parses a) uuids clocks cb
    (uuids b (Router.draws (router_ nb0))) (hop_packet q) i b a 14 rsub false resp rs na)
    as (rs2 & s & q' & rec & t & Hrel & _ & Hh2 & Hmsg & Hrecv); try done; [lia|by apply packet_ok_ttl|].
  edestruct (plain_response (uuids a) (clocks a) (rands a) (parses a) rec q' i b a t rsub ka tm resp
    (with_router (hear (clocks a (ticks na)) (last_hop b rs) (router_ na)) (S (ticks na)) na))
    as (tr & Htr & Hdel); [done..|].
  eexists rs2, s, _. split; [exact Hrel|]. rewrite Hrecv, Htr. split; [reflexivity|].
  simpl. rewrite Hdel. apply lookup_delete_eq.
Qed.

(** (C3) A request crosses the mesh and its response comes back: between two
    nodes joined by any chain of fewer than nine routers over reliable links, with
    or without encryption, a request makes the other application's handler run
    exactly once, with the sender's name and the serialised request; whatever it
    replies reaches the waiting request exactly once, with the responder's name
    and the same bytes, and the request is no longer pending.  The routers do not
    mistake the response, which carries the id of the request, for a duplicate. *)
Theorem request_round_trip {o : IterOrder} {ol : IterOrderLaws o} {wp : Wire RoutedPacket} {pw : PacketWire}
    {ssl : OpenSSL} {key_pair : bytes -> bytes -> Prop} {laws : OpenSSLLaws key_pair}
    {w1 : Wire IdentityRequest} {w2 : Wire IdentityResponse} {w3 : Wire PingRequest}
    {w4 : Wire PingResponse} {w5 : Wire TopologyRequest} {w6 : Wire TopologyResponse}
    {link : bytes -> bytes -> Envelope -> option bytes} {fits : bytes -> bytes -> Envelope -> Prop}
    {reliable : ReliableLinks link fits}
    (uuids : bytes -> nat -> bytes) (clocks : bytes -> nat -> Z) (rands : bytes -> nat -> Identity.draws)
    (parses : bytes -> nat -> bytes -> bool)
    (cb : MeshRouter -> RoutedPacket -> MeshRouter * RoutedPacket * list action)
    (na nb : MeshNode) (rs : list MeshRouter) (a b i sub ser rsub : bytes) (ka kb : nat)
    (Ha : peer_id_ na = a) (Hb : peer_id_ nb = b) (Hi : uuids a (Router.draws (router_ na)) = i)
    (Huuids : forall x j, length (uuids x j) = 16) (Hrands : forall x j, draws_ok (rands x j))
    (Hpath : mesh_path na nb rs i)
    (Henc : encrypt_messages_ nb = encrypt_messages_ na)
    (Hkeys : can_secure key_pair (encrypt_messages_ na) (identity_ na) (identity_ nb) a b)
    (Hnames : names_ok a b sub /\ names_ok b a rsub)
    (Hsub : sub <> identity_request_subtype /\ rsub <> identity_request_subtype /\ rsub <> identity_response_subtype)
    (Hfree : Tracker.pending_requests_ (request_tracker_ nb) !! to_hex i = None /\
       Tracker.broadcasts_ (request_tracker_ nb) !! to_hex i = None)
    (Hhandler : handlers_ nb !! sub = Some {| ResponseSubtype := Some rsub; handler := HUser kb |})
    (Hser : parses b kb ser = true /\ fits_aes ser) :
  exists q u na1,
    send_request_async (uuids a) (clocks a) (rands a) sub ser b (CbUser ka) TCP na =
      (tt, na1, [Route (SendTcp (first_hop rs b) (MakeGenericData u (SerializeAsString q)))]) /\
    (path_fits fits q a rs b ->
     exists rs1 s nb1 x,
       relay link uuids clocks cb a (MakeGenericData u (SerializeAsString q)) rs b = Some (rs1, last_hop a rs, s) /\
       receive_bytes (uuids b) (clocks b) (rands b) (parses b) (last_hop a rs) s nb =
         (tt, nb1, [UserHandler kb a ser x]) /\
       forall resp, parses a ka resp = true -> fits_aes resp ->
       exists q' u' nb2,
         reply (uuids b) (clocks b) (rands b) x resp nb1 =
           (tt, nb2, [Route (SendTcp (last_hop a rs) (MakeGenericData u' (SerializeAsString q')))]) /\
         (path_fits fits q' b (reverse rs1) a ->
          exists rs2 s' na2,
            relay link uuids clocks cb b (MakeGenericData u' (SerializeAsString q')) (reverse rs1) a =
              Some (rs2, first_hop rs b, s') /\
            receive_bytes (uuids a) (clocks a) (rands a) (parses a) (first_hop rs b) s' na1 =
              (tt, na2, [UserResponse ka b (Ok resp)]) /\
            Tracker.pending_requests_ (request_tracker_ na2) !! to_hex i = None)).
Proof.
  destruct Hpath as [(Hna & Hnb & Hab) (Sa & Ua & Ca & Ia) (Sb & Ub & Cb & Ib) (Ra & Fa & Pa) (Rb & Fb & Pb) Hlen].
  rewrite Ha, Hb in *. destruct Hsub as (Hs1 & Hs2 & Hs3), Hser as [Hparse Haes], Hnames as [Nab Nba].
  destruct (request_packet (uuids a) (clocks a) (rands a) na (identity_ nb) a b sub ser ka)
    as (q0 & na0 & Hh0 & Ho0 & Hok0 & Hsend & (Rr & Ri & Rg & _ & _) & tm & Htm); try done.
  rewrite Hi in Hh0, Htm.
  destruct (router_send_hop (uuids a) (clocks a) q0 i a b DEFAULT_TTL sub true (first_hop rs b) na0)
    as (ra & Hra & (A1 & A2 & A3 & A4 & _)); try done; try (rewrite Rr; done).
  rewrite Hsend, Hra. eexists (hop_packet q0), _, _. split; [reflexivity|]. intros Hfit.
  assert (header (hop_packet q0) i a b 9 sub true) as Hh by (by apply (hop_header _ _ _ _ DEFAULT_TTL)).
  edestruct (packet_arrives (uuids b) (clocks b) (rands b) (parses b) uuids clocks cb
    (uuids a (Router.draws (router_ na0))) (hop_packet q0) i a b 9 sub true ser rs nb)
    as (rs1 & s & q1 & rec & t1 & Hrel & Hafter & Hh1 & Hmsg1 & Hrecv); try done;
    [lia|by apply packet_ok_ttl|by rewrite last_hop_first|].
  eexists rs1, s, _, _. split; [exact Hrel|]. rewrite Hrecv.
  erewrite plain_request by (first [exact Hh1|exact Hmsg1|exact Hparse|apply Hfree|exact Hhandler]).
  split; [reflexivity|]. intros resp Hresp Haes'.
  assert (last_hop b (reverse rs1) = first_hop rs b) as Hl.
  { rewrite last_hop_first, reverse_involutive. by eapply first_hop_after. }
  assert (first_hop (reverse rs1) a = last_hop a rs) as Hf.
  { rewrite last_hop_first. eapply first_hop_after, Forall2_reverse, Hafter. }
  destruct (hear_fields (clocks b (ticks nb)) (last_hop a rs) (router_ nb)) as (B1 & B2 & B3).
  rewrite <-Hl, <-Hf. eapply response_returns; try done;
    cbn [router_ with_router identity_ encrypt_messages_ peer_id_ ignore_all_incoming_messages_]; try congruence.
  - rewrite length_reverse. apply Forall2_length in Hafter. lia.
  - rewrite Henc, Ri. by apply can_secure_sym.
  - unfold routes_via. rewrite Hf, B3, last_hop_first. exact Rb.
  - by rewrite Hf, last_hop_first.
  - eapply path_ok_after; [|apply Forall2_reverse; exact Hafter|exact Pb]. done.
  - by rewrite A1, Rr.
  - by rewrite A4, Rr.
Qed.
(** ** A concrete exchange *)

Lemma ideal_path_fits {w : Wire RoutedPacket} p (prev : bytes) rs dest :
  path_fits (fun _ _ _ => True) p prev rs dest.
Proof. revert prev. induction rs as [|r rs IH]; intros prev; simpl; [done|]. split; [done|apply IH]. Qed.

(** Alice and Bob with the router [x63] between them. *)
Definition demo_routes (l : list (bytes * bytes)) r : MeshRouter :=
  with_tables (list_to_map ((fun x => (x.1, Router.Route x.2 1 false 0)) <$> l)) (neighbor_views_ r) r.

Definition demo_sub : bytes := (lit "app.Ask")%mesh.
Definition demo_rsub : bytes := (lit "app.Answer")%mesh.

Definition demo_peer (self : bytes) (im : IdentityManager) (routes : list (bytes * bytes)) : MeshNode :=
  let n := Node.on demo_sub demo_rsub (HUser 7) (Node.start (make_node self im true 0)) in
  with_router (demo_routes routes (router_ n)) 0 n.

Definition demo_alice : MeshNode := demo_peer [x61] alice [([x62], [x63])].
Definition demo_bob : MeshNode := demo_peer [x62] bob [([x61], [x63])].
Definition demo_relay : MeshRouter := demo_routes [([x61], [x61]); ([x62], [x62])] (make_router [x63] true 0).

Lemma demo_mesh_path : mesh_path demo_alice demo_bob [demo_relay] (replicate 16 x11).
Proof.
  split; try (split_and!; [done..|]); try done; try (vm_compute; lia);
    (split_and!; [by eexists (Router.Route _ 1 false 0)|done|]); (split_and!; try done); by eexists (Router.Route _ 1 false 0).
Qed.

Lemma request_round_trip_witness :
  let send := @send_request_async map_order packet_wire toy_ssl NodeCorrect.identity_request_wire
    (fun _ => replicate 16 x11) (fun _ => 0%Z) (fun _ => demo_draws) in
  let receive := @receive_bytes map_order packet_wire toy_ssl NodeCorrect.identity_request_wire
    NodeCorrect.identity_response_wire NodeCorrect.ping_request_wire NodeCorrect.ping_response_wire
    NodeCorrect.topology_request_wire NodeCorrect.topology_response_wire
    (fun _ => replicate 16 x11) (fun _ => 0%Z) (fun _ => demo_draws) (fun _ _ => true) in
  let reply := @Node.reply map_order packet_wire toy_ssl (fun _ => replicate 16 x11) (fun _ => 0%Z) (fun _ => demo_draws) in
  let cross := @relay map_order packet_wire ideal_link (fun _ _ => replicate 16 x11) (fun _ _ => 0%Z) no_callback in
  exists e alice1 rs1 s bob1 x e' bob2 rs2 s' alice2,
    send demo_sub (lit "how?")%mesh [x62] (CbUser 3) TCP demo_alice = (tt, alice1, [Route (SendTcp [x63] e)]) /\
    cross [x61] e [demo_relay] [x62] = Some (rs1, [x63], s) /\
    receive [x63] s demo_bob = (tt, bob1, [UserHandler 7 [x61] (lit "how?")%mesh x]) /\
    reply x (lit "so")%mesh bob1 = (tt, bob2, [Route (SendTcp [x63] e')]) /\
    cross [x62] e' (reverse rs1) [x61] = Some (rs2, [x63], s') /\
    receive [x63] s' alice1 = (tt, alice2, [UserResponse 3 [x62] (Ok (lit "so")%mesh)]).
Proof.
  intros send receive reply cross.
  destruct (@request_round_trip map_order map_order_laws packet_wire packet_wire_laws toy_ssl toy_pair toy_laws
    NodeCorrect.identity_request_wire NodeCorrect.identity_response_wire NodeCorrect.ping_request_wire
    NodeCorrect.ping_response_wire NodeCorrect.topology_request_wire NodeCorrect.topology_response_wire
    ideal_link _ ideal_links (fun _ _ => replicate 16 x11) (fun _ _ => 0%Z) (fun _ _ => demo_draws)
    (fun _ _ _ => true) no_callback demo_alice demo_bob [demo_relay] [x61] [x62] (replicate 16 x11)
    demo_sub (lit "how?")%mesh demo_rsub 3 7) as (q & u & na1 & Hsend & Hrest).
  - reflexivity.
  - reflexivity.
  - reflexivity.
  - reflexivity.
  - intros _ _. split; [done|]. by eexists.
  - exact demo_mesh_path.
  - reflexivity.
  - intros _. exists [x61], [x62]. by repeat split.
  - by repeat split.
  - split_and!; vm_compute; discriminate.
  - by split.
  - reflexivity.
  - split; [reflexivity|]. vm_compute. reflexivity.
  - destruct Hrest as (rs1 & s & nb1 & x & Hr & Hb & Hrep); [apply ideal_path_fits|].
    destruct (Hrep (lit "so")%mesh) as (q' & u' & nb2 & Hrb & Hback); [reflexivity|vm_compute; reflexivity|].
    destruct Hback as (rs2 & s' & na2 & Hr2 & Ha & _); [apply ideal_path_fits|].
    eexists _, na1, rs1, s, nb1, x, _, nb2, rs2, s', na2.
    split; [exact Hsend|]. split; [exact Hr|]. split; [exact Hb|]. split; [exact Hrb|]. split; [exact Hr2|exact Ha].
Defined.

End Request.
