(* ===== verification/NodeMesh.v ===== *)
(** * A network of nodes

    Whole nodes, each with its router, joined by links: a step is the arrival of
    any message under way or an application answering any request its handler has
    been given.  A packet in transit moves as in the network of routers of Mesh.v,
    so over converged tables a request made anywhere reaches the handler of the
    node it is for, and the answer comes back. *)

From S2P Require Import Prelude Cxx DedupSet ThreadSafeQueue Utils Packet MeshRouter RouterTable.
From S2P Require Import RouterInvariants RouterForward RouterNetwork RequestTracker Crypto Identity MeshNode.
From S2P Require Import NodeCorrect NodeRecursion Link Relay Mesh NodeRequest.

Module NodeMesh.
Import Utils Packet Router Table RouterInv Forward Network Crypto Identity Node Link Relay Mesh Request.

Implicit Types (n : MeshNode) (r : MeshRouter) (p q : RoutedPacket) (u v a b d : bytes).

(** A call of an application's handler that is not answered yet: the node, the
    handler, the request, and what the reply needs. *)
Definition question : Type := bytes * nat * bytes * reply_ctx.

(** The nodes, the messages under way, the open questions, and what the
    applications have been told. *)
Record network := Net {
  nodes : bytes -> MeshNode;
  wires : list (bytes * bytes * Envelope);
  asked : list question;
  told : list (bytes * node_action)
}.

Definition questions v (acts : list node_action) : list question :=
  omap (fun act => match act with UserHandler k _ raw x => Some (v, k, raw, x) | _ => None end) acts.

(** Everything but the calls of the transport layer. *)
Definition events v (acts : list node_action) : list (bytes * node_action) :=
  omap (fun act => match act with Route _ => None | _ => Some (v, act) end) acts.

Definition set_node v n (ns : bytes -> MeshNode) : bytes -> MeshNode :=
  fun u => if bool_decide (u = v) then n else ns u.

Lemma set_node_eq v n ns : set_node v n ns v = n.
Proof. unfold set_node. by rewrite bool_decide_true. Qed.

Lemma set_node_ne u v n ns : u <> v -> set_node v n ns u = ns u.
Proof. intros. unfold set_node. by rewrite bool_decide_false. Qed.

(** The node [v] has run to [x]; [ws] and [qs] are the other messages and
    questions. *)
Definition ran v (x : unit * MeshNode * list node_action) (ws : list (bytes * bytes * Envelope)) (qs : list question)
    (s : network) : network :=
  Net (set_node v x.1.2 (nodes s)) (ws ++ sends v (routes x.2)) (qs ++ questions v x.2) (told s ++ events v x.2).

Section network.
Context {o : IterOrder} {wp : Wire RoutedPacket} {ssl : OpenSSL}.
Context {w1 : Wire IdentityRequest} {w2 : Wire IdentityResponse} {w3 : Wire PingRequest}
  {w4 : Wire PingResponse} {w5 : Wire TopologyRequest} {w6 : Wire TopologyResponse}.
Context (link : bytes -> bytes -> Envelope -> option bytes).
Context (uuids : bytes -> nat -> bytes) (clocks : bytes -> nat -> Z) (rands : bytes -> nat -> Identity.draws)
  (parses : bytes -> nat -> bytes -> bool).

(** The applications: what handler [k] of node [v] replies to a request. *)
Context (app : bytes -> nat -> bytes -> bytes).

Definition net_arrive u v (e : Envelope) ws (s : network) : network :=
  match link u v e with
  | Some payload =>
      ran v (receive_bytes (uuids v) (clocks v) (rands v) (parses v) u payload (nodes s v)) ws (asked s) s
  | None => Net (nodes s) ws (asked s) (told s)
  end.

Definition net_answer (c : question) qs (s : network) : network :=
  let '(v, k, raw, x) := c in
  ran v (reply (uuids v) (clocks v) (rands v) x (app v k raw) (nodes s v)) (wires s) qs s.

Inductive net_step (s : network) : network -> Prop :=
| net_step_arrive l1 u v e l2 : wires s = l1 ++ (u, v, e) :: l2 -> net_step s (net_arrive u v e (l1 ++ l2) s)
| net_step_answer l1 c l2 : asked s = l1 ++ c :: l2 -> net_step s (net_answer c (l1 ++ l2) s).

Lemma net_step_enabled s : wires s <> [] \/ asked s <> [] -> exists s', net_step s s'.
Proof.
  destruct s as [ns ws qs ts]; simpl. intros [H|H].
  - destruct ws as [|[[u v] e] ws]; [done|]. eexists. by apply (net_step_arrive _ []).
  - destruct qs as [|c qs]; [done|]. eexists. by apply (net_step_answer _ []).
Qed.
End network.

(** ** Nodes whose router alone has moved *)

Definition rerouted n n' : Prop := exists r t, n' = with_router r t n.

#[local] Instance rerouted_preorder : PreOrder rerouted.
Proof.
  split.
  - intros n. exists (router_ n), (ticks n). by destruct n.
  - intros n1 n2 n3 (r2 & t2 & ->) (r3 & t3 & ->). by exists r3, t3.
Qed.

Lemma rerouted_with n r (t : nat) : rerouted n (with_router r t n).
Proof. by exists r, t. Qed.

(** The network of the routers inside. *)
Definition inside (s : network) : mesh := MeshState (fun v => router_ (nodes s v)) (wires s) [].

Lemma routes_route (acts : list Router.action) : routes (Route <$> acts) = acts.
Proof. induction acts as [|act acts IH]; [done|]. cbn. f_equal. exact IH. Qed.

Lemma events_route v (acts : list Router.action) : events v (Route <$> acts) = [].
Proof. unfold events. by induction acts. Qed.

Lemma questions_route v (acts : list Router.action) : questions v (Route <$> acts) = [].
Proof. unfold questions. by induction acts. Qed.

Lemma set_node_router v n ns u : router_ (set_node v n ns u) = set_router v (router_ n) (fun u => router_ (ns u)) u.
Proof. unfold set_node, set_router. by destruct (bool_decide (u = v)). Qed.

Lemma no_deliveries v (acts : list Router.action) : deliveries v acts = [] -> delivers acts = false.
Proof. by destruct acts as [|[] acts]. Qed.

Section travel.
Context {o : IterOrder} {ol : IterOrderLaws o} {wp : Wire RoutedPacket} {pw : PacketWire} {ssl : OpenSSL}.
Context {w1 : Wire IdentityRequest} {w2 : Wire IdentityResponse} {w3 : Wire PingRequest}
  {w4 : Wire PingResponse} {w5 : Wire TopologyRequest} {w6 : Wire TopologyResponse}.
Context {link : bytes -> bytes -> Envelope -> option bytes} {fits : bytes -> bytes -> Envelope -> Prop}.
Context {reliable : ReliableLinks link fits}.
Context (uuids : bytes -> nat -> bytes) (Huuids : forall a j, length (uuids a j) = 16).
Context (clocks : bytes -> nat -> Z) (rands : bytes -> nat -> Identity.draws) (parses : bytes -> nat -> bytes -> bool).
Context (app : bytes -> nat -> bytes -> bytes).
Context (adj : bytes -> list bytes) {topo : Topology adj} (net : bytes -> MeshRouter).
Context (Hnet : forall v, node_inv adj v (net v)) (Hknown : known adj 15 net).

(** One packet, from [u] to [d]; [ns] are the nodes before it leaves. *)
Context (p : RoutedPacket) (u d : bytes) (ns : bytes -> MeshNode).
Context (Hok : packet_ok p = true) (Hty : type p <> ROUTING_UPDATE) (Htr : transport p = TCP).
Context (Hfrom : from_peer_id p = u) (Hto : to_peer_id p = d) (Hd : d <> []).

Abbreviation base := (fun v => router_ (ns v)).

Record travelling (ts : list (bytes * node_action)) (h t : Z) (s : network) : Prop := {
  tr_way : under_way adj net p u d base h t (inside s);
  tr_asked : asked s = [];
  tr_told : told s = ts;
  tr_nodes : forall v, rerouted (ns v) (nodes s v)
}.

(** The one step there is: the message arrives. *)
Lemma travelling_arrival ts h t s s' :
  travelling ts h t s -> (forall a b e, (a, b, e) ∈ wires s -> fits a b e) ->
  net_step link uuids clocks rands parses app s s' ->
  exists a b e, wires s = [(a, b, e)] /\ distance net d b = h /\ distance net d a = (h + 1)%Z /\
    link a b e ≫= decodeRoutedPacket = Some (set_ttl t p) /\
    s' = ran b (receive_packet (uuids b) (clocks b) (rands b) (parses b) a (set_ttl t p) (nodes s b)) [] [] s.
Proof using Hok reliable pw.
  intros [(a & b & e & Hfl & Hcar & Hab & Hb & Ha & _ & _ & _) Hask _ _] Hfits Hs. simpl in Hfl.
  assert (link a b e ≫= decodeRoutedPacket = Some (set_ttl t p)) as Hdec
    by (apply decode_carried; [done|apply Hfits; rewrite Hfl; by left|done]).
  exists a, b, e. split_and!; [done..|]. destruct Hs as [l1 a' b' e' l2 Hw|l1 c l2 Hc].
  - rewrite Hfl in Hw. destruct l1 as [|? l1]; [|by destruct l1]. injection Hw as <- <- <- <-.
    unfold net_arrive. destruct (link a b e) as [s0|]; [|done]. simpl in Hdec.
    unfold receive_bytes. by rewrite Hdec, Hask.
  - rewrite Hask in Hc. by destruct l1.
Qed.

(** In transit the nodes do what their routers do. *)
Lemma travelling_step ts h t s s' :
  (0 < h < t)%Z -> (h < INF_COST)%Z -> (t < 2 ^ 32)%Z -> travelling ts h t s ->
  (forall a b e, (a, b, e) ∈ wires s -> fits a b e) ->
  net_step link uuids clocks rands parses app s s' -> travelling ts (h - 1) (t - 1) s'.
Proof using Hok Hty Htr Hfrom Hto Hd Huuids Hnet topo Hknown reliable pw ol.
  intros Hh Hinf Ht Htrav Hfits Hs.
  destruct (travelling_arrival ts h t s s' Htrav Hfits Hs) as (a & b & e & Hfl & Hb & Ha & Hdec & ->).
  destruct Htrav as [Hway Hask Htold Hnodes]. set (n := nodes s b). set (clk i := clocks b (ticks n + i)).
  assert (Mesh.step link uuids (inside s) (arrive link uuids clk a b e [] (inside s))) as Hms
    by (by apply (step_arrive link uuids (inside s) [] a b e [])).
  apply (under_way_step uuids Huuids adj net Hnet Hknown p u d Hok Hty Htr Hfrom Hto Hd base h t (inside s)) in Hms;
    [|lia|done|done|done|done].
  rewrite (proj2 (Z.eqb_neq h 0)) in Hms by lia. unfold arrive in Hms. rewrite Hdec in Hms.
  change (routers (inside s) b) with (router_ n) in Hms. unfold receive_packet. fold clk. fold n.
  change no_callback with ignore_packet.
  destruct (handle_packet (uuids b) ignore_packet clk a (set_ttl t p) (router_ n)) as [r acts] eqn:E.
  destruct Hms as (a1 & b1 & e1 & Hfl1 & Hcar1 & Hab1 & Hb1 & Ha1 & Hdel1 & Hu1 & Hp1). simpl in *.
  rewrite (no_deliveries b acts Hdel1). split; simpl.
  - exists a1, b1, e1. unfold inside. simpl. rewrite routes_route. split_and!; try done.
    eapply passed_ext; [|exact Hp1]. intros v. by rewrite set_node_router.
  - by rewrite questions_route.
  - by rewrite events_route, app_nil_r.
  - intros v. destruct (decide (v = b)) as [->|Hne].
    + rewrite set_node_eq. etrans; [apply Hnodes|apply rerouted_with].
    + by rewrite set_node_ne.
Qed.

(** The node [u] hands the packet to its router. *)
Lemma travelling_departs ts s :
  (forall v, v <> u -> nodes s v = ns v) -> wires s = [] -> told s = ts ->
  (forall v, same_routes (net v) (router_ (ns v)) /\
     Dedup.contains (dedup_key p) (seen_packet_ids_ (router_ (ns v))) = false) ->
  u <> d -> (distance net d u < INF_COST)%Z -> (distance net d u < ttl p < 2 ^ 32)%Z ->
  travelling ts (distance net d u - 1) (ttl p - 1) (ran u (router_send (uuids u) (clocks u) p (ns u)) [] [] s) /\
  (0 < distance net d u)%Z.
Proof using Hty Htr Hfrom Hto Hd Huuids Hnet topo Hknown ol.
  intros Hns Hw Hts Hbase Hud Hinf Ht.
  destruct (inject_under_way uuids Huuids adj net Hnet Hknown p u d Hty Htr Hfrom Hto Hd base Hbase
    (fun i => clocks u (ticks (ns u) + i)) (MeshState base [] [])) as [Hway Hpos]; [done..|]. split; [|done].
  unfold router_send. change no_callback with ignore_packet. unfold inject in Hway. simpl in Hway.
  destruct (send_packet (uuids u) ignore_packet _ p (router_ (ns u))) as [r acts].
  destruct Hway as (a1 & b1 & e1 & Hfl1 & Hcar1 & Hab1 & Hb1 & Ha1 & Hdel1 & Hu1 & Hp1). simpl in *. split; simpl.
  - exists a1, b1, e1. unfold inside. simpl. rewrite routes_route. split_and!; try done.
    eapply passed_ext; [|exact Hp1]. intros v. rewrite set_node_router. unfold set_router.
    case_bool_decide as Hv; [done|]. by rewrite Hns.
  - by rewrite questions_route.
  - by rewrite events_route, app_nil_r.
  - intros v. destruct (decide (v = u)) as [->|Hne].
    + rewrite set_node_eq. apply rerouted_with.
    + by rewrite set_node_ne, Hns.
Qed.

(** The packet reaches the node it is for. *)
Lemma travelling_reaches ts t s s' i sub expect msg :
  travelling ts 0 t s -> header p i u d (ttl p) sub expect -> opens (identity_ (ns d)) p msg ->
  ignore_all_incoming_messages_ (ns d) = false -> u <> d ->
  (forall a b e, (a, b, e) ∈ wires s -> fits a b e) -> net_step link uuids clocks rands parses app s s' ->
  exists src q rec, header q i u d (u32 t) sub expect /\ get_binary_data q = msg /\
    s' = ran d (let '(_, n2, acts) := handle_plain_packet (uuids d) (clocks d) (rands d) (parses d) rec q
                  (with_router (hear (clocks d (ticks (nodes s d))) src (router_ (nodes s d))) (S (ticks (nodes s d)))
                     (nodes s d)) in
                (tt, with_router (router_ n2) (S (ticks n2)) n2, acts)) [] [] s.
Proof using Hok Hnet topo reliable pw.
  intros Htrav Hh Ho Hign Hud Hfits Hs.
  destruct (travelling_arrival ts 0 t s s' Htrav Hfits Hs) as (a & b & e & Hfl & Hb & Ha & Hdec & ->).
  apply (distance_dest adj net Hnet) in Hb as ->. destruct Htrav as [(? & ? & ? & _ & _ & _ & _ & _ & _ & _ & Hp) _ _ Hnodes].
  destruct (Hp d) as ((E1 & _ & _ & E4) & _ & _). simpl in E1, E4. destruct (Hnodes d) as (r' & t' & Hn).
  assert (self_id_ (router_ (nodes s d)) = d) as Hself by (rewrite E1; apply (inv_self adj d _ (Hnet d))).
  destruct (receive_opens (uuids d) (clocks d) (rands d) (parses d) a (set_ttl t p) i u (u32 t) sub expect msg (nodes s d))
    as (q & rec & Hq & Hm & ->).
  - rewrite Hself. destruct Hh as (? & ? & ? & _ & ? & ? & ? & ?). by split_and!.
  - rewrite Hn. exact Ho.
  - by rewrite Hn.
  - by rewrite Hself.
  - rewrite Hself. intros ->. rewrite (distance_at_dest adj net Hnet d) in Ha. lia.
  - rewrite E4. apply (proj1 (inv_idle adj d _ (Hnet d))).
  - exists a, q, rec. rewrite Hself in Hq. done.
Qed.
End travel.

(** ** Answers to a broadcast *)

(** An answer carries the id of the request, and routers tell packets apart by
    their id and by whether they expect a response: a node that has answered takes
    the answer of any other node for a copy of its own and does not forward it. *)
Lemma answered_blocks {o : IterOrder} {wp : Wire RoutedPacket} {ssl : OpenSSL}
    (uuid : nat -> bytes) (clock : nat -> Z) (rand : nat -> Identity.draws)
    (cb : MeshRouter -> RoutedPacket -> MeshRouter * RoutedPacket * list action) (clk : nat -> Z)
    (x : reply_ctx) (resp src : bytes) p n :
  encrypt_messages_ n = false -> reply_expected x = true ->
  reply_to x <> [] -> reply_to x <> self_id_ (router_ n) ->
  id p = reply_id x -> expect_response p = false -> type p <> ROUTING_UPDATE -> transit p (router_ n) ->
  from_peer_id p <> self_id_ (router_ n) -> src <> self_id_ (router_ n) ->
  (handle_packet uuid cb clk src p (router_ (reply uuid clock rand x resp n).1.2)).2 = [].
Proof.
  intros Henc Hexp Hto Hme Hid Hex Hty Htr Hfrom Hsrc. unfold reply. rewrite Hexp. cbn [negb].
  rewrite run_make_binary, run_gets. change (encrypt_messages_ (drawn n)) with (encrypt_messages_ n). rewrite Henc.
  cbn [andb]. set (q := set_payload _ _). unfold router_send, send_packet.
  set (r0 := router_ (drawn n)). set (clk' := fun i : nat => _).
  assert (transit q r0) as Hq by (by split).
  pose proof (route_transit_seen uuid no_callback clk' (self_id_ r0) q r0 Hq) as Hseen.
  pose proof (route_transit_self uuid no_callback clk' (self_id_ r0) q r0 Hq) as Hself.
  destruct (route_data_packet uuid no_callback clk' (self_id_ r0) (to_hex (id q)) q r0) as [r1 acts]. simpl in *.
  destruct (handle_data uuid cb clk src p r1) as (r2 & -> & E1 & _ & _ & _ & E5 & _); [done|by rewrite Hself..|].
  rewrite route_transit by (unfold transit in *; by rewrite E1, Hself).
  unfold is_duplicate. rewrite E1, Hself, E5, bool_decide_false by done.
  assert (dedup_key p = dedup_key q) as -> by (unfold dedup_key; simpl; by rewrite Hid, Hex). by rewrite Hseen.
Qed.

(** ** A request and its answer *)

Lemma walk_snoc adj a b c (k : Z) : walk adj a b k -> c ∈ adj b -> walk adj a c (k + 1).
Proof.
  induction 1 as [x|x y z j Hy _ IH]; intros Hc.
  - apply (walk_step adj x c c 0); [done|constructor].
  - apply (walk_step adj x y c); [done|]. by apply IH.
Qed.

Lemma walk_sym adj {topo : Topology adj} a b (k : Z) : walk adj a b k -> walk adj b a k.
Proof.
  induction 1 as [x|x y z j Hy _ IH]; [constructor|]. eapply walk_snoc; [exact IH|]. by apply adj_sym.
Qed.

Lemma hop_distance_sym adj {topo : Topology adj} a b (k : Z) : hop_distance adj a b k -> hop_distance adj b a k.
Proof.
  intros [(Hk & Hw & Hmin)|[-> Hmin]]; [left|right].
  - split_and!; [done|by apply walk_sym|]. intros j Hj%walk_sym; [by apply Hmin|done].
  - split; [done|]. intros j Hj%walk_sym; [by apply Hmin|done].
Qed.

(** The nodes [u] and [d] of the network [ns] can exchange the request [ser] and
    the answer [resp], in the clear or encrypted; [i] is the id of the request. *)
Record can_exchange (key_pair : bytes -> bytes -> Prop) (parses : bytes -> nat -> bytes -> bool)
    (ns : bytes -> MeshNode) (u d i sub ser rsub resp : bytes) (ka kb : nat) : Prop := {
  ex_names : names_ok u d sub /\ names_ok d u rsub /\ u <> [] /\ d <> [] /\ u <> d;
  ex_nodes : peer_id_ (ns u) = u /\ peer_id_ (ns d) = d /\
    ignore_all_incoming_messages_ (ns u) = false /\ ignore_all_incoming_messages_ (ns d) = false;
  ex_subtypes : sub <> identity_request_subtype /\ rsub <> identity_request_subtype /\ rsub <> identity_response_subtype;
  ex_keys : encrypt_messages_ (ns d) = encrypt_messages_ (ns u) /\
    can_secure key_pair (encrypt_messages_ (ns u)) (identity_ (ns u)) (identity_ (ns d)) u d;
  ex_free : Tracker.pending_requests_ (request_tracker_ (ns d)) !! to_hex i = None /\
    Tracker.broadcasts_ (request_tracker_ (ns d)) !! to_hex i = None;
  ex_handler : handlers_ (ns d) !! sub = Some {| ResponseSubtype := Some rsub; handler := HUser kb |};
  ex_request : parses d kb ser = true /\ fits_aes ser;
  ex_answer : parses u ka resp = true /\ fits_aes resp
}.

(** What the handler is given to reply with. *)
Definition reply_of (u i rsub : bytes) : reply_ctx :=
  {| reply_to := u; reply_id := i; reply_transport := TCP; reply_expected := true; reply_subtype := Some rsub |}.

Section exchange.
Context {o : IterOrder} {ol : IterOrderLaws o} {wp : Wire RoutedPacket} {pw : PacketWire}
  {ssl : OpenSSL} {key_pair : bytes -> bytes -> Prop} {laws : OpenSSLLaws key_pair}.
Context {w1 : Wire IdentityRequest} {w2 : Wire IdentityResponse} {w3 : Wire PingRequest}
  {w4 : Wire PingResponse} {w5 : Wire TopologyRequest} {w6 : Wire TopologyResponse}.
Context {link : bytes -> bytes -> Envelope -> option bytes} {fits : bytes -> bytes -> Envelope -> Prop}.
Context {reliable : ReliableLinks link fits}.
Context (uuids : bytes -> nat -> bytes) (Huuids : forall a j, length (uuids a j) = 16).
Context (clocks : bytes -> nat -> Z) (rands : bytes -> nat -> Identity.draws) (Hrands : forall a j, draws_ok (rands a j)).
Context (parses : bytes -> nat -> bytes -> bool) (app : bytes -> nat -> bytes -> bytes).
Context (adj : bytes -> list bytes) {topo : Topology adj} (net : bytes -> MeshRouter).
Context (Hnet : forall v, node_inv adj v (net v)) (Hknown : known adj 15 net).
Context (n0 : bytes -> MeshNode) (Hrouter : forall v, router_ (n0 v) = net v).
Context (u d i sub ser rsub : bytes) (ka kb : nat).
Context (Hex : can_exchange key_pair parses n0 u d i sub ser rsub (app d kb ser) ka kb).
Context (Hid : uuids u (Router.draws (net u)) = i).
Context (h : Z) (Hforth : distance net d u = h) (Hback : distance net u d = h) (Hshort : (h < DEFAULT_TTL)%Z).

(** The request, as the node [u] hands it to its router when it has become [na]. *)
Context (q0 : RoutedPacket) (na : MeshNode) (tm : nat).
Context (Hh0 : header q0 i u d DEFAULT_TTL sub true) (Ho0 : opens (identity_ (n0 d)) q0 ser) (Hok0 : packet_ok q0 = true).
Context (Hna : same_rest (n0 u) na)
  (Hpending : Tracker.pending_requests_ (request_tracker_ na) !! to_hex i = Some (CbUser ka, tm)).

Definition ns1 : bytes -> MeshNode := set_node u na n0.

Abbreviation handler_told := [(d, UserHandler kb u ser (reply_of u i rsub))].
Abbreviation next := (net_step link uuids clocks rands parses app).

Definition forth (h' : Z) (s : network) : Prop :=
  (0 <= h' < h)%Z /\ travelling adj net q0 u d ns1 [] h' (h' + DEFAULT_TTL - h) s.

Record waiting (s : network) : Prop := {
  wait_wires : wires s = [];
  wait_asked : asked s = [(d, kb, ser, reply_of u i rsub)];
  wait_told : told s = handler_told;
  wait_nodes : forall v, rerouted (ns1 v) (nodes s v);
  wait_passed : passed net q0 d (fun v => router_ (ns1 v)) (-1) (fun v => router_ (nodes s v))
}.

Definition back (h' : Z) (s : network) : Prop :=
  (0 <= h' < h)%Z /\ exists q1 ns2,
    header q1 i d u 15 rsub false /\ opens (identity_ (n0 u)) q1 (app d kb ser) /\ packet_ok q1 = true /\
    rerouted na (ns2 u) /\ travelling adj net q1 d u ns2 handler_told h' (h' + 15 - h) s.

Definition completed (s : network) : Prop :=
  wires s = [] /\ asked s = [] /\ told s = handler_told ++ [(u, UserResponse ka d (Ok (app d kb ser)))].

Lemma ns1_other v : v <> u -> ns1 v = n0 v.
Proof. apply set_node_ne. Qed.

Lemma ns1_base v :
  same_routes (net v) (router_ (ns1 v)) /\ forall k, Dedup.contains k (seen_packet_ids_ (router_ (ns1 v))) = false.
Proof using Hna Hrouter Hnet topo.
  assert (forall k, Dedup.contains k (seen_packet_ids_ (net v)) = false) as Hs
    by (intros k; by rewrite (proj2 (inv_idle adj v _ (Hnet v)))).
  destruct (decide (v = u)) as [->|Hne]; [|by rewrite ns1_other, Hrouter].
  unfold ns1. rewrite set_node_eq. destruct Hna as (-> & _). rewrite Hrouter. done.
Qed.

Lemma forth_step h' s s' :
  forth h' s -> (forall a b e, (a, b, e) ∈ wires s -> fits a b e) -> next s s' ->
  if (h' =? 0)%Z then waiting s' else forth (h' - 1) s'.
Proof using Hok0 Hh0 Ho0 Hex Hna Huuids Hnet topo Hknown Hshort reliable pw ol.
  intros [Hh' Htrav] Hfits Hs. destruct Hex as [(_ & _ & Hu & Hd & Hud) (_ & _ & _ & Hign) _ _ [F1 F2] Hhand [Hparse _] _].
  unfold DEFAULT_TTL in *. pose proof Hh0 as (_ & Hfrom & Hto & Httl & Hty & Htr & _).
  destruct (Z.eqb_spec h' 0) as [->|Hne].
  - destruct (travelling_reaches uuids clocks rands parses app adj net Hnet q0 u d ns1 Hok0 [] (0 + 10 - h) s s' i sub true ser)
      as (src & q & rec & Hq & Hm & ->); try done.
    { by rewrite Httl. } { by rewrite ns1_other. } { by rewrite ns1_other. }
    destruct Htrav as [(? & ? & ? & _ & _ & _ & _ & _ & _ & _ & Hp) _ Htold Hnodes].
    set (n := with_router _ _ (nodes s d)). destruct (Hnodes d) as (r' & t' & Hn). rewrite ns1_other in Hn by done.
    rewrite (plain_request (uuids d) (clocks d) (rands d) (parses d) rec q i u d (u32 (0 + 10 - h)) sub (Some rsub) kb ser n);
      try done; try (unfold n; by rewrite Hn).
    split; simpl; [done|done|by rewrite Htold| |].
    + intros v. destruct (decide (v = d)) as [->|Hv]; [|by rewrite set_node_ne].
      rewrite set_node_eq. etrans; [apply Hnodes|]. etrans; [|apply rerouted_with]. apply rerouted_with.
    + eapply passed_ext; [intros v; rewrite set_node_router; reflexivity|]. simpl.
      apply hop_passed; [|rewrite (distance_at_dest adj net Hnet d); lia|by eapply passed_weaken; [|exact Hp]].
      unfold hear. by destruct (neighbor_views_ _ !! src).
  - split; [lia|]. unfold DEFAULT_TTL. replace (h' - 1 + 10 - h)%Z with (h' + 10 - h - 1)%Z by lia.
    eapply (travelling_step uuids Huuids clocks rands parses app adj net Hnet Hknown q0 u d ns1); try done;
      [by rewrite Hty|lia|unfold INF_COST; lia|lia].
Qed.

(** The routers when the answer is about to leave. *)
Lemma waiting_base s nb q1 v :
  waiting s -> same_rest (nodes s d) nb -> header q1 i d u 15 rsub false ->
  same_routes (net v) (router_ (set_node d nb (nodes s) v)) /\
  Dedup.contains (dedup_key q1) (seen_packet_ids_ (router_ (set_node d nb (nodes s) v))) = false.
Proof using Hh0 Hna Hrouter Hnet topo.
  intros [_ _ _ _ Hp] Hnb Hh1.
  assert (same_routes (net v) (router_ (nodes s v)) /\
    Dedup.contains (dedup_key q1) (seen_packet_ids_ (router_ (nodes s v))) = false) as [H1 H2].
  { destruct (Hp v) as (Hs & _ & Hk). split; [done|]. rewrite Hk; [apply ns1_base|].
    unfold dedup_key. destruct Hh0 as (-> & _ & _ & _ & _ & _ & _ & ->), Hh1 as (-> & _ & _ & _ & _ & _ & _ & ->). congruence. }
  destruct (decide (v = d)) as [->|Hne]; [|by rewrite set_node_ne].
  rewrite set_node_eq. destruct Hnb as (-> & _). done.
Qed.

Lemma waiting_step s s' : waiting s -> next s s' -> back (h - 1) s'.
Proof using Hh0 Hex Hna Hrouter Huuids Hrands Hnet topo Hknown Hback Hshort laws ol.
  intros Hw Hs. destruct Hex as [(_ & Nba & Hu & Hd & Hud) (_ & Pd & _ & _) (_ & Hs2 & Hs3) [Henc Hsec] _ _ _ [_ Haes]].
  pose proof Hw as [Hwires Hask Htold Hnodes _].
  destruct Hs as [l1 ? ? ? l2 Hc|l1 c l2 Hc]; [rewrite Hwires in Hc; by destruct l1|].
  rewrite Hask in Hc. destruct l1 as [|? l1]; [|by destruct l1]. injection Hc as <- <-. unfold net_answer. rewrite Hwires.
  destruct (Hnodes d) as (r' & t' & Hn). rewrite ns1_other in Hn by done.
  destruct (reply_packet (uuids d) (clocks d) (rands d) (nodes s d) (identity_ (n0 u)) i u d rsub (app d kb ser)
    (reply_of u i rsub)) as (q1 & nb & Hh1 & Ho1 & Hok1 & -> & Hnb); try done; try (rewrite Hn; done).
  { rewrite Hn. simpl. rewrite Henc. by apply can_secure_sym. }
  pose proof Hh1 as (_ & Hfrom & Hto & Httl & Hty & Htr & _).
  destruct (travelling_departs uuids Huuids clocks adj net Hnet Hknown q1 d u (set_node d nb (nodes s)) ltac:(by rewrite Hty)
    Htr Hfrom Hto Hu handler_told s) as [Htrav Hpos]; rewrite ?Httl, ?Hback;
    try (unfold INF_COST, DEFAULT_TTL in *; lia); try done.
  - intros v Hv. by rewrite set_node_ne.
  - intros v. by eapply waiting_base.
  - rewrite set_node_eq, Hback, Httl in Htrav. rewrite Hback in Hpos. split; [lia|].
    exists q1, (set_node d nb (nodes s)). split_and!; try done.
    + rewrite set_node_ne by done. etrans; [|apply Hnodes]. unfold ns1. by rewrite set_node_eq.
    + replace (h - 1 + 15 - h)%Z with (15 - 1)%Z by lia. exact Htrav.
Qed.

Lemma back_step h' s s' :
  back h' s -> (forall a b e, (a, b, e) ∈ wires s -> fits a b e) -> next s s' ->
  if (h' =? 0)%Z then completed s' else back (h' - 1) s'.
Proof using Hex Hna Hpending Huuids Hnet topo Hknown Hshort reliable pw ol.
  intros [Hh' (q1 & ns2 & Hh1 & Ho1 & Hok1 & Hu2 & Htrav)] Hfits Hs. unfold DEFAULT_TTL in *.
  destruct Hex as [(_ & _ & Hu & Hd & Hud) (_ & _ & Hign & _) _ _ _ _ _ [Hparse _]].
  pose proof Hh1 as (_ & Hfrom & Hto & Httl & Hty & Htr & _). destruct Hu2 as (r2 & t2 & Hu2).
  destruct Hna as (_ & Eid & Eign & _).
  destruct (Z.eqb_spec h' 0) as [->|Hne].
  - destruct (travelling_reaches uuids clocks rands parses app adj net Hnet q1 d u ns2 Hok1 handler_told (0 + 15 - h) s s' i
      rsub false (app d kb ser)) as (src & q & rec & Hq & Hm & ->); try done.
    { by rewrite Httl. } { by rewrite Hu2; simpl; rewrite Eid. } { by rewrite Hu2; simpl; rewrite Eign. }
    destruct Htrav as [_ _ Htold Hnodes]. set (n := with_router _ _ (nodes s u)).
    destruct (Hnodes u) as (r' & t' & Hn). rewrite Hu2 in Hn.
    destruct (plain_response (uuids u) (clocks u) (rands u) (parses u) rec q i d u (u32 (0 + 15 - h)) rsub ka tm
      (app d kb ser) n) as (tr & -> & _); try done; [unfold n; by rewrite Hn|].
    split_and!; simpl; [done..|]. by rewrite Htold.
  - split; [lia|]. exists q1, ns2. split_and!; try done; [by exists r2, t2|].
    replace (h' - 1 + 15 - h)%Z with (h' + 15 - h - 1)%Z by lia.
    eapply (travelling_step uuids Huuids clocks rands parses app adj net Hnet Hknown q1 d u ns2); try done;
      [by rewrite Hty|lia|unfold INF_COST; lia|lia].
Qed.

(** How far the exchange has come; the index counts the steps that are left. *)
Definition stage (k : nat) (s : network) : Prop :=
  (exists h', k = Z.to_nat h' + Z.to_nat h + 2 /\ forth h' s) \/ (k = Z.to_nat h + 1 /\ waiting s) \/
  (exists h', k = Z.to_nat h' + 1 /\ back h' s) \/ (k = 0 /\ completed s).

Lemma stage_step k s s' :
  stage k s -> (forall a b e, (a, b, e) ∈ wires s -> fits a b e) -> next s s' ->
  exists k', k' < k /\ stage k' s'.
Proof using Hok0 Hh0 Ho0 Hex Hna Hpending Hrouter Huuids Hrands Hnet topo Hknown Hback Hshort reliable pw laws ol.
  intros [(h' & -> & Hf)|[[-> Hw]|[(h' & -> & Hb)|[-> (Hwi & Ha & _)]]]] Hfits Hs.
  - pose proof (forth_step h' s s' Hf Hfits Hs) as Hn. destruct Hf as [Hh' _]. destruct (Z.eqb_spec h' 0) as [->|Hne].
    + exists (Z.to_nat h + 1). split; [lia|]. right. by left.
    + exists (Z.to_nat (h' - 1) + Z.to_nat h + 2). split; [lia|]. left. by exists (h' - 1)%Z.
  - pose proof (waiting_step s s' Hw Hs) as Hn. pose proof Hn as [Hh' _].
    exists (Z.to_nat (h - 1) + 1). split; [lia|]. right. right. left. by exists (h - 1)%Z.
  - pose proof (back_step h' s s' Hb Hfits Hs) as Hn. destruct Hb as [Hh' _]. destruct (Z.eqb_spec h' 0) as [->|Hne].
    + exists 0. split; [lia|]. by right; right; right.
    + exists (Z.to_nat (h' - 1) + 1). split; [lia|]. right. right. left. by exists (h' - 1)%Z.
  - destruct Hs as [l1 ? ? ? l2 Hc|l1 c l2 Hc]; [rewrite Hwi in Hc|rewrite Ha in Hc]; by destruct l1.
Qed.

(** Before the exchange is complete there is more to do. *)
Lemma stage_busy k s : stage k s -> completed s \/ wires s <> [] \/ asked s <> [].
Proof.
  intros [(h' & _ & _ & Ht)|[[_ Hw]|[(h' & _ & _ & (? & ? & _ & _ & _ & _ & Ht))|[_ Hc]]]]; [| | |by left]; right.
  - left. destruct Ht as [(? & ? & ? & Hfl & _) _ _ _]. simpl in Hfl. by rewrite Hfl.
  - right. by rewrite (wait_asked s Hw).
  - left. destruct Ht as [(? & ? & ? & Hfl & _) _ _ _]. simpl in Hfl. by rewrite Hfl.
Qed.
End exchange.

(** (C2) A request in the mesh.  On any topology the routers exchange their tables
    for 14 or more rounds; then the application of a node [u] sends a request to a
    node [d] fewer than ten hops away, over links that carry every message put on
    them, with or without encryption.  In whatever order messages arrive and
    applications answer, the network comes to rest, and it rests only when the
    handler of [d] has been called exactly once, with the name of [u] and the bytes
    of the request, and the callback of [u] exactly once, with the name of [d] and
    the bytes of the answer; no application was told anything else. *)
Theorem mesh_request_completes {o : IterOrder} {ol : IterOrderLaws o} {wp : Wire RoutedPacket} {pw : PacketWire}
    {ssl : OpenSSL} {key_pair : bytes -> bytes -> Prop} {laws : OpenSSLLaws key_pair}
    {w1 : Wire IdentityRequest} {w2 : Wire IdentityResponse} {w3 : Wire PingRequest}
    {w4 : Wire PingResponse} {w5 : Wire TopologyRequest} {w6 : Wire TopologyResponse}
    {link : bytes -> bytes -> Envelope -> option bytes} {fits : bytes -> bytes -> Envelope -> Prop}
    {reliable : ReliableLinks link fits}
    (uuids : bytes -> nat -> bytes) (Huuids : forall a j, length (uuids a j) = 16)
    (clocks : bytes -> nat -> Z) (rands : bytes -> nat -> Identity.draws) (Hrands : forall a j, draws_ok (rands a j))
    (parses : bytes -> nat -> bytes -> bool) (app : bytes -> nat -> bytes -> bytes)
    (adj : bytes -> list bytes) {topo : Topology adj} (now : Z) (clk : bytes -> bytes -> nat -> Z) (k : nat)
    (net : bytes -> MeshRouter)
    (Hrun : rounds uuids ignore_packet adj k (fun v => boot adj now (clk v) v) net) (Hk : 14 <= k)
    (n0 : bytes -> MeshNode) (Hrouter : forall v, router_ (n0 v) = net v)
    (u d i sub ser rsub : bytes) (ka kb : nat) (Hid : uuids u (Router.draws (net u)) = i)
    (Hex : can_exchange key_pair parses n0 u d i sub ser rsub (app d kb ser) ka kb)
    (h : Z) (Hdist : hop_distance adj u d h) (Hshort : (h < DEFAULT_TTL)%Z)
    (s0 : network) (Hs0 : s0 = ran u (send_request_async (uuids u) (clocks u) (rands u) sub ser d (CbUser ka) TCP (n0 u))
       [] [] (Net n0 [] [] []))
    (Hfits : forall s, rtc (net_step link uuids clocks rands parses app) s0 s ->
       forall a b e, (a, b, e) ∈ wires s -> fits a b e) :
  sn (net_step link uuids clocks rands parses app) s0 /\
  forall s, rtc (net_step link uuids clocks rands parses app) s0 s ->
    (exists s', net_step link uuids clocks rands parses app s s') \/
    (wires s = [] /\ asked s = [] /\
     told s = [(d, UserHandler kb u ser (reply_of u i rsub)); (u, UserResponse ka d (Ok (app d kb ser)))]).
Proof.
  destruct (rounds_converge uuids ignore_packet adj now clk k net Hrun Hk) as [Hnet Hkn].
  assert (distance net d u = h) as Hforth by (apply (hop_distance_unique adj u d); [by apply table_exact|done]).
  assert (distance net u d = h) as Hback
    by (apply (hop_distance_unique adj d u); [by apply table_exact|by apply hop_distance_sym]).
  pose proof Hex as [(Nab & _ & Hu & Hd & Hud) (Pu & _) (Hsub & _) [_ Hsec] _ _ [_ Haes] _].
  destruct (request_packet (uuids u) (clocks u) (rands u) (n0 u) (identity_ (n0 d)) u d sub ser ka (Huuids u) (Hrands u)
    Pu Hsub Nab Haes Hsec) as (q0 & na & Hh0 & Ho0 & Hok0 & Hsend & Hna & tm & Htm).
  rewrite Hrouter, Hid in Hh0, Htm. pose proof Hh0 as (_ & Hfrom & Hto & Httl & Hty & Htr & _).
  assert (forall v, same_routes (net v) (router_ (ns1 n0 u na v)) /\
    Dedup.contains (dedup_key q0) (seen_packet_ids_ (router_ (ns1 n0 u na v))) = false) as Hbase.
  { intros v. destruct (ns1_base adj net Hnet n0 Hrouter u na Hna v) as [? Hs]. split; [assumption|apply Hs]. }
  destruct (travelling_departs uuids Huuids clocks adj net Hnet Hkn q0 u d (ns1 n0 u na) ltac:(by rewrite Hty)
    Htr Hfrom Hto Hd [] (Net n0 [] [] []) (fun v Hv => eq_sym (ns1_other n0 u na v Hv)) eq_refl eq_refl Hbase Hud)
    as [Htrav Hpos]; [unfold INF_COST, DEFAULT_TTL in *; lia..|].
  unfold ns1 at 2 in Htrav. rewrite set_node_eq, <-Hsend, <-Hs0, Httl, Hforth in Htrav. rewrite Hforth in Hpos.
  destruct (runs_end (net_step link uuids clocks rands parses app) (fun j s => rtc (net_step link uuids clocks rands parses app) s0 s /\
    stage app adj net n0 u d i ser rsub ka kb h q0 na j s) (Z.to_nat (h - 1) + Z.to_nat h + 2) s0) as [Hsn Hall].
  - split; [apply rtc_refl|]. left. exists (h - 1)%Z. split; [reflexivity|]. split; [lia|].
    replace (h - 1 + DEFAULT_TTL - h)%Z with (DEFAULT_TTL - 1)%Z by lia. exact Htrav.
  - intros j s s' [Hr Hst] Hs.
    destruct (stage_step uuids Huuids clocks rands Hrands parses app adj net Hnet Hkn n0 Hrouter u d i sub ser rsub ka kb
      Hex h Hback Hshort q0 na tm Hh0 Ho0 Hok0 Hna Htm j s s' Hst (Hfits s Hr) Hs) as (j' & Hlt & Hst').
    exists j'. split; [exact Hlt|]. split; [|exact Hst']. eapply rtc_r; [exact Hr|exact Hs].
  - split; [exact Hsn|]. intros s Hs. destruct (Hall s Hs) as (j & _ & Hst).
    destruct (stage_busy app adj net n0 u d i ser rsub ka kb h q0 na j s Hst) as [Hc|Hb]; [right; exact Hc|left].
    by apply net_step_enabled.
Qed.

(** ** A concrete exchange: the two ends of a line of three nodes *)

(** A member of the line knows the keys of both ends. *)
Definition member v : IdentityManager := {|
  my_cert_ := v; my_private_key_ := v; ca_root_ := [xca]; trusted_keys_ := {[ nA := nA; nC := nC ]};
  pending_incoming_packets_ := ∅; pending_outgoing_packets_ := ∅
|}.

Definition line_node r v : MeshNode :=
  with_router r 0 (Node.on demo_sub demo_rsub (HUser 7) (Node.start (make_node v (member v) true 0))).

Lemma line_exchange (net : bytes -> MeshRouter) (i : bytes) :
  can_exchange toy_pair (fun _ _ _ => true) (fun v => line_node (net v) v) nA nC i demo_sub (lit "how?")%mesh demo_rsub
    (lit "so")%mesh 3 7.
Proof.
  split; try (by split_and!).
  - split; [done|]. intros _. exists nA, nC. by repeat split.
  - apply lookup_insert_eq.
Qed.

Lemma mesh_request_completes_witness :
  let uuids := fun (_ : bytes) (_ : nat) => replicate 16 x11 in
  let run := @round map_order packet_wire uuids ignore_packet (fun v => line v) (fun _ _ => Z.of_nat) in
  let net := Nat.iter 14 run (fun v => @boot map_order line 0 (fun _ => Z.of_nat) v) in
  let clocks := fun (_ : bytes) (_ : nat) => 0%Z in let rands := fun (_ : bytes) (_ : nat) => demo_draws in
  let answer := fun (_ : bytes) (_ : nat) (_ : bytes) => (lit "so")%mesh in
  let step := @net_step map_order packet_wire toy_ssl NodeCorrect.identity_request_wire
    NodeCorrect.identity_response_wire NodeCorrect.ping_request_wire NodeCorrect.ping_response_wire
    NodeCorrect.topology_request_wire NodeCorrect.topology_response_wire ideal_link uuids clocks rands
    (fun _ _ _ => true) answer in
  let s0 := ran nA (@send_request_async map_order packet_wire toy_ssl NodeCorrect.identity_request_wire
      (uuids nA) (clocks nA) (rands nA) demo_sub (lit "how?")%mesh nC (CbUser 3) TCP (line_node (net nA) nA))
    [] [] (Net (fun v => line_node (net v) v) [] [] []) in
  sn step s0 /\
  forall s, rtc step s0 s -> (exists s', step s s') \/
    told s = [(nC, UserHandler 7 nA (lit "how?")%mesh (reply_of nA (replicate 16 x11) demo_rsub));
              (nA, UserResponse 3 nC (Ok (lit "so")%mesh))].
Proof.
  intros uuids run net clocks rands answer step s0.
  destruct (@mesh_request_completes map_order map_order_laws packet_wire packet_wire_laws toy_ssl toy_pair toy_laws
    NodeCorrect.identity_request_wire NodeCorrect.identity_response_wire NodeCorrect.ping_request_wire
    NodeCorrect.ping_response_wire NodeCorrect.topology_request_wire NodeCorrect.topology_response_wire
    ideal_link _ ideal_links uuids (fun _ _ => eq_refl) clocks rands
    (fun _ _ => conj eq_refl (ex_intro _ _ (conj eq_refl eq_refl))) (fun _ _ _ => true) answer line line_topology 0
    (fun _ _ => Z.of_nat) 14 net (@iter_rounds map_order packet_wire uuids ignore_packet line 14 (fun _ _ => Z.of_nat) _)
    ltac:(lia) (fun v => line_node (net v) v) (fun _ => eq_refl) nA nC (replicate 16 x11) demo_sub (lit "how?")%mesh
    demo_rsub 3 7 eq_refl) with (h := 2%Z) (s0 := s0) as [W1 W2].
  - apply line_exchange.
  - exact line_distance.
  - reflexivity.
  - reflexivity.
  - intros; exact I.
  - split; [exact W1|]. intros s Hs. destruct (W2 s Hs) as [Hn|(_ & _ & Ht)]; [by left|by right].
Defined.

End NodeMesh.
