(* ===== verification/NodeRouter.v ===== *)
(** * The router inside its node

    The node's packet callback only sends through the router, which is what the
    router asks of it (RouterNames.v); so the invariants of the router hold in
    every state the whole node reaches, whatever it receives and whatever the
    application calls (src/src/mesh/node/MeshNode.{h,cpp},
    src/src/mesh/routing/MeshRouter.cpp). *)

From S2P Require Import Prelude Cxx DedupSet ThreadSafeQueue Utils Packet Logger MeshRouter RouterTable.
From S2P Require Import RouterInvariants RouterForward RouterNames RequestTracker Crypto Identity MeshNode NodeCorrect.
From S2P Require Import NodeLogic NodeRecursion NodeRequest.

Module NodeRouter.
Import Utils Packet Logger Router Table RouterInv Crypto Identity Node NodeLogic Request Names.

Implicit Types (n : MeshNode) (r : MeshRouter) (pkt : RoutedPacket).

(** The node's router has the tables of [r]. *)
Definition on_tables r n : Prop := same_tables r (router_ n).

(** A computation of the node that leaves the tables of its router alone. *)
Definition kept {A} (m : M A) : Prop := forall r, keeps (fun _ => True) (on_tables r) m.

Lemma kept_ret {A} (a : A) : kept (mret a).
Proof. intros r. apply keeps_ret. Qed.

Lemma kept_gets {A} (f : MeshNode -> A) : kept (gets f).
Proof. intros r. apply keeps_gets. Qed.

Lemma kept_emit a : kept (emit a).
Proof. intros r. by apply keeps_emit. Qed.

Lemma kept_modify f : (forall n, router_ (f n) = router_ n) -> kept (modify f).
Proof. intros Hf r. apply keeps_modify. intros n. unfold on_tables. by rewrite Hf. Qed.

Lemma kept_bind {A B} (m : M A) (f : A -> M B) : kept m -> (forall a, kept (f a)) -> kept (m ≫= f).
Proof. intros Hm Hf r. apply keeps_bind; [apply Hm|]. intros a. apply Hf. Qed.

Lemma kept_for_all {A} (f : A -> M unit) (l : list A) : (forall x, kept (f x)) -> kept (for_all f l).
Proof. intros Hf r. apply keeps_for_all. intros x _. apply Hf. Qed.

Create HintDb node_router.
#[local] Hint Resolve kept_ret kept_gets kept_emit : node_router.

(** Take a computation apart along its structure. *)
Ltac kept_tac :=
  repeat first
    [ solve [auto with node_router]
    | apply kept_bind; [|intros]
    | apply kept_modify; intros; reflexivity
    | apply kept_for_all; intros
    | progress cbn beta
    | case_goal ].

Section node.
Context {o : IterOrder} {laws : IterOrderLaws o} {wp : Wire RoutedPacket} {pw : PacketWire} {ssl : OpenSSL}.
Context {w1 : Wire IdentityRequest} {w2 : Wire IdentityResponse} {w3 : Wire PingRequest}
  {w4 : Wire PingResponse} {w5 : Wire TopologyRequest} {w6 : Wire TopologyResponse}.
Context (uuid : nat -> bytes) (clock : nat -> Z) (rand : nat -> Identity.draws) (parses : nat -> bytes -> bool).

(** ** The calls of the application *)

Lemma kept_router_send pkt : kept (router_send uuid clock pkt).
Proof.
  intros r n Hn. unfold router_send, send_packet.
  pose proof (route_data_packet_tables uuid no_callback (fun i => clock (ticks n + i)) (self_id_ (router_ n))
    (to_hex (id pkt)) pkt (router_ n)) as Ht.
  destruct (route_data_packet _ _ _ _ _ _ _) as [r' acts]. split; [|by apply Forall_true].
  unfold on_tables in *. simpl in *. by etrans; [exact Hn|apply Ht].
Qed.

Lemma kept_draw_uuid : kept (draw_uuid uuid).
Proof. intros r n Hn. split; [|done]. unfold on_tables in *. by etrans; [exact Hn|]. Qed.

Lemma kept_secure pkt target raw : kept (secure rand pkt target raw).
Proof. by intros r n Hn. Qed.

Lemma kept_read_clock : kept (read_clock clock).
Proof. by intros r n Hn. Qed.
#[local] Hint Resolve kept_router_send kept_draw_uuid kept_secure kept_read_clock : node_router.

Lemma kept_make_binary to ttl sub tr raw e : kept (make_binary uuid to ttl sub tr raw e).
Proof. unfold make_binary. kept_tac. Qed.

Lemma kept_should_send p : kept (should_send_identity_request clock p).
Proof. unfold should_send_identity_request. kept_tac. Qed.
#[local] Hint Resolve kept_make_binary kept_should_send : node_router.

Lemma kept_send_request si subtype ser dest cb tr :
  (forall d, kept (si d)) -> kept (send_request_with uuid clock rand si subtype ser dest cb tr).
Proof. intros Hsi. unfold send_request_with, fail_request, update_identity. kept_tac. Qed.

Lemma kept_send_identity dest : kept (send_identity_request uuid clock rand dest).
Proof. unfold send_identity_request. apply kept_bind; [kept_tac|]. intros cert. apply kept_send_request. kept_tac. Qed.
#[local] Hint Resolve kept_send_identity : node_router.

Lemma kept_send_request_async subtype ser dest cb tr : kept (send_request_async uuid clock rand subtype ser dest cb tr).
Proof. apply kept_send_request. kept_tac. Qed.

Lemma kept_send_message subtype ser dest tr : kept (send_message uuid clock rand subtype ser dest tr).
Proof. unfold send_message, update_identity. kept_tac. Qed.

Lemma kept_send_text dest s : kept (send_text uuid clock dest s).
Proof. unfold send_text. kept_tac. Qed.

Lemma kept_broadcast_message subtype ser tr : kept (broadcast_message uuid clock subtype ser tr).
Proof. unfold broadcast_message. kept_tac. Qed.

Lemma kept_broadcast_request subtype ser k tr : kept (broadcast_request uuid clock subtype ser k tr).
Proof. unfold broadcast_request. kept_tac. Qed.

Lemma kept_reply x s : kept (reply uuid clock rand x s).
Proof. unfold reply. kept_tac. Qed.

Lemma kept_pending_outgoing dest : kept (handle_pending_outgoing_packets uuid clock rand dest).
Proof. unfold handle_pending_outgoing_packets, update_identity. kept_tac. Qed.
#[local] Hint Resolve kept_reply kept_pending_outgoing : node_router.

(** ** Packets *)

Section body.
Context (rec : bytes -> M unit) (Hrec : forall p, kept (rec p)).
#[local] Hint Resolve Hrec : node_router.

Lemma kept_learn_key p cert : kept (learn_key uuid clock rand rec p cert).
Proof using Hrec. unfold learn_key, update_identity. kept_tac. Qed.
#[local] Hint Resolve kept_learn_key : node_router.

Lemma kept_run_call c : kept (run_call uuid clock rand parses rec c).
Proof using Hrec. unfold run_call, on_identity_response. kept_tac. Qed.
#[local] Hint Resolve kept_run_call : node_router.

Lemma kept_run_handler h from raw x : kept (run_handler uuid clock rand parses rec h from raw x).
Proof using Hrec. unfold run_handler. kept_tac. Qed.
#[local] Hint Resolve kept_run_handler : node_router.

Lemma kept_plain pkt : kept (handle_plain_packet uuid clock rand parses rec pkt).
Proof using Hrec. unfold handle_plain_packet. kept_tac. Qed.
#[local] Hint Resolve kept_plain : node_router.

Lemma kept_body pkt : kept (handle_packet_body uuid clock rand parses rec pkt).
Proof using Hrec. unfold handle_packet_body, update_identity. kept_tac. Qed.
End body.

Lemma kept_incoming (fuel : nat) pkt : kept (handle_incoming_packet uuid clock rand parses fuel pkt).
Proof.
  revert pkt. induction fuel as [|fuel IH]; intros pkt; cbn [handle_incoming_packet]; [kept_tac|].
  apply kept_body. intros p. unfold update_identity. kept_tac.
Qed.
#[local] Hint Resolve kept_incoming : node_router.

Lemma kept_on_timer (fuel : nat) h : kept (on_timer uuid clock rand parses fuel h).
Proof.
  unfold on_timer. kept_tac. apply kept_run_call. intros p. unfold handle_pending_incoming_packets, update_identity.
  kept_tac.
Qed.

(** The callback the constructor gives the router: it discharges what the router
    asks of its callback. *)
Definition node_callback (fuel : nat) n r pkt : MeshRouter * RoutedPacket * list Router.action :=
  let '(pkt', n', acts) := handle_incoming_packet uuid clock rand parses fuel pkt (with_router r (ticks n) n) in
  (router_ n', pkt', routes acts).

#[export] Instance node_callback_sends (fuel : nat) n : CallbackSends (node_callback fuel n).
Proof.
  intros r pkt. unfold node_callback.
  pose proof (kept_incoming fuel pkt r (with_router r (ticks n) n)) as Hk.
  destruct (handle_incoming_packet _ _ _ _ _ _ _) as [[pkt' n'] acts]. by apply Hk.
Qed.

(** ** The whole node *)

Record sound (self : bytes) r : Prop := {
  sound_ok : router_sound r;
  sound_names : names_valid r;
  sound_self : self_id_ r = self
}.

Lemma sound_tables self r r' : same_tables r r' -> sound self r -> sound self r'.
Proof.
  intros Hs [Hok Hn He]. split; [|by eapply same_tables_names|destruct Hs; congruence].
  destruct Hs. by apply (router_sound_same r).
Qed.

Lemma sound_kept {A} (m : M A) self n : kept m -> sound self (router_ n) -> sound self (router_ (m n).1.2).
Proof. intros Hm. apply sound_tables. by apply (Hm (router_ n) n). Qed.

Lemma sound_packet self src pkt n :
  sound self (router_ n) -> packet_u32 pkt = true -> event_names (PACKET_RECEIVED src pkt) ->
  sound self (router_ (receive_packet uuid clock rand parses src pkt n).1.2).
Proof using laws.
  intros [Hok Hn He] Hp Hev. unfold receive_packet. set (clk i := clock (ticks n + i)).
  assert (forall cb clk', clk' 0 = clk 0 ->
    same_tables (hear (clk 0) src (router_ n)) (cb (hear (clk 0) src (router_ n)) pkt).1.1 ->
    sound self (handle_packet uuid cb clk' src pkt (router_ n)).1) as Hh.
  { intros cb clk' E Hcb. rewrite <-E in Hcb.
    destruct (handle_packet_names uuid cb clk' src pkt (router_ n)) as (? & ? & ?); [done..|]. split; congruence. }
  destruct (delivers _).
  - pose proof (kept_incoming 2 pkt (hear (clk 0) src (router_ n))
      (with_router (hear (clk 0) src (router_ n)) (S (ticks n)) n)) as Hk.
    destruct (handle_incoming_packet _ _ _ _ _ _ _) as [[pkt' n2] acts].
    specialize (Hh (fun _ _ => (router_ n2, pkt', routes acts))
      (fun i => match i with 0 => clk 0 | S i => clock (ticks n2 + i) end) eq_refl).
    destruct (handle_packet _ _ _ _ _ _) as [r racts]. apply Hh. by apply Hk.
  - specialize (Hh no_callback clk eq_refl). destruct (handle_packet _ _ _ _ _ _) as [r racts]. by apply Hh.
Qed.

(** What can happen to a node: calls of the application, time-outs, bytes from a
    peer, peers that come and go, maintenance of the router. *)
Inductive system_step n : MeshNode -> Prop :=
| sys_text dest s : system_step n (send_text uuid clock dest s n).1.2
| sys_message subtype ser dest tr : system_step n (send_message uuid clock rand subtype ser dest tr n).1.2
| sys_request subtype ser dest cb tr : system_step n (send_request_async uuid clock rand subtype ser dest cb tr n).1.2
| sys_broadcast subtype ser tr : system_step n (broadcast_message uuid clock subtype ser tr n).1.2
| sys_broadcast_request subtype ser k tr : system_step n (broadcast_request uuid clock subtype ser k tr n).1.2
| sys_reply x s : system_step n (reply uuid clock rand x s n).1.2
| sys_timer h : system_step n (on_timer uuid clock rand parses 2 h n).1.2
| sys_on subtype resp h : system_step n (on subtype resp h n)
| sys_on_without_response subtype h : system_step n (on_without_response subtype h n)
| sys_block b : system_step n (set_block_all_messages b n)
| sys_bytes src s : utf8_valid src = true -> system_step n (receive_bytes uuid clock rand parses src s n).1.2
| sys_connected clk peer :
    utf8_valid peer = true ->
    system_step n (with_router (peer_connected clk peer (router_ n)) (ticks n) n)
| sys_disconnected clk peer : system_step n (with_router (peer_disconnected clk peer (router_ n)) (ticks n) n)
| sys_maintenance clk : system_step n (with_router (run_periodic_maintenance uuid clk (router_ n)).1 (ticks n) n).

Lemma system_step_sound self n n' : sound self (router_ n) -> system_step n n' -> sound self (router_ n').
Proof using laws pw.
  intros Hs Hstep. destruct Hstep; try done.
  - by apply sound_kept, Hs; apply kept_send_text.
  - by apply sound_kept, Hs; apply kept_send_message.
  - by apply sound_kept, Hs; apply kept_send_request_async.
  - by apply sound_kept, Hs; apply kept_broadcast_message.
  - by apply sound_kept, Hs; apply kept_broadcast_request.
  - by apply sound_kept, Hs; apply kept_reply.
  - by apply sound_kept, Hs; apply kept_on_timer.
  - unfold receive_bytes, decodeRoutedPacket. destruct (ParseFromString s) as [pkt|] eqn:E; [|done].
    apply sound_packet; [done|by eapply packet_ok_u32, packet_parsed|by eapply parsed_names].
  - destruct Hs as [Hok Hn He]. split; [by apply peer_connected_sound, Hok|by apply peer_connected_names; [apply Hok|..]|].
    rewrite <-He. apply (recalculate_keeps_queue (clk 1) (with_tables _ _ (router_ n))).
  - destruct Hs as [Hok Hn He]. split; [by apply peer_disconnected_sound, Hok|by apply peer_disconnected_names; [apply Hok|]|].
    rewrite <-He. apply (recalculate_keeps_queue (clk 0) (with_tables _ _ (router_ n))).
  - destruct Hs as [Hok Hn He]. split; [by apply maintenance_sound|by apply maintenance_names; [apply Hok|]|].
    rewrite <-He. apply maintenance_keeps.
Qed.
End node.

(** (C19) The router of a running node.  From a node with a UTF-8 name, in every
    state the whole node reaches (calls of the application, time-outs, arbitrary
    bytes from its peers, peers of any UTF-8 name, its own included, that come and
    go, maintenance) the router's tables are well-formed, hold the cheapest routes
    its neighbours offer (a cost of 0 to itself, or 1 while a peer is connected
    under its own name) and UTF-8 names only, every advertisement it sends can be
    parsed by its receiver and carries the node's name and costs from 0 to 16, and
    logging the routing table does not throw. *)
Theorem node_router_safe {o : IterOrder} {laws : IterOrderLaws o} {wp : Wire RoutedPacket} {pw : PacketWire}
    {ssl : OpenSSL} {w1 : Wire IdentityRequest} {w2 : Wire IdentityResponse} {w3 : Wire PingRequest}
    {w4 : Wire PingResponse} {w5 : Wire TopologyRequest} {w6 : Wire TopologyResponse}
    {dj : Json} {jl : JsonLaws dj}
    (uuid : nat -> bytes) (clock : nat -> Z) (rand : nat -> Identity.draws) (parses : nat -> bytes -> bool)
    (self : bytes) (im : IdentityManager) (encrypt : bool) (now : Z) (n : MeshNode)
    (Hself : utf8_valid self = true)
    (Hreach : rtc (system_step uuid clock rand parses) (start (make_node self im encrypt now)) n) :
  router_ok (router_ n) /\ settled (router_ n) /\ names_valid (router_ n) /\ self_id_ (router_ n) = self /\
  (forall clk, Forall (update_ok self) (run_periodic_maintenance uuid clk (router_ n)).2) /\
  (forall lg, is_Some (print_routing_table lg (router_ n))).
Proof.
  assert (sound self (router_ n)) as [[Hok Hset] Hn <-].
  { revert Hreach. apply (rtc_keeps (fun n => sound self (router_ n))).
    - intros n1 n2. apply system_step_sound.
    - apply (sound_tables self (make_router self false now)); [done|]. split; [apply make_router_sound|by apply make_router_names|done]. }
  split_and!; [done..|intros clk; by apply maintenance_names|intros lg; by apply print_total].
Qed.

(** ** A concrete node: Bob connects, then Alice advertises *)

Definition node_with_bob : MeshNode :=
  let n := start (make_node [x61] alice true 0) in
  with_router (@peer_connected map_order (fun _ => 0%Z) [x62] (router_ n)) (ticks n) n.

Lemma node_router_safe_witness :
  let acts := (@run_periodic_maintenance map_order packet_wire (fun _ => replicate 16 x11) (fun _ => seconds 11)
                 (router_ node_with_bob)).2 in
  length acts = 2 /\ Forall (@update_ok packet_wire [x61]) acts /\
  forall lg, is_Some (@print_routing_table map_order toy_json lg (router_ node_with_bob)).
Proof.
  destruct (@node_router_safe map_order map_order_laws packet_wire packet_wire_laws toy_ssl
    NodeCorrect.identity_request_wire NodeCorrect.identity_response_wire NodeCorrect.ping_request_wire
    NodeCorrect.ping_response_wire NodeCorrect.topology_request_wire NodeCorrect.topology_response_wire
    toy_json toy_json_laws (fun _ => replicate 16 x11) (fun _ => 0%Z) (fun _ => demo_draws) (fun _ _ => true)
    [x61] alice true 0 node_with_bob) as (_ & _ & _ & _ & W1 & W2).
  - reflexivity.
  - apply rtc_once. apply (sys_connected _ _ _ _ _ (fun _ => 0%Z) [x62]). reflexivity.
  - split_and!; [vm_compute; reflexivity|exact (W1 _)|exact W2].
Defined.

End NodeRouter.
