(* ===== verification/NodeApi.v ===== *)
(** * The node with its transport

    The operations of [MeshNode] (src/src/mesh/node/MeshNode.cpp) that reach
    beyond the router: the node owns an [RpcManager], which is the transport of
    its router, and the router is the message sink of the manager.  A call of the
    node is run here together with what it makes the manager do. *)

From S2P Require Import Prelude Cxx DedupSet ThreadSafeQueue Utils Packet MeshRouter RouterTable.
From S2P Require Import RequestTracker Crypto Identity UdpTransport RpcConnection RpcManager MeshNode Graph.

Module Api.
Import Utils Packet Router Crypto Identity Manager Node.

(** [rpc_connections], the router (inside the node) and the remaining members. *)
Record app := App {
  node : MeshNode;
  rpc_connections : RpcManager;
  output_directory_ : bytes
}.

Implicit Types (x : app) (m : RpcManager).

(** The constructor: each side is told of the other.  [None] if the constructor
    of the UDP transport throws. *)
Definition make_app (udp_bind : Z -> bool) (peer_id : bytes) (udp_port : Z) (ssl : bool) (im : IdentityManager) (encrypt : bool)
    (fec : Udp.UdpFecOptions) (now : Z) : option app :=
  m ← make_manager udp_bind peer_id udp_port false ssl fec;
  Some (App (make_node peer_id im encrypt now) (set_sink true m) []).

(** ** [ITransportLayer]: the router's calls, run by the manager *)

Definition run_action {we : Wire Envelope} {wp : Wire RoutedPacket} (a : Router.action) m
    : RpcManager * list (Udp.endpoint * bytes) :=
  match a with
  | SendTcp peer env => ((send_tcp_message peer env m).1, [])
  | SendUdp peer pkt =>
      match send_udp_message peer pkt m with
      | (m, Ok datagrams) => (m, datagrams)
      | (m, Err _) => (m, [])
      end
  | Deliver _ => (m, [])
  end.

Fixpoint run_actions {we : Wire Envelope} {wp : Wire RoutedPacket} (l : list node_action) m
    : RpcManager * list (Udp.endpoint * bytes) :=
  match l with
  | [] => (m, [])
  | Route a :: l => let '(m, out) := run_action a m in let '(m, out') := run_actions l m in (m, out ++ out')
  | _ :: l => run_actions l m
  end.

(** ** [IMessageSink]: the manager's calls, run by the router *)

Definition run_sink_event {wp : Wire RoutedPacket} (e : sink_event) (r : MeshRouter) : MeshRouter :=
  match e with
  | PushDataBytes from payload => push_data_bytes from payload r
  | OnPeerConnected peer => on_peer_connected peer r
  | OnPeerDisconnected peer => on_peer_disconnected peer r
  end.

Definition run_sink_events {wp : Wire RoutedPacket} (l : list sink_event) x : app :=
  let n := node x in
  App (with_router (foldl (fun r e => run_sink_event e r) (router_ n) l) (ticks n) n) (rpc_connections x)
    (output_directory_ x).

(** ** Calls *)

(** A call of the node: its result, the datagrams and what the application sees. *)
Definition call {we : Wire Envelope} {wp : Wire RoutedPacket} {A} (f : M A) x
    : A * app * list (Udp.endpoint * bytes) * list node_action :=
  let '(a, n, acts) := f (node x) in
  let '(m, out) := run_actions acts (rpc_connections x) in
  (a, App n m (output_directory_ x), out, acts).

(** A call of the manager, with what it tells the sink. *)
Definition call_manager {wp : Wire RoutedPacket} {A} (f : RpcManager -> RpcManager * A * list sink_event) x : A * app :=
  let '(m, a, evs) := f (rpc_connections x) in
  (a, run_sink_events evs (App (node x) m (output_directory_ x))).

Definition with_manager m x : app := App (node x) m (output_directory_ x).

Definition stop x : app := with_manager (shutdown_manager (rpc_connections x)) x.

(** The outcome is only logged. *)
Definition connect (host : bytes) (port : Z) x : app :=
  with_manager (connect_async host port (rpc_connections x)).1 x.

Definition get_nodes_in_network {o : IterOrder} x : list bytes := get_peers_in_network (router_ (node x)).

Definition set_output_directory (dir : bytes) x : app := App (node x) (rpc_connections x) dir.

Definition add_auto_connection (ip_address : bytes) (tcp_port : Z) x : app :=
  with_manager (Manager.add_auto_connection (MakePeerIP ip_address tcp_port 0) (rpc_connections x)) x.

Definition remove_auto_connection (ip_address : bytes) (tcp_port : Z) x : app :=
  with_manager (Manager.remove_auto_connection (MakePeerIP ip_address tcp_port 0) (rpc_connections x)) x.

(** ** Blocking calls: the request, and what follows when the future is ready *)

Section blocking.
Context {o : IterOrder} {wp : Wire RoutedPacket} {w1 : Wire IdentityRequest} {ssl : OpenSSL}.
Context {w3 : Wire PingRequest} {w4 : Wire PingResponse} {w5 : Wire TopologyRequest} {w6 : Wire TopologyResponse}.
Context (uuid : nat -> bytes) (clock : nat -> Z) (rand : nat -> Identity.draws).

Definition ping (peer : bytes) (k : nat) : M unit :=
  self ← gets Node.peer_id_;
  send_request uuid clock rand (lit "mesh.PingRequest")%mesh
    (SerializeAsString {| ping_message := (lit "hello from ")%mesh ++ self |}) peer k TCP.

(** The value the caller gets. *)
Definition ping_result (r : outcome RequestError bytes) : bool := match r with Ok _ => true | Err _ => false end.

Definition generate_topology_graph (k : nat) : M unit :=
  broadcast_request uuid clock (lit "mesh.TopologyRequest")%mesh (SerializeAsString Build_TopologyRequest) k TCP.

(** The responses that were collected, each parsed when it came. *)
Definition topology_done (write_graphviz : list bytes -> list (nat * nat) -> bytes) (filename : bytes)
    (responses : list (bytes * bytes)) x : option bytes * bytes * bytes :=
  let parsed := omap (fun '(sender, raw) =>
    (fun r => (sender, directly_connected_peers r)) <$> ParseFromString raw) responses in
  Graph.save_graph write_graphviz (Graph.append_path (output_directory_ x) filename) (Graph.topology_graph parsed).
End blocking.

(** ** What a call does to the manager *)

(** Sending through the node never changes which peers are connected. *)
Lemma run_actions_peers {we : Wire Envelope} {wp : Wire RoutedPacket} (l : list node_action) m :
  connections_by_peer_ (run_actions l m).1 = connections_by_peer_ m /\
  connections_by_ip_ (run_actions l m).1 = connections_by_ip_ m.
Proof.
  revert m. induction l as [|[a| | | | | |] l IH]; intros m; cbn [run_actions]; try apply IH; [done|].
  assert (connections_by_peer_ (run_action a m).1 = connections_by_peer_ m /\
    connections_by_ip_ (run_action a m).1 = connections_by_ip_ m) as [E1 E2].
  { destruct a as [peer env|peer pkt|p]; simpl; [| |done].
    - unfold send_tcp_message. destruct (connections_by_peer_ m !! peer) as [i|]; [|done]. by destruct (heap m !! i).
    - unfold send_udp_message. destruct (connections_by_peer_ m !! peer) as [i|]; [|done].
      destruct (heap m !! i); [|done]. by destruct (Udp.send_packet _ _ _). }
  destruct (run_action a m) as [m1 out]. specialize (IH m1). destruct (run_actions l m1) as [m2 out'].
  simpl in *. destruct IH as [-> ->]. done.
Qed.

End Api.
