(* ===== verification/NodeConnect.v ===== *)
(** * From the handshake to the first message

    The manager, the router and the node together: once a handshake has finished,
    the router learns of the peer, and what the node sends to it leaves on the
    connection of that handshake. *)

From S2P Require Import Prelude Cxx DedupSet ThreadSafeQueue Utils Packet MeshRouter RouterTable RouterInvariants.
From S2P Require Import RouterForward RequestTracker Crypto Identity UdpTransport RpcConnection RpcManager.
From S2P Require Import MeshNode Session RpcCalls RpcRegistry Link Relay NodeApi.

Module NodeConnect.
Import Utils Packet Router Table RouterInv Forward Crypto Identity Node Manager Link Relay Api.

Implicit Types (x : app) (m : RpcManager) (r : MeshRouter).

(** ** The route to a neighbour *)

Section route.
Context {o : IterOrder} {laws : IterOrderLaws o}.

Lemma relax_all_keeps_direct self now d l e :
  (forall n v c, (n, v) ∈ l -> advertised_routes v !! d = Some c -> (0 <= c < INF_COST)%Z) ->
  cost e = 1%Z -> relax_all self now d l (Some e) = Some e.
Proof.
  intros Hl He. induction l as [|[n v] l IH]; [done|]. simpl.
  assert (relax_all self now d l (Some e) = Some e) as IH' by (apply IH; intros; eapply Hl; [by right|done]).
  destruct (advertised_routes v !! d) as [c|] eqn:Hc; [|exact IH'].
  assert (0 <= c < INF_COST)%Z as Hcr by (by eapply Hl; [left|]).
  unfold relax_entry at 1. case_bool_decide; [exact IH'|]. unfold INF_COST in *. rewrite u32_small by lia.
  destruct (16 <=? c + 1)%Z; [exact IH'|]. rewrite (proj2 (Z.ltb_ge _ _)) by lia. exact IH'.
Qed.

(** A neighbour is always reached directly. *)
Lemma neighbor_routed now r n :
  views_ok r -> is_Some (neighbor_views_ r !! n) -> n <> self_id_ r ->
  routes_via (recalculate_forwarding_table now r) n n.
Proof.
  intros Hv [v Hn] Hne. destruct (recalculate_lookup r now) as [Hl _].
  unfold routes_via. rewrite Hl. unfold updated.
  assert (new_table now r !! n = Some (Router.Route n 1 true now)) as ->.
  { rewrite new_table_lookup. unfold direct_entry. rewrite Hn. apply relax_all_keeps_direct; [|done].
    intros n' v' c ?%elem_of_iter ?. by eapply Hv. }
  unfold merged. destruct (forwarding_table_ r !! n) as [old|]; [|by eexists].
  destruct (_ || _) eqn:E; [by eexists|]. bool_to_prop. exists old. split; [done|]. simpl in *.
  split; [done|]. unfold INF_COST. lia.
Qed.

Lemma connected_routed clk peer r :
  views_ok r -> peer <> self_id_ r ->
  routes_via (peer_connected clk peer r) peer peer /\
  self_id_ (peer_connected clk peer r) = self_id_ r /\ transport_ (peer_connected clk peer r) = transport_ r /\
  Router.draws (peer_connected clk peer r) = Router.draws r.
Proof.
  intros Hv Hne. unfold peer_connected. set (r1 := with_tables _ _ r).
  destruct (recalculate_lookup r1 (clk 1)) as (_ & _ & E1 & _ & _ & _ & E2 & E3 & _).
  split; [|done]. apply neighbor_routed; [by apply connected_views_ok|simpl; by rewrite lookup_insert_eq|done].
Qed.

(** The loop of the router on a queue that holds one connection event. *)
Lemma connected_through_queue {w : Wire RoutedPacket} uuid cb expired clk now clkm next peer r :
  event_queue_ r = Queue.new_queue -> (now < next)%Z ->
  loop_iteration uuid cb expired clk now clkm next (on_peer_connected peer r) =
  Some (peer_connected clk peer r, next, []).
Proof.
  intros Hq Hn. unfold loop_iteration, on_peer_connected, push_event. cbn [event_queue_ with_queue].
  rewrite Hq. cbn. rewrite (proj2 (Z.leb_gt _ _)) by done.
  assert (with_queue (Queue.TSQueue [] false) (with_queue (Queue.push (PEER_CONNECTED peer) Queue.new_queue) r) = r)
    as -> by (destruct r; cbn in *; by rewrite Hq). done.
Qed.
End route.

(** ** The manager registers the connection *)

Lemma startup_registers {we : Wire Envelope} {wh : Wire Handshake} i a c (rec : PeerRecord) m :
  starting m !! i = Some a -> heap m !! i = Some c -> sink_ m = true ->
  connections_by_peer_ m !! Packet.peer_id rec = None ->
  exists m1 posted, startup_done i (Ok rec) m = (m1, posted, [OnPeerConnected (Packet.peer_id rec)]) /\
    connections_by_peer_ m1 !! Packet.peer_id rec = Some i /\
    heap m1 !! i = Some (Rpc.set_remote_peer_id (Packet.peer_id rec) c).
Proof.
  intros Hs Hc Hsink Hnew. unfold startup_done. rewrite Hs. unfold handle_connection_startup, add_connection_internal.
  set (m0 := update_conn _ _ _).
  assert (heap m0 !! i = Some (Rpc.set_remote_peer_id (Packet.peer_id rec) c)) as Hh
    by (unfold m0; simpl; by rewrite list_lookup_alter_eq, Hc).
  rewrite Hh. cbn [with_maps]. change (sink_ m0) with (sink_ m). rewrite Hsink. eexists _, _. split; [reflexivity|].
  split; [|exact Hh]. simpl. unfold try_insert. rewrite Hnew. apply lookup_insert_eq.
Qed.

Lemma run_send_text {o : IterOrder} {wp : Wire RoutedPacket} uuid clock (dest s : bytes) n :
  send_text uuid clock dest s n =
  router_send uuid clock (MakeTextRoutedPacket (uuid (Router.draws (router_ n))) (Node.peer_id_ n) dest DEFAULT_TTL s false)
    (drawn n).
Proof.
  unfold send_text. erewrite run_silent by reflexivity. rewrite run_gets. reflexivity.
Qed.

(** (C20) A peer is reachable as soon as its handshake has finished: the manager
    registers the connection and tells the router; once the router's loop has
    taken that event, a text for the peer leaves, alone and addressed, on the
    connection of the handshake. *)
Theorem connect_then_send {o : IterOrder} {laws : IterOrderLaws o} {wp : Wire RoutedPacket}
    {we : Wire Envelope} {wh : Wire Handshake} (uuid : nat -> bytes) (clock clk clkm : nat -> Z) (expired : bool)
    (now next : Z) (x : app) (i : nat) (a : option nat) (c : Rpc.RpcConnection) (rec : PeerRecord) (peer s : bytes)
    (Hpeer : Packet.peer_id rec = peer) (Hne : peer <> []) (Hself : self_id_ (router_ (node x)) <> peer)
    (Hid : Node.peer_id_ (node x) = self_id_ (router_ (node x)))
    (Hstart : starting (rpc_connections x) !! i = Some a) (Hc : heap (rpc_connections x) !! i = Some c)
    (Hsink : sink_ (rpc_connections x) = true) (Hnew : connections_by_peer_ (rpc_connections x) !! peer = None)
    (Hok : router_ok (router_ (node x))) (Hup : transport_ (router_ (node x)) = true)
    (Hq : event_queue_ (router_ (node x)) = Queue.new_queue) (Hnext : (now < next)%Z) :
  exists posted x1 r1 x2 u1 u2 c2,
    call_manager (startup_done i (Ok rec)) x = (posted, x1) /\
    loop_iteration uuid no_callback expired clk now clkm next (router_ (node x1)) = Some (r1, next, []) /\
    (call (send_text uuid clock peer s) (App (with_router r1 (ticks (node x1)) (node x1)) (rpc_connections x1)
       (output_directory_ x1))).1 = (tt, x2, []) /\
    heap (rpc_connections x2) !! i = Some c2 /\
    Rpc.sent c2 = Rpc.sent c ++ [on_wire c (MakeGenericData u2 (SerializeAsString
      (hop_packet (MakeTextRoutedPacket u1 (Node.peer_id_ (node x)) peer DEFAULT_TTL s false))))].
Proof.
  subst peer. destruct (startup_registers i a c rec (rpc_connections x)) as (m1 & posted & Hst & Hreg & Hheap); try done.
  set (peer := Packet.peer_id rec) in *. unfold call_manager. rewrite Hst.
  set (n1 := with_router (on_peer_connected peer (router_ (node x))) (ticks (node x)) (node x)).
  destruct (connected_routed clk peer (router_ (node x))) as (Hroute & E1 & E2 & E3); [by destruct Hok|congruence|].
  set (r1 := peer_connected clk peer (router_ (node x))) in *.
  set (u1 := uuid (Router.draws r1)). set (n2 := drawn (with_router r1 (ticks n1) n1)).
  destruct (send_hop uuid no_callback (fun j => clock (ticks n2 + j)) peer
    (MakeTextRoutedPacket u1 (Node.peer_id_ (node x)) peer DEFAULT_TTL s false) (router_ n2)) as (r' & Hsend & _);
    [by split; simpl; congruence|simpl; congruence|done|done|simpl; congruence|exact Hroute|simpl; congruence|].
  destruct (send_tcp_registered m1 peer i _ (MakeGenericData (uuid (Router.draws (router_ n2))) (SerializeAsString
    (hop_packet (MakeTextRoutedPacket u1 (Node.peer_id_ (node x)) peer DEFAULT_TTL s false)))) Hreg Hheap)
    as (_ & Hc2 & Hsent & _).
  eexists posted, _, r1, _, u1, _, _. split; [reflexivity|]. split; [by apply connected_through_queue|]. split.
  - cbn [run_sink_events node foldl run_sink_event rpc_connections output_directory_].
    fold n1. unfold call. cbn [node rpc_connections output_directory_].
    rewrite (run_send_text uuid clock peer s (with_router r1 (ticks n1) n1)). fold n2.
    unfold router_send. change (Node.peer_id_ (with_router r1 (ticks n1) n1)) with (Node.peer_id_ (node x)).
    change (uuid (Router.draws (router_ (with_router r1 (ticks n1) n1)))) with u1.
    rewrite Hsend. cbn [fmap list_fmap run_actions run_action fst]. reflexivity.
  - split; [exact Hc2|exact Hsent].
Qed.
(** A node whose connection to [x62] is starting up. *)
Definition starting_app : app :=
  App (Node.start (make_node [x61] new_manager false 0))
    (with_attempts ∅ [] {[ 0 := None ]} (with_heap [demo_conn [x31] [x32] [x61] []] Registry.demo_manager)) [].

Lemma connect_then_send_witness :
  let ew := code_wire Envelope in let hw := code_wire Handshake in let pw := packet_wire in
  exists posted x1 r1 x2 u1 u2 c2,
    call_manager (startup_done 0 (Ok {| Packet.peer_id := [x62]; peer_ip := None |})) starting_app = (posted, x1) /\
    @loop_iteration map_order pw (fun _ => replicate 16 x11) no_callback false (fun _ => 0%Z) 0 (fun _ => 0%Z) 1
      (router_ (node x1)) = Some (r1, 1%Z, []) /\
    (call (@send_text map_order pw (fun _ => replicate 16 x11) (fun _ => 0%Z) [x62] (lit "hi")%mesh)
       (App (with_router r1 (ticks (node x1)) (node x1)) (rpc_connections x1) (output_directory_ x1))).1 = (tt, x2, []) /\
    heap (rpc_connections x2) !! 0 = Some c2 /\
    Rpc.sent c2 = [on_wire (demo_conn [x31] [x32] [x61] []) (MakeGenericData u2 (SerializeAsString
      (hop_packet (MakeTextRoutedPacket u1 [x61] [x62] DEFAULT_TTL (lit "hi")%mesh false))))].
Proof.
  intros ew hw pw.
  apply (@connect_then_send map_order map_order_laws pw ew hw (fun _ => replicate 16 x11) (fun _ => 0%Z)
    (fun _ => 0%Z) (fun _ => 0%Z) false 0 1 starting_app 0 None (demo_conn [x31] [x32] [x61] [])
    {| Packet.peer_id := [x62]; peer_ip := None |} [x62] (lit "hi")%mesh).
  - reflexivity.
  - discriminate.
  - discriminate.
  - reflexivity.
  - reflexivity.
  - reflexivity.
  - reflexivity.
  - reflexivity.
  - apply (make_router_ok [x61] true 0).
  - reflexivity.
  - reflexivity.
  - lia.
Defined.

End NodeConnect.
