(* ===== verification/Main.v ===== *)
(** * The command line program

    src/main.cpp: the configuration, the start of the node and the loop over the
    commands of the terminal.  The YAML library is an interface; printing is the
    reaction a line gives. *)

From S2P Require Import Prelude Cxx Utils Packet MeshRouter FecCodec FecRecovery UdpTransport Crypto Identity RpcManager MeshNode.
From S2P Require Import Graph NodeApi.

Module Main.
Import Fec Recovery Utils Packet Crypto Identity Manager Node Api.

(** ** The YAML library *)

(** A node of the document, a map wherever a member is read: the member under a
    key, if it is defined; the conversions, which throw ([None]) on a value of
    another kind ([as<int>] gives an [int]); the elements of a sequence. *)
Class Yaml := {
  ynode : Type;
  yget : ynode -> bytes -> option ynode;
  as_int : ynode -> option Z;
  as_bool : ynode -> option bool;
  as_string : ynode -> option bytes;
  elements : ynode -> list ynode
}.

(** How [main] ends before its command loop. *)
Inductive main_exit :=
| Uncaught                       (* an exception leaves [main] *)
| DataShardsOutOfRange | RootsOutOfRange | TooManyShards   (* return 1 *)
| TlsSetupFailed.                (* return 1 *)

Definition need {A} (o : option A) : outcome main_exit A := match o with Some a => Ok a | None => Err Uncaught end.

Notation "'let!' x := e1 'in' e2" := (match e1 with Ok x => e2 | Err err => Err err end)
  (at level 10, x pattern, e1 at level 200, e2 at level 200).

(** [config[k] ? config[k].as<T>() : d] *)
Definition get_or {y : Yaml} {A} (conv : ynode -> option A) (d : A) (config : ynode) (k : bytes) : outcome main_exit A :=
  match yget config k with Some n => need (conv n) | None => Ok d end.

(** [config[k].as<T>()]: an undefined node throws. *)
Definition get {y : Yaml} {A} (conv : ynode -> option A) (config : ynode) (k : bytes) : outcome main_exit A :=
  need (yget config k ≫= conv).

(** ** The configuration *)

Section config.
Context {y : Yaml}.

Definition u8_cast (z : Z) : nat := Z.to_nat (z mod 256).

Definition udp_fec_options (config : ynode) : outcome main_exit Udp.UdpFecOptions :=
  match yget config (lit "udp-fec")%mesh with
  | None => Ok (Udp.FecOptions false 4 0)
  | Some fec =>
      let! enabled := get_or as_bool true fec (lit "enabled")%mesh in
      let! data_shards := get_or as_int 4%Z fec (lit "data-shards")%mesh in
      let! roots := get_or as_int 0%Z fec (lit "roots")%mesh in
      if ((data_shards <? 1) || (253 <? data_shards))%Z then Err DataShardsOutOfRange
      else if ((roots <? 0) || (253 <? roots))%Z then Err RootsOutOfRange
      else if (254 <? data_shards + roots)%Z then Err TooManyShards
      else Ok (Udp.FecOptions (if u8_cast roots =? 0 then false else enabled) (u8_cast data_shards) (u8_cast roots))
  end.

Record tls_files := { cert : bytes; key : bytes; ca : bytes }.

(** The files, when all three are given, and [encrypt_messages]: the key is only
    tested for its presence. *)
Definition tls_options (config : ynode) : outcome main_exit (option tls_files * bool) :=
  match yget config (lit "tls")%mesh with
  | Some tls =>
      match yget tls (lit "cert-path")%mesh, yget tls (lit "key-path")%mesh, yget tls (lit "ca-path")%mesh with
      | Some c, Some k, Some a =>
          let! cert := need (as_string c) in
          let! key := need (as_string k) in
          let! ca := need (as_string a) in
          Ok (Some {| cert := cert; key := key; ca := ca |},
              bool_decide (is_Some (yget tls (lit "encrypt-messages")%mesh)))
      | _, _, _ => Ok (None, false)
      end
  | None => Ok (None, false)
  end.

(** The [auto_connect] entries with an address and a port. *)
Fixpoint auto_connections (l : list ynode) : outcome main_exit (list (bytes * Z)) :=
  match l with
  | [] => Ok []
  | elem :: l =>
      match yget elem (lit "ip")%mesh, yget elem (lit "port")%mesh with
      | Some i, Some p =>
          let! ip := need (as_string i) in
          let! port := need (as_int p) in
          let! rest := auto_connections l in
          Ok ((ip, port) :: rest)
      | _, _ => auto_connections l
      end
  end.

(** ** TLS *)

(** What [main] uses of a Boost SSL context: the files it has loaded; with
    [verify_file], peers must show a certificate of that authority. *)
Record ssl_context := { chain_file : bytes; private_key_file : bytes; verify_file : option bytes }.

(** Whether Boost can load a file for each purpose. *)
Class TlsFiles := {
  use_certificate_chain_file : bytes -> bool;
  use_private_key_file : bytes -> bool;
  load_verify_file : bytes -> bool
}.

(** [CertHelpers::make_ssl_context]; [None]: "TLS Setup Failed". *)
Definition make_ssl_context {t : TlsFiles} (f : tls_files) : option ssl_context :=
  if negb (use_certificate_chain_file (cert f)) then None
  else if negb (use_private_key_file (key f)) then None
  else if bool_decide (ca f = []) then
    Some {| chain_file := cert f; private_key_file := key f; verify_file := None |}
  else if negb (load_verify_file (ca f)) then None
  else Some {| chain_file := cert f; private_key_file := key f; verify_file := Some (ca f) |}.

(** ** The start *)

(** [main] up to its command loop.  [udp_bind]: the ports that can be bound; [files]: the contents of the files; [cwd]: the
    working directory. *)
Definition launch {ssl : OpenSSL} {t : TlsFiles} (udp_bind : Z -> bool) (files : bytes -> option bytes)
    (stack cwd : bytes) (now : Z) (config : ynode) : outcome main_exit app :=
  let! tcp_port := get as_int config (lit "tcp-port")%mesh in
  let! udp_port := get as_int config (lit "udp-port")%mesh in
  let! peer_id := get as_string config (lit "peer-id")%mesh in
  let! output_dir := get_or as_string (Graph.append_path cwd (lit "out")%mesh) config (lit "output-dir")%mesh in
  let! is_debug_mode := get_or as_bool false config (lit "debug")%mesh in
  let! fec := udp_fec_options config in
  let! tls := tls_options config in
  let! ssl_ctx := match tls.1 with
                  | Some f => match make_ssl_context f with Some c => Ok (Some c) | None => Err TlsSetupFailed end
                  | None => Ok None
                  end in
  let! im := match tls with
             | (Some f, true) =>
                 match load_identities files stack (cert f) (key f) (ca f) new_manager with
                 | (im, Ok _) => Ok im
                 | (_, Err _) => Err Uncaught
                 end
             | _ => Ok new_manager
             end in
  let! x := need (make_app udp_bind peer_id udp_port (bool_decide (is_Some ssl_ctx)) im tls.2 fec now) in
  let x := set_output_directory output_dir x in
  let x := App (Node.start (node x)) (rpc_connections x) (output_directory_ x) in
  let! autos := match yget config (lit "auto_connect")%mesh with
                | Some l => auto_connections (elements l)
                | None => Ok []
                end in
  Ok (foldl (fun x t => add_auto_connection t.1 t.2 x) x autos).
End config.

(** ** Commands *)

(** [isspace] in the C locale. *)
Definition is_space (c : byte) : bool :=
  bool_decide (c = x20) || ((9 <=? b2z c) && (b2z c <=? 13))%Z.

(** [iss >> word] until the end of the line. *)
Fixpoint tokens (word : bytes) (line : bytes) : list bytes :=
  match line with
  | [] => if bool_decide (word = []) then [] else [word]
  | c :: line =>
      if is_space c then (if bool_decide (word = []) then tokens [] line else word :: tokens [] line)
      else tokens (word ++ [c]) line
  end.

Definition tokenize (line : bytes) : list bytes := tokens [] line.

(** The loop of [dm] that puts the words together again. *)
Fixpoint join (words : list bytes) : bytes :=
  match words with
  | [] => []
  | [w] => w
  | w :: words => w ++ [x20] ++ join words
  end.

Inductive command :=
| Connect (host : bytes) (port : Z)
| Dm (target msg : bytes)
| Topology (output_path : bytes)
| Ping (peer : bytes)
| GetNodes
| Block (block : bool)
| Help
| BadConnect (e : Utils.connect_error)
| UsageOf (name : bytes)
| Unknown.

Definition parse_command (cmd : bytes) (args : list bytes) : command :=
  if bool_decide (cmd = (lit "connect")%mesh) then
    match parse_connect_args args with Ok (host, port) => Connect host port | Err e => BadConnect e end
  else if bool_decide (cmd = (lit "dm")%mesh) then
    match args with target :: (_ :: _) as words => Dm target (join words) | _ => UsageOf cmd end
  else if bool_decide (cmd = (lit "topology")%mesh) then
    match args with path :: _ => Topology path | [] => UsageOf cmd end
  else if bool_decide (cmd = (lit "ping")%mesh) then
    match args with peer :: _ => Ping peer | [] => UsageOf cmd end
  else if bool_decide (cmd = (lit "get_nodes")%mesh) then GetNodes
  else if bool_decide (cmd = (lit "block")%mesh) then Block true
  else if bool_decide (cmd = (lit "unblock")%mesh) then Block false
  else if bool_decide (cmd = (lit "help")%mesh) then Help
  else Unknown.

(** The loop over the lines of the terminal: the commands up to [exit], [quit]
    or the end of the input. *)
Fixpoint read_commands (lines : list bytes) : list command :=
  match lines with
  | [] => []
  | line :: lines =>
      match tokenize line with
      | [] => read_commands lines
      | cmd :: args =>
          if bool_decide (cmd = (lit "exit")%mesh) || bool_decide (cmd = (lit "quit")%mesh) then []
          else parse_command cmd args :: read_commands lines
      end
  end.

(** ** Running a command *)

(** What a line prints: nothing, a message, or the nodes of the network. *)
Inductive printed :=
| Silent
| ConnectUsage (e : Utils.connect_error)
| Usage (name : bytes)
| Nodes (l : list bytes)
| Available
| UnknownCommand.

Section perform.
Context {o : IterOrder} {we : Wire Envelope} {wp : Wire RoutedPacket} {w1 : Wire IdentityRequest} {ssl : OpenSSL}.
Context {w3 : Wire PingRequest} {w5 : Wire TopologyRequest}.
Context (uuid : nat -> bytes) (clock : nat -> Z) (rand : nat -> Identity.draws).

(** The handler of a command.  [ping] and [topology] go on when their futures are
    ready ([ping_result], [topology_done]); [k] is the callback they register. *)
Definition perform (k : nat) (c : command) (x : app) : app * list (Udp.endpoint * bytes) * printed :=
  let run (f : M unit) := let '(_, x, out, _) := call f x in (x, out, Silent) in
  match c with
  | Connect host port => (Api.connect host port x, [], Silent)
  | Dm target msg => run (send_text uuid clock target msg)
  | Topology _ => run (Api.generate_topology_graph uuid clock k)
  | Ping peer => run (Api.ping uuid clock rand peer k)
  | GetNodes => (x, [], Nodes (get_nodes_in_network x))
  | Block b => (App (set_block_all_messages b (node x)) (rpc_connections x) (output_directory_ x), [], Silent)
  | Help => (x, [], Available)
  | BadConnect e => (x, [], ConnectUsage e)
  | UsageOf name => (x, [], Usage name)
  | Unknown => (x, [], UnknownCommand)
  end.
End perform.

(** ** Words of a line *)

Definition word (w : bytes) : Prop := w <> [] /\ Forall (fun c => is_space c = false) w.

Lemma tokens_word acc w rest :
  Forall (fun c => is_space c = false) w -> tokens acc (w ++ rest) = tokens (acc ++ w) rest.
Proof.
  intros H. revert acc. induction H as [|c w Hc _ IH]; intros acc; simpl; [by rewrite app_nil_r|].
  rewrite Hc, IH. by rewrite <-app_assoc.
Qed.

Lemma tokenize_words acc line :
  Forall (fun c => is_space c = false) acc -> Forall word (tokens acc line).
Proof.
  revert acc. induction line as [|c line IH]; intros acc Ha; simpl.
  - case_bool_decide; auto using Forall_nil. repeat constructor; auto.
  - destruct (is_space c) eqn:Hc.
    + case_bool_decide; [auto|]. constructor; [by split|auto].
    + apply IH. rewrite Forall_app. auto.
Qed.

(** The words of a line are its non-empty stretches without a space: [tokenize]
    gives only such words and gets back the words of a line put together. *)
Theorem tokenize_join ws : Forall word ws -> tokenize (join ws) = ws.
Proof.
  unfold tokenize. induction 1 as [|w ws [Hn Hw] Hws IH]; [done|].
  destruct ws as [|w' ws].
  - cbn [join]. rewrite <-(app_nil_r w) at 1. rewrite tokens_word by done. simpl. by case_bool_decide.
  - change (join (w :: w' :: ws)) with (w ++ x20 :: join (w' :: ws)).
    rewrite tokens_word by done. cbn [tokens]. change (is_space x20) with true. cbn iota.
    rewrite bool_decide_false by done. by rewrite IH.
Qed.

Theorem tokenize_only_words line : Forall word (tokenize line).
Proof. by apply tokenize_words. Qed.

(** A [dm] line sends the words after the peer, separated by single spaces. *)
Theorem dm_line target w ws :
  word target -> Forall word (w :: ws) ->
  read_commands [join ((lit "dm")%mesh :: target :: w :: ws)] = [Dm target (join (w :: ws))].
Proof.
  intros Ht Hw. unfold read_commands. rewrite tokenize_join; [done|].
  constructor; [split; [done|by repeat constructor]|by constructor].
Qed.

(** ** The configuration that is accepted *)

(** [encrypt-messages] turns encryption on whatever its value is. *)
Lemma encrypt_messages_any_value {y : Yaml} (config tls c k a e : ynode) cert key ca :
  yget config (lit "tls")%mesh = Some tls -> yget tls (lit "cert-path")%mesh = Some c ->
  yget tls (lit "key-path")%mesh = Some k -> yget tls (lit "ca-path")%mesh = Some a ->
  as_string c = Some cert -> as_string k = Some key -> as_string a = Some ca ->
  yget tls (lit "encrypt-messages")%mesh = Some e ->
  tls_options config = Ok (Some {| cert := cert; key := key; ca := ca |}, true).
Proof. unfold tls_options. by intros -> -> -> -> -> -> -> ->. Qed.

Lemma u8_cast_id z : (0 <= z < 256)%Z -> u8_cast z = Z.to_nat z.
Proof. intros H. unfold u8_cast. by rewrite Z.mod_small. Qed.

Definition fec_in_range (d r : Z) : Prop := (1 <= d <= 253 /\ 0 <= r <= 253 /\ d + r <= 254)%Z.

Lemma udp_fec_options_value {y : Yaml} (config fec : ynode) en d r :
  yget config (lit "udp-fec")%mesh = Some fec -> get_or as_bool true fec (lit "enabled")%mesh = Ok en ->
  get_or as_int 4%Z fec (lit "data-shards")%mesh = Ok d -> get_or as_int 0%Z fec (lit "roots")%mesh = Ok r ->
  (fec_in_range d r ->
   udp_fec_options config = Ok (Udp.FecOptions (en && negb (r =? 0)%Z) (Z.to_nat d) (Z.to_nat r))) /\
  (~ fec_in_range d r -> exists e, udp_fec_options config = Err e).
Proof.
  intros E1 E2 E3 E4. unfold udp_fec_options, fec_in_range. rewrite E1, E2, E3, E4. split; intros H.
  - do 3 (case_goal; [bool_to_prop; lia|]). rewrite !u8_cast_id by lia. f_equal. f_equal.
    destruct (Z.eqb_spec r 0) as [->|Hr]; [by rewrite andb_false_r|].
    destruct (Nat.eqb_spec (Z.to_nat r) 0); [lia|]. by rewrite andb_true_r.
  - repeat (case_goal; [by eexists|]). exfalso. apply H. bool_to_prop. lia.
Qed.

(** The accepted settings are those the codec can be built with, and they reach
    it unchanged. *)
Lemma accepted_builds (udp_bind : Z -> bool) opts peer_id udp_port ssl im encrypt now :
  (Udp.enabled opts = true -> Udp.params_ok (Udp.data_shards opts) (Udp.roots opts)) ->
  if udp_bind (u16 udp_port) then
    exists x, make_app udp_bind peer_id udp_port ssl im encrypt opts now = Some x /\
      let t := udp_transport_ (rpc_connections x) in
      (Udp.enabled opts = true -> Udp.fec_options_ t = opts /\
       forall e, exists c, (Udp.encoder_for e t).2 = Ok c /\ codec_ok c /\ send_ok c /\
         k_ c = Udp.data_shards opts /\ m_ c = Udp.roots opts)
  else make_app udp_bind peer_id udp_port ssl im encrypt opts now = None.
Proof.
  destruct opts as [en k m]. cbn [Udp.enabled Udp.data_shards Udp.roots]. intros Hp.
  unfold make_app, make_manager, Udp.make_transport. cbn [Udp.enabled Udp.data_shards Udp.roots].
  destruct (udp_bind (u16 udp_port)); cbn [negb]; [|done].
  destruct (m =? 0) eqn:Em; cbn [Udp.enabled andb]; [|destruct en; cbn [Udp.enabled andb Udp.data_shards Udp.roots]].
  - eexists. split; [done|]. intros ->. destruct (Hp eq_refl) as (_ & ? & _). bool_to_prop. lia.
  - specialize (Hp eq_refl). pose proof Hp as (? & ? & ?).
    do 2 (case_goal; [bool_to_prop; lia|]). eexists. split; [done|]. intros _. split; [done|].
    intros e. unfold Udp.encoder_for. simpl. rewrite Udp.codec_in_at by done. simpl.
    eexists. split; [done|].
    unfold Udp.codec_at. rewrite lookup_empty.
    split_and!; try done; eapply initial_codec_ok; by apply Udp.make_codec_params.
  - by eexists.
Qed.

(** (C40) The checks of the configuration are exact.  The forward error correction
    settings of a configuration are accepted if and only if they are within the
    documented ranges, and the accepted numbers are not changed by the conversion
    to bytes.  With accepted settings the constructor of the node throws if and
    only if the UDP socket cannot be bound to the low 16 bits of the port: the
    settings themselves never make it throw; and if the correction is on, the
    encoder for any endpoint is then created with exactly these numbers, without
    an exception. *)
Theorem accepted_config_builds {y : Yaml} (config fec : ynode) (en : bool) (d r : Z)
    (udp_bind : Z -> bool) (peer_id : bytes) (udp_port : Z) (ssl : bool) (im : IdentityManager) (encrypt : bool)
    (now : Z) :
  yget config (lit "udp-fec")%mesh = Some fec -> get_or as_bool true fec (lit "enabled")%mesh = Ok en ->
  get_or as_int 4%Z fec (lit "data-shards")%mesh = Ok d -> get_or as_int 0%Z fec (lit "roots")%mesh = Ok r ->
  ((exists opts, udp_fec_options config = Ok opts) <-> fec_in_range d r) /\
  forall opts, udp_fec_options config = Ok opts ->
    if udp_bind (u16 udp_port) then
      exists x, make_app udp_bind peer_id udp_port ssl im encrypt opts now = Some x /\
        Udp.enabled opts = (en && negb (r =? 0)%Z) /\
        (Udp.enabled opts = true -> forall e, exists c,
           (Udp.encoder_for e (udp_transport_ (rpc_connections x))).2 = Ok c /\ codec_ok c /\ send_ok c /\
           Z.of_nat (k_ c) = d /\ Z.of_nat (m_ c) = r)
    else make_app udp_bind peer_id udp_port ssl im encrypt opts now = None.
Proof.
  intros E1 E2 E3 E4. destruct (udp_fec_options_value config fec en d r E1 E2 E3 E4) as [Hin Hout].
  assert (Hdec : fec_in_range d r \/ ~ fec_in_range d r) by (unfold fec_in_range; lia).
  destruct Hdec as [H|H].
  - rewrite (Hin H). split; [split; [done|by eexists]|]. intros _ [= <-].
    pose proof (accepted_builds udp_bind (Udp.FecOptions (en && negb (r =? 0)%Z) (Z.to_nat d) (Z.to_nat r))
      peer_id udp_port ssl im encrypt now) as Hb.
    destruct (udp_bind (u16 udp_port)); [destruct Hb as (x & Hx & Hc)|apply Hb];
      try (simpl; intros [_ Hr%negb_true_iff%Z.eqb_neq]%andb_true_iff; unfold fec_in_range in H; unfold Udp.params_ok; lia).
    exists x. split; [done|]. split; [done|]. intros Hen. destruct (Hc Hen) as [_ Henc]. intros e.
    destruct (Henc e) as (c & Hc1 & Hc2 & Hc3 & Hk & Hm). exists c. simpl in Hk, Hm. rewrite Hk, Hm.
    unfold fec_in_range in H. split_and!; try done; lia.
  - destruct (Hout H) as [e ->]. split; [split; [by intros [??]|done]|]. done.
Qed.

(** *** A small document, to run the configuration on *)

Inductive doc := Scalar_int (z : Z) | Scalar_bool (b : bool) | Scalar_str (s : bytes) | Seq (l : list doc) | Members (l : list (bytes * doc)).

Fixpoint member (k : bytes) (l : list (bytes * doc)) : option doc :=
  match l with [] => None | (k', d) :: l => if bool_decide (k = k') then Some d else member k l end.

#[local] Instance doc_yaml : Yaml := {|
  ynode := doc;
  yget d k := match d with Members l => member k l | _ => None end;
  as_int d := match d with Scalar_int z => Some z | _ => None end;
  as_bool d := match d with Scalar_bool b => Some b | _ => None end;
  as_string d := match d with Scalar_str s => Some s | _ => None end;
  elements d := match d with Seq l => l | _ => [] end
|}.

Definition demo_fec : doc := Members [((lit "data-shards")%mesh, Scalar_int 10); ((lit "roots")%mesh, Scalar_int 4)].
Definition demo_config : doc := Members [((lit "udp-fec")%mesh, demo_fec)].

Lemma accepted_config_builds_witness :
  let bind := fun p => (p =? 5000)%Z in let opts := Udp.FecOptions true 10 4 in
  udp_fec_options (y := doc_yaml) demo_config = Ok opts /\
  (exists x, make_app bind (lit "a")%mesh 5000 false new_manager false opts 0 = Some x /\
    exists c, (Udp.encoder_for (Udp.Endpoint (lit "10.0.0.2")%mesh 5001) (udp_transport_ (rpc_connections x))).2 = Ok c /\
      k_ c = 10 /\ m_ c = 4) /\
  make_app bind (lit "a")%mesh 5001 false new_manager false opts 0 = None.
Proof.
  intros bind opts.
  assert (E : udp_fec_options (y := doc_yaml) demo_config = Ok opts) by (vm_compute; reflexivity).
  split; [exact E|]. split.
  - destruct (accepted_config_builds (y := doc_yaml) demo_config demo_fec true 10 4 bind (lit "a")%mesh 5000 false new_manager
      false 0) as [_ H]; [vm_compute; reflexivity..|].
    destruct (H _ E) as (x & Hx & _ & Hc). exists x. split; [exact Hx|].
    destruct (Hc eq_refl (Udp.Endpoint (lit "10.0.0.2")%mesh 5001)) as (c & Hc1 & _ & _ & Hk & Hm).
    exists c. split; [exact Hc1|]. lia.
  - destruct (accepted_config_builds (y := doc_yaml) demo_config demo_fec true 10 4 bind (lit "a")%mesh 5001 false new_manager
      false 0) as [_ H]; [vm_compute; reflexivity..|]. exact (H _ E).
Defined.
End Main.
